(* ===== verification/_CoqProject ===== *)
-Q . S2P
Prelude.v
Queue.v
SpscConc.v
MpscConc.v
Disruptor.v
HashMap.v
HashMapProofs.v
CTypes.v
Pipeline.v
Journal.v
JournalClose.v
GwRing.v
GwParse.v
GwParseProofs.v
Price.v
Gateway.v
GatewayFrames.v
GatewayOps.v
GatewayThread.v
Session.v
Client.v
FreeList.v
Slab.v
LfPool.v
LfPoolConc.v
MemoryPool.v
Hugepage.v
Tier.v
Config.v
Lifecycle.v
Resources.v
JournalWriters.v
Platform.v
PlatformSafe.v
Logger.v
LoggerConc.v
Timer.v
Shmem.v
Benchmark.v
Layout.v
Structs.v
Templates.v
DisruptorConc.v
Calibration.v
Numa.v
