(* ===== verification/Prelude.v ===== *)
(** * Aspira Broker: a verification of the trading platform

    The repository is a trading platform in C. A gateway thread accepts TCP
    clients, frames and parses their orders and pushes them to an order gate;
    from there orders flow through order management, risk checks, a sequencer
    and the matching shards, whose ticks reach the market data thread and
    whose events reach clearing. Every arrow is a bounded ring queue between
    two threads. A journal thread appends the entries to a file. Around this
    pipeline there are allocators, timers, a logger, shared-memory segments,
    the placement of threads and memory, the configuration, a benchmark and
    [main], which starts and stops everything.

    The repository's ignore file excludes every path named [core], so
    the [.c] files of the order gate, the OMS, the risk engine, the sequencer,
    the matching engine with its order book, the event bus, clearing,
    recovery, the shard launcher and the scheduler are not in it; their
    headers are. Everything else is modelled here.

    ** How code becomes definitions

    Integers are [Z]; where C reduces them the definition says so ([u64],
    [u32], [i32] below). Arrays are lists, read with [l.[i]] and written with
    [l.[i <- x]]; an access the source makes out of range is a distinguished
    result of the definition or is excluded by a proved invariant. Addresses
    are integers, NULL is 0, and pointers stored inside free blocks are a
    finite map. Doubles are exact fractions rounded to 53 bits. What the
    kernel, the C library's allocator, the clocks and libnuma answer is an
    argument of the definition that calls them, so a theorem holds for every
    answer it does not exclude. Whole calls are functions on the state; where
    threads share words without a lock the calls are split at these accesses
    and the executions are a step relation.

    ** Files

    Shared: [Prelude] (integers, lists, tactics).

    Queues. [Queue]: the macros of [include/bt_lockfree_queue.h] as sequential
    operations, the contract [BoundedQueue] the other components are proved
    against, and its refinement by SPSC and MPSC queues. [SpscConc] and
    [MpscConc]: the same macros access by access; the SPSC queue with stale
    loads, the MPSC queue with any number of producers. [Disruptor]: the C
    part of [include/bt_disruptor.h]. [Pipeline]: [include/bt_queues.h], the
    capacities of [include/bt_config.h] and [md/market_data.c].

    Data. [CTypes]: the messages of [include/bt_types.h] with the byte images
    the program copies. [Price]: the fixed-point conversions. [Layout] and
    [Structs]: the ABI's layout as a function of a type, and the structs of
    all headers and [.c] files as its arguments. [HashMap] and
    [HashMapProofs]: [include/bt_hashmap.h].

    Persistence. [Journal]: [persistence/journal.c]. [JournalClose]: the wait of
    its close for the worker. [JournalWriters]: its ring with every writer that
    [main] gives it, access by access.

    Gateway ([net/gateway.c]). [GwRing]: the byte rings. [GwParse] and
    [GwParseProofs]: the parsers with [strtod] and friends. [Gateway]: the
    connection, admission, framing, responses, accept, the thread's rounds,
    creation and shutdown. [GatewayFrames]: framing against a parser of byte
    lists. [GatewayOps]: admission and responses. [GatewayThread]: the context
    invariant over rounds. [Session]: all of it composed, from the bytes in a
    socket to the messages in the queue. [Client]: the client of
    [test/test_trading.c], composed with the gateway.

    Memory. [FreeList]: memory with embedded pointers and the contract
    [FreeStack]. [Slab], [LfPool], [MemoryPool], [Hugepage], [Tier]:
    [utils/slab_allocator.c], [include/bt_lockfree_pool.h],
    [utils/memory_pool.c], [utils/hugepage.c], [utils/memory_tier.c].
    [LfPoolConc]: the lock-free pool with any number of threads. [Numa]:
    [utils/numa.c] and [utils/cpu_affinity.c]. [Templates]: the C++ classes of
    the queue, disruptor, slab, pool and huge-page headers; [DisruptorConc]:
    the producers of the disruptor class, interleaved. [Shmem]: [ipc/shmem.c].

    Run time. [Config] and [Lifecycle]: [include/bt_config.h] and [main.c].
    [Resources]: which component of [main.c] holds which queue and object, and
    the replay of its trace against their lifetimes. [Platform] and
    [PlatformSafe]: the calls of [main] composed with the journal, the gateway,
    the memory pool and the gateway's queues, whose threads move in between.
    [Logger] and [LoggerConc]: [utils/logger.c] with whole calls, and with calls
    interleaved down to the bytes of a slot. [Timer] and [Calibration]:
    [utils/timer.c] and [include/bt_timer.h]. [Benchmark]: [bench/benchmark.c].

    ** What the theorems show

    - End to end: the orders a client sends over a session, cut into reads of
      any size, are in the OMS queue, in order and with their fields
      ([Session.session_reaches_queue]). The repository's own client never
      authenticates, loses all its orders and reports success
      ([Client.test_client_locked_out]); [Client.client_orders_reach_queue] is
      what its messages would become behind a key.
    - The platform, with 1, 2 or 4 matching threads and when every start gets
      its thread: at every moment of an execution of [main] with its objects
      nobody reaches one of them outside its lifetime, each keeps its own
      invariant, the journal's file keeps what it held and gets images of
      entries behind it, and every shard has an arena of its own
      ([PlatformSafe.platform_safe]); [main] always gets on, its waits for
      threads included, unless the journal's worker overran its buffer
      ([PlatformSafe.platform_progress]), and leaves the journal closed and
      nothing running ([PlatformSafe.platform_returns]). That every accepted
      entry reaches the file is not among it: the platform's writers overlap.
      What follows when a thread does not come to be, and when a component is
      missing, is in [Resources] ([failed_start_is_joined], [missing_taker]).
    - Queues: single-threaded use refines a list of at most capacity - 1
      elements; two interleaved threads keep the SPSC queue a race-free FIFO;
      the MPSC queue is one in executions without a stale claim or an early
      read, and concrete executions show what happens with them.
    - Disruptor: any number of producers get different sequence numbers and
      consumers read only finished items, as long as no producer is overtaken
      by a whole lap; a schedule shows what a lap does.
    - Hash map: refines a finite map for clients that insert absent keys, where
      only refused memory makes a put fail, and its mutual recursion ends; a
      key behind a tombstone is inserted twice.
    - Journal, for appends that do not overlap and a worker that has not overrun
      its buffer: no interleaving loses, repeats or reorders an accepted entry
      between ring, buffer and file, and a file of whole records reads back. A
      flush ends; the close waits for at most 68 steps of the worker; the
      failure of every [write] leads past the end of the buffer. The appends of
      the platform may overlap: they stay in the ring, and lose entries
      ([JournalWriters]).
    - Gateway: framing refines the list parser and does not depend on how the
      stream was cut; nothing is pushed before authentication; the rate limit
      (twice the documented one where two windows meet) and the idempotency
      ring bound what is admitted; responses go out whole
      and in order; the connection table keeps its invariant in every round;
      printing an order and parsing it are inverse, for text and binary.
    - Memory: live blocks are disjoint and inside their region for each
      allocator (an arena's for sizes from 1 to 2^63 - 1, and
      [MemoryPool.arena_alloc_wraps] shows what another one does), and for the
      lock-free pool with any number of threads as long as no stale next pointer
      is installed; regions of the placement layer are unmapped exactly as they
      were mapped; shared-memory calls leave nothing behind on failure.
    - Layout (a check of the models rather than of the code): the ABI's layout
      of every struct has its members in bounds, aligned and disjoint, and the
      byte images agree with it; queue indices do not share a cache line.
    - Run time: start-up is downstream first and shutdown upstream first, the
      journal closed before anything is freed; no pool, journal, bus, risk state
      or queue is used outside its lifetime or released under a running thread;
      other thread counts than 1, 2 and 4 are refused, or overrun the arrays of
      [main] ([Lifecycle.matching_thread_counts]); the log keeps the latest
      lines in sequence, and with any number of threads stays in its ring and
      its slots and its flushes apart, though a line may be torn; the latency
      accumulator is exact; the calibration error is bounded by the readings;
      prices survive the conversion through [double]; the benchmark accounts
      for each order.

    Where the code does not do what its comments promise the theorem states
    what it does.

    ** Fuel and bounds

    Loops over a list recurse on it. The other loops take fuel and a theorem
    or lemma shows how much is enough: the framing loop ends within the number
    of readable bytes, since each message consumes at least its four-byte
    prefix; the flush loop within the outcomes [write] is given; the probe
    loops of the hash map within the capacity; the worker of a closing journal
    within a batch of 64 entries and four more steps; the put and resize of a
    map nest at most twice on a well-formed table
    ([HashMapProofs.put_depth_enough]); decimal printing within twenty digits,
    or as many as the number has bits; a stop of [main] once its thread,
    asked, has returned; compare-and-swap loops take the list of their
    spurious failures. Interleavings are not bounded: they are induction on
    the step relation. Queue capacities are any power of two from 2 to
    2^63; the configured ones are among them ([Pipeline.capacity_assertions]).

    ** Not modelled

    - The components without source named above: [main] calls them, so
      [Lifecycle] has the calls as actions, [Platform] lets them change the ring
      of the journal they hold as overlapping appends can and fill the gateway's
      queues, and takes it that their threads return once their stop was called,
      and [Structs] has the layout of the structs their headers declare. What their operations do is
      not in the repository, so nothing more can be said of them.
    - Console output, banners, socket options, scheduling priorities and
      sleeps: they do not change the state the theorems are about.
    - The statistics the health report reads. The readings of the time stamp
      counter are arguments, so its fenced variants are not distinguished.
    - Calls of [main] are whole steps of [Platform], but for the waits in the
      close of the journal and in the stops; so are the rounds of the gateway's
      thread.
    - Appends are whole calls in [Journal]; [JournalWriters] splits them, and
      [Platform] leaves open what they do to the ring.
    - Weak memory beyond stale loads of the SPSC indices: the MPSC queue, the
      disruptor, the pool and the logger are interleaved with sequentially
      consistent accesses.
    - The non-Linux branches, the debug-only tier check and
      the compiler probe that CMake generated. *)

From Stdlib Require Export ZArith Lia.
From stdpp Require Export numbers gmap prelude.
From stdpp Require Export list_basics list.

#[global] Open Scope Z_scope.

(** ** Machine integers

    A C unsigned integer of width [w] is a [Z] in [0, 2^w); the arithmetic of
    the source is followed by the reduction the C standard prescribes. *)

Definition u8 (x : Z) : Z := x mod 2 ^ 8.
Definition u32 (x : Z) : Z := x mod 2 ^ 32.
Definition u64 (x : Z) : Z := x mod 2 ^ 64.

(** Conversion to a signed 32-bit [int] (two's complement, as gcc defines it). *)
Definition i32 (x : Z) : Z := (x + 2 ^ 31) mod 2 ^ 32 - 2 ^ 31.

Definition is_u64 (x : Z) : Prop := 0 <= x < 2 ^ 64.

(** [~x] at type [size_t]. *)
Definition not64 (x : Z) : Z := u64 (Z.lnot x).

Lemma u64_small x : is_u64 x -> u64 x = x.
Proof. intros H. by apply Z.mod_small. Qed.

Lemma u32_small x : 0 <= x < 2 ^ 32 -> u32 x = x.
Proof. intros H. by apply Z.mod_small. Qed.

Lemma u64_range x : is_u64 (u64 x).
Proof. by apply Z.mod_pos_bound. Qed.

Lemma u64_idemp x : u64 (u64 x) = u64 x.
Proof. apply u64_small, u64_range. Qed.

Lemma pow2_pos k : 0 <= k -> 0 < 2 ^ k.
Proof. intros. by apply Z.pow_pos_nonneg. Qed.

Lemma pow2_le_64 k : 0 <= k <= 64 -> 1 <= 2 ^ k <= 2 ^ 64.
Proof.
  intros [Hl Hu]. split.
  - change 1 with (2 ^ 0). by apply Z.pow_le_mono_r.
  - by apply Z.pow_le_mono_r.
Qed.

Lemma land_mask k x : 0 <= k -> Z.land x (2 ^ k - 1) = x mod 2 ^ k.
Proof.
  intros Hk. replace (2 ^ k - 1) with (Z.ones k).
  - by apply Z.land_ones.
  - rewrite Z.ones_equiv. lia.
Qed.

Lemma mod_pow2_pow2 x j k : 0 <= j <= k -> (x mod 2 ^ k) mod 2 ^ j = x mod 2 ^ j.
Proof.
  intros Hjk. apply Z.mod_mod_divide.
  exists (2 ^ (k - j)). rewrite <- Z.pow_add_r by lia. f_equal. lia.
Qed.

(** ** Rounding up to a power of two

    The idiom [(n + a - 1) & ~(size_t)(a - 1)] of the allocators. *)

Definition align_up (a n : Z) : Z := Z.land (u64 (n + a - 1)) (not64 (a - 1)).

(** Clearing the low [k] bits of a 64-bit value. *)
Lemma land_not64_pow2 k x :
  0 <= k <= 64 -> is_u64 x -> Z.land x (not64 (2 ^ k - 1)) = x - x mod 2 ^ k.
Proof.
  intros Hk Hx. unfold not64, u64.
  rewrite <- Z.land_ones by lia.
  rewrite (Z.land_comm (Z.lnot _)), Z.land_assoc.
  replace (Z.land x (Z.ones 64)) with x.
  2:{ rewrite Z.land_ones by lia. symmetry. by apply Z.mod_small. }
  replace (2 ^ k - 1) with (Z.ones k) by (rewrite Z.ones_equiv; lia).
  rewrite <- Z.ldiff_land, Z.ldiff_ones_r by lia.
  rewrite Z.shiftl_mul_pow2, Z.shiftr_div_pow2 by lia.
  pose proof (Z.div_mod x (2 ^ k)). pose proof (pow2_pos k). lia.
Qed.

Lemma align_up_spec k n :
  0 <= k <= 63 -> 0 <= n -> n + 2 ^ k - 1 < 2 ^ 64 ->
  exists q, align_up (2 ^ k) n = q * 2 ^ k /\ n <= q * 2 ^ k < n + 2 ^ k.
Proof.
  intros Hk Hn Hov. pose proof (pow2_pos k ltac:(lia)) as Hp.
  unfold align_up. rewrite u64_small by (unfold is_u64; lia).
  rewrite land_not64_pow2 by (unfold is_u64; lia).
  exists ((n + 2 ^ k - 1) / 2 ^ k).
  pose proof (Z.div_mod (n + 2 ^ k - 1) (2 ^ k)).
  pose proof (Z.mod_pos_bound (n + 2 ^ k - 1) (2 ^ k)). lia.
Qed.

(** ** Arrays indexed by machine integers *)

Definition zlen {A} (l : list A) : Z := Z.of_nat (length l).

Definition arr_get {A} `{!Inhabited A} (a : list A) (i : Z) : A := a !!! Z.to_nat i.
Definition arr_set {A} (a : list A) (i : Z) (x : A) : list A := <[Z.to_nat i := x]> a.

Declare Scope broker_scope.
Delimit Scope broker_scope with broker.
Notation "a .[ i ]" := (arr_get a i)
  (at level 1, left associativity, format "a .[ i ]") : broker_scope.
Notation "a .[ i <- x ]" := (arr_set a i x)
  (at level 1, left associativity, format "a .[ i  <-  x ]") : broker_scope.
#[global] Open Scope broker_scope.

Section arrays.
Context {A : Type}.
Implicit Types (a : list A) (x : A) (i j : Z).

Lemma zlen_nonneg a : 0 <= zlen a.
Proof. unfold zlen. lia. Qed.

Lemma zlen_app a b : zlen (a ++ b) = zlen a + zlen b.
Proof. unfold zlen. rewrite length_app. lia. Qed.

Lemma zlen_fmap {B} (f : A -> B) a : zlen (f <$> a) = zlen a.
Proof. unfold zlen. by rewrite length_fmap. Qed.

Lemma zlen_cons x a : zlen (x :: a) = 1 + zlen a.
Proof. unfold zlen. simpl. lia. Qed.

Lemma zlen_arr_set a i x : zlen (a.[i <- x]) = zlen a.
Proof. unfold zlen, arr_set. by rewrite length_insert. Qed.

Context `{!Inhabited A}.

Lemma arr_get_set_eq a i x : 0 <= i < zlen a -> (a.[i <- x]).[i] = x.
Proof.
  unfold zlen, arr_set, arr_get. intros Hi. apply list_lookup_total_insert_eq. lia.
Qed.

Lemma arr_get_set_ne a i j x :
  0 <= i -> 0 <= j -> i <> j -> (a.[i <- x]).[j] = a.[j].
Proof.
  unfold arr_set, arr_get. intros Hi Hj Hij.
  apply list_lookup_total_insert_ne. lia.
Qed.

Lemma arr_lookup a i : 0 <= i < zlen a -> a !! Z.to_nat i = Some (a.[i]).
Proof.
  unfold zlen, arr_get. intros Hi. apply list_lookup_lookup_total_lt. lia.
Qed.

End arrays.

Create HintDb broker.
Create Rewrite HintDb broker.
#[export] Hint Resolve u64_range zlen_nonneg pow2_pos : broker.
#[export] Hint Rewrite @zlen_arr_set @zlen_app @zlen_cons @length_app @length_insert
  @length_replicate : broker.

(** ** Ring buffers

    The queues, the gateway's byte rings, the logger and the journal all keep
    a window of consecutive slots of an array, addressed modulo its capacity.
    [ring_slice buf c h n] is the list the window starting at the absolute
    position [h] with [n] elements denotes. *)

Fixpoint ring_slice {A} `{!Inhabited A} (buf : list A) (c h : Z) (n : nat) : list A :=
  match n with
  | O => []
  | S n => buf.[h mod c] :: ring_slice buf c (h + 1) n
  end.

(** Two positions less than one capacity apart use the same slot only when
    they are equal. *)
Lemma mod_window c a b :
  0 < c -> 0 <= a - b < c -> a mod c = b mod c -> a = b.
Proof.
  intros Hc Hab Heq.
  pose proof (Z.div_mod a c). pose proof (Z.div_mod b c).
  assert (a - b = c * (a / c - b / c)) as Hd by lia.
  assert (a / c - b / c = 0) by nia. lia.
Qed.

Section ring.
Context {A : Type} `{!Inhabited A}.
Implicit Types (buf : list A) (c h : Z) (n : nat) (x : A).

Lemma length_ring_slice buf c h n : length (ring_slice buf c h n) = n.
Proof. revert h. induction n as [|n IH]; intros h; simpl; [done | by rewrite IH]. Qed.

Lemma ring_slice_snoc buf c h n :
  ring_slice buf c h (S n) = ring_slice buf c h n ++ [buf.[(h + Z.of_nat n) mod c]].
Proof.
  revert h. induction n as [|n IH]; intros h.
  - simpl. by rewrite Z.add_0_r.
  - change (ring_slice buf c h (S (S n)))
      with (buf.[h mod c] :: ring_slice buf c (h + 1) (S n)).
    rewrite IH. replace (h + 1 + Z.of_nat n) with (h + Z.of_nat (S n)) by lia. done.
Qed.

Lemma ring_slice_app buf c h n m :
  ring_slice buf c h (n + m) = ring_slice buf c h n ++ ring_slice buf c (h + Z.of_nat n) m.
Proof.
  revert h. induction n as [|n IH]; intros h; simpl.
  - by rewrite Z.add_0_r.
  - rewrite IH. replace (h + 1 + Z.of_nat n) with (h + Z.of_nat (S n)) by lia. done.
Qed.

Lemma ring_slice_shift buf c h h' n :
  h mod c = h' mod c -> ring_slice buf c h n = ring_slice buf c h' n.
Proof.
  revert h h'. induction n as [|n IH]; intros h h' Heq; simpl; [done|].
  rewrite Heq. f_equal. apply IH.
  by rewrite (Zplus_mod h), (Zplus_mod h'), Heq.
Qed.

Lemma ring_slice_mod buf c h n : ring_slice buf c (h mod c) n = ring_slice buf c h n.
Proof. apply ring_slice_shift. apply Zmod_mod. Qed.

(** Writing a slot outside the window leaves the window as it was. *)
Lemma ring_slice_set_outside buf c h n j x :
  0 < c -> h + Z.of_nat n <= j < h + c ->
  ring_slice (buf.[j mod c <- x]) c h n = ring_slice buf c h n.
Proof.
  intros Hc. revert h. induction n as [|n IH]; intros h Hj; simpl; [done|].
  rewrite IH by lia. f_equal.
  apply arr_get_set_ne; try (apply Z.mod_pos_bound; lia).
  intros Heq. apply mod_window in Heq; lia.
Qed.

(** Writing the slot after the window extends it. *)
Lemma ring_slice_push buf c h n x :
  0 < c -> zlen buf = c -> Z.of_nat n < c ->
  ring_slice (buf.[(h + Z.of_nat n) mod c <- x]) c h (S n) = ring_slice buf c h n ++ [x].
Proof.
  intros Hc Hlen Hn. rewrite ring_slice_snoc, ring_slice_set_outside by lia.
  rewrite arr_get_set_eq; [done|]. rewrite Hlen. by apply Z.mod_pos_bound.
Qed.

Lemma ring_slice_lookup buf c h n i :
  (i < n)%nat -> ring_slice buf c h n !! i = Some (buf.[(h + Z.of_nat i) mod c]).
Proof.
  revert h i. induction n as [|n IH]; intros h i Hi; [lia|].
  destruct i as [|i]; simpl; [by rewrite Z.add_0_r|].
  rewrite IH by lia. by replace (h + 1 + Z.of_nat i) with (h + Z.of_nat (S i)) by lia.
Qed.

(** Two arrays that agree on the slots of a window denote the same list. *)
Lemma ring_slice_ext buf buf' c h n :
  (forall i, 0 <= i < Z.of_nat n -> buf.[(h + i) mod c] = buf'.[(h + i) mod c]) ->
  ring_slice buf c h n = ring_slice buf' c h n.
Proof.
  revert h. induction n as [|n IH]; intros h Hext; simpl; [done|].
  f_equal.
  - specialize (Hext 0 ltac:(lia)). by rewrite Z.add_0_r in Hext.
  - apply IH. intros i Hi.
    replace (h + 1 + i) with (h + (i + 1)) by lia. apply Hext. lia.
Qed.

End ring.

#[export] Hint Rewrite @length_ring_slice : broker.

(** Normalise lengths and close the arithmetic that is left. *)
Ltac blia := autorewrite with broker in *; unfold is_u64 in *; simpl in *; lia.

(** Split the boolean tests of the source into their two cases. *)
Ltac case_bool :=
  repeat match goal with
  | |- context [if ?b then _ else _] => let E := fresh "E" in destruct b eqn:E
  end.
