(* ===== verification/Queue.v ===== *)
(** * The SPSC and MPSC ring queues as sequential objects

    Models the queue macros of [src/src/include/bt_lockfree_queue.h]: the
    struct the two [_QUEUE_DEF] macros declare, the initialisation, and the
    push and pop statement expressions when no other thread runs between
    their accesses. The class [BoundedQueue] is the contract the other
    components use; both queues discharge it. The interleaved executions are
    in [SpscConc] and [MpscConc]. *)

From S2P Require Import Prelude.

(** ** The struct

    [BT_SPSC_QUEUE_DEF] and [BT_MPSC_QUEUE_DEF] declare the same fields. *)
Record queue (A : Type) := Queue {
  q_head : Z;
  q_tail : Z;
  q_buffer : list A;
  q_mask : Z;
}.
Arguments Queue {A} _ _ _ _.
Arguments q_head {A} _.
Arguments q_tail {A} _.
Arguments q_buffer {A} _.
Arguments q_mask {A} _.

(** The advance [(i + 1) & mask] at type [size_t]. *)
Definition q_next (mask i : Z) : Z := Z.land (u64 (i + 1)) mask.

(** [BT_SPSC_QUEUE_INIT] / [BT_MPSC_QUEUE_INIT]: the indices are reset and the
    mask is the element count of the buffer minus one. The elements keep
    whatever the storage held. *)
Definition QUEUE_INIT {A} (buf : list A) : queue A :=
  Queue 0 0 buf (u64 (zlen buf - 1)).

(** [BT_SPSC_QUEUE_CAP] / [BT_MPSC_QUEUE_CAP]. *)
Definition QUEUE_CAP {A} (q : queue A) : Z := u64 (q_mask q + 1).

Definition SPSC_PUSH {A} (item : A) (q : queue A) : bool * queue A :=
  let h := q_head q in
  let t := q_tail q in
  let next := q_next (q_mask q) t in
  if negb (next =? h)
  then (true, Queue (q_head q) next (q_buffer q).[t <- item] (q_mask q))
  else (false, q).

Definition SPSC_POP {A} `{!Inhabited A} (q : queue A) : option A * queue A :=
  let h := q_head q in
  let t := q_tail q in
  if negb (h =? t)
  then (Some (q_buffer q).[h],
        Queue (q_next (q_mask q) h) (q_tail q) (q_buffer q) (q_mask q))
  else (None, q).

(** One round of the CAS loop of [BT_MPSC_PUSH]: [None] when the weak
    compare-and-swap fails, else the value returned and the queue. With no
    other thread between the load and the CAS, the CAS fails only spuriously. *)
Definition mpsc_push_round {A} (item : A) (q : queue A) (spurious : bool)
  : option (bool * queue A) :=
  let t := q_tail q in
  let next := q_next (q_mask q) t in
  if next =? q_head q then Some (false, q)
  else if spurious then None
  else Some (true, Queue (q_head q) next (q_buffer q).[t <- item] (q_mask q)).

(** [BT_MPSC_PUSH]: the loop, on a finite list of spurious failures followed
    by a round whose CAS does not fail. *)
Fixpoint MPSC_PUSH_retry {A} (spurious : list bool) (item : A) (q : queue A)
  : bool * queue A :=
  match spurious with
  | [] => default (false, q) (mpsc_push_round item q false)
  | s :: rest =>
      match mpsc_push_round item q s with
      | Some r => r
      | None => MPSC_PUSH_retry rest item q
      end
  end.
Definition MPSC_PUSH {A} (item : A) (q : queue A) : bool * queue A :=
  MPSC_PUSH_retry [] item q.

Definition MPSC_POP {A} `{!Inhabited A} (q : queue A) : option A * queue A :=
  let h := q_head q in
  let t := q_tail q in
  if negb (h =? t)
  then (Some (q_buffer q).[h],
        Queue (q_next (q_mask q) h) (q_tail q) (q_buffer q) (q_mask q))
  else (None, q).

(** ** Well-formedness and the abstract contents *)

(** Every capacity of the program is a power of two, which
    [bt_config.h] asserts at compile time. *)
Definition queue_wf {A} (q : queue A) : Prop :=
  exists k, 1 <= k < 64 /\ q_mask q = 2 ^ k - 1 /\ zlen (q_buffer q) = 2 ^ k /\
    0 <= q_head q < 2 ^ k /\ 0 <= q_tail q < 2 ^ k.

Definition queue_len {A} (q : queue A) : nat :=
  Z.to_nat ((q_tail q - q_head q) mod (q_mask q + 1)).

Definition contents {A} `{!Inhabited A} (q : queue A) : list A :=
  ring_slice (q_buffer q) (q_mask q + 1) (q_head q) (queue_len q).

Lemma q_next_pow2 k i :
  0 <= k <= 64 -> q_next (2 ^ k - 1) i = (i + 1) mod 2 ^ k.
Proof.
  intros Hk. unfold q_next, u64. rewrite land_mask by lia.
  by rewrite mod_pow2_pow2 by lia.
Qed.

Section laws.
Context {A : Type} `{!Inhabited A}.
Implicit Types (q : queue A) (x : A).

Lemma queue_init_wf (buf : list A) k :
  1 <= k < 64 -> zlen buf = 2 ^ k -> queue_wf (QUEUE_INIT buf).
Proof.
  intros Hk Hlen. exists k. pose proof (pow2_le_64 k ltac:(lia)).
  unfold QUEUE_INIT; simpl. rewrite Hlen, u64_small by (unfold is_u64; lia).
  split_and!; lia.
Qed.

Lemma queue_init_contents (buf : list A) : contents (QUEUE_INIT buf) = [].
Proof. done. Qed.

Lemma queue_len_bound q : queue_wf q -> Z.of_nat (queue_len q) <= q_mask q.
Proof.
  intros (k & Hk & Hm & _). unfold queue_len. rewrite Hm.
  pose proof (pow2_pos k ltac:(lia)).
  pose proof (Z.mod_pos_bound (q_tail q - q_head q) (2 ^ k - 1 + 1)). lia.
Qed.

Lemma length_contents q : length (contents q) = queue_len q.
Proof. apply length_ring_slice. Qed.

(** The tail is the head advanced by the number of elements. *)
Lemma queue_tail_eq q k :
  q_mask q = 2 ^ k - 1 -> 0 < 2 ^ k -> 0 <= q_tail q < 2 ^ k ->
  (q_head q + Z.of_nat (queue_len q)) mod 2 ^ k = q_tail q.
Proof.
  intros Hm Hp Ht. unfold queue_len. rewrite Hm, Z.sub_add.
  rewrite Z2Nat.id by (apply Z.mod_pos_bound; lia).
  rewrite Zplus_mod_idemp_r.
  replace (q_head q + (q_tail q - q_head q)) with (q_tail q) by lia.
  by apply Z.mod_small.
Qed.

(** The test [next == head] of the push macros holds exactly when the queue
    holds [mask] elements. *)
Lemma queue_full_test q :
  queue_wf q ->
  q_next (q_mask q) (q_tail q) = q_head q <-> Z.of_nat (queue_len q) = q_mask q.
Proof.
  intros Hwf. pose proof (queue_len_bound q Hwf) as Hb.
  destruct Hwf as (k & Hk & Hm & Hlen & Hh & Ht).
  pose proof (pow2_pos k ltac:(lia)) as Hp.
  rewrite Hm, q_next_pow2 by lia.
  rewrite <- (queue_tail_eq q k Hm Hp Ht) at 1.
  rewrite Zplus_mod_idemp_l. split.
  - intros Heq. destruct (decide (Z.of_nat (queue_len q) = 2 ^ k - 1)); [done|].
    exfalso. cut (q_head q + Z.of_nat (queue_len q) + 1 = q_head q); [lia|].
    apply (mod_window (2 ^ k)); [lia|lia|].
    by rewrite Heq, Z.mod_small.
  - intros ->. replace (q_head q + (2 ^ k - 1) + 1) with (q_head q + 1 * 2 ^ k) by lia.
    by rewrite Z.mod_add, Z.mod_small by lia.
Qed.

Lemma queue_empty_test q :
  queue_wf q -> q_head q = q_tail q <-> queue_len q = O.
Proof.
  intros (k & Hk & Hm & Hlen & Hh & Ht). pose proof (pow2_pos k ltac:(lia)) as Hp.
  split.
  - intros Heq. unfold queue_len. by rewrite Heq, Z.sub_diag.
  - intros H0. pose proof (queue_tail_eq q k Hm Hp Ht) as Htl.
    rewrite H0, Z.add_0_r in Htl. by rewrite Z.mod_small in Htl.
Qed.

(** Advancing the tail adds one element, advancing the head removes one. *)
Lemma queue_len_step h t k n :
  0 < 2 ^ k -> n = Z.to_nat ((t - h) mod 2 ^ k) -> Z.of_nat n + 1 < 2 ^ k ->
  Z.to_nat (((t + 1) mod 2 ^ k - h) mod 2 ^ k) = S n.
Proof.
  intros Hp -> Hn. rewrite Zminus_mod_idemp_l.
  replace (t + 1 - h) with (t - h + 1) by lia.
  pose proof (Z.mod_pos_bound (t - h) (2 ^ k) Hp).
  rewrite <- Zplus_mod_idemp_l, Z.mod_small by lia. lia.
Qed.

Lemma queue_len_pop h t k n :
  0 < 2 ^ k -> S n = Z.to_nat ((t - h) mod 2 ^ k) ->
  Z.to_nat ((t - (h + 1) mod 2 ^ k) mod 2 ^ k) = n.
Proof.
  intros Hp Hn. rewrite Zminus_mod_idemp_r.
  replace (t - (h + 1)) with (t - h - 1) by lia.
  pose proof (Z.mod_pos_bound (t - h) (2 ^ k) Hp).
  rewrite <- Zminus_mod_idemp_l, Z.mod_small by lia. lia.
Qed.

Lemma spsc_push_ok q x :
  queue_wf q -> Z.of_nat (queue_len q) < q_mask q ->
  exists q', SPSC_PUSH x q = (true, q') /\ queue_wf q' /\
    contents q' = contents q ++ [x] /\ q_mask q' = q_mask q.
Proof.
  intros Hwf Hroom. pose proof (queue_full_test q Hwf) as Hfull.
  destruct Hwf as (k & Hk & Hm & Hlen & Hh & Ht).
  pose proof (pow2_pos k ltac:(lia)) as Hp.
  unfold SPSC_PUSH. destruct (Z.eqb_spec (q_next (q_mask q) (q_tail q)) (q_head q)) as [E|E].
  { apply Hfull in E. lia. }
  eexists. split; [done|]. simpl. rewrite Hm, q_next_pow2 by lia. split_and!; try done.
  - exists k. pose proof (Z.mod_pos_bound (q_tail q + 1) (2 ^ k)). simpl.
    rewrite zlen_arr_set. split_and!; lia.
  - unfold contents, queue_len at 1; simpl. rewrite Hm, Z.sub_add.
    erewrite queue_len_step; [|lia|reflexivity|].
    + rewrite <- (queue_tail_eq q k Hm Hp Ht) at 1. unfold queue_len.
      rewrite Hm, Z.sub_add. apply ring_slice_push; [lia|lia|].
      unfold queue_len in Hroom. rewrite Hm, Z.sub_add in Hroom. lia.
    + unfold queue_len in Hroom. rewrite Hm, Z.sub_add in Hroom. lia.
Qed.

Lemma spsc_push_full q x :
  queue_wf q -> Z.of_nat (queue_len q) = q_mask q -> SPSC_PUSH x q = (false, q).
Proof.
  intros Hwf Hfull. apply queue_full_test in Hfull; [|done].
  unfold SPSC_PUSH. by rewrite Hfull, Z.eqb_refl.
Qed.

Lemma spsc_pop_some q x rest :
  queue_wf q -> contents q = x :: rest ->
  exists q', SPSC_POP q = (Some x, q') /\ queue_wf q' /\ contents q' = rest /\
    q_mask q' = q_mask q.
Proof.
  intros Hwf Hc. pose proof (queue_empty_test q Hwf) as Hempty.
  pose proof (length_contents q) as Hl. rewrite Hc in Hl. simpl in Hl.
  destruct Hwf as (k & Hk & Hm & Hlen & Hh & Ht).
  pose proof (pow2_pos k ltac:(lia)) as Hp.
  unfold SPSC_POP. destruct (Z.eqb_spec (q_head q) (q_tail q)) as [E|E].
  { apply Hempty in E. congruence. }
  assert (Hhd : q_head q mod 2 ^ k = q_head q) by (by apply Z.mod_small).
  unfold contents in Hc. rewrite <- Hl, Hm, Z.sub_add in Hc. simpl in Hc.
  rewrite Hhd in Hc. injection Hc as Hx Hrest.
  eexists. split; [by rewrite Hx|]. simpl. rewrite Hm, q_next_pow2 by lia.
  split_and!; try done.
  - exists k. pose proof (Z.mod_pos_bound (q_head q + 1) (2 ^ k)). simpl. split_and!; lia.
  - unfold contents, queue_len; simpl. rewrite Z.sub_add.
    rewrite (queue_len_pop _ _ _ (length rest)); [by rewrite ring_slice_mod|lia|].
    rewrite Hl. unfold queue_len. by rewrite Hm, Z.sub_add.
Qed.

Lemma spsc_pop_none q :
  queue_wf q -> contents q = [] -> SPSC_POP q = (None, q).
Proof.
  intros Hwf Hc. pose proof (length_contents q) as Hl. rewrite Hc in Hl.
  unfold SPSC_POP. destruct (Z.eqb_spec (q_head q) (q_tail q)) as [E|E]; [done|].
  destruct E. by apply queue_empty_test.
Qed.

Lemma mpsc_push_retry_eq spurious q x :
  MPSC_PUSH_retry spurious x q = SPSC_PUSH x q.
Proof.
  unfold SPSC_PUSH.
  induction spurious as [|s rest IH]; simpl; unfold mpsc_push_round;
    destruct (Z.eqb_spec (q_next (q_mask q) (q_tail q)) (q_head q)); simpl; try done.
  by destruct s.
Qed.

Lemma mpsc_pop_eq q : MPSC_POP q = SPSC_POP q.
Proof. done. Qed.

End laws.

(** ** The contract of a bounded FIFO queue *)

Class BoundedQueue (A Q : Type) := {
  bq_wf : Q -> Prop;
  bq_contents : Q -> list A;
  bq_room : Q -> Z;
  bq_push : A -> Q -> bool * Q;
  bq_pop : Q -> option A * Q;
  bq_bound : forall q, bq_wf q -> zlen (bq_contents q) <= bq_room q;
  bq_push_spec : forall q x b q', bq_wf q -> bq_push x q = (b, q') ->
    bq_wf q' /\ bq_room q' = bq_room q /\
    b = bool_decide (zlen (bq_contents q) < bq_room q) /\
    bq_contents q' = bq_contents q ++ (if b then [x] else []);
  bq_pop_spec : forall q r q', bq_wf q -> bq_pop q = (r, q') ->
    bq_wf q' /\ bq_room q' = bq_room q /\
    r = head (bq_contents q) /\ bq_contents q' = tail (bq_contents q);
}.

Section instances.
Context {A : Type} `{!Inhabited A}.
Implicit Types (q : queue A) (x : A).

Lemma spsc_bound q : queue_wf q -> zlen (contents q) <= q_mask q.
Proof. intros Hwf. unfold zlen. rewrite length_contents. by apply queue_len_bound. Qed.

Lemma spsc_push_spec q x b q' :
  queue_wf q -> SPSC_PUSH x q = (b, q') ->
  queue_wf q' /\ q_mask q' = q_mask q /\
  b = bool_decide (zlen (contents q) < q_mask q) /\
  contents q' = contents q ++ (if b then [x] else []).
Proof.
  intros Hwf Hpush. pose proof (spsc_bound q Hwf) as Hb.
  unfold zlen in *. rewrite length_contents in *.
  case_bool_decide as Hroom.
  - destruct (spsc_push_ok q x Hwf ltac:(lia)) as (q2 & E & ? & ? & ?).
    rewrite E in Hpush. by simplify_eq.
  - rewrite (spsc_push_full q x Hwf ltac:(lia)) in Hpush. simplify_eq.
    by rewrite app_nil_r.
Qed.

Lemma spsc_pop_spec q r q' :
  queue_wf q -> SPSC_POP q = (r, q') ->
  queue_wf q' /\ q_mask q' = q_mask q /\
  r = head (contents q) /\ contents q' = tail (contents q).
Proof.
  intros Hwf Hpop. destruct (contents q) as [|x rest] eqn:Hc.
  - rewrite (spsc_pop_none q Hwf Hc) in Hpop. by simplify_eq.
  - destruct (spsc_pop_some q x rest Hwf Hc) as (q2 & E & ? & ? & ?).
    rewrite E in Hpop. by simplify_eq.
Qed.

Definition spsc_queue : BoundedQueue A (queue A) := {|
  bq_wf := queue_wf; bq_contents := contents; bq_room := q_mask;
  bq_push := SPSC_PUSH; bq_pop := SPSC_POP;
  bq_bound := spsc_bound; bq_push_spec := spsc_push_spec; bq_pop_spec := spsc_pop_spec;
|}.

Lemma mpsc_push_spec spurious q x b q' :
  queue_wf q -> MPSC_PUSH_retry spurious x q = (b, q') ->
  queue_wf q' /\ q_mask q' = q_mask q /\
  b = bool_decide (zlen (contents q) < q_mask q) /\
  contents q' = contents q ++ (if b then [x] else []).
Proof. intros Hwf. rewrite mpsc_push_retry_eq. by apply spsc_push_spec. Qed.

(** The instance is indexed by the spurious CAS failures each push meets. *)
Definition mpsc_queue (spurious : list bool) : BoundedQueue A (queue A) := {|
  bq_wf := queue_wf; bq_contents := contents; bq_room := q_mask;
  bq_push := MPSC_PUSH_retry spurious; bq_pop := MPSC_POP;
  bq_bound := spsc_bound; bq_push_spec := mpsc_push_spec spurious;
  bq_pop_spec := spsc_pop_spec;
|}.

End instances.

(** ** Sequences of operations

    A client's calls, run on an implementation of the contract and on the
    abstract FIFO list with a bound. *)

Inductive qop (A : Type) := OpPush (x : A) | OpPop.
Arguments OpPush {A} _.
Arguments OpPop {A}.

Inductive qres (A : Type) := ResPush (ok : bool) | ResPop (r : option A).
Arguments ResPush {A} _.
Arguments ResPop {A} _.

Fixpoint run_ops {A Q} (BQ : BoundedQueue A Q) (ops : list (qop A)) (q : Q)
  : list (qres A) * Q :=
  match ops with
  | [] => ([], q)
  | OpPush x :: ops =>
      let '(b, q') := bq_push x q in
      let '(rs, q'') := run_ops BQ ops q' in (ResPush b :: rs, q'')
  | OpPop :: ops =>
      let '(r, q') := bq_pop q in
      let '(rs, q'') := run_ops BQ ops q' in (ResPop r :: rs, q'')
  end.

Fixpoint fifo_ops {A} (room : Z) (ops : list (qop A)) (l : list A)
  : list (qres A) * list A :=
  match ops with
  | [] => ([], l)
  | OpPush x :: ops =>
      let b := zlen l <? room in
      let '(rs, l') := fifo_ops room ops (l ++ (if b then [x] else [])) in
      (ResPush b :: rs, l')
  | OpPop :: ops =>
      let '(rs, l') := fifo_ops room ops (tail l) in (ResPop (head l) :: rs, l')
  end.

Section refinement.
Context {A Q : Type} (BQ : BoundedQueue A Q).

Lemma run_ops_fifo ops q :
  bq_wf q ->
  fst (run_ops BQ ops q) = fst (fifo_ops (bq_room q) ops (bq_contents q)) /\
  bq_contents (snd (run_ops BQ ops q)) = snd (fifo_ops (bq_room q) ops (bq_contents q)).
Proof.
  revert q. induction ops as [|[x|] ops IH]; intros q Hwf; simpl; [done| |].
  - destruct (bq_push x q) as [b q'] eqn:Hp.
    destruct (bq_push_spec q x b q' Hwf Hp) as (Hwf' & Hroom & Hb & Hc).
    specialize (IH q' Hwf'). rewrite Hroom, Hc in IH.
    replace (zlen (bq_contents q) <? bq_room q) with b
      by (rewrite Hb; by case_bool_decide; lia).
    destruct (run_ops BQ ops q'), (fifo_ops _ ops _). simpl in *.
    by destruct IH as [-> ->].
  - destruct (bq_pop q) as [r q'] eqn:Hp.
    destruct (bq_pop_spec q r q' Hwf Hp) as (Hwf' & Hroom & Hr & Hc).
    specialize (IH q' Hwf'). rewrite Hroom, Hc in IH. subst r.
    destruct (run_ops BQ ops q'), (fifo_ops _ ops _). simpl in *.
    by destruct IH as [-> ->].
Qed.

End refinement.

Section queue_properties.
Context {A : Type} `{!Inhabited A}.

(** C6: The SPSC queue, initialised over a buffer of a power-of-two number of
    slots, answers every sequence of pushes and pops exactly as a FIFO list
    bounded by [capacity - 1] does: same success flags, same elements in the
    same order, same final contents, for whatever bytes the buffer held. *)
Theorem spsc_refines_fifo (buf : list A) (k : Z) (ops : list (qop A)) :
  1 <= k < 64 -> zlen buf = 2 ^ k ->
  fst (run_ops spsc_queue ops (QUEUE_INIT buf)) = fst (fifo_ops (2 ^ k - 1) ops []) /\
  contents (snd (run_ops spsc_queue ops (QUEUE_INIT buf)))
    = snd (fifo_ops (2 ^ k - 1) ops []).
Proof.
  intros Hk Hlen. pose proof (queue_init_wf buf k Hk Hlen) as Hwf.
  pose proof (run_ops_fifo spsc_queue ops (QUEUE_INIT buf) Hwf) as H.
  simpl in H. rewrite Hlen, u64_small in H; [exact H|].
  pose proof (pow2_le_64 k ltac:(lia)). unfold is_u64. lia.
Qed.

(** The MPSC queue used by one thread at a time is the same bounded FIFO,
    however many times the weak compare-and-swap of each push fails
    spuriously: the loop ends with the result a single round gives. *)
Theorem mpsc_refines_fifo (buf : list A) (k : Z) (spurious : list bool)
    (ops : list (qop A)) :
  1 <= k < 64 -> zlen buf = 2 ^ k ->
  fst (run_ops (mpsc_queue spurious) ops (QUEUE_INIT buf))
    = fst (fifo_ops (2 ^ k - 1) ops []) /\
  contents (snd (run_ops (mpsc_queue spurious) ops (QUEUE_INIT buf)))
    = snd (fifo_ops (2 ^ k - 1) ops []).
Proof.
  intros Hk Hlen. pose proof (queue_init_wf buf k Hk Hlen) as Hwf.
  pose proof (run_ops_fifo (mpsc_queue spurious) ops (QUEUE_INIT buf) Hwf) as H.
  simpl in H. rewrite Hlen, u64_small in H; [exact H|].
  pose proof (pow2_le_64 k ltac:(lia)). unfold is_u64. lia.
Qed.

End queue_properties.

Definition example_ops : list (qop Z) :=
  [OpPop; OpPush 7; OpPush 8; OpPush 9; OpPush 10; OpPop; OpPush 11; OpPop; OpPop; OpPop].

Lemma spsc_refines_fifo_witness :
  fst (run_ops spsc_queue example_ops (QUEUE_INIT [0; 0; 0; 0]))
  = [ResPop None; ResPush true; ResPush true; ResPush true; ResPush false;
     ResPop (Some 7); ResPush true; ResPop (Some 8); ResPop (Some 9); ResPop (Some 11)].
Proof.
  destruct (spsc_refines_fifo [0; 0; 0; 0] 2 example_ops ltac:(lia) eq_refl) as [-> _].
  reflexivity.
Defined.

Lemma mpsc_refines_fifo_witness :
  fst (run_ops (mpsc_queue [true; true]) example_ops (QUEUE_INIT [0; 0; 0; 0]))
  = [ResPop None; ResPush true; ResPush true; ResPush true; ResPush false;
     ResPop (Some 7); ResPush true; ResPop (Some 8); ResPop (Some 9); ResPop (Some 11)].
Proof.
  destruct (mpsc_refines_fifo [0; 0; 0; 0] 2 [true; true] example_ops ltac:(lia) eq_refl)
    as [-> _].
  reflexivity.
Defined.
