(* ===== verification/SpscConc.v ===== *)
(** * The SPSC queue with its two threads interleaved

    [BT_SPSC_PUSH] and [BT_SPSC_POP] of [src/src/include/bt_lockfree_queue.h],
    split at their accesses to the shared words, for one producer thread and
    one consumer thread running in any interleaving.

    The atomic words [head] and [tail] are modelled by the histories of the
    values stored in them, oldest first. A thread that loads the word the
    other thread writes may obtain any value of the history that is not older
    than one it has already seen, which is the coherence the C11 model gives
    [memory_order_acquire] loads; a thread that loads its own word obtains the
    newest value. The elements are plain memory: [spsc_no_data_race] shows that
    no write of a slot can overlap a read of it. *)

From S2P Require Import Prelude Queue.

(** ** Threads

    The program counters name the access that comes next. *)
Inductive ppc (A : Type) :=
| PIdle
| PLoadTail (item : A) (h : Z)
| PTest (item : A) (h t : Z)
| PStoreTail (item : A) (next : Z).
Arguments PIdle {A}.
Arguments PLoadTail {A} _ _.
Arguments PTest {A} _ _ _.
Arguments PStoreTail {A} _ _.

Inductive cpc (A : Type) :=
| CIdle
| CLoadTail (h : Z)
| CTest (h t : Z)
| CStoreHead (v : A) (next : Z).
Arguments CIdle {A}.
Arguments CLoadTail {A} _.
Arguments CTest {A} _ _.
Arguments CStoreHead {A} _ _.

Record spsc_state (A : Type) := SpscState {
  s_heads : list Z;      (* values stored in [head], oldest first *)
  s_tails : list Z;      (* values stored in [tail], oldest first *)
  s_buffer : list A;
  s_mask : Z;
  s_prod : ppc A;
  s_pview : nat;         (* newest entry of [s_heads] the producer has read *)
  s_cons : cpc A;
  s_cview : nat;         (* newest entry of [s_tails] the consumer has read *)
  s_pushed : list A;     (* items of the pushes that returned 1, in order *)
  s_popped : list A;     (* items of the pops that returned 1, in order *)
}.
Arguments SpscState {A} _ _ _ _ _ _ _ _ _ _.
Arguments s_heads {A} _.
Arguments s_tails {A} _.
Arguments s_buffer {A} _.
Arguments s_mask {A} _.
Arguments s_prod {A} _.
Arguments s_pview {A} _.
Arguments s_cons {A} _.
Arguments s_cview {A} _.
Arguments s_pushed {A} _.
Arguments s_popped {A} _.

(** After [BT_SPSC_QUEUE_INIT]. *)
Definition spsc_start {A} (buf : list A) : spsc_state A :=
  SpscState [0] [0] buf (u64 (zlen buf - 1)) PIdle 0 CIdle 0 [] [].

(** The access of the producer [BT_SPSC_PUSH] performs next. *)
Inductive prod_step {A} : spsc_state A -> spsc_state A -> Prop :=
| prod_load_head hs ts b m pv c cv pu po item i h :
    (pv <= i)%nat -> hs !! i = Some h ->
    prod_step (SpscState hs ts b m PIdle pv c cv pu po)
              (SpscState hs ts b m (PLoadTail item h) i c cv pu po)
| prod_load_tail hs ts b m pv c cv pu po item h t :
    last ts = Some t ->
    prod_step (SpscState hs ts b m (PLoadTail item h) pv c cv pu po)
              (SpscState hs ts b m (PTest item h t) pv c cv pu po)
| prod_full hs ts b m pv c cv pu po item h t :
    q_next m t = h ->
    prod_step (SpscState hs ts b m (PTest item h t) pv c cv pu po)
              (SpscState hs ts b m PIdle pv c cv pu po)
| prod_write hs ts b m pv c cv pu po item h t :
    q_next m t <> h ->
    prod_step (SpscState hs ts b m (PTest item h t) pv c cv pu po)
              (SpscState hs ts (b.[t <- item]) m (PStoreTail item (q_next m t)) pv c cv pu po)
| prod_store_tail hs ts b m pv c cv pu po item next :
    prod_step (SpscState hs ts b m (PStoreTail item next) pv c cv pu po)
              (SpscState hs (ts ++ [next]) b m PIdle pv c cv (pu ++ [item]) po).

(** The access of the consumer [BT_SPSC_POP] performs next. *)
Inductive cons_step {A} `{!Inhabited A} : spsc_state A -> spsc_state A -> Prop :=
| cons_load_head hs ts b m p pv cv pu po h :
    last hs = Some h ->
    cons_step (SpscState hs ts b m p pv CIdle cv pu po)
              (SpscState hs ts b m p pv (CLoadTail h) cv pu po)
| cons_load_tail hs ts b m p pv cv pu po h i t :
    (cv <= i)%nat -> ts !! i = Some t ->
    cons_step (SpscState hs ts b m p pv (CLoadTail h) cv pu po)
              (SpscState hs ts b m p pv (CTest h t) i pu po)
| cons_empty hs ts b m p pv cv pu po h t :
    h = t ->
    cons_step (SpscState hs ts b m p pv (CTest h t) cv pu po)
              (SpscState hs ts b m p pv CIdle cv pu po)
| cons_read hs ts b m p pv cv pu po h t :
    h <> t ->
    cons_step (SpscState hs ts b m p pv (CTest h t) cv pu po)
              (SpscState hs ts b m p pv (CStoreHead (b.[h]) (q_next m h)) cv pu po)
| cons_store_head hs ts b m p pv cv pu po v next :
    cons_step (SpscState hs ts b m p pv (CStoreHead v next) cv pu po)
              (SpscState (hs ++ [next]) ts b m p pv CIdle cv pu (po ++ [v])).

Definition spsc_step {A} `{!Inhabited A} (s s' : spsc_state A) : Prop :=
  prod_step s s' \/ cons_step s s'.

(** ** The invariant *)

(** The [i]-th value of an index word is [i] modulo the capacity. *)
Definition history_ok (c : Z) (hist : list Z) : Prop :=
  forall i v, hist !! i = Some v -> v = Z.of_nat i mod c.

Definition prod_ok {A} `{!Inhabited A} (c : Z) (s : spsc_state A) : Prop :=
  let T := zlen (s_pushed s) in
  let seen := Z.of_nat (s_pview s) in
  match s_prod s with
  | PIdle => True
  | PLoadTail _ h => h = seen mod c
  | PTest _ h t => h = seen mod c /\ t = T mod c
  | PStoreTail x next =>
      next = (T + 1) mod c /\ T + 1 - seen < c /\ (s_buffer s).[T mod c] = x
  end.

Definition cons_ok {A} (c : Z) (s : spsc_state A) : Prop :=
  let H := zlen (s_popped s) in
  let seen := Z.of_nat (s_cview s) in
  match s_cons s with
  | CIdle => True
  | CLoadTail h => h = H mod c
  | CTest h t => h = H mod c /\ t = seen mod c
  | CStoreHead v next =>
      next = (H + 1) mod c /\ H < seen /\ s_pushed s !! length (s_popped s) = Some v
  end.

Record spsc_inv {A} `{!Inhabited A} (k : Z) (s : spsc_state A) : Prop := {
  inv_mask : s_mask s = 2 ^ k - 1;
  inv_buf : zlen (s_buffer s) = 2 ^ k;
  inv_heads : length (s_heads s) = S (length (s_popped s));
  inv_tails : length (s_tails s) = S (length (s_pushed s));
  inv_heads_ok : history_ok (2 ^ k) (s_heads s);
  inv_tails_ok : history_ok (2 ^ k) (s_tails s);
  inv_pview : (s_pview s <= length (s_popped s))%nat;
  inv_cview : (length (s_popped s) <= s_cview s <= length (s_pushed s))%nat;
  inv_room : zlen (s_pushed s) - Z.of_nat (s_pview s) < 2 ^ k;
  inv_fifo : s_popped s = take (length (s_popped s)) (s_pushed s);
  inv_slots : forall i x, (length (s_popped s) <= i)%nat -> s_pushed s !! i = Some x ->
    (s_buffer s).[Z.of_nat i mod 2 ^ k] = x;
  inv_prod : prod_ok (2 ^ k) s;
  inv_cons : cons_ok (2 ^ k) s;
}.

Lemma history_ok_snoc c hist v :
  history_ok c hist -> v = Z.of_nat (length hist) mod c -> history_ok c (hist ++ [v]).
Proof.
  intros Hok Hv i w Hi. apply lookup_snoc_Some in Hi as [[_ Hi]|[-> ->]]; [by apply Hok|done].
Qed.

Lemma history_last c hist v n :
  history_ok c hist -> length hist = S n -> last hist = Some v -> v = Z.of_nat n mod c.
Proof.
  intros Hok Hlen Hl. rewrite last_lookup, Hlen in Hl. by apply Hok.
Qed.

Lemma take_snoc_lookup {A} (l : list A) n x :
  l !! n = Some x -> take n l ++ [x] = take (S n) l.
Proof. intros H. symmetry. by apply take_S_r. Qed.

Section spsc_conc.
Context {A : Type} `{!Inhabited A} (k : Z) (Hk : 1 <= k < 64).
Implicit Types (s : spsc_state A).

Lemma cap_pos : 0 < 2 ^ k.
Proof using Hk. apply pow2_pos. lia. Qed.

Lemma start_inv (buf : list A) : zlen buf = 2 ^ k -> spsc_inv k (spsc_start buf).
Proof using Hk.
  intros Hlen. pose proof cap_pos. pose proof (pow2_le_64 k ltac:(lia)).
  assert (history_ok (2 ^ k) [0]).
  { intros [|i] v Hv; simplify_eq/=. by rewrite Zmod_0_l. }
  split; simpl; try done; rewrite ?Hlen, ?u64_small; unfold zlen, is_u64 in *; simpl; try lia.
Qed.

Ltac inv_split H :=
  destruct H as [Hmask Hbuf Hheads Htails Hhok Htok Hpv Hcv Hroom Hfifo Hslots Hprod Hcons];
  unfold prod_ok, cons_ok in *; simpl in *.

(** Storing an item in the slot after the newest published one leaves every
    unread slot as it was. *)
Lemma slots_write b (pu : list A) n pv item :
  zlen b = 2 ^ k -> zlen pu + 1 - Z.of_nat pv < 2 ^ k -> (pv <= n)%nat ->
  (forall i x, (n <= i)%nat -> pu !! i = Some x -> b.[Z.of_nat i mod 2 ^ k] = x) ->
  forall i x, (n <= i)%nat -> pu !! i = Some x ->
    (b.[zlen pu mod 2 ^ k <- item]).[Z.of_nat i mod 2 ^ k] = x.
Proof using Hk.
  intros Hb Hr Hpv Hs i x Hi Hx. pose proof cap_pos.
  pose proof (lookup_lt_Some _ _ _ Hx). unfold zlen in *.
  rewrite arr_get_set_ne; [by apply Hs|apply Z.mod_pos_bound; lia..|].
  intros Heq. apply mod_window in Heq; lia.
Qed.

Lemma prod_step_inv s s' : spsc_inv k s -> prod_step s s' -> spsc_inv k s'.
Proof using Hk.
  intros Hinv Hstep. pose proof cap_pos.
  destruct Hstep as
    [hs ts b m pv c cv pu po item i h Hge Hi|hs ts b m pv c cv pu po item h t Hl
    |hs ts b m pv c cv pu po item h t Heq|hs ts b m pv c cv pu po item h t Hne
    |hs ts b m pv c cv pu po item next];
    inv_split Hinv.
  - pose proof (lookup_lt_Some _ _ _ Hi). split; simpl; try done; try lia.
    by apply Hhok.
  - split; simpl; try done. split; [done|].
    unfold zlen. by apply (history_last _ ts).
  - by split.
  - destruct Hprod as [-> ->]. subst.
    rewrite q_next_pow2, Zplus_mod_idemp_l in * by lia.
    assert (zlen pu + 1 - Z.of_nat pv < 2 ^ k) as Hlt.
    { destruct (decide (zlen pu + 1 - Z.of_nat pv = 2 ^ k)) as [E|E]; [|lia].
      destruct Hne. replace (zlen pu + 1) with (Z.of_nat pv + 1 * 2 ^ k) by lia.
      by rewrite Z.mod_add by lia. }
    split; simpl; try done.
    + by rewrite zlen_arr_set.
    + by eapply slots_write.
    + split_and!; try done. apply arr_get_set_eq. rewrite Hbuf.
      by apply Z.mod_pos_bound.
  - destruct Hprod as (-> & Hlt & Hx). unfold zlen in *.
    split; simpl; try done; rewrite ?length_app; simpl; unfold zlen;
      rewrite ?length_app; simpl; try lia.
    + apply history_ok_snoc; [done|]. f_equal. lia.
    + rewrite take_app_le by lia. done.
    + intros i x Hi Hix. apply lookup_snoc_Some in Hix as [[_ Hix]|[-> ->]]; [by apply Hslots|done].
    + unfold cons_ok, zlen; simpl. destruct c as [| | |v nx]; try done.
      destruct Hcons as (-> & Hlt' & Hv). split_and!; [done|lia|].
      by apply lookup_app_l_Some.
Qed.

Lemma cons_step_inv s s' : spsc_inv k s -> cons_step s s' -> spsc_inv k s'.
Proof using Hk.
  intros Hinv Hstep. pose proof cap_pos.
  destruct Hstep as
    [hs ts b m p pv cv pu po h Hl|hs ts b m p pv cv pu po h i t Hge Hi
    |hs ts b m p pv cv pu po h t Heq|hs ts b m p pv cv pu po h t Hne
    |hs ts b m p pv cv pu po v next];
    inv_split Hinv.
  - split; simpl; try done. unfold cons_ok; simpl. unfold zlen. by apply (history_last _ hs).
  - pose proof (lookup_lt_Some _ _ _ Hi). split; simpl; try done; try lia.
    unfold cons_ok; simpl. split; [done|]. by apply Htok.
  - by split.
  - destruct Hcons as [-> ->]. subst. rewrite q_next_pow2, Zplus_mod_idemp_l in * by lia.
    assert (Z.of_nat (length po) < Z.of_nat cv) as Hlt.
    { destruct (decide (length po = cv)) as [E|E]; [|lia].
      destruct Hne. by rewrite <- E. }
    split; simpl; try done. unfold cons_ok; simpl. split_and!; [done|done|].
    destruct (lookup_lt_is_Some_2 pu (length po) ltac:(lia)) as [x Hx].
    rewrite Hx. f_equal. symmetry. by apply Hslots.
  - destruct Hcons as (-> & Hlt & Hv). unfold zlen in *.
    pose proof (lookup_lt_Some _ _ _ Hv).
    split; simpl; try done; rewrite ?length_app; simpl; unfold zlen; try lia.
    + apply history_ok_snoc; [done|]. f_equal. lia.
    + rewrite Hfifo at 1. rewrite Nat.add_1_r. by apply take_snoc_lookup.
    + intros i x Hi. apply Hslots. lia.
Qed.

Lemma reachable_inv (buf : list A) s :
  zlen buf = 2 ^ k -> rtc spsc_step (spsc_start buf) s -> spsc_inv k s.
Proof using Hk.
  intros Hlen. intros Hr. apply (rtc_ind_r (spsc_inv k) (spsc_start buf)) in Hr.
  - done.
  - by apply start_inv.
  - intros y z _ Hstep Hy. destruct Hstep; eauto using prod_step_inv, cons_step_inv.
Qed.

(** At most [mask] published elements are unread. *)
Lemma inv_in_flight s : spsc_inv k s -> zlen (s_pushed s) - zlen (s_popped s) <= s_mask s.
Proof. intros []. unfold zlen in *. lia. Qed.

End spsc_conc.

Section spsc_conc_properties.
Context {A : Type} `{!Inhabited A}.

(** C7: In every interleaving of one producer and one consumer, with loads of
    the other thread's index that may return old values, the elements popped
    so far are exactly the first elements pushed, in order: no element is
    lost, duplicated, reordered or invented, and never more than
    [capacity - 1] elements are in flight. *)
Theorem spsc_conc_fifo (k : Z) (buf : list A) (s : spsc_state A) :
  1 <= k < 64 -> zlen buf = 2 ^ k -> rtc spsc_step (spsc_start buf) s ->
  s_popped s = take (length (s_popped s)) (s_pushed s) /\
  (length (s_popped s) <= length (s_pushed s))%nat /\
  zlen (s_pushed s) - zlen (s_popped s) <= 2 ^ k - 1.
Proof.
  intros Hk Hlen Hr. pose proof (reachable_inv k Hk buf s Hlen Hr) as Hinv.
  pose proof (inv_in_flight k Hk s Hinv). destruct Hinv. split_and!; [done|lia|congruence].
Qed.

(** C8: No data race on the elements: whenever the producer has loaded the
    slot it may write while the consumer is about to read one (its test
    passed), the two slots differ, and both lie inside the buffer. *)
Theorem spsc_no_data_race (k : Z) (buf : list A) (s : spsc_state A) item h t h' t' :
  1 <= k < 64 -> zlen buf = 2 ^ k -> rtc spsc_step (spsc_start buf) s ->
  s_prod s = PTest item h t ->
  s_cons s = CTest h' t' -> h' <> t' ->
  t <> h' /\ 0 <= t < zlen (s_buffer s) /\ 0 <= h' < zlen (s_buffer s).
Proof.
  intros Hk Hlen Hr Hp Hc Hne. pose proof (cap_pos k Hk).
  pose proof (reachable_inv k Hk buf s Hlen Hr) as [].
  unfold prod_ok, cons_ok in *. rewrite Hp in *. rewrite Hc in *.
  destruct inv_prod0 as [-> ->], inv_cons0 as [-> ->]. rewrite inv_buf0.
  split; [|split; apply Z.mod_pos_bound; lia].
  intros Heq. unfold zlen in *. apply mod_window in Heq; [|lia|lia].
  destruct Hne. do 2 f_equal. lia.
Qed.

(** Refusals are justified: a push is refused only when [capacity - 1]
    published elements are beyond the newest head the producer has seen, and a
    pop finds the queue empty only when it has taken every element the
    consumer has seen published. *)
Theorem spsc_refusals_justified (k : Z) (buf : list A) (s : spsc_state A) :
  1 <= k < 64 -> zlen buf = 2 ^ k -> rtc spsc_step (spsc_start buf) s ->
  (forall item h t, s_prod s = PTest item h t -> q_next (s_mask s) t = h ->
     zlen (s_pushed s) - Z.of_nat (s_pview s) = 2 ^ k - 1) /\
  (forall h t, s_cons s = CTest h t -> h = t -> length (s_popped s) = s_cview s).
Proof.
  intros Hk Hlen Hr. pose proof (cap_pos k Hk).
  pose proof (reachable_inv k Hk buf s Hlen Hr) as [].
  unfold prod_ok, cons_ok in *. split.
  - intros item h t Hp Hfull. rewrite Hp in *. destruct inv_prod0 as [-> ->].
    rewrite inv_mask0, q_next_pow2, Zplus_mod_idemp_l in Hfull by lia.
    destruct (decide (zlen (s_pushed s) + 1 - Z.of_nat (s_pview s) = 2 ^ k)) as [E|E]; [lia|].
    apply mod_window in Hfull; unfold zlen in *; lia.
  - intros h t Hc Heq. rewrite Hc in *. destruct inv_cons0 as [-> ->]. symmetry in Heq.
    unfold zlen in *. apply mod_window in Heq; lia.
Qed.

End spsc_conc_properties.

(** A run: the producer pushes 7, the consumer pops it while a second push is
    in progress. *)
Definition example_mid : spsc_state Z :=
  SpscState [0] [0; 1] [7; 0; 0; 0] 3 (PTest 8 0 1) 0 (CTest 0 1) 1 [7] [].

Lemma example_mid_reachable : rtc spsc_step (spsc_start [0; 0; 0; 0]) example_mid.
Proof.
  eapply rtc_l; [left; apply (prod_load_head _ _ _ _ _ _ _ _ _ 7 0 0); [lia|reflexivity]|].
  eapply rtc_l; [left; by apply (prod_load_tail _ _ _ _ _ _ _ _ _ _ _ 0)|].
  eapply rtc_l; [left; by apply prod_write|].
  eapply rtc_l; [left; by apply prod_store_tail|].
  eapply rtc_l; [right; by apply (cons_load_head _ _ _ _ _ _ _ _ _ 0)|].
  eapply rtc_l; [right; by apply (cons_load_tail _ _ _ _ _ _ _ _ _ _ 1 1); [lia|]|].
  eapply rtc_l; [left; apply (prod_load_head _ _ _ _ _ _ _ _ _ 8 0 0); [lia|reflexivity]|].
  eapply rtc_l; [left; by apply (prod_load_tail _ _ _ _ _ _ _ _ _ _ _ 1)|].
  apply rtc_refl.
Defined.

Lemma spsc_conc_fifo_witness :
  s_popped example_mid = take (length (s_popped example_mid)) (s_pushed example_mid).
Proof.
  exact (proj1 (spsc_conc_fifo 2 [0; 0; 0; 0] example_mid ltac:(lia) eq_refl
    example_mid_reachable)).
Defined.

Lemma spsc_no_data_race_witness : (1 : Z) <> 0.
Proof.
  refine (proj1 (spsc_no_data_race 2 [0; 0; 0; 0] example_mid 8 0 1 0 1 ltac:(lia) eq_refl
    example_mid_reachable eq_refl eq_refl _)); discriminate.
Defined.

(** A queue of two slots holding one element: the next push finds it full. *)
Definition example_full : spsc_state Z :=
  SpscState [0] [0; 1] [7; 0] 1 (PTest 8 0 1) 0 CIdle 0 [7] [].

Lemma example_full_reachable : rtc spsc_step (spsc_start [0; 0]) example_full.
Proof.
  eapply rtc_l; [left; apply (prod_load_head _ _ _ _ _ _ _ _ _ 7 0 0); [lia|reflexivity]|].
  eapply rtc_l; [left; by apply (prod_load_tail _ _ _ _ _ _ _ _ _ _ _ 0)|].
  eapply rtc_l; [left; by apply prod_write|].
  eapply rtc_l; [left; by apply prod_store_tail|].
  eapply rtc_l; [left; apply (prod_load_head _ _ _ _ _ _ _ _ _ 8 0 0); [lia|reflexivity]|].
  eapply rtc_l; [left; by apply (prod_load_tail _ _ _ _ _ _ _ _ _ _ _ 1)|].
  apply rtc_refl.
Defined.

Lemma spsc_refusals_justified_witness :
  zlen (s_pushed example_full) - Z.of_nat (s_pview example_full) = 2 ^ 1 - 1.
Proof.
  exact (proj1 (spsc_refusals_justified 1 [0; 0] example_full ltac:(lia) eq_refl
    example_full_reachable) 8 0 1 eq_refl eq_refl).
Defined.
