(* ===== verification/MpscConc.v ===== *)
(** * The MPSC queue with its threads interleaved

    [BT_MPSC_PUSH] and [BT_MPSC_POP] of [src/src/include/bt_lockfree_queue.h],
    split at their accesses to the shared words, for any number of producer
    threads and one consumer, with sequentially consistent memory.

    The push claims a slot by moving [tail] and writes the element afterwards,
    and it compares [tail], an index reduced modulo the capacity, against a
    value it loaded earlier. [mpsc_reads_unwritten_slot] and [mpsc_aba_loses]
    are executions in which each of the two goes wrong; [mpsc_orderly_fifo]
    shows that the queue is a FIFO in every execution free of both. *)

From S2P Require Import Prelude Queue.

(** ** Threads

    [n] is a ghost: the number of successful claims when [tail] was loaded. *)
Inductive mpc (A : Type) :=
| MLoadTail (item : A)
| MLoadHead (item : A) (t : Z) (n : nat)
| MCas (item : A) (t next : Z) (n : nat)
| MWrite (item : A) (t : Z) (n : nat).
Arguments MLoadTail {A} _.
Arguments MLoadHead {A} _ _ _.
Arguments MCas {A} _ _ _ _.
Arguments MWrite {A} _ _ _.

Inductive mcpc (A : Type) :=
| MCIdle
| MCLoadTail (h : Z)
| MCTest (h t : Z)
| MCStoreHead (v : A) (next : Z).
Arguments MCIdle {A}.
Arguments MCLoadTail {A} _.
Arguments MCTest {A} _ _.
Arguments MCStoreHead {A} _ _.

Record mpsc_state (A : Type) := MpscState {
  m_head : Z;
  m_tail : Z;
  m_buffer : list A;
  m_mask : Z;
  m_prods : gmap nat (mpc A);    (* the pushes in progress, by thread *)
  m_cons : mcpc A;
  m_claimed : list A;            (* items in the order their CAS succeeded *)
  m_popped : list A;             (* items the pops returned, in order *)
}.
Arguments MpscState {A} _ _ _ _ _ _ _ _.
Arguments m_head {A} _.
Arguments m_tail {A} _.
Arguments m_buffer {A} _.
Arguments m_mask {A} _.
Arguments m_prods {A} _.
Arguments m_cons {A} _.
Arguments m_claimed {A} _.
Arguments m_popped {A} _.

(** After [BT_MPSC_QUEUE_INIT]. *)
Definition mpsc_start {A} (buf : list A) : mpsc_state A :=
  MpscState 0 0 buf (u64 (zlen buf - 1)) ∅ MCIdle [] [].

(** The access thread [p] performs next in [BT_MPSC_PUSH]. *)
Inductive mprod_step {A} (p : nat) : mpsc_state A -> mpsc_state A -> Prop :=
| mprod_call h t b m ps c cl po item :
    ps !! p = None ->
    mprod_step p (MpscState h t b m ps c cl po)
                 (MpscState h t b m (<[p := MLoadTail item]> ps) c cl po)
| mprod_load_tail h t b m ps c cl po item :
    ps !! p = Some (MLoadTail item) ->
    mprod_step p (MpscState h t b m ps c cl po)
                 (MpscState h t b m (<[p := MLoadHead item t (length cl)]> ps) c cl po)
| mprod_full h t b m ps c cl po item t0 n :
    ps !! p = Some (MLoadHead item t0 n) -> q_next m t0 = h ->
    mprod_step p (MpscState h t b m ps c cl po)
                 (MpscState h t b m (delete p ps) c cl po)
| mprod_load_head h t b m ps c cl po item t0 n :
    ps !! p = Some (MLoadHead item t0 n) -> q_next m t0 <> h ->
    mprod_step p (MpscState h t b m ps c cl po)
                 (MpscState h t b m (<[p := MCas item t0 (q_next m t0) n]> ps) c cl po)
| mprod_cas h b m ps c cl po item t0 next n :
    ps !! p = Some (MCas item t0 next n) ->
    mprod_step p (MpscState h t0 b m ps c cl po)
                 (MpscState h next b m (<[p := MWrite item t0 (length cl)]> ps) c
                            (cl ++ [item]) po)
| mprod_cas_fail h t b m ps c cl po item t0 next n :
    ps !! p = Some (MCas item t0 next n) ->
    mprod_step p (MpscState h t b m ps c cl po)
                 (MpscState h t b m (<[p := MLoadTail item]> ps) c cl po)
| mprod_write h t b m ps c cl po item t0 n :
    ps !! p = Some (MWrite item t0 n) ->
    mprod_step p (MpscState h t b m ps c cl po)
                 (MpscState h t (b.[t0 <- item]) m (delete p ps) c cl po).

(** The access the consumer performs next in [BT_MPSC_POP]. *)
Inductive mcons_step {A} `{!Inhabited A} : mpsc_state A -> mpsc_state A -> Prop :=
| mcons_load_head h t b m ps cl po :
    mcons_step (MpscState h t b m ps MCIdle cl po)
               (MpscState h t b m ps (MCLoadTail h) cl po)
| mcons_load_tail h t b m ps cl po h0 :
    mcons_step (MpscState h t b m ps (MCLoadTail h0) cl po)
               (MpscState h t b m ps (MCTest h0 t) cl po)
| mcons_empty h t b m ps cl po h0 t0 :
    h0 = t0 ->
    mcons_step (MpscState h t b m ps (MCTest h0 t0) cl po)
               (MpscState h t b m ps MCIdle cl po)
| mcons_read h t b m ps cl po h0 t0 :
    h0 <> t0 ->
    mcons_step (MpscState h t b m ps (MCTest h0 t0) cl po)
               (MpscState h t b m ps (MCStoreHead (b.[h0]) (q_next m h0)) cl po)
| mcons_store_head h t b m ps cl po v next :
    mcons_step (MpscState h t b m ps (MCStoreHead v next) cl po)
               (MpscState next t b m ps MCIdle cl (po ++ [v])).

Definition mpsc_step {A} `{!Inhabited A} (s s' : mpsc_state A) : Prop :=
  (exists p, mprod_step p s s') \/ mcons_step s s'.

(** ** Orderly executions

    The two things the macros rely on and do not enforce: a claim succeeds
    only when no other claim happened since [tail] was loaded, and the consumer
    reads a slot only when no claimed write to it is outstanding. *)
Definition no_aba {A} (s s' : mpsc_state A) : Prop :=
  forall p item t next n t' n', m_prods s !! p = Some (MCas item t next n) ->
    m_prods s' !! p = Some (MWrite item t' n') -> n = length (m_claimed s).

Definition no_early_read {A} (s s' : mpsc_state A) : Prop :=
  forall h t v next p item n, m_cons s = MCTest h t -> m_cons s' = MCStoreHead v next ->
    m_prods s !! p <> Some (MWrite item h n).

Definition orderly_step {A} `{!Inhabited A} (s s' : mpsc_state A) : Prop :=
  mpsc_step s s' /\ no_aba s s' /\ no_early_read s s'.

(** ** The invariant of orderly executions *)

Definition mprod_ok (c H T : Z) {A} (cl : list A) (pc : mpc A) : Prop :=
  match pc with
  | MLoadTail _ => True
  | MLoadHead _ t n => Z.of_nat n <= T /\ t = Z.of_nat n mod c
  | MCas _ t next n =>
      Z.of_nat n <= T /\ t = Z.of_nat n mod c /\ next = (Z.of_nat n + 1) mod c /\
      (Z.of_nat n = T -> T + 1 - H < c)
  | MWrite item t n =>
      H <= Z.of_nat n < T /\ t = Z.of_nat n mod c /\ cl !! n = Some item
  end.

Definition mcons_ok {A} (c : Z) (s : mpsc_state A) : Prop :=
  let H := zlen (m_popped s) in
  match m_cons s with
  | MCIdle => True
  | MCLoadTail h => h = H mod c
  | MCTest h t => h = H mod c /\
      exists T0, H <= T0 <= zlen (m_claimed s) /\ t = T0 mod c
  | MCStoreHead v next =>
      next = (H + 1) mod c /\ m_claimed s !! length (m_popped s) = Some v /\
      forall p item t n, m_prods s !! p = Some (MWrite item t n) -> n <> length (m_popped s)
  end.

Record mpsc_inv {A} `{!Inhabited A} (k : Z) (s : mpsc_state A) : Prop := {
  minv_mask : m_mask s = 2 ^ k - 1;
  minv_buf : zlen (m_buffer s) = 2 ^ k;
  minv_head : m_head s = zlen (m_popped s) mod 2 ^ k;
  minv_tail : m_tail s = zlen (m_claimed s) mod 2 ^ k;
  minv_room : 0 <= zlen (m_claimed s) - zlen (m_popped s) < 2 ^ k;
  minv_fifo : m_popped s = take (length (m_popped s)) (m_claimed s);
  minv_slots : forall i x, (length (m_popped s) <= i)%nat -> m_claimed s !! i = Some x ->
    (m_buffer s).[Z.of_nat i mod 2 ^ k] = x \/
    exists p t, m_prods s !! p = Some (MWrite x t i);
  minv_unique : forall p p' x t x' t' n, m_prods s !! p = Some (MWrite x t n) ->
    m_prods s !! p' = Some (MWrite x' t' n) -> p = p';
  minv_prods : forall p pc, m_prods s !! p = Some pc ->
    mprod_ok (2 ^ k) (zlen (m_popped s)) (zlen (m_claimed s)) (m_claimed s) pc;
  minv_cons : mcons_ok (2 ^ k) s;
}.

Section mpsc_conc.
Context {A : Type} `{!Inhabited A} (k : Z) (Hk : 1 <= k < 64).
Implicit Types (s : mpsc_state A) (ps : gmap nat (mpc A)).

Lemma mcap_pos : 0 < 2 ^ k.
Proof using Hk. apply pow2_pos. lia. Qed.

Lemma mstart_inv (buf : list A) : zlen buf = 2 ^ k -> mpsc_inv k (mpsc_start buf).
Proof using Hk.
  intros Hlen. pose proof mcap_pos. pose proof (pow2_le_64 k ltac:(lia)).
  split; simpl; try done; rewrite ?Hlen, ?u64_small; unfold zlen, is_u64 in *; simpl; try lia.
Qed.

(** A step that neither claims nor writes: only the program counters change. *)
Lemma inv_frame h t b m ps ps' c cl po :
  mpsc_inv k (MpscState h t b m ps c cl po) ->
  (forall p x t0 n, ps' !! p = Some (MWrite x t0 n) <-> ps !! p = Some (MWrite x t0 n)) ->
  (forall p pc, ps' !! p = Some pc -> mprod_ok (2 ^ k) (zlen po) (zlen cl) cl pc) ->
  mpsc_inv k (MpscState h t b m ps' c cl po).
Proof.
  intros [] Hw Hp. split; simpl in *; try done.
  - intros i x Hi Hx. destruct (minv_slots0 i x Hi Hx) as [?|(p & t0 & ?)]; [by left|].
    right. exists p, t0. by apply Hw.
  - intros p p' x t0 x' t0' n H1 H2. apply Hw in H1, H2. eauto.
  - unfold mcons_ok in *; simpl in *. destruct c; try done.
    destruct minv_cons0 as (? & ? & Hno). split_and!; try done.
    intros p item t0 n Hp0. apply Hw in Hp0. eauto.
Qed.

Definition is_write (pc : mpc A) : bool := if pc is MWrite _ _ _ then true else false.

Lemma writes_insert ps p pc :
  is_write pc = false -> (forall pc0, ps !! p = Some pc0 -> is_write pc0 = false) ->
  forall q x t n, <[p := pc]> ps !! q = Some (MWrite x t n) <-> ps !! q = Some (MWrite x t n).
Proof.
  intros Hpc Hold q x t n. destruct (decide (p = q)) as [->|Hne].
  - rewrite lookup_insert_eq. split; intros H; [simplify_eq|].
    apply Hold in H. done.
  - by rewrite lookup_insert_ne.
Qed.

Lemma writes_delete ps p :
  (forall pc0, ps !! p = Some pc0 -> is_write pc0 = false) ->
  forall q x t n, delete p ps !! q = Some (MWrite x t n) <-> ps !! q = Some (MWrite x t n).
Proof.
  intros Hold q x t n. destruct (decide (p = q)) as [->|Hne].
  - rewrite lookup_delete_eq. split; intros H; [done|]. apply Hold in H. done.
  - by rewrite lookup_delete_ne.
Qed.

Lemma inv_insert h t b m ps c cl po p pc :
  mpsc_inv k (MpscState h t b m ps c cl po) -> is_write pc = false ->
  (forall pc0, ps !! p = Some pc0 -> is_write pc0 = false) ->
  mprod_ok (2 ^ k) (zlen po) (zlen cl) cl pc ->
  mpsc_inv k (MpscState h t b m (<[p := pc]> ps) c cl po).
Proof.
  intros Hinv Hpc Hold Hok. eapply inv_frame; [done|by apply writes_insert|].
  intros q pc' Hq. apply lookup_insert_Some in Hq as [[_ <-]|[_ Hq]]; [done|].
  by apply (minv_prods _ _ Hinv) in Hq.
Qed.

(** The claims and pops that happen meanwhile do not disturb a thread's view. *)
Lemma mprod_ok_claim c H (cl : list A) item pc :
  mprod_ok c H (zlen cl) cl pc -> mprod_ok c H (zlen (cl ++ [item])) (cl ++ [item]) pc.
Proof.
  unfold zlen. rewrite length_app. destruct pc; simpl; try done.
  - intros [? ->]. split; [lia|done].
  - intros (? & -> & -> & ?). split_and!; try done; lia.
  - intros (? & -> & ?). split_and!; try done; try lia. by apply lookup_app_l_Some.
Qed.

(** The claim of a slot by a compare-and-swap without an intervening claim. *)
Lemma inv_claim h b m ps c (cl : list A) po p item next :
  mpsc_inv k (MpscState h (zlen cl mod 2 ^ k) b m ps c cl po) ->
  ps !! p = Some (MCas item (zlen cl mod 2 ^ k) next (length cl)) ->
  mpsc_inv k (MpscState h next b m
    (<[p := MWrite item (zlen cl mod 2 ^ k) (length cl)]> ps) c (cl ++ [item]) po).
Proof using Hk.
  intros [] Hp. simpl in *. pose proof (minv_prods0 _ _ Hp) as (_ & _ & -> & Hroom).
  specialize (Hroom eq_refl). unfold zlen in *.
  split; simpl; try done; unfold zlen; rewrite ?length_app; simpl; try lia.
  - rewrite take_app_le by lia. done.
  - intros i x Hi Hx. apply lookup_snoc_Some in Hx as [[Hlt Hx]|[-> ->]].
    + destruct (minv_slots0 i x Hi Hx) as [?|(q & t0 & Hq)]; [by left|].
      right. exists q, t0. rewrite lookup_insert_ne; [done|]. intros ->. congruence.
    + right. exists p, (Z.of_nat (length cl) mod 2 ^ k). by rewrite lookup_insert_eq.
  - intros q q' x t x' t' n Hq Hq'.
    apply lookup_insert_Some in Hq as [[<- ?]|[Hne Hq]];
      apply lookup_insert_Some in Hq' as [[<- ?]|[Hne' Hq']]; simplify_eq; try done.
    + apply minv_prods0 in Hq'. simpl in Hq'. lia.
    + apply minv_prods0 in Hq. simpl in Hq. lia.
    + eauto.
  - intros q pc Hq. apply lookup_insert_Some in Hq as [[<- <-]|[Hne Hq]].
    + simpl. split_and!; try done; try lia. by rewrite list_lookup_middle.
    + apply minv_prods0, (mprod_ok_claim _ _ _ item) in Hq.
      unfold zlen in Hq. by rewrite length_app in Hq.
  - unfold mcons_ok in *; simpl in *. destruct c; try done.
    + destruct minv_cons0 as (-> & T0 & ? & ->). split; [done|].
      exists T0. unfold zlen in *. rewrite length_app. split; [lia|done].
    + destruct minv_cons0 as (-> & Hv & Hno). split_and!; [done|by apply lookup_app_l_Some|].
      intros q it t n Hq. apply lookup_insert_Some in Hq as [[_ ?]|[_ Hq]]; [|by eauto].
      simplify_eq. apply lookup_lt_Some in Hv. lia.
Qed.

(** The write of a claimed slot. *)
Lemma inv_write h t b m ps c (cl : list A) po p item t0 n :
  mpsc_inv k (MpscState h t b m ps c cl po) ->
  ps !! p = Some (MWrite item t0 n) ->
  mpsc_inv k (MpscState h t (b.[t0 <- item]) m (delete p ps) c cl po).
Proof using Hk.
  intros [] Hp. simpl in *. pose proof mcap_pos.
  pose proof (minv_prods0 _ _ Hp) as (Hn & -> & Hitem).
  split; simpl; try done.
  - by rewrite zlen_arr_set.
  - intros i x Hi Hx. destruct (decide (i = n)) as [->|Hne].
    + left. simplify_eq. apply arr_get_set_eq. rewrite minv_buf0. by apply Z.mod_pos_bound.
    + destruct (minv_slots0 i x Hi Hx) as [Hb|(q & t1 & Hq)].
      * left. apply lookup_lt_Some in Hx. unfold zlen in *.
        rewrite arr_get_set_ne; [done|apply Z.mod_pos_bound; lia..|].
        intros Heq. destruct (decide (i <= n)%nat).
        -- apply mod_window in Heq; lia.
        -- symmetry in Heq. apply mod_window in Heq; lia.
      * right. exists q, t1. rewrite lookup_delete_ne; [done|]. intros ->. congruence.
  - intros q q' x t1 x' t1' n' Hq Hq'.
    apply lookup_delete_Some in Hq as [_ Hq]. apply lookup_delete_Some in Hq' as [_ Hq']. eauto.
  - intros q pc Hq. apply lookup_delete_Some in Hq as [_ Hq]. eauto.
  - unfold mcons_ok in *; simpl in *. destruct c; try done.
    destruct minv_cons0 as (-> & Hv & Hno). split_and!; try done.
    intros q it t1 n' Hq. apply lookup_delete_Some in Hq as [_ Hq]. eauto.
Qed.

Lemma mprod_step_inv p s s' :
  mpsc_inv k s -> mprod_step p s s' -> no_aba s s' -> mpsc_inv k s'.
Proof using Hk.
  intros Hinv Hstep Haba. pose proof mcap_pos.
  destruct Hstep as
    [h t b m ps c cl po item Hp|h t b m ps c cl po item Hp|h t b m ps c cl po item t0 n Hp Hf
    |h t b m ps c cl po item t0 n Hp Hf|h b m ps c cl po item t0 next n Hp
    |h t b m ps c cl po item t0 next n Hp|h t b m ps c cl po item t0 n Hp].
  - apply inv_insert; try done. intros pc0. by rewrite Hp.
  - apply inv_insert; try done; [by intros; simplify_eq|]. simpl.
    destruct Hinv; simpl in *. unfold zlen in *. split; [lia|done].
  - eapply inv_frame; [done|apply writes_delete; by intros; simplify_eq|].
    intros q pc Hq. apply lookup_delete_Some in Hq as [_ Hq].
    by apply (minv_prods _ _ Hinv) in Hq.
  - apply inv_insert; try done; [by intros; simplify_eq|].
    destruct Hinv; simpl in *. pose proof (minv_prods0 _ _ Hp) as [Hn ->].
    rewrite minv_mask0, q_next_pow2, Zplus_mod_idemp_l in * by lia.
    split_and!; try done. intros HT. rewrite HT in Hf.
    destruct (decide (zlen cl + 1 - zlen po = 2 ^ k)) as [E|E]; [|lia].
    destruct Hf. rewrite minv_head0.
    replace (zlen cl + 1) with (zlen po + 1 * 2 ^ k) by lia. by rewrite Z.mod_add by lia.
  - pose proof (minv_prods _ _ Hinv _ _ Hp) as Hok. simpl in Hok.
    destruct Hok as (_ & -> & _).
    assert (n = length cl) as ->.
    { eapply Haba; simpl; [done|]. by rewrite lookup_insert_eq. }
    by apply inv_claim.
  - apply inv_insert; try done. by intros; simplify_eq.
  - by eapply inv_write.
Qed.

Lemma mcons_step_inv s s' :
  mpsc_inv k s -> mcons_step s s' -> no_early_read s s' -> mpsc_inv k s'.
Proof using Hk.
  intros Hinv Hstep Hearly. pose proof mcap_pos.
  destruct Hstep as
    [h t b m ps cl po|h t b m ps cl po h0|h t b m ps cl po h0 t0 Heq
    |h t b m ps cl po h0 t0 Hne|h t b m ps cl po v next];
    destruct Hinv; unfold mcons_ok in *; simpl in *.
  - by split.
  - split; try done. unfold mcons_ok; simpl. split; [done|]. exists (zlen cl). split; [lia|done].
  - by split.
  - destruct minv_cons0 as (-> & T0 & HT0 & ->).
    assert (zlen po < T0) as Hlt.
    { destruct (decide (zlen po = T0)) as [E|E]; [|lia]. by destruct Hne; rewrite E. }
    unfold zlen in *.
    destruct (lookup_lt_is_Some_2 cl (length po) ltac:(lia)) as [x Hx].
    split; try done. unfold mcons_ok; simpl. rewrite minv_mask0, q_next_pow2 by lia.
    rewrite Zplus_mod_idemp_l. split_and!; [done| |].
    + rewrite Hx. f_equal. destruct (minv_slots0 _ _ (Nat.le_refl _) Hx) as [<-|(p & t0 & Hp)].
      * done.
      * pose proof (minv_prods0 _ _ Hp) as (_ & -> & _).
        by destruct (Hearly _ _ _ _ p x (length po) eq_refl eq_refl).
    + intros p item t1 n Hp ->. pose proof (minv_prods0 _ _ Hp) as (_ & -> & _).
      by destruct (Hearly _ _ _ _ p item (length po) eq_refl eq_refl).
  - destruct minv_cons0 as (-> & Hv & Hno). pose proof (lookup_lt_Some _ _ _ Hv).
    unfold zlen in *.
    split; simpl; try done; unfold zlen; rewrite ?length_app; simpl; try lia.
    + rewrite minv_fifo0 at 1. rewrite Nat.add_1_r. symmetry. by apply take_S_r.
    + intros i x Hi. apply minv_slots0. lia.
    + intros p pc Hp. pose proof (Hno p) as Hnp. apply minv_prods0 in Hp as Hok.
      destruct pc; simpl in *; try done.
      * destruct Hok as (? & ? & ? & ?). split_and!; try done. lia.
      * destruct Hok as (? & ? & ?). pose proof (Hnp _ _ _ Hp). split_and!; try done; lia.
Qed.

Lemma orderly_inv (buf : list A) s :
  zlen buf = 2 ^ k -> rtc orderly_step (mpsc_start buf) s -> mpsc_inv k s.
Proof using Hk.
  intros Hlen Hr. apply (rtc_ind_r (mpsc_inv k) (mpsc_start buf)) in Hr; [done|by apply mstart_inv|].
  intros y z _ ([[p Hp]|Hc] & Haba & Hearly) Hy; eauto using mprod_step_inv, mcons_step_inv.
Qed.

End mpsc_conc.

Section mpsc_conc_properties.
Context {A : Type} `{!Inhabited A}.

(** C9: In every execution in which no claim is interleaved between a push's
    load of [tail] and its successful compare-and-swap, and the consumer never
    reads a slot whose claimed write is outstanding, the MPSC queue is a FIFO:
    with any number of producers, the elements popped are the first elements
    claimed, in claim order, and at most [capacity - 1] are in flight. *)
Theorem mpsc_orderly_fifo (k : Z) (buf : list A) (s : mpsc_state A) :
  1 <= k < 64 -> zlen buf = 2 ^ k -> rtc orderly_step (mpsc_start buf) s ->
  m_popped s = take (length (m_popped s)) (m_claimed s) /\
  0 <= zlen (m_claimed s) - zlen (m_popped s) <= 2 ^ k - 1.
Proof.
  intros Hk Hlen Hr. destruct (orderly_inv k Hk buf s Hlen Hr). split; [done|lia].
Qed.

(** A push publishes its slot before it writes it: over any initialised
    queue and for any item, there is an execution in which the pop returns the
    value the slot held before, while the item is claimed and not yet written. *)
Theorem mpsc_reads_unwritten_slot (k : Z) (buf : list A) (item : A) :
  1 <= k < 64 -> zlen buf = 2 ^ k ->
  exists s, rtc mpsc_step (mpsc_start buf) s /\
    m_claimed s = [item] /\ m_popped s = [buf.[0]] /\
    m_prods s = {[0%nat := MWrite item 0 0]}.
Proof.
  intros Hk Hlen. pose proof (pow2_le_64 k ltac:(lia)).
  assert (u64 (zlen buf - 1) = 2 ^ k - 1) as Hm by (rewrite Hlen; apply u64_small; blia).
  assert (2 ^ 1 <= 2 ^ k) by (apply Z.pow_le_mono_r; lia).
  assert (q_next (2 ^ k - 1) 0 = 1) as Hn
    by (rewrite q_next_pow2 by lia; apply Z.mod_small; lia).
  eexists. split.
  - unfold mpsc_start. rewrite Hm.
    eapply rtc_l; [left; exists O; by apply (mprod_call _ _ _ _ _ _ _ _ _ item)|].
    eapply rtc_l; [left; exists O; apply (mprod_load_tail _ _ _ _ _ _ _ _ _ item);
      by rewrite lookup_insert_eq|].
    eapply rtc_l; [left; exists O; apply (mprod_load_head _ _ _ _ _ _ _ _ _ item 0 0);
      [by rewrite lookup_insert_eq|by rewrite Hn]|].
    eapply rtc_l; [left; exists O; eapply mprod_cas; by rewrite lookup_insert_eq|].
    eapply rtc_l; [right; apply mcons_load_head|].
    eapply rtc_l; [right; apply mcons_load_tail|].
    eapply rtc_l; [right; apply mcons_read; by rewrite Hn|].
    eapply rtc_l; [right; apply mcons_store_head|].
    apply rtc_refl.
  - done.
Qed.

End mpsc_conc_properties.

(** ** Pushes and pops that run undisturbed

    A push (a pop) of which no access is interleaved with another thread's is
    the sequential [MPSC_PUSH] ([MPSC_POP]) of [Queue]. *)
Section isolated.
Context {A : Type} `{!Inhabited A}.
Implicit Types (ps : gmap nat (mpc A)) (cl po : list A).

Lemma isolated_push p x h t b m ps c cl po q :
  ps !! p = None -> MPSC_PUSH x (Queue h t b m) = (true, q) ->
  rtc mpsc_step (MpscState h t b m ps c cl po)
    (MpscState (q_head q) (q_tail q) (q_buffer q) m ps c (cl ++ [x]) po).
Proof.
  intros Hp. unfold MPSC_PUSH; simpl. unfold mpsc_push_round; simpl.
  destruct (Z.eqb_spec (q_next m t) h) as [E|E]; simpl; intros ?; simplify_eq; simpl.
  eapply rtc_l; [left; exists p; by apply (mprod_call _ _ _ _ _ _ _ _ _ x)|].
  eapply rtc_l; [left; exists p; apply mprod_load_tail; by rewrite lookup_insert_eq|].
  eapply rtc_l; [left; exists p; eapply mprod_load_head; [by rewrite lookup_insert_eq|done]|].
  eapply rtc_l; [left; exists p; eapply mprod_cas; by rewrite lookup_insert_eq|].
  eapply rtc_l; [left; exists p; eapply mprod_write; by rewrite lookup_insert_eq|].
  rewrite !insert_insert_eq, delete_insert_id by done. apply rtc_refl.
Qed.

Lemma isolated_pop h t b m ps cl po v q :
  MPSC_POP (Queue h t b m) = (Some v, q) ->
  rtc mpsc_step (MpscState h t b m ps MCIdle cl po)
    (MpscState (q_head q) (q_tail q) (q_buffer q) m ps MCIdle cl (po ++ [v])).
Proof.
  unfold MPSC_POP; simpl.
  destruct (Z.eqb_spec h t) as [E|E]; simpl; intros ?; simplify_eq; simpl.
  eapply rtc_l; [right; apply mcons_load_head|].
  eapply rtc_l; [right; apply mcons_load_tail|].
  eapply rtc_l; [right; by apply mcons_read|].
  eapply rtc_l; [right; apply mcons_store_head|].
  apply rtc_refl.
Qed.

End isolated.

(** The compare-and-swap of the push cannot tell a tail that came round
    the ring from one that did not move: in a queue of four slots there is an
    execution after which five items are claimed and one popped, yet head and
    tail are equal, so the next pop reports an empty queue and four items are
    lost (the queue admits one more than its three free slots). *)
Theorem mpsc_aba_loses :
  exists s : mpsc_state Z, rtc mpsc_step (mpsc_start [0; 0; 0; 0]) s /\
    m_claimed s = [1; 2; 3; 4; 99] /\ m_popped s = [1] /\ m_prods s = ∅ /\
    m_head s = m_tail s /\
    fst (MPSC_POP (Queue (m_head s) (m_tail s) (m_buffer s) (m_mask s))) = None.
Proof.
  eexists. split.
  - unfold mpsc_start.
    eapply rtc_l; [left; exists O; by apply (mprod_call _ _ _ _ _ _ _ _ _ 99)|].
    eapply rtc_l; [left; exists O; apply mprod_load_tail; by rewrite lookup_insert_eq|].
    eapply rtc_l; [left; exists O; eapply mprod_load_head; [by rewrite lookup_insert_eq|done]|].
    rewrite !insert_insert_eq.
    etrans; [by apply (isolated_push 1 1)|]; simpl.
    etrans; [by apply (isolated_push 1 2)|]; simpl.
    etrans; [by apply (isolated_push 1 3)|]; simpl.
    etrans; [by apply isolated_pop|]; simpl.
    etrans; [by apply (isolated_push 1 4)|]; simpl.
    eapply rtc_l; [left; exists O; eapply mprod_cas; by rewrite lookup_insert_eq|].
    eapply rtc_l; [left; exists O; eapply mprod_write; by rewrite lookup_insert_eq|].
    apply rtc_refl.
  - done.
Qed.

(** An orderly run: two producers claim and write in turn. *)
Definition example_orderly : mpsc_state Z :=
  MpscState 0 1 [7; 0; 0; 0] 3 ∅ MCIdle [7] [].

Lemma example_orderly_reachable : rtc orderly_step (mpsc_start [0; 0; 0; 0]) example_orderly.
Proof.
  unfold example_orderly, mpsc_start.
  eapply rtc_l; [split_and!; [left; exists O; by apply (mprod_call _ _ _ _ _ _ _ _ _ 7)
    |by intros ?; intros; simplify_map_eq|done]|].
  eapply rtc_l; [split_and!; [left; exists O; by apply (mprod_load_tail _ _ _ _ _ _ _ _ _ 7)
    |intros [|p]; intros; by simplify_map_eq|done]|].
  eapply rtc_l; [split_and!; [left; exists O; by apply (mprod_load_head _ _ _ _ _ _ _ _ _ 7 0 0)
    |intros [|p]; intros; by simplify_map_eq|done]|].
  eapply rtc_l; [split_and!; [left; exists O; by apply (mprod_cas _ _ _ _ _ _ _ _ 7 0 1 0)
    |intros [|p]; intros; by simplify_map_eq|done]|].
  eapply rtc_l; [split_and!; [left; exists O; by apply (mprod_write _ _ _ _ _ _ _ _ _ 7 0 0)
    |intros [|p]; intros; by simplify_map_eq|done]|].
  apply rtc_refl.
Defined.

Lemma mpsc_orderly_fifo_witness :
  m_popped example_orderly
    = take (length (m_popped example_orderly)) (m_claimed example_orderly).
Proof.
  exact (proj1 (mpsc_orderly_fifo 2 [0; 0; 0; 0] example_orderly ltac:(lia) eq_refl
    example_orderly_reachable)).
Defined.

Lemma mpsc_reads_unwritten_slot_witness :
  exists s : mpsc_state Z, rtc mpsc_step (mpsc_start [13; 0; 0; 0]) s /\
    m_claimed s = [7] /\ m_popped s = [13] /\ m_prods s = {[0%nat := MWrite 7 0 0]}.
Proof. exact (mpsc_reads_unwritten_slot 2 [13; 0; 0; 0] 7 ltac:(lia) eq_refl). Defined.
