(* ===== verification/Disruptor.v ===== *)
(** * The C side of the disruptor ring

    Models the C macros and functions of [src/src/include/bt_disruptor.h]. The
    initialisation macro and the two generic functions see the object through
    different layouts: the struct of [BT_DISRUPTOR_DEF] has its [committed]
    array one cache line after the start, the generic struct one cache line
    after the eight bytes of the cursor. The object is therefore the list of
    its 64-bit words. *)

From S2P Require Import Prelude.

(** Words from the start of the object. *)
Definition def_committed : Z := 8.
Definition gen_committed : Z := 9.

(** [(size_t)(-1)]. *)
Definition NONE : Z := 2 ^ 64 - 1.

(** The loop of [BT_DISRUPTOR_INIT] over the [committed] array. *)
Fixpoint init_committed (n : nat) (i : Z) (mem : list Z) : list Z :=
  match n with
  | O => mem
  | S n => init_committed n (i + 1) (arr_set mem (def_committed + i) NONE)
  end.

(** [BT_DISRUPTOR_INIT]; the mask lies behind the buffer and is not read by
    the functions below. *)
Definition BT_DISRUPTOR_INIT (capacity : Z) (mem : list Z) : list Z :=
  init_committed (Z.to_nat capacity) 0 (arr_set mem 0 0).

(** The placeholder returns 0 whatever the state. *)
Definition bt_disruptor_claim (mem : list Z) : Z := 0.

(** [bt_disruptor_claim_c] by one thread, whose compare-and-swap succeeds. *)
Definition bt_disruptor_claim_c (capacity : Z) (mem : list Z) : Z * list Z :=
  let mask := u64 (capacity - 1) in
  let seq := mem.[0] in
  let next := u64 (seq + 1) in
  let wrap_point := u64 (next - capacity) in
  let c := mem.[gen_committed + Z.land wrap_point mask] in
  if negb (c =? NONE) && (c <=? wrap_point) then (NONE, mem)
  else (seq, arr_set mem 0 next).

Definition bt_disruptor_commit_c (seq capacity : Z) (mem : list Z) : list Z :=
  let mask := u64 (capacity - 1) in
  arr_set mem (gen_committed + Z.land seq mask) seq.

(** A producer that claims and commits [n] times; it stops claiming when the
    ring is full. *)
Fixpoint produce (n : nat) (capacity : Z) (mem : list Z) : list Z * list Z :=
  match n with
  | O => ([], mem)
  | S n =>
      let '(seq, mem) := bt_disruptor_claim_c capacity mem in
      let mem := if seq =? NONE then mem else bt_disruptor_commit_c seq capacity mem in
      let '(seqs, mem) := produce n capacity mem in (seq :: seqs, mem)
  end.

Section disruptor.
Context (k : Z) (Hk : 3 <= k <= 32).
Local Abbreviation cap := (2 ^ k).

Lemma cap_bounds : 8 <= cap <= 2 ^ 32.
Proof using Hk.
  split; [change 8 with (2 ^ 3)|]; apply Z.pow_le_mono_r; lia.
Qed.

Lemma ring_mask_mod x : Z.land x (u64 (cap - 1)) = x mod cap.
Proof using Hk.
  pose proof cap_bounds. rewrite u64_small by (unfold is_u64; lia). apply land_mask. lia.
Qed.

(** The slot the claim of [seq] looks at is that of [seq + 1]. *)
Lemma wrap_slot seq : 0 <= seq < 2 ^ 63 -> Z.land (u64 (u64 (seq + 1) - cap)) (u64 (cap - 1)) = (seq + 1) mod cap.
Proof using Hk.
  intros Hs. pose proof cap_bounds. rewrite ring_mask_mod. unfold u64 at 1.
  rewrite mod_pow2_pow2 by lia. rewrite (u64_small (seq + 1)) by (unfold is_u64; lia).
  replace (seq + 1 - cap) with (seq + 1 + (-1) * cap) by lia. apply Z.mod_add. lia.
Qed.

(** After [i] committed claims: the words before [i] hold their sequence
    numbers, those up to the end of the declared array are free, and the word
    behind it belongs to the buffer. *)
Record at_step (w i : Z) (mem : list Z) : Prop := {
  d_len : gen_committed + cap <= zlen mem;
  d_cursor : mem.[0] = i;
  d_done : forall j, 0 <= j < i -> mem.[gen_committed + j] = j;
  d_free : forall j, i <= j < cap - 1 -> mem.[gen_committed + j] = NONE;
  d_buffer : mem.[gen_committed + (cap - 1)] = w;
}.

Lemma init_committed_get n i mem j :
  0 <= i -> def_committed + i + Z.of_nat n <= zlen mem -> 0 <= j ->
  (init_committed n i mem).[j] =
  (if decide (def_committed + i <= j < def_committed + i + Z.of_nat n) then NONE else mem.[j]) /\
  zlen (init_committed n i mem) = zlen mem.
Proof using.
  revert i mem. induction n as [|n IH]; intros i mem Hi Hlen Hj; cbn [init_committed].
  - rewrite decide_False by lia. done.
  - destruct (IH (i + 1) (arr_set mem (def_committed + i) NONE)) as [-> ->];
      [lia|rewrite zlen_arr_set; lia|lia|].
    rewrite zlen_arr_set. split; [|done]. unfold def_committed in *.
    destruct (decide (j = 8 + i)) as [->|Hne].
    + rewrite decide_False, decide_True by lia. apply arr_get_set_eq. lia.
    + rewrite arr_get_set_ne by lia. repeat case_decide; try done; lia.
Qed.

Lemma init_step mem :
  gen_committed + cap <= zlen mem ->
  at_step (mem.[gen_committed + (cap - 1)]) 0 (BT_DISRUPTOR_INIT cap mem).
Proof using Hk.
  intros Hlen. pose proof cap_bounds. unfold BT_DISRUPTOR_INIT, gen_committed in *.
  assert (forall j, 0 <= j -> (init_committed (Z.to_nat cap) 0 (arr_set mem 0 0)).[j] =
    (if decide (8 <= j < 8 + cap) then NONE else (arr_set mem 0 0).[j]) /\
    zlen (init_committed (Z.to_nat cap) 0 (arr_set mem 0 0)) = zlen mem) as Hget.
  { intros j Hj. destruct (init_committed_get (Z.to_nat cap) 0 (arr_set mem 0 0) j) as [-> ->];
      [lia|unfold def_committed; rewrite zlen_arr_set; lia|lia|].
    unfold def_committed. rewrite Z2Nat.id, zlen_arr_set by lia. by rewrite Z.add_0_r. }
  split.
  - by rewrite (proj2 (Hget 0 ltac:(lia))).
  - rewrite (proj1 (Hget 0 ltac:(lia))), decide_False by lia. apply arr_get_set_eq. lia.
  - lia.
  - intros j Hj. unfold gen_committed. by rewrite (proj1 (Hget (9 + j) ltac:(lia))), decide_True by lia.
  - unfold gen_committed.
    rewrite (proj1 (Hget (9 + (cap - 1)) ltac:(lia))), decide_False by lia. apply arr_get_set_ne; lia.
Qed.

(** A claim that succeeds, followed by its commit. *)
Lemma claim_commit w i mem :
  at_step w i mem -> 0 <= i < cap - 2 ->
  exists mem', bt_disruptor_claim_c cap mem = (i, mem') /\
    at_step w (i + 1) (bt_disruptor_commit_c i cap mem').
Proof using Hk.
  intros [Hlen Hc Hd Hf Hb] Hi. pose proof cap_bounds. unfold bt_disruptor_claim_c. rewrite Hc.
  rewrite wrap_slot, (Z.mod_small (i + 1)) by lia. rewrite Hf by lia. rewrite Z.eqb_refl. cbn [negb andb].
  eexists. split; [reflexivity|]. unfold bt_disruptor_commit_c.
  rewrite ring_mask_mod, (Z.mod_small i), (u64_small (i + 1)) by (unfold is_u64; lia).
  unfold gen_committed in *.
  assert (forall j, 0 <= j -> (arr_set (arr_set mem 0 (i + 1)) (9 + i) i).[9 + j] =
    if decide (j = i) then i else mem.[9 + j]) as Hget.
  { intros j Hj. case_decide as E.
    - rewrite E. apply arr_get_set_eq. rewrite zlen_arr_set. lia.
    - rewrite !arr_get_set_ne by lia. done. }
  split; unfold gen_committed.
  - by rewrite !zlen_arr_set.
  - rewrite arr_get_set_ne by lia. apply arr_get_set_eq. lia.
  - intros j Hj. rewrite Hget by lia. case_decide; [done|]. apply Hd. lia.
  - intros j Hj. rewrite Hget, decide_False by lia. apply Hf. lia.
  - rewrite Hget, decide_False by lia. done.
Qed.

(** The ring is full once the next slot is the word behind the array. *)
Lemma claim_full w mem :
  at_step w (cap - 2) mem -> is_u64 w -> w <> NONE -> bt_disruptor_claim_c cap mem = (NONE, mem).
Proof using Hk.
  intros [Hlen Hc Hd Hf Hb] Hw Hne. pose proof cap_bounds. unfold bt_disruptor_claim_c. rewrite Hc.
  rewrite wrap_slot, (Z.mod_small (cap - 2 + 1)) by lia.
  replace (cap - 2 + 1) with (cap - 1) by lia. rewrite Hb.
  rewrite (u64_small (cap - 1)) by (unfold is_u64; lia).
  replace (cap - 1 - cap) with (-1) by lia. change (u64 (-1)) with NONE.
  rewrite (proj2 (Z.eqb_neq w NONE)), (proj2 (Z.leb_le w NONE)); [done| |done].
  unfold is_u64, NONE in *. lia.
Qed.

Lemma produce_full n w mem :
  at_step w (cap - 2) mem -> is_u64 w -> w <> NONE -> produce n cap mem = (replicate n NONE, mem).
Proof using Hk.
  intros Hs Hw Hne. induction n as [|n IH]; cbn [produce]; [done|].
  rewrite (claim_full w) by done. rewrite Z.eqb_refl, IH. done.
Qed.

Lemma produce_all m w i n mem :
  at_step w i mem -> 0 <= i -> i + Z.of_nat m = cap - 2 -> is_u64 w -> w <> NONE ->
  fst (produce (m + n) cap mem) = seqZ i (Z.of_nat m) ++ replicate n NONE.
Proof using Hk.
  revert i mem. induction m as [|m IH]; intros i mem Hs Hi Him Hw Hne.
  - replace i with (cap - 2) in Hs by lia. rewrite (produce_full _ w) by done. by rewrite seqZ_nil by lia.
  - destruct (claim_commit w i mem Hs ltac:(lia)) as (mem' & E & Hs').
    pose proof cap_bounds. cbn [produce Nat.add]. rewrite E.
    rewrite (proj2 (Z.eqb_neq i NONE)) by (unfold NONE; lia).
    specialize (IH (i + 1) _ Hs' ltac:(lia) ltac:(lia) Hw Hne).
    destruct (produce (m + n) cap _) as [seqs mem2] eqn:Ep. simpl in *. rewrite IH.
    rewrite (seqZ_cons i (Z.of_nat (S m))) by lia.
    replace (Z.pred (Z.of_nat (S m))) with (Z.of_nat m) by lia. done.
Qed.

End disruptor.

(** ** What the ring does *)

(** Nothing ever releases a slot: on an initialised ring whose buffer does not
    start with a word of ones, a producer that commits what it claims gets the
    sequence numbers below [capacity - 2], and is told that the ring is full
    for ever after, however much has been consumed. *)
Theorem disruptor_fills_for_ever (k : Z) (n : nat) (mem : list Z) :
  3 <= k <= 32 -> gen_committed + 2 ^ k <= zlen mem ->
  is_u64 (mem.[gen_committed + (2 ^ k - 1)]) -> mem.[gen_committed + (2 ^ k - 1)] <> NONE ->
  fst (produce (Z.to_nat (2 ^ k - 2) + n) (2 ^ k) (BT_DISRUPTOR_INIT (2 ^ k) mem)) =
  seqZ 0 (2 ^ k - 2) ++ replicate n NONE.
Proof.
  intros Hk Hlen Hw Hne. pose proof (cap_bounds k Hk).
  rewrite (produce_all k Hk _ (mem.[gen_committed + (2 ^ k - 1)]) 0);
    [by rewrite Z2Nat.id by lia|by apply init_step|lia|lia|done|done].
Qed.
