(* ===== verification/HashMap.v ===== *)
(** * The open-addressing hash map

    Models [src/src/include/bt_hashmap.h]: a table of (key, pointer) entries
    with linear probing, tombstones and doubling. Pointers are addresses:
    0 is [NULL] and 1 is [BT_HASHMAP_TOMBSTONE]. Whether [calloc] delivers a
    table of a given capacity is a parameter. The refinement theorems are in
    [HashMapProofs]. *)

From S2P Require Import Prelude.

Definition BT_HASHMAP_LOAD_FACTOR_NUM : Z := 3.
Definition BT_HASHMAP_LOAD_FACTOR_DEN : Z := 4.
Definition BT_HASHMAP_TOMBSTONE : Z := 1.

(** [bt_hashmap_entry_t]. *)
Record entry := Entry { e_key : Z; e_value : Z }.

#[export] Instance entry_eq_dec : EqDecision entry.
Proof. solve_decision. Defined.

(** A slot of a zeroed table. *)
Definition empty_entry : entry := Entry 0 0.
#[export] Instance entry_inhabited : Inhabited entry := populate empty_entry.

(** [bt_hashmap_t]; [entries] is [None] for a null pointer. *)
Record hashmap := HashMap {
  hm_entries : option (list entry);
  hm_capacity : Z;
  hm_count : Z;
  hm_tombstones : Z;
  hm_owned : Z;
}.

Definition hm_probe (key i cap : Z) : Z := Z.land (u64 (key + i)) (u64 (cap - 1)).

Definition calloc_entries (cap : Z) : list entry := replicate (Z.to_nat cap) empty_entry.

(** The rounding loop of [bt_hashmap_init], [while (cap < capacity) cap <<= 1];
    [None] when [fuel] iterations are not enough. *)
Fixpoint round_cap (fuel : nat) (cap capacity : Z) : option Z :=
  if cap <? capacity then
    match fuel with
    | O => None
    | S fuel => round_cap fuel (u64 (Z.shiftl cap 1)) capacity
    end
  else Some cap.

(** The return code and the map the call leaves; the outer option is [None]
    when the loop does not end. [m] is [None] for a null pointer. *)
Definition bt_hashmap_init (calloc : Z -> bool) (m : option hashmap) (capacity : Z)
  : option (Z * option hashmap) :=
  match m with
  | None => Some (-1, None)
  | Some m =>
      if capacity <? 8 then Some (-1, Some m)
      else
        cap ← round_cap 64 8 capacity;
        Some (if calloc cap
              then (0, Some (HashMap (Some (calloc_entries cap)) cap 0 0 1))
              else (-1, Some (HashMap None (hm_capacity m) (hm_count m)
                                (hm_tombstones m) (hm_owned m))))
  end.

(** [None]: the null pointer is dereferenced by the last assignment. *)
Definition bt_hashmap_destroy (m : option hashmap) : option hashmap :=
  m ← m;
  let entries := if (negb (hm_owned m =? 0)) then None else hm_entries m in
  Some (HashMap entries 0 0 0 (hm_owned m)).

(** What the probe loop of [bt_hashmap_put] finds: a slot to fill, the key, or
    nothing after [capacity] probes. *)
Inductive put_outcome := PutSlot (idx : Z) | PutDup | PutNone.

Fixpoint put_loop (es : list entry) (cap key i : Z) (n : nat) : put_outcome :=
  match n with
  | O => PutNone
  | S n =>
      let idx := hm_probe key i cap in
      if (e_value es.[idx] =? 0) || (e_value es.[idx] =? BT_HASHMAP_TOMBSTONE)
      then PutSlot idx
      else if e_key es.[idx] =? key then PutDup
      else put_loop es cap key (i + 1) n
  end.

(** The probing part of [bt_hashmap_put]. The tombstone test comes after the
    assignment of the slot, so it looks at the value just stored. *)
Definition put_probe (m : hashmap) (es : list entry) (key value : Z) : Z * hashmap :=
  match put_loop es (hm_capacity m) key 0 (Z.to_nat (hm_capacity m)) with
  | PutSlot idx =>
      let es' := es.[idx <- Entry key value] in
      let tombs := if e_value es'.[idx] =? BT_HASHMAP_TOMBSTONE
                   then u64 (hm_tombstones m - 1) else hm_tombstones m in
      (0, HashMap (Some es') (hm_capacity m) (u64 (hm_count m + 1)) tombs (hm_owned m))
  | PutDup => (-1, m)
  | PutNone => (-1, m)
  end.

(** The copying loop of [_hm_resize]; [put] is [bt_hashmap_put]. *)
Fixpoint resize_loop (put : hashmap -> Z -> Z -> option (Z * hashmap))
    (old : list entry) (m : hashmap) : option hashmap :=
  match old with
  | [] => Some m
  | e :: old =>
      if negb (e_value e =? 0) && negb (e_value e =? BT_HASHMAP_TOMBSTONE)
      then '(_, m') ← put m (e_key e) (e_value e); resize_loop put old m'
      else resize_loop put old m
  end.

Definition hm_resize (calloc : Z -> bool)
    (put : hashmap -> Z -> Z -> option (Z * hashmap))
    (m : hashmap) (old : list entry) (new_cap : Z) : option (Z * hashmap) :=
  if calloc new_cap then
    m' ← resize_loop put old
           (HashMap (Some (calloc_entries new_cap)) new_cap 0 0 (hm_owned m));
    Some (0, m')
  else Some (-1, m).

(** [bt_hashmap_put] calls [_hm_resize], which calls [bt_hashmap_put]: [depth]
    bounds the nesting and [None] reports that it was not enough. *)
Fixpoint put_depth (depth : nat) (calloc : Z -> bool) (m : hashmap) (key value : Z)
  : option (Z * hashmap) :=
  match depth with
  | O => None
  | S depth =>
      match hm_entries m with
      | None => Some (-1, m)
      | Some es =>
          if value =? 0 then Some (-1, m)
          else if u64 (hm_capacity m * BT_HASHMAP_LOAD_FACTOR_NUM)
                    <=? u64 (u64 (hm_count m + hm_tombstones m)
                             * BT_HASHMAP_LOAD_FACTOR_DEN)
          then '(rc, m') ← hm_resize calloc (put_depth depth calloc) m es
                             (u64 (hm_capacity m * 2));
               if negb (rc =? 0) then Some (-1, m')
               else match hm_entries m' with
                    | Some es' => Some (put_probe m' es' key value)
                    | None => Some (-1, m')
                    end
          else Some (put_probe m es key value)
      end
  end.

(** Two levels are enough: [put_depth_enough] in [HashMapProofs]. *)
Definition bt_hashmap_put (calloc : Z -> bool) (m : option hashmap) (key value : Z)
  : option (Z * option hashmap) :=
  match m with
  | None => Some (-1, None)
  | Some m => '(rc, m') ← put_depth 2 calloc m key value; Some (rc, Some m')
  end.

Fixpoint get_loop (es : list entry) (cap key i : Z) (n : nat) : Z :=
  match n with
  | O => 0
  | S n =>
      let idx := hm_probe key i cap in
      if e_value es.[idx] =? 0 then 0
      else if negb (e_value es.[idx] =? BT_HASHMAP_TOMBSTONE) && (e_key es.[idx] =? key)
      then e_value es.[idx]
      else get_loop es cap key (i + 1) n
  end.

Definition bt_hashmap_get (m : option hashmap) (key : Z) : Z :=
  match m with
  | None => 0
  | Some m =>
      match hm_entries m with
      | None => 0
      | Some es => get_loop es (hm_capacity m) key 0 (Z.to_nat (hm_capacity m))
      end
  end.

(** The slot [bt_hashmap_remove] turns into a tombstone, if any. *)
Fixpoint remove_loop (es : list entry) (cap key i : Z) (n : nat) : option Z :=
  match n with
  | O => None
  | S n =>
      let idx := hm_probe key i cap in
      if e_value es.[idx] =? 0 then None
      else if negb (e_value es.[idx] =? BT_HASHMAP_TOMBSTONE) && (e_key es.[idx] =? key)
      then Some idx
      else remove_loop es cap key (i + 1) n
  end.

Definition bt_hashmap_remove (m : option hashmap) (key : Z) : Z * option hashmap :=
  match m with
  | None => (-1, None)
  | Some m =>
      match hm_entries m with
      | None => (-1, Some m)
      | Some es =>
          match remove_loop es (hm_capacity m) key 0 (Z.to_nat (hm_capacity m)) with
          | None => (-1, Some m)
          | Some idx =>
              (0, Some (HashMap (Some (es.[idx <- Entry (e_key es.[idx]) BT_HASHMAP_TOMBSTONE]))
                          (hm_capacity m) (u64 (hm_count m - 1))
                          (u64 (hm_tombstones m + 1)) (hm_owned m)))
          end
      end
  end.

Definition bt_hashmap_size (m : option hashmap) : Z :=
  match m with Some m => hm_count m | None => 0 end.

Definition bt_hashmap_clear (m : option hashmap) : option hashmap :=
  m ← m;
  match hm_entries m with
  | None => Some m
  | Some _ => Some (HashMap (Some (calloc_entries (hm_capacity m)))
                      (hm_capacity m) 0 0 (hm_owned m))
  end.
