(* ===== verification/HashMapProofs.v ===== *)
(** * The hash map refines a finite map

    The table invariant, the specification of the probe loops against the
    abstract map [abs], the bound on the mutual recursion of insertion and
    resizing, and the refinement of whole runs of client calls. *)

From S2P Require Import Prelude HashMap.

(** ** The abstract map of a table *)

Definition occ (e : entry) : bool := negb (e_value e =? 0).
Definition live (e : entry) : bool :=
  negb (e_value e =? 0) && negb (e_value e =? BT_HASHMAP_TOMBSTONE).

Definition abs (es : list entry) : gmap Z Z :=
  foldr (fun e σ => if live e then <[e_key e := e_value e]> σ else σ) ∅ es.

(** The number of entries satisfying a test. *)
Fixpoint cnt (P : entry -> bool) (es : list entry) : Z :=
  match es with
  | [] => 0
  | e :: es => Z.b2z (P e) + cnt P es
  end.

(** [es] is a table of [2^k] slots in which every live entry is reached from
    its home slot through occupied slots, and keys are unique. *)
Record tab_ok (k : Z) (es : list entry) : Prop := {
  t_len : zlen es = 2 ^ k;
  t_path : forall idx, 0 <= idx < 2 ^ k -> live es.[idx] = true ->
    forall j, 0 <= j < (idx - e_key es.[idx]) mod 2 ^ k ->
      occ es.[(e_key es.[idx] + j) mod 2 ^ k] = true;
  t_uniq : forall i j, 0 <= i < 2 ^ k -> 0 <= j < 2 ^ k ->
    live es.[i] = true -> live es.[j] = true ->
    e_key es.[i] = e_key es.[j] -> i = j;
}.

(** A map in use. The counter [tombstones] is only an upper bound: it is not
    decremented when a slot is reused. *)
Record hm_wf (k : Z) (m : hashmap) (es : list entry) : Prop := {
  w_k : 3 <= k <= 59;
  w_entries : hm_entries m = Some es;
  w_cap : hm_capacity m = 2 ^ k;
  w_tab : tab_ok k es;
  w_count : hm_count m = cnt live es;
  w_tombs : 0 <= hm_tombstones m;
  w_occ : cnt occ es <= hm_count m + hm_tombstones m;
  w_load : 4 * (hm_count m + hm_tombstones m) <= 3 * 2 ^ k;
}.

Lemma live_occ e : live e = true -> occ e = true.
Proof. unfold live, occ. by intros [? _]%andb_prop. Qed.

(** ** Counting *)

Lemma cnt_nonneg P es : 0 <= cnt P es.
Proof. induction es as [|e es IH]; simpl; [lia|]. destruct (P e); simpl; lia. Qed.

Lemma cnt_le_len P es : cnt P es <= zlen es.
Proof.
  induction es as [|e es IH]; [done|]. rewrite zlen_cons. simpl. destruct (P e); simpl; lia.
Qed.

Lemma cnt_live_occ es : cnt live es <= cnt occ es.
Proof.
  induction es as [|e es IH]; simpl; [lia|].
  pose proof (live_occ e). destruct (live e), (occ e); simpl; lia.
Qed.

Lemma cnt_insert P es (i : nat) e e' :
  es !! i = Some e -> cnt P (<[i := e']> es) = cnt P es - Z.b2z (P e) + Z.b2z (P e').
Proof.
  revert i. induction es as [|a es IH]; intros [|i] Hi; simplify_eq/=; [lia|].
  rewrite (IH i) by done. lia.
Qed.

Lemma cnt_set P es i e' :
  0 <= i < zlen es -> cnt P es.[i <- e'] = cnt P es - Z.b2z (P es.[i]) + Z.b2z (P e').
Proof. intros Hi. apply cnt_insert. by apply arr_lookup. Qed.

(** A table all of whose slots pass a test counts them all. *)
Lemma cnt_full P es :
  (forall i, 0 <= i < zlen es -> P es.[i] = true) -> cnt P es = zlen es.
Proof.
  induction es as [|e es IH]; intros Hall; [done|]. rewrite zlen_cons. simpl.
  pose proof (Hall 0) as H0. rewrite zlen_cons in H0. pose proof (zlen_nonneg es).
  change ((e :: es).[0]) with e in H0. rewrite H0 by lia. rewrite IH; [simpl; lia|].
  intros i Hi. specialize (Hall (i + 1)). rewrite zlen_cons in Hall.
  unfold arr_get in *. rewrite Z2Nat.inj_add, Nat.add_1_r in Hall by lia. apply Hall. lia.
Qed.

(** ** Lookup in the abstract map *)

Lemma abs_lookup_1 es key v :
  abs es !! key = Some v ->
  exists i e, es !! i = Some e /\ live e = true /\ e_key e = key /\ e_value e = v.
Proof.
  induction es as [|a es IH]; simpl; [done|].
  destruct (live a) eqn:Ha.
  - intros H. apply lookup_insert_Some in H as [[<- <-]|[_ H]].
    + by exists O, a.
    + destruct (IH H) as (i & e & ?). by exists (S i), e.
  - intros H. destruct (IH H) as (i & e & ?). by exists (S i), e.
Qed.

Definition uniq (es : list entry) : Prop :=
  forall i j a b, es !! i = Some a -> es !! j = Some b ->
    live a = true -> live b = true -> e_key a = e_key b -> i = j.

Lemma uniq_tail a es : uniq (a :: es) -> uniq es.
Proof. intros H i j x y Hi Hj ? ? ?. cut (S i = S j); [lia|]. by eapply H. Qed.

Lemma abs_lookup_2 es i e :
  uniq es -> es !! i = Some e -> live e = true -> abs es !! e_key e = Some (e_value e).
Proof.
  revert i. induction es as [|a es IH]; intros i Hu Hi He; [done|]. simpl.
  destruct i as [|i]; simplify_eq/=.
  - rewrite He. by rewrite lookup_insert_eq.
  - pose proof (IH i (uniq_tail _ _ Hu) Hi He) as Habs.
    destruct (live a) eqn:Ha; [|done].
    rewrite lookup_insert_ne; [done|]. intros Heq.
    by pose proof (Hu O (S i) a e eq_refl Hi Ha He Heq).
Qed.

Lemma tab_uniq k es : tab_ok k es -> uniq es.
Proof.
  intros [Hlen _ Hu] i j a b Hi Hj Ha Hb Hk.
  pose proof (lookup_lt_Some _ _ _ Hi). pose proof (lookup_lt_Some _ _ _ Hj).
  unfold zlen in Hlen. cut (Z.of_nat i = Z.of_nat j); [lia|].
  assert (es.[Z.of_nat i] = a) as Ea
    by (unfold arr_get; rewrite Nat2Z.id; by apply list_lookup_total_correct).
  assert (es.[Z.of_nat j] = b) as Eb
    by (unfold arr_get; rewrite Nat2Z.id; by apply list_lookup_total_correct).
  apply Hu; rewrite ?Ea, ?Eb; try done; lia.
Qed.

(** The abstract map holds exactly the live entries. *)
Lemma abs_live k es key v :
  tab_ok k es ->
  abs es !! key = Some v <->
  exists idx, 0 <= idx < 2 ^ k /\ live es.[idx] = true /\
    e_key es.[idx] = key /\ e_value es.[idx] = v.
Proof.
  intros Hok. pose proof (t_len _ _ Hok) as Hlen. split.
  - intros (i & e & Hi & He & <- & <-)%abs_lookup_1.
    pose proof (lookup_lt_Some _ _ _ Hi). unfold zlen in Hlen.
    exists (Z.of_nat i). unfold arr_get. rewrite Nat2Z.id.
    rewrite (list_lookup_total_correct _ _ _ Hi). split; [lia|done].
  - intros (idx & Hr & He & <- & <-).
    apply (abs_lookup_2 es (Z.to_nat idx)); [by eapply tab_uniq| |done].
    apply arr_lookup. lia.
Qed.

Lemma abs_None k es key :
  tab_ok k es ->
  abs es !! key = None <->
  forall idx, 0 <= idx < 2 ^ k -> live es.[idx] = true -> e_key es.[idx] <> key.
Proof.
  intros Hok. split.
  - intros Hnone idx Hr Hl Hk.
    assert (abs es !! key = Some (e_value es.[idx])) by (apply (abs_live k); eauto). congruence.
  - intros Hno. destruct (abs es !! key) as [v|] eqn:E; [|done].
    apply (abs_live k) in E as (idx & ? & ? & ? & ?); [|done]. by destruct (Hno idx).
Qed.

Lemma size_abs k es : tab_ok k es -> Z.of_nat (size (abs es)) = cnt live es.
Proof.
  intros Hok. apply tab_uniq in Hok. induction es as [|a es IH]; [done|]. simpl.
  pose proof (uniq_tail _ _ Hok) as Hu. specialize (IH Hu).
  destruct (live a) eqn:Ha; simpl; [|done].
  rewrite map_size_insert_None; [lia|].
  destruct (abs es !! e_key a) as [v|] eqn:E; [|done].
  apply abs_lookup_1 in E as (i & e & Hi & He & Hk & _).
  by pose proof (Hok O (S i) a e eq_refl Hi Ha He (eq_sym Hk)).
Qed.

Lemma abs_calloc n : abs (replicate n empty_entry) = ∅.
Proof. by induction n. Qed.

Lemma cnt_calloc n P : P empty_entry = false -> cnt P (replicate n empty_entry) = 0.
Proof. intros HP. induction n as [|n IH]; simpl; [done|]. by rewrite HP, IH. Qed.

(** ** The probe sequence *)

Lemma hm_probe_pow2 k key i :
  0 <= k <= 63 -> hm_probe key i (2 ^ k) = (key + i) mod 2 ^ k.
Proof.
  intros Hk. pose proof (pow2_le_64 k ltac:(lia)).
  unfold hm_probe. rewrite (u64_small (2 ^ k - 1)) by (unfold is_u64; lia).
  unfold u64. rewrite land_mask by lia. apply mod_pow2_pow2. lia.
Qed.

(** Every slot is on every key's probe sequence. *)
Lemma probe_reaches c key idx :
  0 < c -> 0 <= idx < c ->
  let d := (idx - key) mod c in 0 <= d < c /\ (key + d) mod c = idx.
Proof.
  intros Hc Hidx d. pose proof (Z.mod_pos_bound (idx - key) c Hc). split; [done|].
  unfold d. rewrite Zplus_mod_idemp_r. replace (key + (idx - key)) with idx by lia.
  by apply Z.mod_small.
Qed.

Lemma probe_dist c key d :
  0 < c -> 0 <= d < c -> ((key + d) mod c - key) mod c = d.
Proof.
  intros Hc Hd. rewrite Zminus_mod_idemp_l.
  replace (key + d - key) with d by lia. by apply Z.mod_small.
Qed.

Section probing.
Context (k : Z) (Hk : 0 <= k <= 63) (es : list entry) (Hok : tab_ok k es).
Implicit Types (key i d idx : Z) (n : nat).

Lemma tcap_pos : 0 < 2 ^ k.
Proof using Hk. apply pow2_pos. lia. Qed.

(** The search loops of [get] and [remove]. *)
Lemma remove_loop_spec key i n :
  i + Z.of_nat n = 2 ^ k -> 0 <= i ->
  (forall j, 0 <= j < i -> occ es.[(key + j) mod 2 ^ k] = true /\
     (live es.[(key + j) mod 2 ^ k] = true -> e_key es.[(key + j) mod 2 ^ k] <> key)) ->
  match remove_loop es (2 ^ k) key i n with
  | Some idx => 0 <= idx < 2 ^ k /\ live es.[idx] = true /\ e_key es.[idx] = key
  | None => abs es !! key = None
  end.
Proof using Hk Hok.
  pose proof tcap_pos as Hp. revert i. induction n as [|n IH]; intros i Hin Hi Hseen; simpl.
  - apply (abs_None k); [done|]. intros idx Hidx Hl.
    destruct (probe_reaches (2 ^ k) key idx Hp Hidx) as [Hd Heq].
    rewrite <- Heq in Hl |- *. apply Hseen; [lia|done].
  - rewrite hm_probe_pow2 by lia. set (e := es.[(key + i) mod 2 ^ k]).
    destruct (e_value e =? 0) eqn:E0.
    + apply (abs_None k); [done|]. intros idx Hidx Hl Hkey.
      destruct (probe_reaches (2 ^ k) key idx Hp Hidx) as [Hd Heq].
      set (d := (idx - key) mod 2 ^ k) in *.
      destruct (Z.lt_trichotomy d i) as [Hlt|[->|Hgt]].
      * destruct (Hseen d ltac:(lia)) as [_ Hne]. rewrite Heq in Hne. by apply Hne.
      * rewrite <- Heq in Hl. fold e in Hl. unfold live in Hl. by rewrite E0 in Hl.
      * pose proof (t_path _ _ Hok idx Hidx Hl i) as Hocc.
        rewrite Hkey in Hocc. fold e in Hocc. unfold occ in Hocc. rewrite E0 in Hocc.
        by specialize (Hocc ltac:(lia)).
    + destruct (negb (e_value e =? BT_HASHMAP_TOMBSTONE) && (e_key e =? key)) eqn:Em.
      * apply andb_prop in Em as [Et Ek]. apply Z.eqb_eq in Ek.
        split; [by apply Z.mod_pos_bound|]. fold e. split; [|done].
        unfold live. by rewrite E0, Et.
      * apply IH; [lia|lia|]. intros j Hj. destruct (decide (j = i)) as [->|Hne].
        -- fold e. split; [unfold occ; by rewrite E0|]. intros Hl Hkey.
           unfold live in Hl. rewrite E0 in Hl. simpl in Hl.
           by rewrite Hl, Hkey, Z.eqb_refl in Em.
        -- apply Hseen. lia.
Qed.

Lemma get_loop_remove cap key i n :
  get_loop es cap key i n =
  match remove_loop es cap key i n with Some idx => e_value es.[idx] | None => 0 end.
Proof.
  revert i. induction n as [|n IH]; intros i; simpl; [done|].
  destruct (_ =? 0); [done|]. destruct (_ && _); [done|]. apply IH.
Qed.

Lemma get_loop_spec key :
  get_loop es (2 ^ k) key 0 (Z.to_nat (2 ^ k)) = default 0 (abs es !! key).
Proof using Hk Hok.
  pose proof tcap_pos. rewrite get_loop_remove.
  pose proof (remove_loop_spec key 0 (Z.to_nat (2 ^ k)) ltac:(lia) ltac:(lia) ltac:(lia)) as Hs.
  destruct (remove_loop _ _ _ _ _) as [idx|]; [|by rewrite Hs].
  destruct Hs as (Hr & Hl & Hkey).
  assert (abs es !! key = Some (e_value es.[idx])) as -> by (apply (abs_live k); eauto). done.
Qed.

(** The search of a free slot by [put]. *)
Lemma put_loop_spec key i n :
  i + Z.of_nat n = 2 ^ k -> 0 <= i ->
  (forall j, 0 <= j < i -> live es.[(key + j) mod 2 ^ k] = true /\
     e_key es.[(key + j) mod 2 ^ k] <> key) ->
  match put_loop es (2 ^ k) key i n with
  | PutSlot idx => exists d, 0 <= d < 2 ^ k /\ idx = (key + d) mod 2 ^ k /\
      live es.[idx] = false /\
      forall j, 0 <= j < d -> live es.[(key + j) mod 2 ^ k] = true /\
        e_key es.[(key + j) mod 2 ^ k] <> key
  | PutDup => is_Some (abs es !! key)
  | PutNone => cnt live es = 2 ^ k
  end.
Proof using Hk Hok.
  pose proof tcap_pos as Hp. revert i. induction n as [|n IH]; intros i Hin Hi Hseen; simpl.
  - rewrite <- (t_len _ _ Hok). apply cnt_full. rewrite (t_len _ _ Hok). intros idx Hidx.
    destruct (probe_reaches (2 ^ k) key idx Hp Hidx) as [Hd Heq]. rewrite <- Heq.
    apply Hseen. lia.
  - rewrite hm_probe_pow2 by lia. set (e := es.[(key + i) mod 2 ^ k]).
    assert (live e = negb ((e_value e =? 0) || (e_value e =? BT_HASHMAP_TOMBSTONE))) as Hle
      by (unfold live; by rewrite negb_orb).
    destruct ((e_value e =? 0) || (e_value e =? BT_HASHMAP_TOMBSTONE)) eqn:E.
    + exists i. split_and!; try done; lia.
    + destruct (e_key e =? key) eqn:Ek.
      * apply Z.eqb_eq in Ek. exists (e_value e). apply (abs_live k); [done|].
        exists ((key + i) mod 2 ^ k). split; [by apply Z.mod_pos_bound|]. done.
      * apply IH; [lia|lia|]. intros j Hj. destruct (decide (j = i)) as [->|Hne].
        -- fold e. split; [done|]. by apply Z.eqb_neq.
        -- apply Hseen. lia.
Qed.

(** Writing a slot keeps the paths as long as it stays occupied. *)
Lemma path_set idx e :
  0 <= idx < 2 ^ k -> occ e = true ->
  forall i, occ es.[i mod 2 ^ k] = true -> occ es.[idx <- e].[i mod 2 ^ k] = true.
Proof using Hk Hok.
  intros Hidx He i Hi. pose proof tcap_pos as Hp.
  destruct (decide (i mod 2 ^ k = idx)) as [->|Hne].
  - rewrite arr_get_set_eq; [done|]. rewrite (t_len _ _ Hok). lia.
  - pose proof (Z.mod_pos_bound i (2 ^ k)). rewrite arr_get_set_ne; [done|lia..].
Qed.

Lemma get_set idx e i :
  0 <= idx < 2 ^ k -> 0 <= i ->
  es.[idx <- e].[i] = if decide (i = idx) then e else es.[i].
Proof using Hk Hok.
  intros Hidx Hi. case_decide as E.
  - subst i. rewrite arr_get_set_eq; [done|]. by rewrite (t_len _ _ Hok).
  - rewrite arr_get_set_ne; [done|lia..].
Qed.

(** Filling a free slot on the probe sequence of an absent key. *)
Lemma tab_insert key value d :
  0 <= d < 2 ^ k -> let idx := (key + d) mod 2 ^ k in
  live es.[idx] = false -> (forall j, 0 <= j < d -> live es.[(key + j) mod 2 ^ k] = true) ->
  abs es !! key = None -> live (Entry key value) = true ->
  tab_ok k es.[idx <- Entry key value] /\
  abs es.[idx <- Entry key value] = <[key := value]> (abs es).
Proof using Hk Hok.
  intros Hd idx Hfree Hpath Habs Hlive. pose proof tcap_pos as Hp.
  assert (0 <= idx < 2 ^ k) as Hidx by (by apply Z.mod_pos_bound).
  pose proof (proj1 (abs_None k es key Hok) Habs) as Hno.
  assert (tab_ok k es.[idx <- Entry key value]) as Hok'.
  { split.
    - rewrite zlen_arr_set. apply Hok.
    - intros i Hi Hl j Hj. rewrite (get_set idx _ i) in Hl, Hj |- * by lia.
      destruct (decide (i = idx)) as [E|E]; simpl in *.
      + subst i. apply path_set; [done|by apply live_occ|]. apply live_occ, Hpath.
        unfold idx in Hj. by rewrite probe_dist in Hj.
      + apply path_set; [done|by apply live_occ|]. by apply (t_path _ _ Hok).
    - intros i j Hi Hj. rewrite !get_set by lia. repeat case_decide; subst; simpl.
      + done.
      + intros _ Hl Heq. by destruct (Hno j Hj Hl).
      + intros Hl _ Heq. by destruct (Hno i Hi Hl).
      + by apply (t_uniq _ _ Hok). }
  split; [done|]. apply map_eq. intros x. apply option_eq. intros v.
  rewrite (abs_live k) by done. rewrite lookup_insert_Some, (abs_live k) by done. split.
  - intros (i & Hi & Hl & Hkey & Hv). rewrite get_set in Hl, Hkey, Hv by lia.
    destruct (decide (i = idx)); simpl in *; subst; [by left|]. right. split; [|by eauto].
    intros ->. by destruct (Hno i Hi Hl).
  - intros [[<- <-]|[Hne (i & Hi & Hl & <- & <-)]].
    + exists idx. rewrite get_set by lia. by rewrite decide_True.
    + exists i. rewrite get_set by lia. rewrite decide_False; [done|].
      intros ->. congruence.
Qed.

(** Turning a live entry into a tombstone. *)
Lemma tab_remove key idx :
  0 <= idx < 2 ^ k -> live es.[idx] = true -> e_key es.[idx] = key ->
  let e' := Entry key BT_HASHMAP_TOMBSTONE in
  tab_ok k es.[idx <- e'] /\ abs es.[idx <- e'] = delete key (abs es).
Proof using Hk Hok.
  intros Hidx Hl Hkey e'. pose proof tcap_pos as Hp.
  assert (live e' = false) as He' by done.
  assert (tab_ok k es.[idx <- e']) as Hok'.
  { split.
    - rewrite zlen_arr_set. apply Hok.
    - intros i Hi Hli j Hj. rewrite (get_set idx _ i) in Hli, Hj |- * by lia.
      destruct (decide (i = idx)); [congruence|].
      apply path_set; [done..|]. by apply (t_path _ _ Hok).
    - intros i j Hi Hj. rewrite !get_set by lia.
      repeat case_decide; try congruence. by apply (t_uniq _ _ Hok). }
  split; [done|]. apply map_eq. intros x. apply option_eq. intros v.
  rewrite (abs_live k) by done. rewrite lookup_delete_Some, (abs_live k) by done. split.
  - intros (i & Hi & Hli & Hkeyi & Hv). rewrite get_set in Hli, Hkeyi, Hv by lia.
    destruct (decide (i = idx)); [congruence|]. split; [|by eauto]. intros <-.
    assert (i = idx) by (apply (t_uniq _ _ Hok); congruence). done.
  - intros [Hne (i & Hi & Hli & <- & <-)]. exists i. rewrite get_set by lia.
    rewrite decide_False; [done|]. intros ->. congruence.
Qed.

End probing.

(** ** Operations on whole maps *)

Lemma cap_div4 k : 3 <= k -> 2 ^ k = 4 * 2 ^ (k - 2) /\ 2 <= 2 ^ (k - 2).
Proof.
  intros Hk. split.
  - change 4 with (2 ^ 2). rewrite <- Z.pow_add_r by lia. f_equal. lia.
  - change 2 with (2 ^ 1) at 1. apply Z.pow_le_mono_r; lia.
Qed.

Lemma cap_bound k : 3 <= k <= 59 -> 8 <= 2 ^ k <= 2 ^ 59.
Proof.
  intros Hk. split; [change 8 with (2 ^ 3)|]; apply Z.pow_le_mono_r; lia.
Qed.

Lemma wf_counts k m es :
  hm_wf k m es -> 0 <= hm_count m /\ 0 <= hm_tombstones m /\
    hm_count m + hm_tombstones m <= 2 ^ 59.
Proof.
  intros []. pose proof (cnt_nonneg live es). pose proof (cap_bound k w_k0). lia.
Qed.

Lemma put_probe_fresh k m es key v :
  hm_wf k m es -> 4 * (hm_count m + hm_tombstones m) < 3 * 2 ^ k ->
  abs es !! key = None -> live (Entry key v) = true ->
  exists m' es', put_probe m es key v = (0, m') /\ hm_wf k m' es' /\
    abs es' = <[key := v]> (abs es) /\ hm_count m' = hm_count m + 1 /\
    hm_tombstones m' = hm_tombstones m /\ hm_owned m' = hm_owned m.
Proof.
  intros Hwf Hload Habs Hlive. pose proof (wf_counts _ _ _ Hwf) as Hc.
  destruct Hwf. pose proof (cap_bound k w_k0) as Hcap.
  destruct (cap_div4 k ltac:(lia)) as [Hdiv _].
  pose proof (t_len _ _ w_tab0) as Hlen.
  unfold put_probe. rewrite w_cap0.
  pose proof (put_loop_spec k ltac:(lia) es w_tab0 key 0 (Z.to_nat (2 ^ k))
    ltac:(lia) ltac:(lia) ltac:(lia)) as Hspec.
  destruct (put_loop _ _ _ _ _) as [idx| |].
  - destruct Hspec as (d & Hd & -> & Hfree & Hpath).
    destruct (tab_insert k ltac:(lia) es w_tab0 key v d Hd Hfree
      ltac:(intros; by apply Hpath) Habs Hlive) as [Htab Habs'].
    set (idx := (key + d) mod 2 ^ k) in *.
    assert (0 <= idx < 2 ^ k) as Hidx by (apply Z.mod_pos_bound; lia).
    assert ((e_value es.[idx <- Entry key v].[idx] =? BT_HASHMAP_TOMBSTONE) = false) as ->.
    { rewrite arr_get_set_eq by lia. simpl. unfold live in Hlive. simpl in Hlive.
      apply andb_prop in Hlive as [_ Hlive]. by apply negb_true_iff in Hlive. }
    eexists _, _. split; [done|]. simpl. rewrite (u64_small (hm_count m + 1)) by (unfold is_u64; lia).
    split_and!; try done. split; simpl; try done; try lia.
    + rewrite cnt_set, Hfree, Hlive by lia. simpl. lia.
    + rewrite cnt_set, (live_occ _ Hlive) by lia. destruct (occ _); simpl; lia.
  - destruct Hspec. congruence.
  - lia.
Qed.

Lemma put_depth_room n calloc k m es key v :
  hm_wf k m es -> 4 * (hm_count m + hm_tombstones m) < 3 * 2 ^ k -> v <> 0 ->
  put_depth (S n) calloc m key v = Some (put_probe m es key v).
Proof.
  intros Hwf Hload Hv. pose proof (wf_counts _ _ _ Hwf). destruct Hwf.
  pose proof (cap_bound k w_k0). simpl. rewrite w_entries0, w_cap0.
  rewrite (proj2 (Z.eqb_neq v 0) Hv). unfold BT_HASHMAP_LOAD_FACTOR_NUM, BT_HASHMAP_LOAD_FACTOR_DEN.
  rewrite (u64_small (hm_count m + _)), !u64_small by (unfold is_u64; lia).
  by rewrite (proj2 (Z.leb_gt _ _)) by lia.
Qed.

#[local] Arguments put_depth : simpl never.

Lemma calloc_wf k owned :
  3 <= k <= 59 ->
  hm_wf k (HashMap (Some (calloc_entries (2 ^ k))) (2 ^ k) 0 0 owned) (calloc_entries (2 ^ k)).
Proof.
  intros Hk. pose proof (cap_bound k Hk).
  assert (forall i, 0 <= i < 2 ^ k -> (calloc_entries (2 ^ k)).[i] = empty_entry) as He.
  { intros i Hi. unfold calloc_entries, arr_get. apply list_lookup_total_correct.
    apply lookup_replicate. split; [done|lia]. }
  split; simpl; try done; try lia.
  - split.
    + unfold calloc_entries, zlen. rewrite length_replicate. lia.
    + intros idx Hidx. by rewrite He.
    + intros i j Hi Hj. by rewrite He.
  - unfold calloc_entries. by rewrite cnt_calloc.
  - unfold calloc_entries. by rewrite cnt_calloc.
Qed.

Lemma resize_loop_spec calloc k old : forall m es,
  hm_wf k m es -> hm_tombstones m = 0 -> 2 * (hm_count m + cnt live old) <= 2 ^ k ->
  uniq old ->
  (forall i e, old !! i = Some e -> live e = true -> abs es !! e_key e = None) ->
  exists m' es', (forall n, resize_loop (put_depth (S n) calloc) old m = Some m') /\
    hm_wf k m' es' /\ abs es' = abs old ∪ abs es /\
    hm_tombstones m' = 0 /\ hm_count m' = hm_count m + cnt live old.
Proof.
  induction old as [|a old IH]; intros m es Hwf Ht Hroom Hu Hfresh.
  { exists m, es. simpl. split_and!; try done; [by rewrite (left_id ∅ _)|lia]. }
  pose proof (wf_counts _ _ _ Hwf). pose proof (cap_bound k (w_k _ _ _ Hwf)).
  pose proof (cnt_nonneg live old). simpl in Hroom. simpl.
  change (negb (e_value a =? 0) && negb (e_value a =? BT_HASHMAP_TOMBSTONE)) with (live a).
  destruct (live a) eqn:Ha; simpl in Hroom.
  - assert (live (Entry (e_key a) (e_value a)) = true) as Hla by (by destruct a).
    destruct (put_probe_fresh k m es (e_key a) (e_value a) Hwf ltac:(lia)
      (Hfresh O a eq_refl Ha) Hla) as (m1 & es1 & Hput & Hwf1 & Habs1 & Hc1 & Ht1 & _).
    assert (e_value a <> 0) as Hnz.
    { apply live_occ in Ha. unfold occ in Ha. by apply negb_true_iff, Z.eqb_neq in Ha. }
    assert (abs old !! e_key a = None) as Hnone.
    { destruct (abs old !! e_key a) as [v|] eqn:E; [|done].
      apply abs_lookup_1 in E as (i & e & Hi & He & Hkey & _).
      by pose proof (Hu O (S i) a e eq_refl Hi Ha He (eq_sym Hkey)). }
    destruct (IH m1 es1 Hwf1) as (m' & es' & Hrun & Hwf' & Habs' & Ht' & Hc');
      [lia|lia|by eapply uniq_tail| |].
    { intros i e Hi He. rewrite Habs1. rewrite lookup_insert_ne; [by apply (Hfresh (S i))|].
      intros Heq. by pose proof (Hu O (S i) a e eq_refl Hi Ha He Heq). }
    exists m', es'. split_and!; try done; [| |simpl; lia].
    + intros n. rewrite (put_depth_room n calloc k m es) by (done || lia).
      simpl. rewrite Hput. apply Hrun.
    + rewrite Habs', Habs1. by rewrite <- insert_union_r, insert_union_l.
  - destruct (IH m es Hwf Ht ltac:(lia)) as (m' & es' & ?); [by eapply uniq_tail| |].
    { intros i e Hi. apply (Hfresh (S i) e Hi). }
    exists m', es'. simpl. destruct_and!. split_and!; try done; lia.
Qed.

(** Documented behaviour of [calloc]: it refuses a request of [n * 16] bytes
    that a [size_t] cannot express. *)
Definition calloc_sane (calloc : Z -> bool) : Prop :=
  forall n, calloc n = true -> n * 16 < 2 ^ 64.

(** Doubling keeps the abstract map and drops the tombstones. *)
Lemma resize_spec calloc k m es :
  calloc_sane calloc -> hm_wf k m es ->
  (calloc (2 * 2 ^ k) = false /\
   forall n, hm_resize calloc (put_depth (S n) calloc) m es (u64 (hm_capacity m * 2))
     = Some (-1, m)) \/
  exists m' es', hm_wf (k + 1) m' es' /\ abs es' = abs es /\
    hm_tombstones m' = 0 /\ hm_count m' = hm_count m /\
    forall n, hm_resize calloc (put_depth (S n) calloc) m es (u64 (hm_capacity m * 2))
      = Some (0, m').
Proof.
  intros Hsane Hwf. pose proof (wf_counts _ _ _ Hwf). pose proof (w_k _ _ _ Hwf) as Hk.
  pose proof (cap_bound k Hk). destruct Hwf.
  assert (2 ^ (k + 1) = 2 * 2 ^ k) as Hpow by (rewrite Z.pow_add_r by lia; lia).
  unfold hm_resize. rewrite w_cap0, u64_small by (unfold is_u64; lia).
  rewrite (Z.mul_comm _ 2). destruct (calloc (2 * 2 ^ k)) eqn:Hcalloc; [right|by left].
  assert (k + 1 <= 59).
  { apply Hsane in Hcalloc. rewrite <- Hpow in Hcalloc.
    change 16 with (2 ^ 4) in Hcalloc. rewrite <- Z.pow_add_r in Hcalloc by lia.
    apply Z.pow_lt_mono_r_iff in Hcalloc; lia. }
  rewrite <- Hpow.
  destruct (resize_loop_spec calloc (k + 1) es _ _ (calloc_wf (k + 1) (hm_owned m) ltac:(lia)))
    as (m' & es' & Hrun & Hwf' & Habs & Ht & Hc).
  - done.
  - simpl. lia.
  - by eapply tab_uniq.
  - intros. unfold calloc_entries. by rewrite abs_calloc.
  - exists m', es'. split_and!; try done.
    + rewrite Habs. unfold calloc_entries. rewrite abs_calloc. by rewrite (right_id ∅ _).
    + simpl in Hc. lia.
    + intros n. by rewrite Hrun.
Qed.

Lemma put_depth_full n calloc k m es key v :
  hm_wf k m es -> 3 * 2 ^ k <= 4 * (hm_count m + hm_tombstones m) -> v <> 0 ->
  put_depth (S n) calloc m key v =
    ('(rc, m') ← hm_resize calloc (put_depth n calloc) m es (u64 (hm_capacity m * 2));
     if negb (rc =? 0) then Some (-1, m')
     else match hm_entries m' with
          | Some es' => Some (put_probe m' es' key v)
          | None => Some (-1, m')
          end).
Proof.
  intros Hwf Hload Hv. pose proof (wf_counts _ _ _ Hwf). destruct Hwf.
  pose proof (cap_bound k w_k0). unfold put_depth at 1. fold put_depth.
  rewrite w_entries0, (proj2 (Z.eqb_neq v 0) Hv).
  unfold BT_HASHMAP_LOAD_FACTOR_NUM, BT_HASHMAP_LOAD_FACTOR_DEN.
  rewrite w_cap0, (u64_small (hm_count m + _)), (u64_small (2 ^ k * 3)), (u64_small (_ * 4))
    by (unfold is_u64; lia).
  by rewrite (proj2 (Z.leb_le _ _)) by lia.
Qed.

(** Insertion of an absent key, on every branch: room, resize, out of memory. *)
Lemma put_depth_fresh n calloc k m es key v :
  calloc_sane calloc -> hm_wf k m es -> abs es !! key = None ->
  live (Entry key v) = true ->
  (put_depth (S (S n)) calloc m key v = Some (-1, m) /\ calloc (2 * 2 ^ k) = false /\
   3 * 2 ^ k <= 4 * (hm_count m + hm_tombstones m)) \/
  exists m' k' es', put_depth (S (S n)) calloc m key v = Some (0, m') /\
    hm_wf k' m' es' /\ abs es' = <[key := v]> (abs es).
Proof.
  intros Hsane Hwf Habs Hlive.
  assert (v <> 0) as Hv.
  { apply live_occ in Hlive. unfold occ in Hlive. by apply negb_true_iff, Z.eqb_neq in Hlive. }
  destruct (Z.lt_ge_cases (4 * (hm_count m + hm_tombstones m)) (3 * 2 ^ k)) as [Hroom|Hfull].
  - right. destruct (put_probe_fresh k m es key v Hwf Hroom Habs Hlive)
      as (m' & es' & Hput & Hwf' & Habs' & _).
    exists m', k, es'. by rewrite (put_depth_room (S n) calloc k m es), Hput.
  - rewrite (put_depth_full (S n) calloc k m es) by done.
    destruct (resize_spec calloc k m es Hsane Hwf)
      as [[Hno Hrun]|(m1 & es1 & Hwf1 & Habs1 & Ht1 & Hc1 & Hrun)].
    + left. split; [by rewrite Hrun|done].
    + right. rewrite Hrun. simpl. rewrite (w_entries _ _ _ Hwf1).
      assert (2 ^ (k + 1) = 2 * 2 ^ k) as Hpow
        by (pose proof (w_k _ _ _ Hwf); rewrite Z.pow_add_r by lia; lia).
      pose proof (cap_bound k (w_k _ _ _ Hwf)). pose proof (w_load _ _ _ Hwf).
      pose proof (w_tombs _ _ _ Hwf).
      destruct (put_probe_fresh (k + 1) m1 es1 key v Hwf1 ltac:(lia) ltac:(by rewrite Habs1) Hlive)
        as (m' & es' & Hput & Hwf' & Habs' & _).
      exists m', (k + 1), es'. rewrite Hput. by rewrite Habs', Habs1.
Qed.

Lemma put_depth_more n calloc k m es key v :
  calloc_sane calloc -> hm_wf k m es ->
  put_depth (S (S n)) calloc m key v = put_depth 2 calloc m key v /\
  is_Some (put_depth 2 calloc m key v).
Proof.
  intros Hsane Hwf. destruct (decide (v = 0)) as [->|Hv].
  { unfold put_depth. rewrite (w_entries _ _ _ Hwf). done. }
  destruct (Z.lt_ge_cases (4 * (hm_count m + hm_tombstones m)) (3 * 2 ^ k)) as [Hroom|Hfull].
  - by rewrite !(put_depth_room _ calloc k m es).
  - rewrite !(put_depth_full _ calloc k m es) by done.
    destruct (resize_spec calloc k m es Hsane Hwf)
      as [[_ Hrun]|(m1 & es1 & _ & _ & _ & _ & Hrun)]; rewrite !Hrun; simpl; [done|].
    by destruct (hm_entries m1).
Qed.

Lemma remove_spec k m es key :
  hm_wf k m es ->
  (abs es !! key = None /\ bt_hashmap_remove (Some m) key = (-1, Some m)) \/
  exists m' es', bt_hashmap_remove (Some m) key = (0, Some m') /\
    is_Some (abs es !! key) /\ hm_wf k m' es' /\ abs es' = delete key (abs es).
Proof.
  intros Hwf. pose proof (wf_counts _ _ _ Hwf) as Hc. destruct Hwf.
  pose proof (cap_bound k w_k0). pose proof (t_len _ _ w_tab0) as Hlen.
  unfold bt_hashmap_remove. rewrite w_entries0, w_cap0.
  pose proof (remove_loop_spec k ltac:(lia) es w_tab0 key 0 (Z.to_nat (2 ^ k))
    ltac:(lia) ltac:(lia) ltac:(lia)) as Hspec.
  destruct (remove_loop _ _ _ _ _) as [idx|]; [right|by left].
  destruct Hspec as (Hidx & Hl & Hkey).
  destruct (tab_remove k ltac:(lia) es w_tab0 key idx Hidx Hl Hkey) as [Htab Habs].
  assert (1 <= cnt live es) as Hpos.
  { pose proof (cnt_set live es idx empty_entry ltac:(lia)) as Hs. rewrite Hl in Hs.
    pose proof (cnt_nonneg live es.[idx <- empty_entry]). simpl in Hs. lia. }
  rewrite Hkey. eexists _, _. split; [done|]. split_and!; [|split|done]; simpl; try done.
  - exists (e_value es.[idx]). apply (abs_live k); eauto.
  - rewrite cnt_set, Hl by lia. simpl. rewrite u64_small by (unfold is_u64; lia). lia.
  - apply u64_range.
  - rewrite cnt_set, (live_occ _ Hl) by lia. simpl.
    rewrite !u64_small by (unfold is_u64; lia). lia.
  - rewrite !u64_small by (unfold is_u64; lia). lia.
Qed.

Lemma get_spec k m es key :
  hm_wf k m es -> bt_hashmap_get (Some m) key = default 0 (abs es !! key).
Proof.
  intros []. unfold bt_hashmap_get. rewrite w_entries0, w_cap0. apply get_loop_spec; [lia|done].
Qed.

(** The rounding of the requested capacity. *)
Lemma round_cap_spec fuel j capacity :
  3 <= j -> capacity <= 2 ^ (j + Z.of_nat fuel) -> j + Z.of_nat fuel < 64 ->
  exists k, round_cap fuel (2 ^ j) capacity = Some (2 ^ k) /\ j <= k <= j + Z.of_nat fuel /\
    capacity <= 2 ^ k /\ (k = j \/ 2 ^ (k - 1) < capacity).
Proof.
  revert j. induction fuel as [|fuel IH]; intros j Hj Hcap Hfuel; simpl.
  - rewrite Z.add_0_r in Hcap. rewrite (proj2 (Z.ltb_ge _ _)) by lia.
    exists j. split_and!; try done; try lia.
  - destruct (Z.ltb_spec (2 ^ j) capacity).
    + rewrite Z.shiftl_mul_pow2 by lia.
      assert (2 ^ j * 2 ^ 1 = 2 ^ (j + 1)) as -> by (by rewrite Z.pow_add_r by lia).
      assert (2 ^ (j + 1) < 2 ^ 64) by (apply Z.pow_lt_mono_r; lia).
      rewrite u64_small by (unfold is_u64; lia).
      destruct (IH (j + 1)) as (k & Hr & Hk & Hle & Hmin); [lia| |lia|].
      { by replace (j + 1 + Z.of_nat fuel) with (j + Z.of_nat (S fuel)) by lia. }
      exists k. split_and!; try done; try lia. destruct Hmin as [->|?]; [|by right].
      right. by replace (j + 1 - 1) with j by lia.
    + exists j. split_and!; try done; lia.
Qed.

Lemma round_cap_fuel fuel cap capacity c :
  round_cap fuel cap capacity = Some c -> forall n, round_cap (fuel + n) cap capacity = Some c.
Proof.
  revert cap. induction fuel as [|fuel IH]; intros cap Hr n; simpl in *.
  - destruct n; simpl; by destruct (cap <? capacity).
  - destruct (cap <? capacity); [by apply IH|done].
Qed.

(** ** Runs of client calls *)

Inductive hm_op := HPut (key value : Z) | HGet (key : Z) | HRemove (key : Z) | HSize.
Inductive hm_res := RCode (rc : Z) | RValue (v : Z).

(** One client call on a non-null map; [None] stands for a call that does not
    return, which [put_depth_more] excludes. *)
Definition hm_call (calloc : Z -> bool) (op : hm_op) (m : hashmap) : option (hm_res * hashmap) :=
  match op with
  | HPut key v => '(rc, m') ← bt_hashmap_put calloc (Some m) key v;
                  m' ← m'; Some (RCode rc, m')
  | HGet key => Some (RValue (bt_hashmap_get (Some m) key), m)
  | HRemove key => let '(rc, m') := bt_hashmap_remove (Some m) key in
                   m' ← m'; Some (RCode rc, m')
  | HSize => Some (RValue (bt_hashmap_size (Some m)), m)
  end.

Fixpoint hm_run (calloc : Z -> bool) (ops : list hm_op) (m : hashmap)
  : option (list hm_res * hashmap) :=
  match ops with
  | [] => Some ([], m)
  | op :: ops =>
      '(r, m') ← hm_call calloc op m;
      '(rs, m'') ← hm_run calloc ops m';
      Some (r :: rs, m'')
  end.

(** What a client observes of a finite map [σ]: a put may also be refused for
    lack of memory, and then changes nothing. *)
Definition map_next (op : hm_op) (r : hm_res) (σ : gmap Z Z) : gmap Z Z :=
  match op, r with
  | HPut key v, RCode rc => if rc =? 0 then <[key := v]> σ else σ
  | HRemove key, _ => delete key σ
  | _, _ => σ
  end.

Definition map_reply (op : hm_op) (r : hm_res) (σ : gmap Z Z) : Prop :=
  match op with
  | HPut _ _ => r = RCode 0 \/ r = RCode (-1)
  | HGet key => r = RValue (default 0 (σ !! key))
  | HRemove key => r = RCode (if σ !! key is Some _ then 0 else -1)
  | HSize => r = RValue (Z.of_nat (size σ))
  end.

(** When a put is refused: the table [m] has reached its load factor and the
    memory for one of twice its capacity is refused. The table stays as it is. *)
Definition put_refused (calloc : Z -> bool) (m m' : hashmap) : Prop :=
  m' = m /\ 3 * hm_capacity m <= 4 * (hm_count m + hm_tombstones m) /\
  calloc (2 * hm_capacity m) = false.

Definition map_answer (calloc : Z -> bool) (op : hm_op) (r : hm_res) (σ : gmap Z Z) (m m' : hashmap) : Prop :=
  map_reply op r σ /\ (forall key v, op = HPut key v -> r = RCode (-1) -> put_refused calloc m m').

(** The discipline of the client: it inserts only keys that are absent, with
    values that are neither [NULL] nor the tombstone address. *)
Definition client_ok (op : hm_op) (σ : gmap Z Z) : Prop :=
  match op with
  | HPut key v => σ !! key = None /\ v <> 0 /\ v <> BT_HASHMAP_TOMBSTONE
  | _ => True
  end.

(** A client that keeps the discipline whatever answers it is given. *)
Fixpoint client_good (ops : list hm_op) (σ : gmap Z Z) : Prop :=
  match ops with
  | [] => True
  | op :: ops => client_ok op σ /\ forall r, map_reply op r σ -> client_good ops (map_next op r σ)
  end.

(** The calls return these answers one after the other, each of them that of
    the finite map. *)
Fixpoint map_trace (calloc : Z -> bool) (ops : list hm_op) (rs : list hm_res) (m : hashmap)
    (σ : gmap Z Z) : Prop :=
  match ops, rs with
  | [], [] => True
  | op :: ops, r :: rs =>
      exists m', hm_call calloc op m = Some (r, m') /\ map_answer calloc op r σ m m' /\
        map_trace calloc ops rs m' (map_next op r σ)
  | _, _ => False
  end.

Lemma hm_call_spec calloc k m es op :
  calloc_sane calloc -> hm_wf k m es -> client_ok op (abs es) ->
  exists r m' k' es', hm_call calloc op m = Some (r, m') /\ hm_wf k' m' es' /\
    map_answer calloc op r (abs es) m m' /\ abs es' = map_next op r (abs es).
Proof.
  intros Hsane Hwf Hop. destruct op as [key v|key|key|].
  - simpl. destruct Hop as (Habs & Hv0 & Hv1).
    assert (live (Entry key v) = true) as Hlive.
    { unfold live; simpl. by rewrite (proj2 (Z.eqb_neq _ _) Hv0), (proj2 (Z.eqb_neq _ _) Hv1). }
    destruct (put_depth_fresh 0 calloc k m es key v Hsane Hwf Habs Hlive)
      as [(-> & Hno & Hload)|(m' & k' & es' & -> & Hwf' & Habs')].
    + exists (RCode (-1)), m, k, es. simpl. split_and!; try done. split; [by right|].
      intros ? ? _ _. unfold put_refused. by rewrite (w_cap _ _ _ Hwf).
    + exists (RCode 0), m', k', es'. simpl. split_and!; try done. split; [by left|done].
  - eexists _, m, k, es. split; [done|]. split_and!; try done.
    split; [|done]. unfold map_reply. by rewrite (get_spec k m es).
  - unfold hm_call. destruct (remove_spec k m es key Hwf) as [[Hn ->]|(m' & es' & -> & [v Hv] & Hwf' & Habs')].
    + exists (RCode (-1)), m, k, es. split_and!; try done.
      * split; [|done]. unfold map_reply. by rewrite Hn.
      * simpl. by rewrite delete_id.
    + exists (RCode 0), m', k, es'. split_and!; try done. split; [|done]. unfold map_reply. by rewrite Hv.
  - eexists _, m, k, es. split; [done|]. split_and!; try done.
    split; [|done]. unfold map_reply. rewrite (size_abs k) by apply (w_tab _ _ _ Hwf).
    simpl. by rewrite (w_count _ _ _ Hwf).
Qed.

Lemma hm_run_spec calloc ops : forall k m es,
  calloc_sane calloc -> hm_wf k m es -> client_good ops (abs es) ->
  exists rs m' k' es', hm_run calloc ops m = Some (rs, m') /\ hm_wf k' m' es' /\
    map_trace calloc ops rs m (abs es).
Proof.
  induction ops as [|op ops IH]; intros k m es Hsane Hwf Hgood.
  { by exists [], m, k, es. }
  destruct Hgood as [Hok Hnext].
  destruct (hm_call_spec calloc k m es op Hsane Hwf Hok)
    as (r & m1 & k1 & es1 & Hcall & Hwf1 & Hans & Habs).
  specialize (Hnext r (proj1 Hans)). rewrite <- Habs in Hnext.
  destruct (IH k1 m1 es1 Hsane Hwf1 Hnext) as (rs & m' & k' & es' & Hrun & Hwf' & Htr).
  exists (r :: rs), m', k', es'. cbn [hm_run]. rewrite Hcall; simpl. rewrite Hrun; simpl.
  rewrite Habs in Htr. split_and!; [done|done|]. by exists m1.
Qed.

Lemma init_spec calloc m0 capacity :
  calloc_sane calloc -> 8 <= capacity <= 2 ^ 63 ->
  exists k, 3 <= k <= 63 /\ capacity <= 2 ^ k /\ (k = 3 \/ 2 ^ (k - 1) < capacity) /\
    (calloc (2 ^ k) = true ->
     exists m, bt_hashmap_init calloc (Some m0) capacity = Some (0, Some m) /\
       hm_wf k m (calloc_entries (2 ^ k))) /\
    (calloc (2 ^ k) = false -> exists m,
     bt_hashmap_init calloc (Some m0) capacity = Some (-1, Some m) /\ hm_entries m = None).
Proof.
  intros Hsane Hcap. unfold bt_hashmap_init. rewrite (proj2 (Z.ltb_ge _ _)) by lia.
  destruct (round_cap_spec 60 3 capacity) as (k & Hr & Hk & Hle & Hmin); [lia..|].
  apply round_cap_fuel with (n := 4%nat) in Hr. change (2 ^ 3) with 8 in Hr.
  change (60 + 4)%nat with 64%nat in Hr. rewrite Hr; simpl.
  exists k. split_and!; try done; try lia.
  - intros Hc. rewrite Hc. eexists. split; [done|]. apply calloc_wf. split; [lia|].
    apply Hsane in Hc. change 16 with (2 ^ 4) in Hc. rewrite <- Z.pow_add_r in Hc by lia.
    apply Z.pow_lt_mono_r_iff in Hc; lia.
  - intros ->. by eexists.
Qed.

(** ** Properties *)

(** C10: A map initialised with a capacity from 8 to 2^63 answers every
    sequence of put, get, remove and size calls as a finite map does, for
    every client that inserts only absent keys: every call returns (no probe
    loop or resize runs for ever), gets see exactly what was put and not
    removed, removes report whether the key was there, the size is the number
    of keys, and a put fails only when the table has reached its load factor
    and the memory for twice its capacity is refused, and then changes nothing.
    The initialisation fails only when the memory for the least power of two
    that is enough is refused. *)
Theorem hashmap_refines_map (calloc : Z -> bool) (m0 : hashmap) (capacity : Z)
    (ops : list hm_op) :
  calloc_sane calloc -> 8 <= capacity <= 2 ^ 63 -> client_good ops ∅ ->
  exists k rc m, capacity <= 2 ^ k /\ (k = 3 \/ 3 <= k /\ 2 ^ (k - 1) < capacity) /\
    bt_hashmap_init calloc (Some m0) capacity = Some (rc, Some m) /\
    if calloc (2 ^ k) then
      rc = 0 /\ hm_capacity m = 2 ^ k /\
      exists rs m', hm_run calloc ops m = Some (rs, m') /\ map_trace calloc ops rs m ∅
    else rc = -1 /\ hm_entries m = None.
Proof.
  intros Hsane Hcap Hgood.
  destruct (init_spec calloc m0 capacity Hsane Hcap) as (k & Hk & Hle & Hmin & Hyes & Hno).
  exists k. destruct (calloc (2 ^ k)).
  - destruct (Hyes eq_refl) as (m & Hinit & Hwf). exists 0, m.
    assert (abs (calloc_entries (2 ^ k)) = ∅) as Hemp by apply abs_calloc.
    rewrite <- Hemp in Hgood.
    destruct (hm_run_spec calloc ops k m _ Hsane Hwf Hgood) as (rs & m' & _ & _ & Hrun & _ & Htr).
    rewrite Hemp in Htr. split_and!; [done|lia|done|done|by apply (w_cap _ _ _ Hwf)|]. by exists rs, m'.
  - destruct (Hno eq_refl) as (m & Hinit & Hnone). exists (-1), m. split_and!; [done|lia|done..].
Qed.

(** The mutual recursion of insertion and resizing nests at most twice
    on a well-formed map: a resize never resizes again, whatever the key and
    value, so the depth the model allows loses nothing and [put] returns. *)
Theorem put_depth_enough (n : nat) (calloc : Z -> bool) (k : Z) (m : hashmap)
    (es : list entry) (key v : Z) :
  calloc_sane calloc -> hm_wf k m es -> (2 <= n)%nat ->
  put_depth n calloc m key v = put_depth 2 calloc m key v /\
  is_Some (put_depth 2 calloc m key v).
Proof.
  intros Hsane Hwf Hn. destruct n as [|[|n]]; [lia|lia|]. by eapply put_depth_more.
Qed.

(** A duplicate is rejected, without effect, when the table holds no
    tombstone and is below its load factor. *)
Theorem put_rejects_duplicate (calloc : Z -> bool) (k : Z) (m : hashmap)
    (es : list entry) (key v : Z) :
  hm_wf k m es -> is_Some (abs es !! key) -> v <> 0 ->
  4 * (hm_count m + hm_tombstones m) < 3 * 2 ^ k ->
  (forall idx, 0 <= idx < 2 ^ k -> occ es.[idx] = true -> live es.[idx] = true) ->
  bt_hashmap_put calloc (Some m) key v = Some (-1, Some m).
Proof.
  intros Hwf [w Hw] Hv Hroom Htomb. unfold bt_hashmap_put.
  rewrite (put_depth_room 1 calloc k m es) by done. simpl. destruct Hwf.
  pose proof (cap_bound k w_k0). unfold put_probe. rewrite w_cap0.
  pose proof (put_loop_spec k ltac:(lia) es w_tab0 key 0 (Z.to_nat (2 ^ k))
    ltac:(lia) ltac:(lia) ltac:(lia)) as Hspec.
  destruct (put_loop _ _ _ _ _) as [idx| |]; [exfalso|done..].
  destruct Hspec as (d & Hd & -> & Hfree & Hpath).
  apply (abs_live k) in Hw as (i & Hi & Hl & Hkey & _); [|done].
  destruct (probe_reaches (2 ^ k) key i ltac:(lia) Hi) as [Hd' Heq].
  destruct (Z.lt_trichotomy d ((i - key) mod 2 ^ k)) as [Hlt|[->|Hgt]].
  - pose proof (t_path _ _ w_tab0 i Hi Hl d) as Hocc. rewrite Hkey in Hocc.
    rewrite Htomb in Hfree; [done|apply Z.mod_pos_bound; lia|]. apply Hocc. lia.
  - congruence.
  - destruct (Hpath ((i - key) mod 2 ^ k) ltac:(lia)) as [_ Hne]. by rewrite Heq in Hne.
Qed.

(** A map of eight slots, and a [calloc] that succeeds whenever it can. *)
Definition map8 : hashmap := HashMap (Some (calloc_entries 8)) 8 0 0 1.
Definition calloc_max (n : Z) : bool := n * 16 <? 2 ^ 64.

Lemma calloc_max_sane : calloc_sane calloc_max.
Proof. intros n. unfold calloc_max. lia. Qed.

(** A tombstone in front of a key defeats the duplicate check: after
    [put 1; put 9; remove 1] (9 collides with 1 in eight slots), a second
    [put 9] is accepted although 9 is present, two entries for 9 coexist, and
    removing 9 brings the first value back instead of deleting the key. *)
Theorem put_duplicate_after_tombstone :
  exists m', hm_run calloc_max
    [HPut 1 100; HPut 9 200; HRemove 1; HPut 9 300; HSize; HGet 9; HRemove 9; HGet 9] map8
  = Some ([RCode 0; RCode 0; RCode 0; RCode 0; RValue 2; RValue 300; RCode 0; RValue 200], m').
Proof. eexists. vm_compute. reflexivity. Qed.

(** Reusing a tombstone does not give its count back, so inserting and
    removing one key over and over grows the table although it never holds
    more than one entry: after seven rounds the eight slots have doubled. *)
Theorem tombstone_leak_grows_table :
  exists m', hm_run calloc_max
    (concat (replicate 7 [HPut 5 100; HRemove 5])) map8
  = Some (concat (replicate 7 [RCode 0; RCode 0]), m') /\
  hm_capacity m' = 16 /\ hm_count m' = 0.
Proof. eexists. vm_compute. done. Qed.

Definition example_calls : list hm_op :=
  [HPut 1 100; HPut 9 200; HGet 9; HRemove 1; HGet 1; HSize].

Lemma hashmap_refines_map_witness :
  exists m rs m', bt_hashmap_init calloc_max (Some map8) 10 = Some (0, Some m) /\
    hm_run calloc_max example_calls m = Some (rs, m') /\ map_trace calloc_max example_calls rs m ∅.
Proof.
  destruct (hashmap_refines_map calloc_max map8 10 example_calls) as (k & rc & m & Hle & Hk & Hinit & H);
    [apply calloc_max_sane|lia| |].
  - simpl. unfold client_ok, map_reply, BT_HASHMAP_TOMBSTONE.
    repeat match goal with
      | |- _ /\ _ => split
      | |- forall r, _ -> _ => intros ? Hr; try destruct Hr as [Hr|Hr]; subst
      end; simpl; try done; by simplify_map_eq.
  - assert (k <= 4) as Hk4.
    { destruct Hk as [->|[_ Hk]]; [lia|]. destruct (Z.le_gt_cases k 4); [done|].
      pose proof (Z.pow_le_mono_r 2 4 (k - 1) ltac:(lia) ltac:(lia)). lia. }
    assert (calloc_max (2 ^ k) = true) as Hc.
    { unfold calloc_max. pose proof (Z.pow_le_mono_r 2 k 4 ltac:(lia) ltac:(lia)). lia. }
    rewrite Hc in H. destruct H as (-> & _ & rs & m' & Hrun & Htr). by exists m, rs, m'.
Defined.

Lemma map8_wf : hm_wf 3 map8 (calloc_entries 8).
Proof. apply (calloc_wf 3 1). lia. Defined.

Lemma put_depth_enough_witness :
  put_depth 7 calloc_max map8 5 100 = put_depth 2 calloc_max map8 5 100.
Proof.
  exact (proj1 (put_depth_enough 7 calloc_max 3 map8 _ 5 100 calloc_max_sane map8_wf ltac:(lia))).
Defined.

(** The table of [map8] after inserting key 5. *)
Definition table5 : list entry := (calloc_entries 8).[5 <- Entry 5 100].

Lemma table5_wf : hm_wf 3 (HashMap (Some table5) 8 1 0 1) table5.
Proof.
  destruct (tab_insert 3 ltac:(lia) _ (w_tab _ _ _ map8_wf) 5 100 0 ltac:(lia)) as [Htab _];
    try done; intros; lia.
Defined.

Lemma put_rejects_duplicate_witness :
  bt_hashmap_put calloc_max (Some (HashMap (Some table5) 8 1 0 1)) 5 300
  = Some (-1, Some (HashMap (Some table5) 8 1 0 1)).
Proof.
  apply (put_rejects_duplicate calloc_max 3 _ table5);
    [apply table5_wf|by exists 100|done|simpl; lia|].
  intros idx Hidx.
  assert (idx = 0 \/ idx = 1 \/ idx = 2 \/ idx = 3 \/ idx = 4 \/ idx = 5 \/ idx = 6 \/ idx = 7)
    as Hc by lia.
  repeat destruct Hc as [->|Hc]; try subst; done.
Defined.
