(* ===== verification/CTypes.v ===== *)
(** * The message types and their memory images

    Models the structs of [src/src/include/bt_types.h] and of
    [src/src/include/bt_journal.h] that the program copies to and from byte
    buffers with [memcpy]: the gateway overlays received payloads with
    [bt_order_request_t] and [bt_cancel_request_t], sends
    [bt_order_response_t] images, and the journal writes
    [bt_journal_entry_t] images. A struct is a record whose integer fields
    hold the values at their width; its image is the list of bytes of the
    x86-64 layout (little endian, natural alignment). Padding bytes have
    unspecified values, so an encoder that meets padding takes them as a
    field or an argument. *)

From S2P Require Import Prelude.

(** ** Little-endian integers *)

Definition is_byte (b : Z) : Prop := 0 <= b < 256.
#[global] Instance is_byte_dec b : Decision (is_byte b).
Proof. unfold is_byte. solve_decision. Defined.

Definition is_bytes (n : nat) (l : list Z) : Prop := length l = n /\ Forall is_byte l.
#[global] Instance is_bytes_dec n l : Decision (is_bytes n l).
Proof. unfold is_bytes. solve_decision. Defined.

Fixpoint le_bytes (n : nat) (z : Z) : list Z :=
  match n with
  | O => []
  | S n => z mod 256 :: le_bytes n (z / 256)
  end.

Fixpoint le_val (l : list Z) : Z :=
  match l with
  | [] => 0
  | b :: l => b + 256 * le_val l
  end.

(** Reading a 64-bit pattern as [int64_t]. *)
Definition i64 (x : Z) : Z := (x + 2 ^ 63) mod 2 ^ 64 - 2 ^ 63.

Lemma length_le_bytes n z : length (le_bytes n z) = n.
Proof. revert z. induction n as [|n IH]; intros z; simpl; [done|by rewrite IH]. Qed.

Lemma le_bytes_ok n z : is_bytes n (le_bytes n z).
Proof.
  split; [apply length_le_bytes|]. revert z.
  induction n as [|n IH]; intros z; simpl; constructor; [|done].
  by apply Z.mod_pos_bound.
Qed.

Lemma le_val_bytes n z : le_val (le_bytes n z) = z mod 256 ^ Z.of_nat n.
Proof.
  revert z. induction n as [|n IH]; intros z; simpl.
  - by rewrite Z.mod_1_r.
  - rewrite IH, Nat2Z.inj_succ, Z.pow_succ_r by lia.
    rewrite Z.rem_mul_r by (try apply Z.pow_nonzero; lia). lia.
Qed.

Lemma le_val_bytes_small n z :
  0 <= z < 256 ^ Z.of_nat n -> le_val (le_bytes n z) = z.
Proof. intros Hz. rewrite le_val_bytes. by apply Z.mod_small. Qed.

Lemma le_bytes_val l : Forall is_byte l -> le_bytes (length l) (le_val l) = l.
Proof.
  unfold is_byte. induction 1 as [|b l Hb Hl IH]; simpl; [done|].
  f_equal.
  - rewrite Z.mul_comm, Z.mod_add, Z.mod_small; lia.
  - rewrite Z.mul_comm, Z.div_add, Z.div_small by lia. done.
Qed.

Lemma le_val_range l : Forall is_byte l -> 0 <= le_val l < 256 ^ zlen l.
Proof.
  unfold is_byte. induction 1 as [|b l Hb Hl IH]; simpl; [done|].
  rewrite zlen_cons, Z.pow_add_r by (try apply zlen_nonneg; lia). lia.
Qed.

Lemma i64_u64 z : - 2 ^ 63 <= z < 2 ^ 63 -> i64 (u64 z) = z.
Proof.
  intros Hz. unfold i64, u64. rewrite Zplus_mod_idemp_l, Z.mod_small by lia. lia.
Qed.

Lemma u64_i64 z : is_u64 z -> u64 (i64 z) = z.
Proof.
  unfold is_u64, u64, i64. intros Hz. rewrite Zminus_mod_idemp_l.
  replace (z + 2 ^ 63 - 2 ^ 63) with z by lia. by apply Z.mod_small.
Qed.

#[global] Arguments le_bytes : simpl never.
#[global] Arguments le_val : simpl never.

(** The bytes at [off, off + n) of an image. *)
Definition field (off n : nat) (l : list Z) : list Z := take n (drop off l).

Lemma field_app_l a b off n :
  (off + n <= length a)%nat -> field off n (a ++ b) = field off n a.
Proof.
  intros H. unfold field. rewrite drop_app_le by lia.
  rewrite take_app_le; [done|]. rewrite length_drop. lia.
Qed.

Lemma field_skip a b off n :
  (length a <= off)%nat -> field off n (a ++ b) = field (off - length a) n b.
Proof. intros H. unfold field. by rewrite drop_app_ge. Qed.

Lemma field_here a b n : length a = n -> field 0 n (a ++ b) = a.
Proof. intros <-. unfold field. rewrite drop_0. by rewrite take_app_length. Qed.

Lemma field_all a n : length a = n -> field 0 n a = a.
Proof. intros <-. unfold field. rewrite drop_0. by rewrite take_ge. Qed.

(** Compute the field of an image written as a concatenation of parts whose
    lengths are known. *)
Ltac known_lengths :=
  rewrite ?length_le_bytes;
  repeat match goal with H : length ?a = _ |- context [length ?a] => rewrite H end.
Ltac field_simpl :=
  repeat first
    [ rewrite field_here by (known_lengths; reflexivity)
    | rewrite field_skip by (known_lengths; lia); known_lengths; cbn [Nat.sub]
    | rewrite field_all by (known_lengths; reflexivity) ].

(** ** [bt_types.h] *)

Definition BT_PRICE_SCALE : Z := 1000000.

Definition BT_SIDE_BUY : Z := 0.
Definition BT_SIDE_SELL : Z := 1.

Definition BT_TYPE_LIMIT : Z := 0.
Definition BT_TYPE_MARKET : Z := 1.
Definition BT_TYPE_IOC : Z := 2.
Definition BT_TYPE_FOK : Z := 3.

(** The order status; the gateway only forwards it. *)
Inductive bt_order_status_t :=
  | BT_STATUS_NEW | BT_STATUS_ACK | BT_STATUS_PARTIAL
  | BT_STATUS_FILLED | BT_STATUS_CANCELED | BT_STATUS_REJECTED.

Definition status_code (s : bt_order_status_t) : Z :=
  match s with
  | BT_STATUS_NEW => 0 | BT_STATUS_ACK => 1 | BT_STATUS_PARTIAL => 2
  | BT_STATUS_FILLED => 3 | BT_STATUS_CANCELED => 4 | BT_STATUS_REJECTED => 5
  end.

#[global] Instance status_eq_dec : EqDecision bt_order_status_t.
Proof. solve_decision. Defined.

(** The order request. [side] and [type] are C enums of the width of an
    [unsigned int]: the wire can put any value there. *)
Record bt_order_request_t := OrderRequest {
  rq_request_id : Z;
  rq_user_id : Z;
  rq_symbol : list Z;
  rq_price : Z;
  rq_quantity : Z;
  rq_side : Z;
  rq_type : Z;
  rq_timestamp : Z;
}.

Definition sizeof_order_request : Z := 64.

#[global] Instance order_request_eq_dec : EqDecision bt_order_request_t.
Proof. solve_decision. Defined.

Definition order_request_wf (r : bt_order_request_t) : Prop :=
  is_u64 (rq_request_id r) /\ is_u64 (rq_user_id r) /\ is_bytes 16 (rq_symbol r) /\
  - 2 ^ 63 <= rq_price r < 2 ^ 63 /\ 0 <= rq_quantity r < 2 ^ 32 /\
  0 <= rq_side r < 2 ^ 32 /\ 0 <= rq_type r < 2 ^ 32 /\ is_u64 (rq_timestamp r).

(** The image of a request; [pad] is the padding before [timestamp]. *)
Definition order_request_image (pad : list Z) (r : bt_order_request_t) : list Z :=
  le_bytes 8 (rq_request_id r) ++ le_bytes 8 (rq_user_id r) ++ rq_symbol r ++
  le_bytes 8 (u64 (rq_price r)) ++ le_bytes 4 (rq_quantity r) ++
  le_bytes 4 (rq_side r) ++ le_bytes 4 (rq_type r) ++ pad ++ le_bytes 8 (rq_timestamp r).

(** The request a [memcpy] of 64 bytes over the struct produces. *)
Definition order_request_of_bytes (l : list Z) : bt_order_request_t := {|
  rq_request_id := le_val (field 0 8 l);
  rq_user_id := le_val (field 8 8 l);
  rq_symbol := field 16 16 l;
  rq_price := i64 (le_val (field 32 8 l));
  rq_quantity := le_val (field 40 4 l);
  rq_side := le_val (field 44 4 l);
  rq_type := le_val (field 48 4 l);
  rq_timestamp := le_val (field 56 8 l);
|}.

Record bt_cancel_request_t := CancelRequest {
  cr_order_id : Z;
  cr_user_id : Z;
  cr_symbol : list Z;
  cr_timestamp : Z;
}.

#[global] Instance cancel_request_eq_dec : EqDecision bt_cancel_request_t.
Proof. solve_decision. Defined.

Record bt_order_response_t := OrderResponse {
  rs_request_id : Z;
  rs_order_id : Z;
  rs_status : bt_order_status_t;
  rs_filled_qty : Z;
  rs_reject_reason : list Z;
}.

Definition sizeof_order_response : Z := 88.

Definition order_response_wf (r : bt_order_response_t) : Prop :=
  is_bytes 64 (rs_reject_reason r).

Definition order_response_image (r : bt_order_response_t) : list Z :=
  le_bytes 8 (rs_request_id r) ++ le_bytes 8 (rs_order_id r) ++
  le_bytes 4 (status_code (rs_status r)) ++ le_bytes 4 (rs_filled_qty r) ++
  rs_reject_reason r.

(** The message of the gateway to OMS queue. *)
Record bt_gw_oms_msg_t := GwOmsMsg {
  gm_msg_type : Z;
  gm_request : bt_order_request_t;
  gm_cancel : bt_cancel_request_t;
  gm_seq_num : Z;
}.

#[global] Instance gw_oms_msg_eq_dec : EqDecision bt_gw_oms_msg_t.
Proof. solve_decision. Defined.

(** ** [bt_journal.h] *)

Inductive bt_journal_entry_type_t :=
  | BT_JOURNAL_NEW_ORDER | BT_JOURNAL_TRADE | BT_JOURNAL_CANCEL | BT_JOURNAL_SNAPSHOT.

Definition entry_type_code (t : bt_journal_entry_type_t) : Z :=
  match t with
  | BT_JOURNAL_NEW_ORDER => 0 | BT_JOURNAL_TRADE => 1
  | BT_JOURNAL_CANCEL => 2 | BT_JOURNAL_SNAPSHOT => 3
  end.

Definition entry_type_of_code (z : Z) : option bt_journal_entry_type_t :=
  if z =? 0 then Some BT_JOURNAL_NEW_ORDER
  else if z =? 1 then Some BT_JOURNAL_TRADE
  else if z =? 2 then Some BT_JOURNAL_CANCEL
  else if z =? 3 then Some BT_JOURNAL_SNAPSHOT
  else None.

(** A journal entry. The union of an order and a trade is its 64 bytes; the
    four bytes between [type] and [timestamp] are padding. *)
Record bt_journal_entry_t := JournalEntry {
  je_version : Z;
  je_reserved : Z;
  je_seq_num : Z;
  je_type : bt_journal_entry_type_t;
  je_pad : list Z;
  je_timestamp : Z;
  je_checksum : Z;
  je_data : list Z;
}.

#[global] Instance journal_entry_type_eq_dec : EqDecision bt_journal_entry_type_t.
Proof. solve_decision. Defined.
#[global] Instance journal_entry_eq_dec : EqDecision bt_journal_entry_t.
Proof. solve_decision. Defined.
#[global] Instance journal_entry_inhabited : Inhabited bt_journal_entry_t :=
  populate (JournalEntry 0 0 0 BT_JOURNAL_NEW_ORDER (replicate 4 0) 0 0 (replicate 64 0)).

Definition sizeof_journal_entry : Z := 104.

Definition journal_entry_wf (e : bt_journal_entry_t) : Prop :=
  0 <= je_version e < 2 ^ 32 /\ 0 <= je_reserved e < 2 ^ 32 /\ is_u64 (je_seq_num e) /\
  is_bytes 4 (je_pad e) /\ is_u64 (je_timestamp e) /\ is_u64 (je_checksum e) /\
  is_bytes 64 (je_data e).

Definition journal_entry_image (e : bt_journal_entry_t) : list Z :=
  le_bytes 4 (je_version e) ++ le_bytes 4 (je_reserved e) ++ le_bytes 8 (je_seq_num e) ++
  le_bytes 4 (entry_type_code (je_type e)) ++ je_pad e ++ le_bytes 8 (je_timestamp e) ++
  le_bytes 8 (je_checksum e) ++ je_data e.

(** Reading an image back. *)
Definition journal_entry_of_bytes (l : list Z) : option bt_journal_entry_t :=
  match entry_type_of_code (le_val (field 16 4 l)) with
  | Some t => Some {|
      je_version := le_val (field 0 4 l);
      je_reserved := le_val (field 4 4 l);
      je_seq_num := le_val (field 8 8 l);
      je_type := t;
      je_pad := field 20 4 l;
      je_timestamp := le_val (field 24 8 l);
      je_checksum := le_val (field 32 8 l);
      je_data := field 40 64 l |}
  | None => None
  end.

(** ** Round trips *)

Lemma length_journal_entry_image e :
  journal_entry_wf e -> zlen (journal_entry_image e) = sizeof_journal_entry.
Proof.
  intros (_ & _ & _ & [Hp _] & _ & _ & [Hd _]). unfold zlen, journal_entry_image.
  rewrite !length_app, !length_le_bytes, Hp, Hd. done.
Qed.

Lemma entry_type_code_inv t : entry_type_of_code (entry_type_code t) = Some t.
Proof. by destruct t. Qed.

Lemma journal_entry_roundtrip e :
  journal_entry_wf e -> journal_entry_of_bytes (journal_entry_image e) = Some e.
Proof.
  destruct e as [v r s t p ts c d].
  intros (Hv & Hr & Hs & [Hp _] & Hts & Hc & [Hd _]); simpl in *. unfold is_u64 in *.
  unfold journal_entry_of_bytes, journal_entry_image.
  cbn [je_version je_reserved je_seq_num je_type je_pad je_timestamp je_checksum je_data].
  field_simpl. rewrite !le_val_bytes_small by (first [done|by destruct t]).
  rewrite entry_type_code_inv. done.
Qed.

Lemma length_order_response_image r :
  order_response_wf r -> zlen (order_response_image r) = sizeof_order_response.
Proof.
  intros [Hr _]. unfold zlen, order_response_image.
  rewrite !length_app, !length_le_bytes, Hr. done.
Qed.

Lemma order_request_roundtrip pad r :
  length pad = 4%nat -> order_request_wf r ->
  order_request_of_bytes (order_request_image pad r) = r.
Proof.
  destruct r as [i u s p q sd ty ts].
  intros Hpad (Hi & Hu & [Hs _] & Hp & Hq & Hsd & Hty & Hts); simpl in *. unfold is_u64 in *.
  unfold order_request_of_bytes, order_request_image.
  cbn [rq_request_id rq_user_id rq_symbol rq_price rq_quantity rq_side rq_type rq_timestamp].
  field_simpl.
  rewrite !le_val_bytes_small by (try done; apply u64_range).
  by rewrite i64_u64.
Qed.
