(* ===== verification/Pipeline.v ===== *)
(** * The queues between the components, and the market data engine

    Models the element types and the initialisation helpers of
    [src/src/include/bt_queues.h], and the market data engine of
    [src/src/md/market_data.c], the one consumer of these queues behind the
    gateway whose code is in the repository. *)

From S2P Require Import Prelude Queue CTypes.

Definition BT_CFG_GATEWAY_QUEUE_CAP : Z := 65536.
Definition BT_CFG_OMS_QUEUE_CAP : Z := 65536.
Definition BT_CFG_RISK_QUEUE_CAP : Z := 65536.
Definition BT_CFG_MATCH_QUEUE_CAP : Z := 65536.
Definition BT_CFG_TRADE_QUEUE_CAP : Z := 131072.
Definition BT_CFG_JOURNAL_QUEUE_CAP : Z := 262144.

(** The compile-time test of the capacities: [x != 0 && (x & (x - 1)) == 0]. *)
Definition BT_IS_POW2 (x : Z) : bool := negb (x =? 0) && (Z.land x (x - 1) =? 0).

(** The six assertions of the configuration header. *)
Definition capacity_assertions : list bool :=
  BT_IS_POW2 <$> [BT_CFG_GATEWAY_QUEUE_CAP; BT_CFG_OMS_QUEUE_CAP; BT_CFG_RISK_QUEUE_CAP;
                  BT_CFG_MATCH_QUEUE_CAP; BT_CFG_TRADE_QUEUE_CAP; BT_CFG_JOURNAL_QUEUE_CAP].

(** ** Element types *)

Record bt_risk_result_t := RiskResult { rr_order_id : Z; rr_passed : Z; rr_reason : list Z }.

(** OMS to risk. *)
Record bt_oms_risk_msg_t := OmsRiskMsg {
  or_msg_type : Z;
  or_request : bt_order_request_t;
  or_cancel : bt_cancel_request_t;
  or_seq_num : Z;
}.

(** Risk to sequencer. *)
Record bt_risk_seq_msg_t := RiskSeqMsg {
  rq_msg_type : Z;
  rq_req : bt_order_request_t;
  rq_cancel : bt_cancel_request_t;
  rq_risk : bt_risk_result_t;
  rq_seq_num : Z;
}.

(** Sequencer to matching engine. *)
Record bt_seq_match_msg_t := SeqMatchMsg {
  sm_msg_type : Z;
  sm_request : bt_order_request_t;
  sm_cancel : bt_cancel_request_t;
  sm_risk : bt_risk_result_t;
  sm_local_seq : Z;
  sm_global_seq : Z;
}.

Inductive bt_tick_type_t := BT_TICK_TRADE | BT_TICK_BEST_BID | BT_TICK_BEST_ASK | BT_TICK_SNAPSHOT.

Record bt_md_tick_t := MdTick {
  tk_type : bt_tick_type_t;
  tk_symbol : list Z;
  tk_price : Z;
  tk_quantity : Z;
  tk_timestamp : Z;
  tk_trade_id : Z;
  tk_side : Z;
}.

#[global] Instance md_tick_inhabited : Inhabited bt_md_tick_t :=
  populate (MdTick BT_TICK_TRADE (replicate 16 0) 0 0 0 0 0).

(** ** The queues of the pipeline *)

(** The arguments of the initialisation helpers; the two arrays have one
    element per matching thread, and a NULL pointer is [None]. *)
Record queues := Queues {
  gw_oms : option (queue bt_gw_oms_msg_t);
  oms_risk : option (queue bt_oms_risk_msg_t);
  risk_in : option (queue bt_oms_risk_msg_t);
  seq_in : option (queue bt_risk_seq_msg_t);
  match_in : list (queue bt_seq_match_msg_t);
  md_tick : list (queue bt_md_tick_t);
}.

(** The initialisation macro applied to existing storage. *)
Definition reinit {A} (q : queue A) : queue A := QUEUE_INIT (q_buffer q).

(** The loop over the matching threads; [None] for an index beyond the array. *)
Fixpoint init_each {A} (n : nat) (l : list (queue A)) : option (list (queue A)) :=
  match n, l with
  | O, l => Some l
  | S n, q :: l => match init_each n l with Some l => Some (reinit q :: l) | None => None end
  | S _, [] => None
  end.

Definition bt_queues_init_all_v4 (num_matchers : Z) (s : queues) : option queues :=
  match init_each (Z.to_nat num_matchers) (match_in s), init_each (Z.to_nat num_matchers) (md_tick s) with
  | Some mi, Some mt =>
      Some (Queues (reinit <$> gw_oms s) (reinit <$> oms_risk s) (reinit <$> risk_in s)
              (reinit <$> seq_in s) mi mt)
  | _, _ => None
  end.

(** The older helper dereferences its pointers without a test, and does not
    know the sequencer's queue. *)
Definition bt_queues_init_all (num_matchers : Z) (s : queues) : option queues :=
  match gw_oms s, oms_risk s, risk_in s with
  | Some a, Some b, Some c =>
      match init_each (Z.to_nat num_matchers) (match_in s),
            init_each (Z.to_nat num_matchers) (md_tick s) with
      | Some mi, Some mt =>
          Some (Queues (Some (reinit a)) (Some (reinit b)) (Some (reinit c)) (seq_in s) mi mt)
      | _, _ => None
      end
  | _, _, _ => None
  end.

(** ** The market data engine *)

Record bt_md_ctx := MdCtx {
  md_thread_id : Z;
  md_cpu_core : Z;
  md_running : bool;
  md_sched_id : Z;
  md_tick_count : Z;
}.

Definition bt_md_create (calloc_ok : bool) (tid cpu sched_id : Z) : option bt_md_ctx :=
  if calloc_ok then Some (MdCtx tid cpu true sched_id 0) else None.

(** [bt_md_start]: the result of [pthread_create], -1 for NULL. *)
Definition bt_md_start (created : Z) (ctx : option bt_md_ctx) : Z :=
  match ctx with Some _ => created | None => -1 end.

Definition set_md (running : bool) (ticks : Z) (c : bt_md_ctx) : bt_md_ctx :=
  MdCtx (md_thread_id c) (md_cpu_core c) running (md_sched_id c) ticks.

(** One round of the loop of [md_thread]; [None] when the loop ends. *)
Definition md_round (st : bt_md_ctx * queue bt_md_tick_t) : option (bt_md_ctx * queue bt_md_tick_t) :=
  let '(c, q) := st in
  if negb (md_running c) then None
  else
    match SPSC_POP q with
    | (None, q') => Some (c, q')
    | (Some _, q') => Some (set_md (md_running c) (u64 (md_tick_count c + 1)) c, q')
    end.

(** [bt_md_stop] before the join. *)
Definition bt_md_stop (c : bt_md_ctx) : bt_md_ctx := set_md false (md_tick_count c) c.

(** [bt_md_destroy]: whether it stops the thread before it frees the object. *)
Definition bt_md_destroy (ctx : option bt_md_ctx) : option bool :=
  match ctx with Some c => Some (md_running c) | None => None end.

(** What happens around the engine: a matching thread pushes a tick, the
    engine's loop runs a round, the main thread stops it. *)
Inductive md_event := TickPushed (t : bt_md_tick_t) | Round | Stop.

(** The state and the number of ticks the queue accepted. *)
Definition md_step (ev : md_event) (st : bt_md_ctx * queue bt_md_tick_t * Z)
  : bt_md_ctx * queue bt_md_tick_t * Z :=
  let '(c, q, n) := st in
  match ev with
  | TickPushed t => let '(ok, q') := SPSC_PUSH t q in (c, q', if ok then n + 1 else n)
  | Round => match md_round (c, q) with Some (c', q') => (c', q', n) | None => st end
  | Stop => (bt_md_stop c, q, n)
  end.

(** ** Laws *)

(** The assertion accepts exactly the powers of two. *)
Lemma is_pow2_spec x : 0 <= x -> BT_IS_POW2 x = true <-> exists k, 0 <= k /\ x = 2 ^ k.
Proof.
  intros Hx. unfold BT_IS_POW2. split.
  - intros [H0 Hland%Z.eqb_eq]%andb_true_iff. apply negb_true_iff, Z.eqb_neq in H0.
    exists (Z.log2 x). split; [apply Z.log2_nonneg|].
    pose proof (Z.log2_spec x ltac:(lia)) as [Hlo Hhi].
    destruct (decide (x = 2 ^ Z.log2 x)) as [|Hne]; [done|exfalso].
    assert (Z.log2 (x - 1) = Z.log2 x) as Hlog
      by (apply Z.log2_unique; [apply Z.log2_nonneg|lia]).
    assert (Z.testbit (Z.land x (x - 1)) (Z.log2 x) = true) as Hbit.
    { rewrite Z.land_spec, Z.bit_log2 by lia. rewrite <- Hlog. apply Z.bit_log2.
      pose proof (pow2_pos (Z.log2 x) (Z.log2_nonneg x)). lia. }
    by rewrite Hland, Z.bits_0 in Hbit.
  - intros (k & Hk & ->). pose proof (pow2_pos k Hk).
    rewrite land_mask, Z.mod_same by lia.
    destruct (Z.eqb_spec (2 ^ k) 0); [lia|done].
Qed.

(** A capacity that passes the assertion, and is neither 1 nor beyond the
    range of an index, makes a well-formed empty queue; the six configured
    capacities pass. *)
Lemma asserted_capacity_ok {A} `{!Inhabited A} (buf : list A) :
  BT_IS_POW2 (zlen buf) = true -> 1 < zlen buf < 2 ^ 64 ->
  queue_wf (QUEUE_INIT buf) /\ contents (QUEUE_INIT buf) = [].
Proof.
  intros (k & Hk & E)%is_pow2_spec Hr; [|unfold zlen; lia]. split; [|apply queue_init_contents].
  apply (queue_init_wf _ k); [|done].
  destruct (decide (k = 0)) as [->|]; [simpl in E; lia|].
  destruct (decide (k < 64)); [lia|].
  pose proof (Z.pow_le_mono_r 2 64 k ltac:(lia) ltac:(lia)). lia.
Qed.

Lemma capacity_assertions_hold : Forall (fun b => b = true) capacity_assertions.
Proof. repeat constructor. Qed.

Lemma reinit_wf {A} `{!Inhabited A} (q : queue A) k :
  1 <= k < 64 -> zlen (q_buffer q) = 2 ^ k -> queue_wf (reinit q) /\ contents (reinit q) = [].
Proof. intros Hk Hl. split; [by apply (queue_init_wf _ k)|done]. Qed.

Lemma init_each_spec {A} `{!Inhabited A} n (l l' : list (queue A)) k :
  1 <= k < 64 -> Forall (fun q => zlen (q_buffer q) = 2 ^ k) l -> init_each n l = Some l' ->
  length l' = length l /\ Forall (fun q => queue_wf q /\ contents q = []) (take n l').
Proof.
  intros Hk. revert l l'. induction n as [|n IH]; intros l l' Hl E; simpl in E; [by simplify_eq|].
  destruct Hl as [|q l Hq Hl]; [done|]. destruct (init_each n l) as [l2|] eqn:E2; [|done]. simplify_eq.
  destruct (IH _ _ Hl E2) as [Hlen Hf]. simpl. split; [lia|]. constructor; [by eapply reinit_wf|done].
Qed.

Lemma md_step_conserves ev st :
  queue_wf (st.1.2) ->
  let st' := md_step ev st in
  queue_wf (st'.1.2) /\
  u64 (md_tick_count st.1.1 + zlen (contents st.1.2) - st.2) =
  u64 (md_tick_count st'.1.1 + zlen (contents st'.1.2) - st'.2).
Proof.
  destruct st as [[c q] n]. simpl. intros Hwf. destruct ev as [t| |]; simpl.
  - destruct (SPSC_PUSH t q) as [ok q'] eqn:E. simpl.
    destruct (@bq_push_spec _ _ spsc_queue q t ok q' Hwf E) as (Hwf' & _ & _ & Hc). simpl in *.
    split; [done|]. rewrite Hc, zlen_app. destruct ok; unfold zlen; simpl; f_equal; lia.
  - destruct (negb (md_running c)); [done|].
    destruct (SPSC_POP q) as [r q'] eqn:E.
    destruct (@bq_pop_spec _ _ spsc_queue q r q' Hwf E) as (Hwf' & _ & Hr & Hc). simpl in *.
    destruct (contents q) as [|x l]; simpl in *; subst r; simpl; (split; [done|]); rewrite Hc; [done|].
    unfold u64. rewrite zlen_cons.
    rewrite (Zminus_mod ((md_tick_count c + 1) mod 2 ^ 64 + _)), Zplus_mod_idemp_l, <- Zminus_mod.
    f_equal. lia.
  - done.
Qed.

(** No tick is lost or counted twice between the matching thread and the
    engine: at any time the ticks counted and the ticks still in the queue
    are together the ticks the queue accepted, modulo 2^64. *)
Theorem md_conservation (c : bt_md_ctx) (buf : list bt_md_tick_t) (evs : list md_event) :
  zlen buf = BT_CFG_MATCH_QUEUE_CAP -> md_tick_count c = 0 ->
  let '(c', q', n) := foldl (fun st ev => md_step ev st) (c, QUEUE_INIT buf, 0) evs in
  u64 (md_tick_count c' + zlen (contents q')) = u64 n.
Proof.
  intros Hb Hc.
  assert (forall st, queue_wf (st.1.2) -> let st' := foldl (fun st ev => md_step ev st) st evs in
    u64 (md_tick_count st.1.1 + zlen (contents st.1.2) - st.2) =
    u64 (md_tick_count st'.1.1 + zlen (contents st'.1.2) - st'.2)) as Hall.
  { induction evs as [|ev evs IH]; intros st Hwf; [done|]. simpl.
    destruct (md_step_conserves ev st Hwf) as [Hwf' ->]. by apply IH. }
  specialize (Hall (c, QUEUE_INIT buf, 0)). destruct (foldl _ _ evs) as [[c' q'] n]. simpl in *.
  rewrite Hc, queue_init_contents in Hall.
  assert (queue_wf (QUEUE_INIT buf)) as Hwf by (apply (queue_init_wf _ 16); [lia|done]).
  specialize (Hall Hwf). change (u64 (0 + zlen (@nil bt_md_tick_t) - 0)) with 0 in Hall.
  symmetry in Hall. unfold u64 in *. apply Z.mod_divide in Hall; [|lia]. destruct Hall as [z Hz].
  replace (md_tick_count c' + zlen (contents q')) with (n + z * 2 ^ 64) by lia. by rewrite Z.mod_add by lia.
Qed.
