(* ===== verification/Journal.v ===== *)
(** * The append-only journal

    Models [src/src/persistence/journal.c]: the journal handle with its SPSC
    ring, the flush with its short-write and EINTR handling, the worker thread
    as a state machine that interleaves with the callers of
    [bt_journal_append], [bt_journal_flush] and [bt_journal_close], and the
    error paths of [bt_journal_open]. The results of [write], [fdatasync],
    [malloc] and of the clock are inputs of the steps. Each ring operation is
    one step, which the theorems of [SpscConc] justify for one producer. *)

From S2P Require Import Prelude Queue CTypes.

Definition JOURNAL_RING_SIZE : Z := 262144.
Definition JOURNAL_BATCH_DRAIN : Z := 64.
Definition BT_CFG_JOURNAL_BUF_SIZE : Z := 16 * 1024 * 1024.

(** ** The file and the handle *)

(** What a file descriptor opened for appending denotes: the bytes of the
    file, and how many of them the last successful [fdatasync] covered. *)
Record jfile := JFile { f_bytes : list Z; f_durable : Z }.

Definition fdatasync (ok : bool) (f : jfile) : jfile :=
  if ok then JFile (f_bytes f) (zlen (f_bytes f)) else f.

(** The outcome of one [write] call: it appends up to [n] bytes, is
    interrupted (EINTR), or fails with another error. *)
Inductive write_out := Wrote (n : nat) | WIntr | WFail.

Record bt_journal := Journal {
  j_path : list Z;
  j_sync_interval_ms : Z;
  j_fd : jfile;
  j_ring : queue bt_journal_entry_t;
  j_running : bool;
  j_written : Z;
  j_dropped : Z;
  j_flushed : Z;
}.

Definition set_fd (f : jfile) (j : bt_journal) : bt_journal :=
  Journal (j_path j) (j_sync_interval_ms j) f (j_ring j) (j_running j)
    (j_written j) (j_dropped j) (j_flushed j).
Definition set_ring (r : queue bt_journal_entry_t) (j : bt_journal) : bt_journal :=
  Journal (j_path j) (j_sync_interval_ms j) (j_fd j) r (j_running j)
    (j_written j) (j_dropped j) (j_flushed j).
Definition set_running (b : bool) (j : bt_journal) : bt_journal :=
  Journal (j_path j) (j_sync_interval_ms j) (j_fd j) (j_ring j) b
    (j_written j) (j_dropped j) (j_flushed j).
Definition add_dropped (n : Z) (j : bt_journal) : bt_journal :=
  Journal (j_path j) (j_sync_interval_ms j) (j_fd j) (j_ring j) (j_running j)
    (j_written j) (u64 (j_dropped j + n)) (j_flushed j).
Definition add_written (n bytes : Z) (j : bt_journal) : bt_journal :=
  Journal (j_path j) (j_sync_interval_ms j) (j_fd j) (j_ring j) (j_running j)
    (u64 (j_written j + n)) (j_dropped j) (u64 (j_flushed j + bytes)).

(** ** Flushing

    The loop of [journal_do_flush] over the bytes not yet written. [None]
    when the outcomes are used up, that is while the loop has not ended. *)
Fixpoint flush_loop (outs : list write_out) (file rest : list Z)
  : option (list Z * list Z) :=
  match rest with
  | [] => Some (file, rest)
  | _ :: _ =>
      match outs with
      | [] => None
      | WIntr :: outs => flush_loop outs file rest
      | WFail :: _ => Some (file, rest)
      | Wrote n :: outs =>
          let n := Nat.min n (length rest) in
          if (n =? 0)%nat then Some (file, rest)
          else flush_loop outs (file ++ take n rest) (drop n rest)
      end
  end.

(** [write_buf] is represented by its first [buf_offset] bytes, the only
    ones that are ever read. *)
Definition journal_do_flush (outs : list write_out) (sync_ok do_sync : bool)
    (j : bt_journal) (buf : list Z) : option (bt_journal * list Z) :=
  if zlen buf =? 0 then Some (j, buf)
  else
    match flush_loop outs (f_bytes (j_fd j)) buf with
    | None => None
    | Some (file, rest) =>
        let to_write := zlen buf in
        let written_total := to_write - zlen rest in
        let f := JFile file (f_durable (j_fd j)) in
        let j :=
          if 0 <? written_total then
            let f := if do_sync && (0 <? j_sync_interval_ms j) then fdatasync sync_ok f else f in
            add_written 1 written_total (set_fd f j)
          else set_fd f j in
        if written_total <? to_write then Some (j, rest) else Some (j, [])
    end.

(** ** The worker thread *)

(** Where the worker is: before its allocation, at the test of the outer
    loop, in the drain loop with its counter, after the drain loop, before
    the final flush, returned; [PcOverrun] is a [memcpy] beyond the end of
    [write_buf]. *)
Inductive wpc :=
  | PcStart | PcTop | PcDrain (drained : Z) | PcAfter (drained : Z)
  | PcFinal | PcDone | PcOverrun.

#[global] Instance wpc_eq_dec : EqDecision wpc.
Proof. solve_decision. Defined.

Record jstate := JState {
  js_j : bt_journal;
  js_pc : wpc;
  js_buf : list Z;
  js_last_sync : Z;
  js_sync_ns : Z;
  js_idle_spins : Z;
  js_closed : bool;
}.

Definition set_j (j : bt_journal) (s : jstate) : jstate :=
  JState j (js_pc s) (js_buf s) (js_last_sync s) (js_sync_ns s) (js_idle_spins s) (js_closed s).
Definition set_pc (pc : wpc) (s : jstate) : jstate :=
  JState (js_j s) pc (js_buf s) (js_last_sync s) (js_sync_ns s) (js_idle_spins s) (js_closed s).

(** One round of the drain loop: pop, make room, copy. *)
Definition drain_round (outs : list write_out) (sync_ok : bool) (now drained : Z)
    (s : jstate) : option jstate :=
  if drained <? JOURNAL_BATCH_DRAIN then
    match SPSC_POP (j_ring (js_j s)) with
    | (None, r) => Some (set_pc (PcAfter drained) (set_j (set_ring r (js_j s)) s))
    | (Some entry, r) =>
        let j := set_ring r (js_j s) in
        match
          (if BT_CFG_JOURNAL_BUF_SIZE <? zlen (js_buf s) + sizeof_journal_entry then
             match journal_do_flush outs sync_ok true j (js_buf s) with
             | Some (j, buf) => Some (j, buf, now)
             | None => None
             end
           else Some (j, js_buf s, js_last_sync s))
        with
        | None => None
        | Some (j, buf, last_sync) =>
            if BT_CFG_JOURNAL_BUF_SIZE <? zlen buf + sizeof_journal_entry then
              Some (JState j PcOverrun buf last_sync (js_sync_ns s) (js_idle_spins s) (js_closed s))
            else
              Some (JState j (PcDrain (drained + 1)) (buf ++ journal_entry_image entry)
                      last_sync (js_sync_ns s) 0 (js_closed s))
        end
    end
  else Some (set_pc (PcAfter drained) s).

(** The idle branch: the timer flush, then the backoff counter. *)
Definition idle_round (outs : list write_out) (sync_ok : bool) (now : Z)
    (s : jstate) : option jstate :=
  match
    (if (0 <? zlen (js_buf s)) && (js_sync_ns s <=? u64 (now - js_last_sync s)) then
       match journal_do_flush outs sync_ok (0 <? j_sync_interval_ms (js_j s)) (js_j s) (js_buf s) with
       | Some (j, buf) => Some (j, buf, now)
       | None => None
       end
     else Some (js_j s, js_buf s, js_last_sync s))
  with
  | None => None
  | Some (j, buf, last_sync) =>
      let spins := js_idle_spins s + 1 in
      Some (JState j PcTop buf last_sync (js_sync_ns s)
              (if 100 <? spins then 0 else spins) (js_closed s))
  end.

(** One step of [bt_journal_thread_core]. *)
Definition bt_journal_thread_core (malloc_ok : bool) (outs : list write_out)
    (sync_ok : bool) (now : Z) (s : jstate) : option jstate :=
  match js_pc s with
  | PcStart =>
      if malloc_ok
      then Some (JState (js_j s) PcTop [] now
                   (u64 (u64 (j_sync_interval_ms (js_j s)) * 1000000)) 0 (js_closed s))
      else Some (set_pc PcDone s)
  | PcTop => Some (set_pc (if j_running (js_j s) then PcDrain 0 else PcFinal) s)
  | PcDrain drained => drain_round outs sync_ok now drained s
  | PcAfter drained =>
      if drained =? 0 then idle_round outs sync_ok now s else Some (set_pc PcTop s)
  | PcFinal =>
      if 0 <? zlen (js_buf s) then
        match journal_do_flush outs sync_ok true (js_j s) (js_buf s) with
        | Some (j, buf) =>
            Some (JState j PcDone buf (js_last_sync s) (js_sync_ns s) (js_idle_spins s) (js_closed s))
        | None => None
        end
      else Some (set_pc PcDone s)
  | PcDone | PcOverrun => None
  end.

(** ** The public functions *)

(** [strncpy (j->path, path, 255)] into the zeroed [path[256]]. *)
Definition strncpy_path (path : list Z) : list Z :=
  let p := take 255 path in p ++ replicate (256 - length p) 0.

(** The zeroed element storage of the ring. *)
Definition calloc_ring : list bt_journal_entry_t :=
  replicate (Z.to_nat JOURNAL_RING_SIZE) inhabitant.

(** [bt_journal_open]: the flags tell which of [calloc], [open], the second
    [calloc] and [pthread_create] succeed; [f] is the file that is opened. *)
Definition bt_journal_open (calloc_ok fd_ok ring_ok thread_ok : bool) (f : jfile)
    (path : list Z) (sync_interval_ms : Z) : option jstate :=
  if negb calloc_ok then None
  else if negb fd_ok then None
  else if negb ring_ok then None
  else
    let j := Journal (strncpy_path path) sync_interval_ms f
               (QUEUE_INIT calloc_ring) true 0 0 0 in
    if negb thread_ok then None
    else Some (JState j PcStart [] 0 0 0 false).

Definition bt_journal_append (j : option bt_journal) (entry : option bt_journal_entry_t)
  : Z * option bt_journal :=
  match j, entry with
  | Some j, Some entry =>
      match SPSC_PUSH entry (j_ring j) with
      | (false, r) => (-1, Some (add_dropped 1 (set_ring r j)))
      | (true, r) => (0, Some (set_ring r j))
      end
  | _, _ => (-1, j)
  end.

Definition bt_journal_flush (sync_ok : bool) (j : option bt_journal) : option bt_journal :=
  match j with
  | None => None
  | Some j =>
      if 0 <? j_sync_interval_ms j
      then Some (set_fd (fdatasync sync_ok (j_fd j)) j) else Some j
  end.

(** [bt_journal_close] clears [running], waits for the worker and releases
    the handle; the wait is a step that is enabled when the worker returned. *)
Definition bt_journal_close_request (s : jstate) : jstate :=
  set_j (set_running false (js_j s)) s.
Definition bt_journal_close_join (s : jstate) : option jstate :=
  match js_pc s with
  | PcDone => if j_running (js_j s) then None
              else Some (JState (js_j s) PcDone (js_buf s) (js_last_sync s) (js_sync_ns s)
                           (js_idle_spins s) true)
  | _ => None
  end.

Definition bt_journal_stats (j : bt_journal) : Z * Z := (j_written j, j_dropped j).

(** ** Executions *)

Inductive jevent :=
  | EvAppend (e : bt_journal_entry_t)
  | EvFlush (sync_ok : bool)
  | EvCloseRequest
  | EvCloseJoin
  | EvWorker (malloc_ok : bool) (outs : list write_out) (sync_ok : bool) (now : Z).

(** The steps of the journal with the value the call returns; a call on a
    closed handle is not a step. *)
Definition jstep (ev : jevent) (s : jstate) : option (option Z * jstate) :=
  if js_closed s then None
  else
    match ev with
    | EvAppend e =>
        match bt_journal_append (Some (js_j s)) (Some e) with
        | (rc, Some j) => Some (Some rc, set_j j s)
        | (_, None) => None
        end
    | EvFlush ok =>
        match bt_journal_flush ok (Some (js_j s)) with
        | Some j => Some (None, set_j j s)
        | None => None
        end
    | EvCloseRequest => Some (None, bt_journal_close_request s)
    | EvCloseJoin => option_map (fun s => (None, s)) (bt_journal_close_join s)
    | EvWorker m outs ok now =>
        option_map (fun s => (None, s)) (bt_journal_thread_core m outs ok now s)
    end.

(** The states reachable from [s0], with the entries whose append returned 0,
    in order, and the number of refused appends. *)
Inductive jreach (s0 : jstate) : list bt_journal_entry_t -> Z -> jstate -> Prop :=
  | jreach_open : jreach s0 [] 0 s0
  | jreach_append acc refused s e rc s' :
      jreach s0 acc refused s -> jstep (EvAppend e) s = Some (Some rc, s') ->
      jreach s0 (acc ++ (if rc =? 0 then [e] else []))
        (refused + (if rc =? 0 then 0 else 1)) s'
  | jreach_step acc refused s ev r s' :
      jreach s0 acc refused s -> (forall e, ev <> EvAppend e) ->
      jstep ev s = Some (r, s') -> jreach s0 acc refused s'.

(** ** What a flush does *)

Definition images (es : list bt_journal_entry_t) : list Z :=
  concat (map journal_entry_image es).

Lemma images_app es es' : images (es ++ es') = images es ++ images es'.
Proof. unfold images. by rewrite map_app, concat_app. Qed.

Lemma flush_loop_conserves outs file rest file' rest' :
  flush_loop outs file rest = Some (file', rest') ->
  file' ++ rest' = file ++ rest /\ zlen rest' <= zlen rest.
Proof.
  revert file rest. induction outs as [|[n| |] outs IH]; intros file rest H;
    destruct rest as [|b rest]; simpl in H; simplify_eq; try (split; [done|lia]).
  - destruct (Nat.eqb_spec (Nat.min n (S (length rest))) 0) as [E|E]; simplify_eq.
    + split; [done|lia].
    + apply IH in H as [Happ Hlen]. rewrite Happ, <- app_assoc, take_drop.
      split; [done|]. unfold zlen in *. rewrite length_drop in Hlen. lia.
  - by apply IH.
Qed.

(** The loop ends, with everything written, when enough writes succeed: at
    most one successful write per byte is needed, interruptions are retried. *)
Definition succeeded (o : write_out) : bool :=
  match o with Wrote (S _) => true | _ => false end.

Lemma flush_loop_complete outs file rest :
  (forall o, o ∈ outs -> o <> WFail /\ o <> Wrote 0) ->
  (length rest <= length (List.filter succeeded outs))%nat ->
  flush_loop outs file rest = Some (file ++ rest, []).
Proof.
  revert file rest. induction outs as [|o outs IH]; intros file rest Hgood Hlen.
  - destruct rest; simpl in *; [by rewrite app_nil_r|lia].
  - destruct rest as [|b rest]; [simpl; by rewrite app_nil_r|].
    destruct (Hgood o ltac:(constructor)) as [Hf Hz].
    assert (forall o, o ∈ outs -> o <> WFail /\ o <> Wrote 0) as Hgood'
      by (intros o' ?; apply Hgood; by constructor).
    destruct o as [[|n]| |]; simpl in *; [done| | |done].
    + rewrite IH; [|done|rewrite length_drop; simpl; lia].
      rewrite <- app_assoc. simpl. by rewrite take_drop.
    + by apply IH.
Qed.

Lemma do_flush_conserves outs ok d j buf j' buf' :
  journal_do_flush outs ok d j buf = Some (j', buf') ->
  f_bytes (j_fd j') ++ buf' = f_bytes (j_fd j) ++ buf /\ zlen buf' <= zlen buf /\
  j_ring j' = j_ring j /\ j_running j' = j_running j /\ j_dropped j' = j_dropped j /\
  j_sync_interval_ms j' = j_sync_interval_ms j /\
  j_flushed j' = (if 0 <? zlen buf - zlen buf'
                  then u64 (j_flushed j + (zlen buf - zlen buf')) else j_flushed j).
Proof.
  unfold journal_do_flush. destruct (Z.eqb_spec (zlen buf) 0) as [E|E].
  { intros. simplify_eq. rewrite Z.sub_diag. simpl. split_and!; done. }
  destruct (flush_loop outs _ buf) as [[file rest]|] eqn:Hl; [|done].
  apply flush_loop_conserves in Hl as [Happ Hlen].
  pose proof (zlen_nonneg rest) as Hr.
  destruct (Z.ltb_spec 0 (zlen buf - zlen rest)) as [Hw|Hw].
  - destruct (Z.ltb_spec (zlen buf - zlen rest) (zlen buf)) as [Hs|Hs];
      intros H; simplify_eq; simpl.
    + rewrite (proj2 (Z.ltb_lt _ _) Hw).
      destruct (d && _), ok; simpl; split_and!; try done; lia.
    + assert (rest = []) as -> by (destruct rest; [done|]; rewrite zlen_cons in *;
        pose proof (zlen_nonneg rest); lia).
      change (zlen []) with 0 in *. rewrite (proj2 (Z.ltb_lt _ _) Hw).
      destruct (d && _), ok; simpl; split_and!; try done; lia.
  - assert (zlen rest = zlen buf) as Heq by lia.
    rewrite Heq, Z.sub_diag. destruct (Z.ltb_spec 0 (zlen buf)) as [Hs|Hs]; [|lia].
    intros H; simplify_eq; simpl. rewrite Heq, Z.sub_diag. simpl. split_and!; done.
Qed.

Lemma do_flush_loop outs ok d j buf file' rest' :
  0 < zlen buf -> flush_loop outs (f_bytes (j_fd j)) buf = Some (file', rest') ->
  exists j', journal_do_flush outs ok d j buf = Some (j', rest') /\ f_bytes (j_fd j') = file'.
Proof.
  intros Hb Hl. unfold journal_do_flush. rewrite Hl.
  rewrite (proj2 (Z.eqb_neq _ 0)) by lia.
  apply flush_loop_conserves in Hl as [_ Hlen]. eexists. split.
  - destruct (Z.ltb_spec (zlen buf - zlen rest') (zlen buf)) as [Hs|Hs]; [reflexivity|].
    assert (rest' = []) as -> by (destruct rest' as [|x l]; [done|]; rewrite zlen_cons in *;
      pose proof (zlen_nonneg l); lia).
    reflexivity.
  - destruct (0 <? _); [|done]. by destruct (d && _), ok.
Qed.

(** When the first [write] fails nothing changes. *)
Lemma do_flush_refused ok d j buf : journal_do_flush [WFail] ok d j buf = Some (j, buf).
Proof.
  unfold journal_do_flush. destruct buf as [|b buf]; [done|].
  rewrite zlen_cons, (proj2 (Z.eqb_neq _ _)) by (pose proof (zlen_nonneg buf); lia).
  cbn [flush_loop]. rewrite zlen_cons, Z.sub_diag.
  rewrite (proj2 (Z.ltb_lt 0 (1 + zlen buf))) by (pose proof (zlen_nonneg buf); lia).
  by destruct j as [? ? [] ? ? ? ? ?].
Qed.

(** ** The invariant *)

(** [taken] are the accepted entries the worker has copied out of the ring;
    the bytes of the file followed by the buffer are the file as it was
    opened followed by their images. *)
Record jinv (file0 : list Z) (acc : list bt_journal_entry_t) (refused : Z) (s : jstate)
  : Prop := {
  i_ring : queue_wf (j_ring (js_j s));
  i_mask : q_mask (j_ring (js_j s)) = JOURNAL_RING_SIZE - 1;
  i_dropped : j_dropped (js_j s) = u64 refused;
  i_flushed : j_flushed (js_j s) = u64 (zlen (f_bytes (j_fd (js_j s))) - zlen file0);
  i_start : js_pc s = PcStart -> js_buf s = [];
  i_data : js_pc s <> PcOverrun ->
    exists taken, acc = taken ++ contents (j_ring (js_j s)) /\
      f_bytes (j_fd (js_j s)) ++ js_buf s = file0 ++ images taken;
  i_buf : js_pc s <> PcOverrun -> Forall journal_entry_wf acc ->
    zlen (js_buf s) <= BT_CFG_JOURNAL_BUF_SIZE;
}.

Section preservation.
Context (file0 : list Z).

Lemma flushed_step a (b b' : list Z) n :
  zlen b' <= zlen b ->
  n = u64 (a - zlen file0) ->
  (if 0 <? zlen b - zlen b' then u64 (n + (zlen b - zlen b')) else n)
  = u64 (a + (zlen b - zlen b') - zlen file0).
Proof.
  intros Hb ->. destruct (Z.ltb_spec 0 (zlen b - zlen b')) as [H|H].
  - unfold u64. rewrite Zplus_mod_idemp_l. f_equal. lia.
  - f_equal. lia.
Qed.

(** A flush keeps the invariant, whatever step it is part of. *)
Lemma jinv_flush acc refused s outs ok d j' buf' pc ls sn sp cl :
  jinv file0 acc refused s -> js_pc s <> PcStart -> js_pc s <> PcOverrun ->
  pc <> PcStart -> pc <> PcOverrun ->
  journal_do_flush outs ok d (js_j s) (js_buf s) = Some (j', buf') ->
  jinv file0 acc refused (JState j' pc buf' ls sn sp cl).
Proof.
  intros [] Hpc Hpc' Hn Hn' Hf.
  apply do_flush_conserves in Hf as (Happ & Hlen & Hring & Hrun & Hdrop & Hms & Hfl).
  assert (zlen (f_bytes (j_fd j')) = zlen (f_bytes (j_fd (js_j s))) + (zlen (js_buf s) - zlen buf'))
    as Hz by (apply (f_equal zlen) in Happ; rewrite !zlen_app in Happ; lia).
  split; simpl; rewrite ?Hring; try done.
  - by rewrite Hdrop.
  - by rewrite Hfl, Hz, (flushed_step _ _ _ _ Hlen i_flushed0).
  - intros _. destruct (i_data0 Hpc') as (taken & Hacc & Hbytes).
    exists taken. by rewrite Happ.
  - intros _ Hwf. specialize (i_buf0 Hpc' Hwf). lia.
Qed.

(** Changing only the position of the worker. *)
Lemma jinv_set_pc acc refused s pc :
  jinv file0 acc refused s -> js_pc s <> PcOverrun -> pc <> PcStart ->
  jinv file0 acc refused (set_pc pc s).
Proof.
  intros [] Hpc Hn. split; simpl; try done; intros ?; by auto.
Qed.

(** The invariant of the state after a pop, before the entry is copied: the
    popped entry is between the buffer and the ring. *)
Lemma drain_copy acc refused s e r j buf ls sp drained :
  jinv file0 acc refused s -> js_pc s <> PcOverrun ->
  SPSC_POP (j_ring (js_j s)) = (Some e, r) ->
  j_ring j = r -> j_dropped j = j_dropped (js_j s) ->
  f_bytes (j_fd j) ++ buf = f_bytes (j_fd (js_j s)) ++ js_buf s ->
  j_flushed j = u64 (zlen (f_bytes (j_fd j)) - zlen file0) ->
  zlen buf + sizeof_journal_entry <= BT_CFG_JOURNAL_BUF_SIZE ->
  jinv file0 acc refused
    (JState j (PcDrain drained) (buf ++ journal_entry_image e) ls (js_sync_ns s) sp (js_closed s)).
Proof.
  intros [] Hpc Hpop <- Hdrop Happ Hfl Hroom.
  destruct (spsc_pop_spec _ _ _ i_ring0 Hpop) as (Hwf & Hm & Hhd & Htl).
  destruct (contents (j_ring (js_j s))) as [|e' rest] eqn:Hc; [done|].
  simpl in Hhd. injection Hhd as <-. simpl in Htl.
  destruct (i_data0 Hpc) as (taken & Hacc & Hbytes).
  split; simpl; try done.
  - by rewrite Hm.
  - by rewrite Hdrop.
  - intros _. exists (taken ++ [e]). rewrite Htl, <- app_assoc. split; [done|].
    rewrite app_assoc, Happ, Hbytes, images_app. unfold images. simpl.
    by rewrite app_nil_r, app_assoc.
  - intros _ Hwfs. rewrite zlen_app, length_journal_entry_image; [lia|].
    rewrite Hacc in Hwfs. apply Forall_app in Hwfs as [_ Hwfs].
    by inversion Hwfs.
Qed.

Lemma jinv_overrun acc refused s r j buf ls sn sp cl x :
  jinv file0 acc refused s -> SPSC_POP (j_ring (js_j s)) = (x, r) ->
  j_ring j = r -> j_dropped j = j_dropped (js_j s) ->
  j_flushed j = u64 (zlen (f_bytes (j_fd j)) - zlen file0) ->
  jinv file0 acc refused (JState j PcOverrun buf ls sn sp cl).
Proof.
  intros [] Hpop <- Hdrop Hfl.
  destruct (spsc_pop_spec _ _ _ i_ring0 Hpop) as (Hwf & Hm & _).
  split; simpl; try done; congruence.
Qed.

Lemma jinv_drain acc refused s outs ok now drained s' :
  jinv file0 acc refused s -> js_pc s = PcDrain drained ->
  drain_round outs ok now drained s = Some s' -> jinv file0 acc refused s'.
Proof.
  intros Hinv Hpc. unfold drain_round.
  destruct (drained <? _); [|intros; simplify_eq; apply jinv_set_pc; congruence].
  destruct (SPSC_POP (j_ring (js_j s))) as [[e|] r] eqn:Hpop.
  2:{ intros ?. simplify_eq. pose proof (i_ring _ _ _ _ Hinv) as Hwf.
      destruct (spsc_pop_spec _ _ _ Hwf Hpop) as (Hwf' & Hm & Hhd & Htl).
      destruct (contents (j_ring (js_j s))) eqn:Hc; [|done]. simpl in Htl.
      destruct Hinv. split; simpl; try done.
      - by rewrite Hm.
      - intros _. rewrite Htl, <- Hc. apply i_data0. congruence.
      - intros _. apply i_buf0. congruence. }
  destruct (Z.ltb_spec BT_CFG_JOURNAL_BUF_SIZE (zlen (js_buf s) + sizeof_journal_entry)) as [Hfull|Hroom].
  - destruct (journal_do_flush outs ok true _ _) as [[j buf]|] eqn:Hf; [|done].
    apply do_flush_conserves in Hf as (Happ & Hlen & Hring & Hrun & Hdrop & Hms & Hfl).
    simpl in *. rewrite (flushed_step _ _ _ _ Hlen (i_flushed _ _ _ _ Hinv)) in Hfl.
    assert (zlen (f_bytes (j_fd j)) = zlen (f_bytes (j_fd (js_j s))) + (zlen (js_buf s) - zlen buf))
      as Hz by (apply (f_equal zlen) in Happ; rewrite !zlen_app in Happ; lia).
    rewrite <- Hz in Hfl.
    destruct (Z.ltb_spec BT_CFG_JOURNAL_BUF_SIZE (zlen buf + sizeof_journal_entry)) as [Hov|Hr];
      intros; simplify_eq.
    + by eapply jinv_overrun.
    + eapply drain_copy; eauto. congruence.
  - rewrite (proj2 (Z.ltb_ge _ _) Hroom). intros; simplify_eq.
    eapply drain_copy; eauto; simpl; first [done|congruence|apply Hinv].
Qed.

Lemma jinv_idle acc refused s outs ok now drained s' :
  jinv file0 acc refused s -> js_pc s = PcAfter drained ->
  idle_round outs ok now s = Some s' -> jinv file0 acc refused s'.
Proof.
  intros Hinv Hpc. unfold idle_round. destruct (_ && _).
  - destruct (journal_do_flush outs ok _ _ _) as [[j buf]|] eqn:Hf; [|done].
    intros; simplify_eq. eapply jinv_flush; eauto; congruence.
  - intros; simplify_eq. destruct Hinv.
    split; simpl; try done; intros _; first [apply i_data0|apply i_buf0]; congruence.
Qed.

Lemma jinv_worker acc refused s m outs ok now s' :
  jinv file0 acc refused s -> bt_journal_thread_core m outs ok now s = Some s' ->
  jinv file0 acc refused s'.
Proof.
  intros Hinv. unfold bt_journal_thread_core.
  destruct (js_pc s) as [| |d|d| | |] eqn:Hpc; try done.
  - destruct m; intros; simplify_eq; [|apply jinv_set_pc; congruence].
    destruct Hinv. rewrite (i_start0 Hpc) in *.
    split; simpl; try done; intros _; apply i_data0; congruence.
  - intros; simplify_eq. apply jinv_set_pc; [done|congruence|by destruct (j_running _)].
  - intros. by eapply jinv_drain.
  - destruct (d =? 0); intros; simplify_eq; [by eapply jinv_idle|].
    apply jinv_set_pc; congruence.
  - destruct (0 <? _); [|intros; simplify_eq; apply jinv_set_pc; congruence].
    destruct (journal_do_flush outs ok true _ _) as [[j buf]|] eqn:Hf; [|done].
    intros; simplify_eq. eapply jinv_flush; eauto; congruence.
Qed.

End preservation.

(** ** Reachable states *)

Lemma zlen_calloc_ring : zlen calloc_ring = 2 ^ 18.
Proof. unfold zlen, calloc_ring. rewrite length_replicate, Z2Nat.id; [done|by vm_compute]. Qed.

#[global] Opaque calloc_ring.

Lemma calloc_ring_wf :
  queue_wf (QUEUE_INIT calloc_ring) /\
  q_mask (QUEUE_INIT calloc_ring) = JOURNAL_RING_SIZE - 1 /\
  contents (QUEUE_INIT calloc_ring) = [].
Proof.
  split_and!; [|unfold QUEUE_INIT; cbn [q_mask]; by rewrite zlen_calloc_ring|done].
  apply (queue_init_wf _ 18); [lia|apply zlen_calloc_ring].
Qed.

(** The handle of a successful [bt_journal_open]. *)
Definition opened (f : jfile) (path : list Z) (ms : Z) : jstate :=
  JState (Journal (strncpy_path path) ms f (QUEUE_INIT calloc_ring) true 0 0 0)
    PcStart [] 0 0 0 false.

Lemma open_spec c fd r t f path ms :
  bt_journal_open c fd r t f path ms = if c && fd && r && t then Some (opened f path ms) else None.
Proof. by destruct c, fd, r, t. Qed.

Lemma opened_inv f path ms : jinv (f_bytes f) [] 0 (opened f path ms).
Proof.
  destruct calloc_ring_wf as (Hwf & Hm & Hc).
  unfold opened. split; cbn [js_j j_ring j_dropped j_flushed j_fd js_pc js_buf].
  - exact Hwf.
  - exact Hm.
  - reflexivity.
  - by rewrite Z.sub_diag.
  - reflexivity.
  - intros _. exists []. rewrite Hc, !app_nil_r. split; reflexivity.
  - intros _ _. apply Z.leb_le. reflexivity.
Qed.

Lemma jinv_append file0 acc refused s e rc s' :
  jinv file0 acc refused s -> jstep (EvAppend e) s = Some (Some rc, s') ->
  jinv file0 (acc ++ (if rc =? 0 then [e] else []))
    (refused + (if rc =? 0 then 0 else 1)) s'.
Proof.
  intros [] Hstep. unfold jstep in Hstep. destruct (js_closed s); [done|]. simpl in Hstep.
  destruct (SPSC_PUSH e _) as [b r] eqn:Hpush.
  destruct (spsc_push_spec _ _ _ _ i_ring0 Hpush) as (Hwf & Hm & _ & Hc).
  destruct b; simpl in Hstep; simplify_eq; simpl.
  - rewrite Z.add_0_r. split; simpl; rewrite ?Hm; try done.
    + intros Hpc. destruct (i_data0 Hpc) as (taken & -> & Hbytes).
      exists taken. rewrite Hc, app_assoc. done.
    + intros Hpc [Hwfs _]%Forall_app. by apply i_buf0.
  - rewrite !app_nil_r in *. split; simpl; rewrite ?Hm, ?Hc; try done.
    rewrite i_dropped0. unfold u64. by rewrite Zplus_mod_idemp_l.
Qed.

Lemma jinv_other file0 acc refused s ev r s' :
  jinv file0 acc refused s -> (forall e, ev <> EvAppend e) ->
  jstep ev s = Some (r, s') -> jinv file0 acc refused s'.
Proof.
  intros Hinv Hev Hstep. unfold jstep in Hstep. destruct (js_closed s); [done|].
  destruct ev as [e|ok| | |m outs ok now].
  - by destruct (Hev e).
  - simpl in Hstep. destruct (0 <? _), ok; simplify_eq; simpl; destruct Hinv; by split.
  - simplify_eq. destruct Hinv; by split.
  - unfold bt_journal_close_join in Hstep.
    destruct (js_pc s) eqn:Hpc; simplify_eq; destruct (j_running _); simplify_eq.
    simpl in Hstep. simplify_eq. destruct Hinv. rewrite Hpc in *. by split.
  - destruct (bt_journal_thread_core m outs ok now s) eqn:Hw; [|done].
    simpl in Hstep. simplify_eq. by eapply jinv_worker.
Qed.

Lemma jreach_inv f path ms acc refused s :
  jreach (opened f path ms) acc refused s -> jinv (f_bytes f) acc refused s.
Proof.
  induction 1.
  - apply opened_inv.
  - by eapply jinv_append.
  - by eapply jinv_other.
Qed.

(** ** Reading the file back *)

(** A reader of whole records, as a recovery pass over the file needs it. *)
Fixpoint read_entries (n : nat) (l : list Z) : option (list bt_journal_entry_t) :=
  match n with
  | O => Some []
  | S n =>
      match journal_entry_of_bytes (take 104 l), read_entries n (drop 104 l) with
      | Some e, Some es => Some (e :: es)
      | _, _ => None
      end
  end.

Definition parse_journal (l : list Z) : option (list bt_journal_entry_t) :=
  read_entries (Z.to_nat (zlen l / sizeof_journal_entry)) l.

Lemma read_entries_prefix n es l k :
  images es = l ++ k -> 104 * Z.of_nat n <= zlen l -> Forall journal_entry_wf es ->
  read_entries n l = Some (take n es).
Proof.
  revert es l. induction n as [|n IH]; intros es l Himg Hlen Hwf; [done|].
  destruct es as [|e es].
  { apply (f_equal length) in Himg. rewrite length_app in Himg. unfold zlen in *. simpl in *. lia. }
  inversion Hwf as [|? ? He Hes]; subst.
  assert (length (journal_entry_image e) = 104%nat) as Hl.
  { apply length_journal_entry_image in He. unfold zlen, sizeof_journal_entry in He. lia. }
  change (images (e :: es)) with (journal_entry_image e ++ images es) in Himg.
  assert (take 104 l = journal_entry_image e) as Ht.
  { rewrite <- (take_app_le l k 104) by (unfold zlen in *; lia).
    rewrite <- Himg, <- Hl. apply take_app_length. }
  cbn [read_entries]. rewrite Ht, journal_entry_roundtrip by done.
  rewrite (IH es); [done| |unfold zlen in *; rewrite length_drop; lia|done].
  rewrite <- drop_app_le by (unfold zlen in *; lia). rewrite <- Himg, <- Hl.
  by rewrite drop_app_length.
Qed.

Lemma zlen_images es : Forall journal_entry_wf es -> zlen (images es) = 104 * zlen es.
Proof.
  induction 1 as [|e es He Hes IH]; [done|].
  change (images (e :: es)) with (journal_entry_image e ++ images es).
  rewrite zlen_app, IH, length_journal_entry_image, zlen_cons by done.
  unfold sizeof_journal_entry. lia.
Qed.

(** ** Executions that drain the ring *)

Section drain.
Context (s0 : jstate).

(** The worker is in its drain loop, has buffered [n] entries, and [rest] is
    what the ring holds. *)
Definition draining (s : jstate) (n : Z) (rest : list bt_journal_entry_t) : Prop :=
  js_closed s = false /\ j_running (js_j s) = true /\ queue_wf (j_ring (js_j s)) /\
  contents (j_ring (js_j s)) = rest /\ zlen (js_buf s) = 104 * n /\
  exists d, js_pc s = PcDrain d /\ 0 <= d <= 64.

(** When the batch is complete the worker starts another one. *)
Lemma draining_room acc refused s n rest :
  jreach s0 acc refused s -> draining s n rest ->
  exists s' d, jreach s0 acc refused s' /\ draining s' n rest /\
    js_pc s' = PcDrain d /\ 0 <= d < 64.
Proof.
  intros Hr Hd. destruct Hd as (Hcl & Hrun & Hwf & Hc & Hb & d & Hpc & Hd).
  destruct (decide (d < 64)).
  { exists s, d. split_and!; try done; [|lia]. by split_and!; try done; exists d. }
  assert (d = 64) as -> by lia.
  assert (jreach s0 acc refused (set_pc (PcAfter 64) s)) as H1.
  { eapply jreach_step with (ev := EvWorker true [] true 0); [done|done|].
    unfold jstep. rewrite Hcl. simpl. unfold bt_journal_thread_core. by rewrite Hpc. }
  assert (jreach s0 acc refused (set_pc PcTop s)) as H2.
  { eapply jreach_step with (ev := EvWorker true [] true 0); [exact H1|done|].
    unfold jstep. simpl. by rewrite Hcl. }
  assert (jreach s0 acc refused (set_pc (PcDrain 0) s)) as H3.
  { eapply jreach_step with (ev := EvWorker true [] true 0); [exact H2|done|].
    unfold jstep. simpl. rewrite Hcl. simpl. by rewrite Hrun. }
  exists (set_pc (PcDrain 0) s), 0. split_and!; try done.
  split_and!; try done. by exists 0.
Qed.

Lemma draining_take acc refused s n e rest :
  jreach s0 acc refused s -> draining s n (e :: rest) -> journal_entry_wf e ->
  104 * (n + 1) <= BT_CFG_JOURNAL_BUF_SIZE ->
  exists s' d, jreach s0 acc refused s' /\ draining s' (n + 1) rest /\
    js_pc s' = PcDrain d /\ 0 < d.
Proof.
  intros Hr Hd He Hroom.
  destruct (draining_room _ _ _ _ _ Hr Hd) as (s1 & d & Hr1 & Hd1 & Hpc & Hdr).
  destruct Hd1 as (Hcl & Hrun & Hwf & Hc & Hb & _).
  destruct (spsc_pop_some _ e rest Hwf Hc) as (r & Hpop & Hwf' & Hc' & _).
  eexists _, (d + 1). split; [|split; [|split; [|lia]]].
  { eapply jreach_step with (ev := EvWorker true [] true 0); [exact Hr1|done|].
    unfold jstep, bt_journal_thread_core. rewrite Hcl, Hpc. unfold drain_round.
    rewrite (proj2 (Z.ltb_lt d JOURNAL_BATCH_DRAIN)) by (unfold JOURNAL_BATCH_DRAIN; lia).
    rewrite Hpop, Hb.
    rewrite (proj2 (Z.ltb_ge _ _)) by (unfold sizeof_journal_entry; lia).
    rewrite Hb, (proj2 (Z.ltb_ge _ _)) by (unfold sizeof_journal_entry; lia). reflexivity. }
  { unfold draining; simpl. split_and!; try done.
    - rewrite zlen_app, Hb, length_journal_entry_image by done. unfold sizeof_journal_entry. lia.
    - exists (d + 1). split; [done|lia]. }
  done.
Qed.

Lemma draining_take_all acc refused s n es rest :
  jreach s0 acc refused s -> draining s n (es ++ rest) -> Forall journal_entry_wf es ->
  104 * (n + zlen es) <= BT_CFG_JOURNAL_BUF_SIZE ->
  exists s', jreach s0 acc refused s' /\ draining s' (n + zlen es) rest.
Proof.
  revert s n. induction es as [|e es IH]; intros s n Hr Hd Hwf Hroom.
  { exists s. change (zlen []) with 0. by rewrite Z.add_0_r. }
  inversion Hwf; subst. rewrite zlen_cons in *. pose proof (zlen_nonneg es).
  destruct (draining_take _ _ _ _ _ _ Hr Hd) as (s1 & d & Hr1 & Hd1 & _); [done|lia|].
  destruct (IH s1 (n + 1) Hr1 Hd1) as (s2 & Hr2 & Hd2); [done|lia|].
  exists s2. by rewrite Z.add_assoc.
Qed.

(** With the buffer full and the disk refusing every write, taking one more
    entry copies it beyond the end of the buffer. *)
Lemma draining_overruns acc refused s n e rest :
  jreach s0 acc refused s -> draining s n (e :: rest) ->
  0 < n -> BT_CFG_JOURNAL_BUF_SIZE < 104 * (n + 1) ->
  exists s', jreach s0 acc refused s' /\ js_pc s' = PcOverrun.
Proof.
  intros Hr Hd Hn Hfull.
  destruct (draining_room _ _ _ _ _ Hr Hd) as (s1 & d & Hr1 & Hd1 & Hpc & Hdr).
  destruct Hd1 as (Hcl & Hrun & Hwf & Hc & Hb & _).
  destruct (spsc_pop_some _ e rest Hwf Hc) as (r & Hpop & _ & _ & _).
  eexists. split.
  { eapply jreach_step with (ev := EvWorker true [WFail] true 0); [exact Hr1|done|].
    unfold jstep, bt_journal_thread_core. rewrite Hcl, Hpc. unfold drain_round.
    rewrite (proj2 (Z.ltb_lt d JOURNAL_BATCH_DRAIN)) by (unfold JOURNAL_BATCH_DRAIN; lia).
    rewrite Hpop, Hb.
    rewrite (proj2 (Z.ltb_lt _ _)) by (unfold sizeof_journal_entry; lia).
    rewrite do_flush_refused.
    rewrite Hb, (proj2 (Z.ltb_lt _ _)) by (unfold sizeof_journal_entry; lia).
    reflexivity. }
  done.
Qed.

(** With the ring empty and the close requested, the worker makes its final
    flush and returns. *)
Lemma draining_finish acc refused s n d outs file' rest' :
  jreach s0 acc refused s -> draining s n [] -> 0 < n -> js_pc s = PcDrain d -> 0 < d ->
  flush_loop outs (f_bytes (j_fd (js_j s))) (js_buf s) = Some (file', rest') ->
  exists s', jreach s0 acc refused s' /\ js_pc s' = PcDone /\
    f_bytes (j_fd (js_j s')) = file'.
Proof.
  intros Hr (Hcl & Hrun & Hwf & Hc & Hb & _) Hn Hpc Hd Hloop.
  pose (after := fun pc => set_pc pc (set_j (set_running false (js_j s)) s)).
  assert (jreach s0 acc refused (after (PcDrain d))) as H1.
  { unfold after. eapply jreach_step with (ev := EvCloseRequest); [exact Hr|done|].
    unfold jstep. rewrite Hcl. rewrite <- Hpc. by destruct s. }
  assert (jreach s0 acc refused (after (PcAfter d))) as H2.
  { eapply jreach_step with (ev := EvWorker true [] true 0); [exact H1|done|].
    unfold jstep, bt_journal_thread_core, after. simpl. rewrite Hcl. unfold drain_round. simpl.
    destruct (d <? JOURNAL_BATCH_DRAIN); [|reflexivity].
    rewrite (spsc_pop_none _ Hwf Hc). reflexivity. }
  assert (jreach s0 acc refused (after PcTop)) as H3.
  { eapply jreach_step with (ev := EvWorker true [] true 0); [exact H2|done|].
    unfold jstep, bt_journal_thread_core, after. simpl. rewrite Hcl.
    rewrite (proj2 (Z.eqb_neq d 0)) by lia. reflexivity. }
  assert (jreach s0 acc refused (after PcFinal)) as H4.
  { eapply jreach_step with (ev := EvWorker true [] true 0); [exact H3|done|].
    unfold jstep, after. simpl. rewrite Hcl. reflexivity. }
  destruct (do_flush_loop outs true true (set_running false (js_j s)) (js_buf s) _ _ ltac:(lia) Hloop)
    as (j' & Hf & Hbytes).
  eexists. split.
  { eapply jreach_step with (ev := EvWorker true outs true 0); [exact H4|done|].
    unfold jstep, bt_journal_thread_core, after. simpl. rewrite Hcl.
    rewrite (proj2 (Z.ltb_lt 0 _)) by lia. rewrite Hf. reflexivity. }
  split; [reflexivity|exact Hbytes].
Qed.

(** Appending while there is room. *)
Lemma append_all acc s es :
  jreach s0 acc 0 s -> js_closed s = false -> queue_wf (j_ring (js_j s)) ->
  zlen (contents (j_ring (js_j s))) + zlen es <= q_mask (j_ring (js_j s)) ->
  exists r, jreach s0 (acc ++ es) 0 (set_j (set_ring r (js_j s)) s) /\ queue_wf r /\
    contents r = contents (j_ring (js_j s)) ++ es.
Proof.
  revert acc s. induction es as [|e es IH]; intros acc s Hr Hcl Hwf Hroom.
  { exists (j_ring (js_j s)). rewrite !app_nil_r. split_and!; try done.
    by destruct s as [[]]. }
  rewrite zlen_cons in Hroom. pose proof (zlen_nonneg es).
  destruct (spsc_push_ok (j_ring (js_j s)) e Hwf) as (r & Hpush & Hwf' & Hc & Hm).
  { unfold zlen in Hroom. rewrite length_contents in Hroom. unfold zlen in *. lia. }
  destruct (IH (acc ++ [e]) (set_j (set_ring r (js_j s)) s)) as (r' & Hr' & Hwf'' & Hc').
  - change 0 with (0 + (if 0 =? 0 then 0 else 1)).
    change [e] with (if 0 =? 0 then [e] else []).
    eapply jreach_append; [exact Hr|]. unfold jstep. rewrite Hcl.
    unfold bt_journal_append. by rewrite Hpush.
  - done.
  - done.
  - simpl. rewrite Hc, Hm, zlen_app. change (zlen [e]) with 1. lia.
  - exists r'. rewrite <- app_assoc in Hr'. simpl in *. split_and!; try done.
    by rewrite Hc', Hc, <- app_assoc.
Qed.

End drain.

Lemma opened_draining f path ms es :
  zlen es < JOURNAL_RING_SIZE ->
  exists s, jreach (opened f path ms) es 0 s /\ draining s 0 es.
Proof.
  intros Hes. destruct calloc_ring_wf as (Hwf & Hm & Hc).
  destruct (append_all (opened f path ms) [] (opened f path ms) es) as (r & Hr & Hwf' & Hc').
  { constructor. } { done. } { exact Hwf. }
  { unfold opened; cbn [js_j j_ring]. rewrite Hc, Hm. change (zlen []) with 0. lia. }
  unfold opened in Hc'; cbn [js_j j_ring] in Hc'. rewrite Hc in Hc'.
  set (s := set_j _ _) in Hr.
  assert (jreach (opened f path ms) es 0
            (JState (js_j s) PcTop [] 0 (u64 (u64 ms * 1000000)) 0 false)) as H1.
  { eapply jreach_step with (ev := EvWorker true [] true 0); [exact Hr|done|]. reflexivity. }
  exists (JState (js_j s) (PcDrain 0) [] 0 (u64 (u64 ms * 1000000)) 0 false). split.
  { eapply jreach_step with (ev := EvWorker true [] true 0); [exact H1|done|]. reflexivity. }
  split; [reflexivity|]. split; [reflexivity|]. split; [exact Hwf'|]. split; [exact Hc'|].
  split; [reflexivity|]. exists 0. split; [reflexivity|lia].
Qed.

(** An entry for the examples. *)
Definition sample_entry (seq : Z) : bt_journal_entry_t :=
  JournalEntry 1 0 seq BT_JOURNAL_NEW_ORDER (replicate 4 0) 1000 0 (replicate 64 7).

(** ** Properties *)

(** C11: As long as the worker has not overrun its buffer, which it can do when
    writes fail ([journal_overruns_buffer]), and for appends that do not overlap
    each other, whatever the interleaving of appends, flushes, close and worker
    steps, and whatever short writes, interruptions and write errors occur,
    no accepted entry is lost, duplicated or reordered while the journal is
    open: the file followed by the write buffer is the original file followed
    by the images of the first accepted entries, and the others are in the
    ring in order. [dropped] counts the refused appends, [flushed] the bytes
    that reached the file (both modulo 2^64), and the buffer does not exceed
    its 16 MB. *)
Theorem journal_conservation (c fd r t : bool) (f : jfile) (path : list Z) (ms : Z)
    (s0 s : jstate) (acc : list bt_journal_entry_t) (refused : Z) :
  bt_journal_open c fd r t f path ms = Some s0 ->
  jreach s0 acc refused s -> js_pc s <> PcOverrun -> Forall journal_entry_wf acc ->
  (exists taken, acc = taken ++ contents (j_ring (js_j s)) /\
     f_bytes (j_fd (js_j s)) ++ js_buf s = f_bytes f ++ images taken) /\
  snd (bt_journal_stats (js_j s)) = u64 refused /\
  j_flushed (js_j s) = u64 (zlen (f_bytes (j_fd (js_j s))) - zlen (f_bytes f)) /\
  zlen (js_buf s) <= BT_CFG_JOURNAL_BUF_SIZE.
Proof.
  rewrite open_spec. destruct (c && fd && r && t); [|done]. intros [= <-] Hr Hpc Hwf.
  apply jreach_inv in Hr as []. split_and!; auto.
Qed.

(** C12: When the file that is opened for appending holds whole records, reading
    it back in records of 104 bytes, as the struct declaration lays them out,
    gives at any time these records and then the first accepted entries, field
    by field and in the order of their appends, also when its last record is
    still incomplete; for appends that do not overlap, and as long as the worker
    has not overrun its buffer. *)
Theorem journal_reads_back (c fd r t : bool) (f : jfile) (ms : Z) (path : list Z)
    (s0 s : jstate) (old acc : list bt_journal_entry_t) (refused : Z) :
  f_bytes f = images old -> Forall journal_entry_wf old ->
  bt_journal_open c fd r t f path ms = Some s0 ->
  jreach s0 acc refused s -> js_pc s <> PcOverrun -> Forall journal_entry_wf acc ->
  parse_journal (f_bytes (j_fd (js_j s)))
  = Some (take (Z.to_nat (zlen (f_bytes (j_fd (js_j s))) / 104)) (old ++ acc)).
Proof.
  intros Hf Hold. rewrite open_spec. destruct (c && fd && r && t); [|done]. intros [= <-] Hr Hpc Hwf.
  apply jreach_inv in Hr as []. destruct (i_data0 Hpc) as (taken & Hacc & Hbytes).
  rewrite Hacc in Hwf. apply Forall_app in Hwf as [Hwf _]. rewrite Hf, <- images_app in Hbytes.
  assert (Forall journal_entry_wf (old ++ taken)) as Hwf' by by apply Forall_app.
  pose proof (zlen_nonneg (f_bytes (j_fd (js_j s)))) as Hnn.
  pose proof (Z.mul_div_le (zlen (f_bytes (j_fd (js_j s)))) 104 ltac:(lia)).
  pose proof (Z.div_pos (zlen (f_bytes (j_fd (js_j s)))) 104 Hnn ltac:(lia)).
  unfold parse_journal. change sizeof_journal_entry with 104.
  rewrite (read_entries_prefix _ (old ++ taken) _ (js_buf s)); [|done|lia|done].
  rewrite Hacc, app_assoc, (take_app_le (old ++ taken)); [done|].
  pose proof (zlen_images (old ++ taken) Hwf') as Hl. rewrite <- Hbytes, zlen_app in Hl.
  pose proof (zlen_nonneg (js_buf s)). unfold zlen in *. nia.
Qed.

(** A torn record left by an earlier run is not cut off: the file is opened at
    its end, so everything appended after one stray byte is read shifted. *)
Lemma torn_record_shifts :
  parse_journal (0 :: journal_entry_image (sample_entry 1)) <> Some [sample_entry 1].
Proof. vm_compute. congruence. Qed.

(** C13: A flush ends and leaves nothing behind when no write fails for good
    and there are at least as many successful writes as bytes, however many
    interruptions come between: the whole buffer is appended to the file in
    order. The whole file is durable afterwards when the flush asks for it, the
    interval is positive and [fdatasync] succeeds; with an interval of 0 no
    flush syncs ([flush_without_interval]). *)
Theorem journal_flush_completes (outs : list write_out) (sync_ok do_sync : bool)
    (j : bt_journal) (buf : list Z) :
  (forall o, o ∈ outs -> o <> WFail /\ o <> Wrote 0) ->
  zlen buf <= zlen (List.filter succeeded outs) ->
  exists j', journal_do_flush outs sync_ok do_sync j buf = Some (j', []) /\
    f_bytes (j_fd j') = f_bytes (j_fd j) ++ buf /\
    (buf <> [] -> do_sync = true -> 0 < j_sync_interval_ms j -> sync_ok = true ->
       f_durable (j_fd j') = zlen (f_bytes (j_fd j'))).
Proof.
  intros Hgood Hlen. unfold journal_do_flush. destruct buf as [|b buf].
  { exists j. by rewrite app_nil_r. }
  rewrite flush_loop_complete; [|done|unfold zlen in Hlen; lia].
  pose proof (zlen_nonneg buf). rewrite zlen_cons, (proj2 (Z.eqb_neq _ _)) by lia.
  change (zlen []) with 0. rewrite Z.sub_0_r, (proj2 (Z.ltb_lt 0 _)) by lia.
  rewrite Z.ltb_irrefl. eexists. split; [done|]. split.
  - simpl. by destruct (do_sync && _), sync_ok.
  - intros _ -> Hms ->. simpl. by rewrite (proj2 (Z.ltb_lt 0 _)).
Qed.

(** With an interval of 0 nothing is ever synced, the capacity flush and the
    final flush, which ask for it, included. *)
Lemma flush_without_interval outs sync_ok do_sync j buf j' buf' :
  j_sync_interval_ms j = 0 -> journal_do_flush outs sync_ok do_sync j buf = Some (j', buf') ->
  f_durable (j_fd j') = f_durable (j_fd j).
Proof.
  intros Hms. unfold journal_do_flush. rewrite Hms, andb_false_r. intros H.
  repeat case_match; by simplify_eq/=.
Qed.

(** C15: When the disk refuses every write, the worker writes beyond its
    buffer: the capacity flush leaves the buffer full and the entry is copied
    all the same. 161320 entries, which the ring can hold at once, are enough. *)
Theorem journal_overruns_buffer (f : jfile) (path : list Z) (ms : Z) (s0 : jstate)
    (es : list bt_journal_entry_t) :
  bt_journal_open true true true true f path ms = Some s0 ->
  Forall journal_entry_wf es -> zlen es = 161320 ->
  exists s, jreach s0 es 0 s /\ js_pc s = PcOverrun.
Proof.
  rewrite open_spec. intros [= <-] Hwf Hlen.
  destruct (opened_draining f path ms es) as (s & Hr & Hd); [rewrite Hlen; done|].
  destruct es as [|x es _] using rev_ind; [done|].
  apply Forall_app in Hwf as [Hwf _]. rewrite zlen_app in Hlen. change (zlen [x]) with 1 in Hlen.
  destruct (draining_take_all _ _ _ _ _ _ _ Hr Hd) as (s1 & Hr1 & Hd1);
    [done|change BT_CFG_JOURNAL_BUF_SIZE with 16777216; lia|].
  eapply draining_overruns; [exact Hr1|exact Hd1|lia|].
  change BT_CFG_JOURNAL_BUF_SIZE with 16777216. lia.
Qed.

(** Closing the journal can lose accepted entries: there is an execution
    in which an append returns 0, the close completes without any error, and
    the file is as it was, because the worker leaves its loop as soon as it
    sees [running] cleared, without draining the ring. *)
Theorem journal_close_loses (f : jfile) (path : list Z) (ms : Z) (e : bt_journal_entry_t) :
  exists s0 s, bt_journal_open true true true true f path ms = Some s0 /\
    jreach s0 [e] 0 s /\ js_closed s = true /\
    f_bytes (j_fd (js_j s)) = f_bytes f /\ j_dropped (js_j s) = 0.
Proof.
  exists (opened f path ms). destruct calloc_ring_wf as (Hwf & Hm & Hc).
  destruct (append_all (opened f path ms) [] (opened f path ms) [e]) as (r & Hr & _).
  { constructor. } { done. } { exact Hwf. }
  { unfold opened; cbn [js_j j_ring]. rewrite Hc, Hm. by vm_compute. }
  simpl in Hr.
  pose proof (jreach_step _ _ _ _ (EvWorker true [] true 0) _ _ Hr ltac:(done) eq_refl) as H1.
  pose proof (jreach_step _ _ _ _ EvCloseRequest _ _ H1 ltac:(done) eq_refl) as H2.
  pose proof (jreach_step _ _ _ _ (EvWorker true [] true 0) _ _ H2 ltac:(done) eq_refl) as H3.
  pose proof (jreach_step _ _ _ _ (EvWorker true [] true 0) _ _ H3 ltac:(done) eq_refl) as H4.
  pose proof (jreach_step _ _ _ _ EvCloseJoin _ _ H4 ltac:(done) eq_refl) as H5.
  eexists. split; [reflexivity|]. split; [exact H5|]. split_and!; reflexivity.
Qed.

(** ** Witnesses *)

Definition sample_entries : list bt_journal_entry_t := [sample_entry 1; sample_entry 2].

Lemma sample_entry_wf seq : is_u64 seq -> journal_entry_wf (sample_entry seq).
Proof.
  intros Hs. unfold journal_entry_wf. split_and!; try done;
    apply (bool_decide_unpack _); by vm_compute.
Defined.

Lemma sample_entries_wf : Forall journal_entry_wf sample_entries.
Proof. repeat constructor; apply sample_entry_wf; unfold is_u64; lia. Defined.

Definition empty_file : jfile := JFile [] 0.

Lemma open_empty : bt_journal_open true true true true empty_file [] 1 = Some (opened empty_file [] 1).
Proof. apply open_spec. Defined.

(** Both entries are in the write buffer. *)
Lemma journal_conservation_witness :
  exists s, jreach (opened empty_file [] 1) sample_entries 0 s /\
    exists taken, sample_entries = taken ++ contents (j_ring (js_j s)) /\
      f_bytes (j_fd (js_j s)) ++ js_buf s = images taken.
Proof.
  destruct (opened_draining empty_file [] 1 sample_entries) as (s & Hr & Hd); [done|].
  destruct (draining_take_all _ _ _ _ _ sample_entries [] Hr Hd sample_entries_wf)
    as (s' & Hr' & _ & _ & _ & _ & _ & d & Hpc & _); [done|].
  exists s'. split; [done|].
  apply (journal_conservation _ _ _ _ _ _ _ _ _ _ _ open_empty Hr'); [congruence|].
  apply sample_entries_wf.
Defined.

(** One record and a half reached the file before the disk failed. *)
Lemma journal_reads_back_witness :
  exists s, jreach (opened empty_file [] 1) sample_entries 0 s /\
    parse_journal (f_bytes (j_fd (js_j s))) = Some [sample_entry 1].
Proof.
  pose proof sample_entries_wf as Hwf.
  destruct (opened_draining empty_file [] 1 sample_entries) as (s & Hr & Hd); [done|].
  destruct (draining_take _ _ _ _ _ _ _ Hr Hd) as (s1 & d1 & Hr1 & Hd1 & _);
    [by inversion Hwf|done|].
  destruct (draining_take _ _ _ _ _ _ _ Hr1 Hd1) as (s2 & d2 & Hr2 & Hd2 & Hpc & Hpos);
    [inversion Hwf as [|? ? ? Hw]; by inversion Hw|done|].
  pose proof (jreach_inv _ _ _ _ _ _ Hr2) as [_ _ _ _ _ Hdata _].
  destruct (Hdata ltac:(congruence)) as (taken & Hacc & Hbytes).
  destruct Hd2 as (Hcl & Hrun & Hq & Hc & Hb & Hd2).
  rewrite Hc, app_nil_r in Hacc. subst taken.
  assert (f_bytes (j_fd (js_j s2)) = []) as Hnil.
  { apply (f_equal zlen) in Hbytes. rewrite !zlen_app, Hb, zlen_images in Hbytes by done.
    unfold zlen in Hbytes. simpl in Hbytes. by apply nil_length_inv; lia. }
  rewrite Hnil in Hbytes. simpl in Hbytes.
  assert (flush_loop [Wrote 156; WFail] (f_bytes (j_fd (js_j s2))) (js_buf s2)
          = Some (take 156 (images sample_entries), drop 156 (images sample_entries))) as Hloop
    by (rewrite Hnil, Hbytes; by vm_compute).
  destruct (draining_finish _ _ _ s2 _ d2 _ _ _ Hr2 ltac:(by repeat split) ltac:(lia) Hpc Hpos Hloop)
    as (s' & Hr' & Hpc' & Hfile).
  exists s'. split; [done|].
  rewrite (journal_reads_back true true true true empty_file 1 [] _ s' [] _ 0 eq_refl (Forall_nil_2 _)
    open_empty Hr' ltac:(congruence) Hwf).
  by rewrite Hfile.
Defined.

Definition interrupted_writes : list write_out := [WIntr; Wrote 2; WIntr; Wrote 1; Wrote 5].

Lemma journal_flush_completes_witness :
  exists j', journal_do_flush interrupted_writes true true (js_j (opened empty_file [] 1)) [1; 2; 3]
             = Some (j', []) /\ f_bytes (j_fd j') = [1; 2; 3].
Proof.
  destruct (journal_flush_completes interrupted_writes true true (js_j (opened empty_file [] 1))
    [1; 2; 3]) as (j' & Hf & Hb & _).
  - intros o Ho. unfold interrupted_writes in Ho.
    repeat (apply elem_of_cons in Ho as [->|Ho]; [done|]). by apply elem_of_nil in Ho.
  - done.
  - by exists j'.
Defined.

Lemma journal_overruns_buffer_witness :
  exists s, jreach (opened empty_file [] 1) (replicate (Z.to_nat 161320) (sample_entry 1)) 0 s /\
    js_pc s = PcOverrun.
Proof.
  apply (journal_overruns_buffer _ _ _ _ _ open_empty).
  - apply Forall_replicate, sample_entry_wf. unfold is_u64. lia.
  - unfold zlen. rewrite length_replicate. by apply Z2Nat.id.
Defined.
