(* ===== verification/JournalClose.v ===== *)
(** * Closing the journal

    [bt_journal_close] of [src/src/persistence/journal.c] clears [running] and
    waits for the worker. The worker looks at [running] once per batch of at
    most 64 entries, so the wait is bounded however fast the writers append:
    [journal_close_bounded]. The lemmas on single steps also serve the
    composition in [Platform]. *)

From S2P Require Import Prelude Queue CTypes Journal.

(** ** What the steps leave alone *)

Section steps.
Implicit Types (s : jstate) (j : bt_journal).

Lemma do_flush_running outs ok d j buf j' buf' :
  journal_do_flush outs ok d j buf = Some (j', buf') -> j_running j' = j_running j.
Proof. intros H. apply do_flush_conserves in H. tauto. Qed.

(** A step of the worker changes neither [running] nor the handle's validity. *)
Lemma worker_keeps m outs ok now s s' :
  bt_journal_thread_core m outs ok now s = Some s' ->
  j_running (js_j s') = j_running (js_j s) /\ js_closed s' = js_closed s.
Proof.
  unfold bt_journal_thread_core, drain_round, idle_round. intros H.
  repeat case_match; simplify_eq; try done;
    match goal with E : journal_do_flush _ _ _ _ _ = Some _ |- _ => apply do_flush_running in E end; done.
Qed.

Lemma append_step e s : js_closed s = false ->
  exists rc j, jstep (EvAppend e) s = Some (Some rc, set_j j s) /\ j_running j = j_running (js_j s).
Proof.
  intros Hc. unfold jstep. rewrite Hc. unfold bt_journal_append. destruct (SPSC_PUSH _ _) as [[] r]; by eexists _, _.
Qed.

(** Only the join ends the validity of the handle. *)
Lemma step_closed ev s r s' :
  jstep ev s = Some (r, s') -> js_closed s = false /\ (ev <> EvCloseJoin -> js_closed s' = false).
Proof.
  unfold jstep. destruct (js_closed s) eqn:Hc; [done|]. intros H. split; [done|]. intros Hev.
  destruct ev as [e|ok| | |m outs ok now]; [..|done|].
  - unfold bt_journal_append in H. repeat case_match; by simplify_eq.
  - repeat case_match; by simplify_eq.
  - by simplify_eq.
  - destruct (bt_journal_thread_core _ _ _ _ _) eqn:E; simplify_eq/=. apply worker_keeps in E as [_ ->]. done.
Qed.

Lemma join_closes s r s' : jstep EvCloseJoin s = Some (r, s') ->
  js_pc s = PcDone /\ js_closed s' = true /\ js_j s' = js_j s /\ js_buf s' = js_buf s /\ js_pc s' = PcDone.
Proof.
  unfold jstep, bt_journal_close_join. intros H. repeat (case_match; try done). by simplify_eq/=.
Qed.

(** ** The wait *)

(** An upper bound on the steps of a worker that finds [running] cleared. *)
Definition pc_rank (pc : wpc) : nat :=
  match pc with
  | PcDone | PcOverrun => 0
  | PcFinal => 1
  | PcTop => 2
  | PcStart | PcAfter _ => 3
  | PcDrain drained => 4 + Z.to_nat (JOURNAL_BATCH_DRAIN - drained)
  end.

Lemma worker_rank m outs ok now s s' :
  j_running (js_j s) = false -> bt_journal_thread_core m outs ok now s = Some s' ->
  (pc_rank (js_pc s') < pc_rank (js_pc s))%nat.
Proof.
  intros Hr. unfold bt_journal_thread_core, drain_round, idle_round. rewrite Hr. intros H.
  destruct (js_pc s) as [| |d|d| | |]; repeat case_match; simplify_eq/=; try lia.
Qed.

Definition is_worker (ev : jevent) : bool := match ev with EvWorker _ _ _ _ => true | _ => false end.

(** The other calls do not move the worker, and [running] stays cleared. *)
Lemma other_step ev s r s' :
  is_worker ev = false -> jstep ev s = Some (r, s') ->
  js_pc s' = js_pc s /\ (j_running (js_j s) = false -> j_running (js_j s') = false).
Proof.
  intros Hev H. unfold jstep in H. destruct (js_closed s); [done|].
  destruct ev as [e|ok| | |]; [..|done].
  - unfold bt_journal_append in H. repeat case_match; by simplify_eq/=.
  - unfold bt_journal_flush in H. repeat case_match; by simplify_eq/=.
  - by simplify_eq/=.
  - unfold bt_journal_close_join in H. repeat (case_match; try done). by simplify_eq/=.
Qed.

(** Any sequence of steps. *)
Fixpoint jrun (evs : list jevent) s : option jstate :=
  match evs with
  | [] => Some s
  | ev :: evs => match jstep ev s with Some (_, s) => jrun evs s | None => None end
  end.

Definition worker_steps (evs : list jevent) : nat := length (List.filter is_worker evs).

Lemma jrun_bounded evs s s' :
  j_running (js_j s) = false -> jrun evs s = Some s' ->
  j_running (js_j s') = false /\ (worker_steps evs + pc_rank (js_pc s') <= pc_rank (js_pc s))%nat.
Proof.
  revert s. induction evs as [|ev evs IH]; intros s Hr H; cbn in H; [by simplify_eq|].
  destruct (jstep ev s) as [[r s1]|] eqn:E; [|done]. unfold worker_steps in *. cbn.
  destruct (is_worker ev) eqn:Ew.
  - unfold jstep in E. destruct (js_closed s); [done|]. destruct ev as [| | | |m outs ok now]; try done.
    destruct (bt_journal_thread_core m outs ok now s) eqn:Et; simplify_eq/=.
    destruct (worker_keeps _ _ _ _ _ _ Et) as [Hk _]. apply worker_rank in Et; [|done].
    destruct (IH s1) as [Hr' Hle]; [congruence|done|]. split; [done|]. cbn. lia.
  - destruct (other_step _ _ _ _ Ew E) as [Hpc Hr1]. rewrite <- Hpc. apply IH; auto.
Qed.

(** ** Nothing else can hold the worker up *)

(** The outcomes of [write] that are not interruptions. *)
Definition answered (o : write_out) : bool := match o with WIntr => false | _ => true end.

Lemma flush_loop_returns outs file rest :
  (length rest <= length (List.filter answered outs))%nat -> is_Some (flush_loop outs file rest).
Proof.
  revert file rest. induction outs as [|o outs IH]; intros file [|b rest] Hlen; cbn in *; try lia; try by eexists.
  destruct o as [[|n]| |]; cbn in *; try by eexists.
  - apply IH. rewrite length_drop. lia.
  - apply IH. cbn. lia.
Qed.

Lemma do_flush_returns outs ok d j buf :
  (length buf <= length (List.filter answered outs))%nat -> is_Some (journal_do_flush outs ok d j buf).
Proof.
  intros Hlen. unfold journal_do_flush. destruct (zlen buf =? 0); [by eexists|].
  destruct (flush_loop_returns outs (f_bytes (j_fd j)) buf Hlen) as [[file rest] ->].
  destruct (_ <? _); by eexists.
Qed.

(** A worker that has not ended takes its next step once [write] answers. *)
Lemma worker_goes_on m outs ok now s :
  js_pc s <> PcDone -> js_pc s <> PcOverrun ->
  (length (js_buf s) <= length (List.filter answered outs))%nat ->
  is_Some (bt_journal_thread_core m outs ok now s).
Proof.
  intros Hd Ho Hlen. unfold bt_journal_thread_core, drain_round, idle_round.
  pose proof (fun d j => do_flush_returns outs ok d j (js_buf s) Hlen) as Hf.
  destruct (js_pc s); try done; repeat case_match; try done; try (eexists; reflexivity);
    match goal with E : journal_do_flush _ _ ?d ?j _ = None |- _ =>
      destruct (Hf d j) as [? E']; simplify_eq end.
Qed.

(** When [write] takes the whole buffer, the flush empties it and the worker
    does not overrun. *)
Lemma do_flush_whole ok d j buf :
  exists j', journal_do_flush [Wrote (length buf)] ok d j buf = Some (j', []).
Proof.
  destruct buf as [|b buf]; [by eexists|]. unfold journal_do_flush. rewrite zlen_cons.
  destruct (Z.eqb_spec (1 + zlen buf) 0); [pose proof (zlen_nonneg buf); lia|].
  cbn [flush_loop]. rewrite Nat.min_id. cbn [length Nat.eqb]. rewrite drop_ge by done.
  cbn [flush_loop]. rewrite Z.sub_0_r, Z.ltb_irrefl. by eexists.
Qed.

Lemma worker_writes m ok now s :
  js_pc s <> PcDone -> js_pc s <> PcOverrun ->
  exists s', bt_journal_thread_core m [Wrote (length (js_buf s))] ok now s = Some s' /\ js_pc s' <> PcOverrun.
Proof.
  intros Hd Ho. pose proof (fun d j => do_flush_whole ok d j (js_buf s)) as Hf.
  unfold bt_journal_thread_core. destruct (js_pc s) as [| |drained|drained| | |]; try done.
  - destruct m; by eexists.
  - destruct (j_running _); by eexists.
  - unfold drain_round. destruct (_ <? _); [|by eexists]. destruct (SPSC_POP _) as [[x|] r]; [|by eexists].
    destruct (BT_CFG_JOURNAL_BUF_SIZE <? _) eqn:Hfull; [|rewrite Hfull; by eexists].
    destruct (Hf true (set_ring r (js_j s))) as [j' ->]. by eexists.
  - destruct (_ =? 0); [|by eexists]. unfold idle_round. destruct (_ && _); [|by eexists].
    destruct (Hf (0 <? j_sync_interval_ms (js_j s)) (js_j s)) as [j' ->]. by eexists.
  - destruct (_ <? _); [|by eexists]. destruct (Hf true (js_j s)) as [j' ->]. by eexists.
Qed.

(** The counter of a batch is never negative. *)
Definition counted (pc : wpc) : Prop := match pc with PcDrain d => 0 <= d | _ => True end.

Lemma counted_rank pc : counted pc -> (pc_rank pc <= 68)%nat.
Proof. destruct pc; cbn; unfold JOURNAL_BATCH_DRAIN; lia. Qed.

Lemma worker_counted m outs ok now s s' :
  counted (js_pc s) -> bt_journal_thread_core m outs ok now s = Some s' -> counted (js_pc s').
Proof.
  intros Hc. unfold bt_journal_thread_core, drain_round, idle_round. intros H.
  destruct (js_pc s) as [| |d|d| | |]; repeat case_match; simplify_eq/=; try done; lia.
Qed.

Lemma step_counted ev s r s' : counted (js_pc s) -> jstep ev s = Some (r, s') -> counted (js_pc s').
Proof.
  intros Hc E. destruct (is_worker ev) eqn:Ew.
  - unfold jstep in E. destruct (js_closed s); [done|]. destruct ev; try done.
    destruct (bt_journal_thread_core _ _ _ _ s) eqn:Et; simplify_eq/=. by eapply worker_counted.
  - destruct (other_step _ _ _ _ Ew E) as [-> _]. done.
Qed.

Lemma reach_counted s0 acc refused s : counted (js_pc s0) -> jreach s0 acc refused s -> counted (js_pc s).
Proof. intros H0. induction 1; [done|by eapply step_counted..]. Qed.

(** Where a run after the request can stand. *)
Lemma stands s :
  js_closed s = false -> j_running (js_j s) = false ->
  js_pc s = PcOverrun \/ (js_pc s = PcDone /\ exists s', jstep EvCloseJoin s = Some (None, s')) \/
  forall m outs ok now, (length (js_buf s) <= length (List.filter answered outs))%nat ->
    is_Some (jstep (EvWorker m outs ok now) s).
Proof.
  intros Hc Hr. destruct (decide (js_pc s = PcOverrun)) as [|Ho]; [by left|right].
  destruct (decide (js_pc s = PcDone)) as [Hd|Hd]; [left|right].
  - split; [done|]. unfold jstep, bt_journal_close_join. rewrite Hc, Hd, Hr. by eexists.
  - intros m outs ok now Hlen. unfold jstep. rewrite Hc.
    destruct (worker_goes_on m outs ok now s Hd Ho Hlen) as [s' ->]. by eexists.
Qed.

End steps.

(** ** Properties *)

(** C14: Closing the journal does not wait for ever: once [running] is cleared
    the worker makes at most 68 more steps, in any interleaving with writers
    that keep appending, and it has returned, so that the close goes through,
    or is still able to take its next step as soon as [write] answers; the
    one exception is a worker that has written beyond its buffer. *)
Theorem journal_close_bounded (c fd r t : bool) (f : jfile) (path : list Z) (ms : Z)
    (s0 s s1 s' : jstate) (acc : list bt_journal_entry_t) (refused : Z) (evs : list jevent) :
  bt_journal_open c fd r t f path ms = Some s0 -> jreach s0 acc refused s ->
  jstep EvCloseRequest s = Some (None, s1) -> jrun evs s1 = Some s' ->
  (worker_steps evs <= 68)%nat /\
  (js_closed s' = true \/ js_pc s' = PcOverrun \/
   (js_pc s' = PcDone /\ exists s'', jstep EvCloseJoin s' = Some (None, s'')) \/
   forall m outs ok now, (length (js_buf s') <= length (List.filter answered outs))%nat ->
     is_Some (jstep (EvWorker m outs ok now) s')).
Proof.
  rewrite open_spec. destruct (c && fd && r && t); [|done]. intros [= <-] Hr Hreq Hrun.
  apply reach_counted in Hr; [|done].
  assert (js_pc s1 = js_pc s /\ j_running (js_j s1) = false) as [Hpc Hoff].
  { unfold jstep in Hreq. destruct (js_closed s); by simplify_eq/=. }
  destruct (jrun_bounded evs s1 s' Hoff Hrun) as [Hr' Hle]. rewrite Hpc in Hle.
  apply counted_rank in Hr. split; [lia|].
  destruct (js_closed s') eqn:Hc; [by left|right]. by apply stands.
Qed.

(** ** Witnesses *)

(** The worker has begun a batch; the close is requested, a flush comes in
    between, and the worker finds the ring empty and ends. *)
Definition tick : jevent := EvWorker true [] true 5.

Definition began : jstate :=
  JState (js_j (opened empty_file [] 1)) (PcDrain 0) [] 5 1000000 0 false.

Lemma began_reach : jreach (opened empty_file [] 1) [] 0 began.
Proof.
  eapply (jreach_step _ [] 0 (JState (js_j (opened empty_file [] 1)) PcTop [] 5 1000000 0 false) tick None);
    [|done|reflexivity].
  eapply (jreach_step _ [] 0 (opened empty_file [] 1) tick None); [apply jreach_open|done|reflexivity].
Qed.

Lemma journal_close_bounded_witness :
  exists s', jrun [tick; EvFlush true; tick; tick; tick] (bt_journal_close_request began) = Some s' /\
    js_pc s' = PcDone /\ (worker_steps [tick; EvFlush true; tick; tick; tick] <= 68)%nat.
Proof.
  eexists. split; [reflexivity|]. split; [reflexivity|].
  exact (proj1 (journal_close_bounded true true true true empty_file [] 1 _ began _ _ [] 0
    [tick; EvFlush true; tick; tick; tick] open_empty began_reach eq_refl eq_refl)).
Defined.
