(* ===== verification/GwRing.v ===== *)
(** * The gateway's byte rings

    Models the ring-buffer helpers of [src/src/net/gateway.c]
    ([gw_ring_readable], [gw_ring_writable], [gw_ring_peek],
    [gw_ring_advance]) and the two ways the gateway writes into a ring: the
    contiguous fill by [read] and the masked byte loop of the send path. A
    ring denotes the list of its readable bytes. *)

From S2P Require Import Prelude CTypes.

(** The three fields [..._buf], [..._head], [..._tail] of a connection. *)
Record bring := Bring { r_buf : list Z; r_head : Z; r_tail : Z }.

Definition gw_ring_readable (head tail mask : Z) : Z :=
  if head <=? tail then u64 (tail - head) else u64 (mask + 1 - head + tail).

Definition gw_ring_writable (head tail mask : Z) : Z :=
  u64 (mask - gw_ring_readable head tail mask).

(** [memcpy] of [len] bytes from [buf + pos]. *)
Definition mem_read (buf : list Z) (pos len : Z) : list Z :=
  take (Z.to_nat len) (drop (Z.to_nat pos) buf).

(** What [gw_ring_peek] stores at [dst]. *)
Definition gw_ring_peek (buf : list Z) (head off len mask : Z) : list Z :=
  let pos := Z.land (u64 (head + off)) mask in
  let first := u64 (mask + 1 - pos) in
  if len <=? first then mem_read buf pos len
  else mem_read buf pos first ++ mem_read buf 0 (u64 (len - first)).

Definition gw_ring_advance (cursor delta mask : Z) : Z := Z.land (u64 (cursor + delta)) mask.

(** The store loop [buf[(pos + i) & mask] = data[i]]. *)
Fixpoint put_bytes (buf : list Z) (pos mask : Z) (data : list Z) : list Z :=
  match data with
  | [] => buf
  | b :: data => put_bytes buf.[Z.land (u64 pos) mask <- b] (pos + 1) mask data
  end.

(** The contiguous store of [read] at [buf + pos]. *)
Fixpoint mem_write (buf : list Z) (pos : Z) (data : list Z) : list Z :=
  match data with
  | [] => buf
  | b :: data => mem_write buf.[pos <- b] (pos + 1) data
  end.

(** ** What a ring denotes *)

Definition bring_wf (k : Z) (r : bring) : Prop :=
  zlen (r_buf r) = 2 ^ k /\ 0 <= r_head r < 2 ^ k /\ 0 <= r_tail r < 2 ^ k.

Definition bring_len (k : Z) (r : bring) : Z := (r_tail r - r_head r) mod 2 ^ k.

Definition bytes_of (k : Z) (r : bring) : list Z :=
  ring_slice (r_buf r) (2 ^ k) (r_head r) (Z.to_nat (bring_len k r)).

Section ring_laws.
Context (k : Z) (Hk : 1 <= k <= 62).

Lemma ring_cap : 2 <= 2 ^ k < 2 ^ 63.
Proof using Hk.
  split.
  - change 2 with (2 ^ 1) at 1. apply Z.pow_le_mono_r; lia.
  - apply Z.pow_lt_mono_r; lia.
Qed.

Lemma advance_mod c d :
  0 <= c -> 0 <= d -> gw_ring_advance c d (2 ^ k - 1) = (c + d) mod 2 ^ k.
Proof using Hk.
  intros. unfold gw_ring_advance, u64. rewrite land_mask by lia.
  by rewrite mod_pow2_pow2 by lia.
Qed.

Lemma mask_mod c : Z.land (u64 c) (2 ^ k - 1) = c mod 2 ^ k.
Proof using Hk. unfold u64. rewrite land_mask by lia. by rewrite mod_pow2_pow2 by lia. Qed.

Lemma bring_len_range r : 0 <= bring_len k r < 2 ^ k.
Proof using Hk. pose proof ring_cap. apply Z.mod_pos_bound. lia. Qed.

Lemma readable_len r :
  bring_wf k r -> gw_ring_readable (r_head r) (r_tail r) (2 ^ k - 1) = bring_len k r.
Proof using Hk.
  intros (_ & Hh & Ht). pose proof ring_cap. unfold gw_ring_readable, bring_len.
  rewrite Z.sub_add.
  destruct (Z.leb_spec (r_head r) (r_tail r)).
  - rewrite u64_small by (unfold is_u64; lia). symmetry. apply Z.mod_small. lia.
  - rewrite u64_small by (unfold is_u64; lia).
    rewrite <- (Z.mod_add _ 1) by lia. symmetry. rewrite Z.mod_small; lia.
Qed.

Lemma writable_len r :
  bring_wf k r -> gw_ring_writable (r_head r) (r_tail r) (2 ^ k - 1) = 2 ^ k - 1 - bring_len k r.
Proof using Hk.
  intros Hwf. unfold gw_ring_writable. rewrite readable_len by done.
  pose proof ring_cap. pose proof (bring_len_range r). apply u64_small. unfold is_u64. lia.
Qed.

Lemma zlen_bytes_of r : zlen (bytes_of k r) = bring_len k r.
Proof using Hk.
  unfold zlen, bytes_of. rewrite length_ring_slice.
  pose proof (bring_len_range r). lia.
Qed.

Lemma tail_of_len r : bring_wf k r -> (r_head r + bring_len k r) mod 2 ^ k = r_tail r.
Proof using Hk.
  intros (_ & Hh & Ht). pose proof ring_cap. unfold bring_len.
  rewrite Zplus_mod_idemp_r. replace (r_head r + (r_tail r - r_head r)) with (r_tail r) by lia.
  by apply Z.mod_small.
Qed.

(** A contiguous read is a window that does not wrap. *)
Lemma mem_read_slice buf pos n :
  zlen buf = 2 ^ k -> 0 <= pos -> pos + Z.of_nat n <= 2 ^ k ->
  mem_read buf pos (Z.of_nat n) = ring_slice buf (2 ^ k) pos n.
Proof using Hk.
  intros Hlen. unfold mem_read. rewrite Nat2Z.id. revert pos.
  induction n as [|n IH]; intros pos Hp Hle; [done|].
  cbn [ring_slice]. rewrite Z.mod_small by lia.
  rewrite <- (IH (pos + 1)) by lia.
  rewrite (drop_S _ (buf.[pos]) (Z.to_nat pos)) by (apply arr_lookup; lia).
  simpl. by replace (Z.to_nat (pos + 1)) with (S (Z.to_nat pos)) by lia.
Qed.

Lemma mem_read_window buf pos len :
  zlen buf = 2 ^ k -> 0 <= pos -> 0 <= len -> pos + len <= 2 ^ k ->
  mem_read buf pos len = ring_slice buf (2 ^ k) pos (Z.to_nat len).
Proof using Hk.
  intros. rewrite <- (Z2Nat.id len) at 1 by lia. apply mem_read_slice; lia.
Qed.

(** A peek inside the readable bytes returns them, across the wrap. *)
Lemma peek_bytes r off len :
  bring_wf k r -> 0 <= off -> 0 <= len -> off + len <= bring_len k r ->
  gw_ring_peek (r_buf r) (r_head r) off len (2 ^ k - 1)
  = take (Z.to_nat len) (drop (Z.to_nat off) (bytes_of k r)).
Proof using Hk.
  intros (Hlen & Hh & Ht) Hoff Hl Hle. pose proof ring_cap.
  pose proof (bring_len_range r) as Hr.
  assert (take (Z.to_nat len) (drop (Z.to_nat off) (bytes_of k r))
          = ring_slice (r_buf r) (2 ^ k) (r_head r + off) (Z.to_nat len)) as ->.
  { unfold bytes_of.
    replace (Z.to_nat (bring_len k r))
      with (Z.to_nat off + (Z.to_nat len + Z.to_nat (bring_len k r - off - len)))%nat by lia.
    rewrite ring_slice_app, drop_app_length' by (symmetry; apply length_ring_slice).
    rewrite ring_slice_app, take_app_length' by (symmetry; apply length_ring_slice).
    by rewrite Z2Nat.id by lia. }
  unfold gw_ring_peek. rewrite mask_mod.
  set (pos := (r_head r + off) mod 2 ^ k).
  assert (0 <= pos < 2 ^ k) as Hpos by (apply Z.mod_pos_bound; lia).
  rewrite <- (ring_slice_mod _ _ (r_head r + off)). fold pos.
  replace (2 ^ k - 1 + 1 - pos) with (2 ^ k - pos) by lia.
  rewrite (u64_small (2 ^ k - pos)) by (unfold is_u64; lia).
  destruct (Z.leb_spec len (2 ^ k - pos)).
  - apply mem_read_window; lia.
  - rewrite (u64_small (len - (2 ^ k - pos))) by (unfold is_u64; lia).
    rewrite !mem_read_window by lia.
    replace (Z.to_nat len) with (Z.to_nat (2 ^ k - pos) + Z.to_nat (len - (2 ^ k - pos)))%nat by lia.
    rewrite ring_slice_app. f_equal. apply ring_slice_shift.
    rewrite Z2Nat.id by lia. replace (pos + (2 ^ k - pos)) with (0 + 1 * 2 ^ k) by lia.
    by rewrite Z.mod_add by lia.
Qed.

(** Advancing the head drops the bytes that were read. *)
Lemma advance_bytes r n :
  bring_wf k r -> 0 <= n <= bring_len k r ->
  let r' := Bring (r_buf r) (gw_ring_advance (r_head r) n (2 ^ k - 1)) (r_tail r) in
  bring_wf k r' /\ bytes_of k r' = drop (Z.to_nat n) (bytes_of k r).
Proof using Hk.
  intros (Hlen & Hh & Ht) Hn. pose proof ring_cap. pose proof (bring_len_range r) as Hr.
  cbv zeta. rewrite advance_mod by lia. split.
  - split_and!; simpl; try lia; apply Z.mod_pos_bound; lia.
  - unfold bytes_of, bring_len at 1; simpl. rewrite Zminus_mod_idemp_r.
    replace (r_tail r - (r_head r + n)) with (r_tail r - r_head r - n) by lia.
    rewrite <- Zminus_mod_idemp_l. fold (bring_len k r).
    rewrite (Z.mod_small (bring_len k r - n)) by lia.
    rewrite ring_slice_mod.
    replace (Z.to_nat (bring_len k r)) with (Z.to_nat n + Z.to_nat (bring_len k r - n))%nat by lia.
    rewrite ring_slice_app, drop_app_length' by (symmetry; apply length_ring_slice).
    by rewrite Z2Nat.id by lia.
Qed.

Lemma zlen_put_bytes buf pos mask data : zlen (put_bytes buf pos mask data) = zlen buf.
Proof using.
  revert buf pos. induction data as [|b data IH]; intros buf pos; simpl; [done|].
  by rewrite IH, zlen_arr_set.
Qed.

Lemma put_bytes_app buf pos mask a b :
  put_bytes buf pos mask (a ++ b) = put_bytes (put_bytes buf pos mask a) (pos + zlen a) mask b.
Proof using.
  revert buf pos. induction a as [|x a IH]; intros buf pos; simpl.
  - change (zlen []) with 0. by rewrite Z.add_0_r.
  - rewrite IH, zlen_cons. by rewrite Z.add_assoc.
Qed.

Lemma put_bytes_slice buf h n data :
  zlen buf = 2 ^ k -> Z.of_nat n + zlen data < 2 ^ k ->
  ring_slice (put_bytes buf (h + Z.of_nat n) (2 ^ k - 1) data) (2 ^ k) h (n + length data)
  = ring_slice buf (2 ^ k) h n ++ data.
Proof using Hk.
  pose proof ring_cap. revert buf n.
  induction data as [|b data IH]; intros buf n Hlen Hn; simpl.
  - by rewrite Nat.add_0_r, app_nil_r.
  - rewrite zlen_cons in Hn. pose proof (zlen_nonneg data).
    rewrite mask_mod. replace (n + S (length data))%nat with (S n + length data)%nat by lia.
    replace (h + Z.of_nat n + 1) with (h + Z.of_nat (S n)) by lia.
    rewrite IH; [|by rewrite zlen_arr_set|lia].
    rewrite ring_slice_push by lia. by rewrite <- app_assoc.
Qed.

Lemma put_bytes_cong buf i j data :
  i mod 2 ^ k = j mod 2 ^ k ->
  put_bytes buf i (2 ^ k - 1) data = put_bytes buf j (2 ^ k - 1) data.
Proof using Hk.
  revert buf i j. induction data as [|b data IH]; intros buf i j Hij; simpl; [done|].
  rewrite !mask_mod, Hij. apply IH. by rewrite Zplus_mod, Hij, <- Zplus_mod.
Qed.

(** The bytes at the head that do not wrap, read in place. *)
Lemma mem_read_head r n :
  bring_wf k r -> 0 <= n -> n <= bring_len k r -> r_head r + n <= 2 ^ k ->
  mem_read (r_buf r) (r_head r) n = take (Z.to_nat n) (bytes_of k r).
Proof using Hk.
  intros (Hlen & Hh & Ht) Hn Hle Hw. rewrite mem_read_window by lia. unfold bytes_of.
  replace (Z.to_nat (bring_len k r)) with (Z.to_nat n + Z.to_nat (bring_len k r - n))%nat by lia.
  by rewrite ring_slice_app, take_app_length' by (symmetry; apply length_ring_slice).
Qed.

Lemma bytes_of_nil r : bring_wf k r -> r_head r = r_tail r <-> bytes_of k r = [].
Proof using Hk.
  intros Hwf. pose proof (tail_of_len r Hwf) as Htl. pose proof (zlen_bytes_of r) as Hl.
  pose proof ring_cap. destruct Hwf as (_ & Hh & Ht). split.
  - intros Heq. apply nil_length_inv. unfold bring_len in Hl.
    rewrite Heq, Z.sub_diag, Z.mod_0_l in Hl by lia. unfold zlen in Hl. lia.
  - intros Hnil. rewrite Hnil in Hl. change (zlen []) with 0 in Hl. rewrite <- Hl, Z.add_0_r in Htl.
    by rewrite Z.mod_small in Htl.
Qed.

(** Storing at the tail and moving it appends the bytes. *)
Lemma put_bytes_append r data :
  bring_wf k r -> zlen data <= 2 ^ k - 1 - bring_len k r ->
  let r' := Bring (put_bytes (r_buf r) (r_tail r) (2 ^ k - 1) data) (r_head r)
              ((r_tail r + zlen data) mod 2 ^ k) in
  bring_wf k r' /\ bytes_of k r' = bytes_of k r ++ data.
Proof using Hk.
  intros Hwf Hroom. pose proof (tail_of_len r Hwf) as Htl.
  destruct Hwf as (Hlen & Hh & Ht). pose proof ring_cap.
  pose proof (bring_len_range r) as Hr. pose proof (zlen_nonneg data). cbv zeta. split.
  - split_and!; simpl; try lia; [by rewrite zlen_put_bytes|apply Z.mod_pos_bound; lia..].
  - unfold bytes_of, bring_len at 1; simpl. rewrite Zminus_mod_idemp_l.
    replace (r_tail r + zlen data - r_head r) with (r_tail r - r_head r + zlen data) by lia.
    rewrite <- Zplus_mod_idemp_l. fold (bring_len k r).
    rewrite (Z.mod_small (bring_len k r + zlen data)) by lia.
    assert (put_bytes (r_buf r) (r_tail r) (2 ^ k - 1) data
            = put_bytes (r_buf r) (r_head r + Z.of_nat (Z.to_nat (bring_len k r))) (2 ^ k - 1) data)
      as ->.
    { apply put_bytes_cong. rewrite <- Htl, Z2Nat.id by lia. by rewrite Z.mod_mod by lia. }
    replace (Z.to_nat (bring_len k r + zlen data))
      with (Z.to_nat (bring_len k r) + length data)%nat by (unfold zlen; lia).
    apply put_bytes_slice; lia.
Qed.

Lemma mem_write_put_bytes buf pos data :
  0 <= pos -> pos + zlen data <= 2 ^ k ->
  mem_write buf pos data = put_bytes buf pos (2 ^ k - 1) data.
Proof using Hk.
  revert buf pos. induction data as [|b data IH]; intros buf pos Hp Hle; simpl; [done|].
  rewrite zlen_cons in Hle. pose proof (zlen_nonneg data).
  rewrite mask_mod, Z.mod_small by lia. apply IH; lia.
Qed.

End ring_laws.
