(* ===== verification/GwParse.v ===== *)
(** * The gateway's message parsers

    Models [gw_validate_api_key], [gw_parse_order_text] and
    [gw_parse_order_binary] of [src/src/net/gateway.c], with the C library
    functions they call: [strncmp], [memchr], [strtoull], [strtoul] and
    [strtod] followed by the conversion of the [double] to [int64_t]. Text is
    a list of byte values; a buffer that the source leaves partly
    uninitialised is modelled with its earlier contents. *)

From Stdlib Require Import Ascii String.
From stdpp Require Import strings.
From S2P Require Import Prelude CTypes.

Definition cchar (a : Ascii.ascii) : Z := Z.of_N (Ascii.N_of_ascii a).
Definition cstr (s : String.string) : list Z := map cchar (String.list_ascii_of_string s).

Notation "'#' c" := (cchar c%char) (at level 1, c at level 0, format "# c") : broker_scope.

(** ** The C library functions *)

(** [strncmp (a, b, n) == 0]. *)
Fixpoint strncmp_eq (n : nat) (a b : list Z) : bool :=
  match n with
  | O => true
  | S n =>
      match a, b with
      | x :: a, y :: b => if x =? y then (if x =? 0 then true else strncmp_eq n a b) else false
      | _, _ => false
      end
  end.

(** [memchr]: the bytes before the first [c] and the bytes after it. *)
Fixpoint split_at (c : Z) (l : list Z) : option (list Z * list Z) :=
  match l with
  | [] => None
  | x :: l =>
      if x =? c then Some ([], l)
      else match split_at c l with
           | Some (a, b) => Some (x :: a, b)
           | None => None
           end
  end.

Definition isspace (c : Z) : bool := (c =? 32) || ((9 <=? c) && (c <=? 13)).
Definition isdigit (c : Z) : bool := (48 <=? c) && (c <=? 57).

Fixpoint skip_space (l : list Z) : list Z :=
  match l with
  | c :: l' => if isspace c then skip_space l' else l
  | [] => []
  end.

(** The optional sign of the number conversions. *)
Definition sign_of (l : list Z) : bool * list Z :=
  match l with
  | c :: l' => if c =? #"-" then (true, l') else if c =? #"+" then (false, l') else (false, l)
  | [] => (false, l)
  end.

(** The value of the leading digits, continuing from [acc], how many there
    are, and what follows. *)
Fixpoint scan_digits (acc : Z) (l : list Z) : Z * Z * list Z :=
  match l with
  | c :: l' =>
      if isdigit c then
        let '(v, n, rest) := scan_digits (acc * 10 + (c - 48)) l' in (v, n + 1, rest)
      else (acc, 0, l)
  | [] => (acc, 0, l)
  end.

(** [strtoull (s, NULL, 10)]; [strtoul] is the same function on LP64. *)
Definition strtoull (s : list Z) : Z :=
  let '(neg, l) := sign_of (skip_space s) in
  let '(v, n, _) := scan_digits 0 l in
  if n =? 0 then 0
  else if 2 ^ 64 <=? v then 2 ^ 64 - 1
  else if neg then u64 (- v) else v.

(** A [double]: a finite value (-1)^neg * m * 2^e, an infinity or a NaN. *)
Inductive double_val := DFin (neg : bool) (m e : Z) | DInf | DNaN.

Definition round_half_even (a b : Z) : Z :=
  let q := a / b in
  let r := a mod b in
  if 2 * r <? b then q else if b <? 2 * r then q + 1 else if Z.even q then q else q + 1.

(** The position of the leading bit of [num / den]. *)
Definition rat_log2 (num den : Z) : Z :=
  let l := Z.log2 num - Z.log2 den in
  if den * 2 ^ (Z.max l 0) <=? num * 2 ^ (Z.max (- l) 0) then l else l - 1.

(** The double nearest to [num / den], ties to even, with gradual underflow. *)
Definition round_double (neg : bool) (num den : Z) : double_val :=
  if num =? 0 then DFin neg 0 0
  else
    let e := Z.max (rat_log2 num den - 52) (-1074) in
    let m := round_half_even (num * 2 ^ (Z.max (- e) 0)) (den * 2 ^ (Z.max e 0)) in
    if (0 <=? e) && (2 ^ 1024 <=? m * 2 ^ e) then DInf else DFin neg m e.

Definition hexval (c : Z) : option Z :=
  if isdigit c then Some (c - 48)
  else if (97 <=? c) && (c <=? 102) then Some (c - 87)
  else if (65 <=? c) && (c <=? 70) then Some (c - 55)
  else None.

Fixpoint scan_hex (acc : Z) (l : list Z) : Z * Z * list Z :=
  match l with
  | c :: l' =>
      match hexval c with
      | Some d => let '(v, n, rest) := scan_hex (acc * 16 + d) l' in (v, n + 1, rest)
      | None => (acc, 0, l)
      end
  | [] => (acc, 0, l)
  end.

(** A mantissa: digits, optionally a point and more digits; its integer
    value, the number of digits after the point, the number of digits. *)
Definition scan_mantissa (scan : Z -> list Z -> Z * Z * list Z) (l : list Z)
  : Z * Z * Z * list Z :=
  let '(v, n, rest) := scan 0 l in
  match rest with
  | c :: rest' =>
      if c =? #"." then let '(w, f, rest'') := scan v rest' in (w, f, n + f, rest'')
      else (v, 0, n, rest)
  | [] => (v, 0, n, rest)
  end.

(** The optional exponent after the letter [lo] or [up]; a magnitude beyond
    2000 is cut there, which decides between zero and infinity for the
    mantissas that fit the 31 characters the caller passes. *)
Definition scan_exponent (lo up : Z) (l : list Z) : Z :=
  match l with
  | c :: l' =>
      if (c =? lo) || (c =? up) then
        let '(neg, l'') := sign_of l' in
        let '(v, n, _) := scan_digits 0 l'' in
        if n =? 0 then 0 else let v := Z.min v 2000 in if neg then - v else v
      else 0
  | [] => 0
  end.

(** [num / den] from a mantissa [v] and a power of [base]. *)
Definition scaled (neg : bool) (base v e : Z) : double_val :=
  round_double neg (v * base ^ (Z.max e 0)) (base ^ (Z.max (- e) 0)).

Definition tolower (c : Z) : Z := if (65 <=? c) && (c <=? 90) then c + 32 else c.

Fixpoint has_prefix (p l : list Z) : bool :=
  match p, l with
  | [], _ => true
  | x :: p, y :: l => (x =? tolower y) && has_prefix p l
  | _ :: _, [] => false
  end.

Definition strtod_decimal (neg : bool) (l : list Z) : double_val :=
  let '(v, f, n, rest) := scan_mantissa scan_digits l in
  if n =? 0 then DFin false 0 0
  else scaled neg 10 v (scan_exponent #"e" #"E" rest - f).

Definition strtod (s : list Z) : double_val :=
  let '(neg, l) := sign_of (skip_space s) in
  if has_prefix (cstr "inf") l then DInf
  else if has_prefix (cstr "nan") l then DNaN
  else if has_prefix (cstr "0x") l then
    let '(v, f, n, rest) := scan_mantissa scan_hex (drop 2 l) in
    if n =? 0 then DFin neg 0 0
    else scaled neg 2 v (scan_exponent #"p" #"P" rest - 4 * f)
  else strtod_decimal neg l.

(** The conversion of a [double] to [int64_t]: truncation; values outside the
    type give the "integer indefinite" value of the x86-64 instruction. *)
Definition cast_i64 (d : double_val) : Z :=
  match d with
  | DFin neg m e =>
      let t := (m * 2 ^ (Z.max e 0)) / 2 ^ (Z.max (- e) 0) in
      let v := if neg then - t else t in
      if (- 2 ^ 63 <=? v) && (v <? 2 ^ 63) then v else - 2 ^ 63
  | DInf | DNaN => - 2 ^ 63
  end.

(** ** API keys *)

Definition BT_API_KEY_LEN : nat := 32.

(** The whitelist; the terminating NUL of each literal is part of its array. *)
Definition test_key : list Z := cstr "test-key-00000000000000000000000".
Definition benchmark_key : list Z := cstr "benchmark-key-000000000000000000".
Definition g_api_keys : list (list Z) := [test_key ++ [0]; benchmark_key ++ [0]].

(** [key] is the memory the pointer refers to. *)
Definition gw_validate_api_key (key : list Z) : bool :=
  match key with
  | [] => false
  | c :: _ => if c =? 0 then false else existsb (strncmp_eq BT_API_KEY_LEN key) g_api_keys
  end.

(** ** The text protocol *)

Definition zero_request : bt_order_request_t := OrderRequest 0 0 (replicate 16 0) 0 0 0 0 0.

Fixpoint skip_seps (l : list Z) : list Z :=
  match l with
  | c :: l' => if (c =? #"|") || (c =? #" ") then skip_seps l' else l
  | [] => []
  end.

(** The stores of the field [s]: up to 15 bytes and a NUL over the symbol. *)
Definition set_symbol (value old : list Z) : list Z :=
  let sl := Nat.min (length value) 15 in
  take sl value ++ [0] ++ drop (sl + 1) old.

Definition side_of (c : Z) : Z :=
  if (c =? #"S") || (c =? #"s") then BT_SIDE_SELL else BT_SIDE_BUY.

Definition type_of (c : Z) : Z :=
  if c =? #"L" then BT_TYPE_LIMIT else if c =? #"M" then BT_TYPE_MARKET
  else if c =? #"I" then BT_TYPE_IOC else if c =? #"F" then BT_TYPE_FOK else BT_TYPE_LIMIT.

(** The effect of one [key=value] field; [vb] is the 31-byte copy of the
    value with its terminating NUL. *)
Definition text_field (key value : list Z) (req : bt_order_request_t) : bt_order_request_t :=
  let vb := take 31 value ++ [0] in
  let c := vb.[0] in
  match key, req with
  | [k], OrderRequest i u s p q sd ty ts =>
      if k =? #"u" then OrderRequest i (strtoull vb) s p q sd ty ts
      else if k =? #"s" then OrderRequest i u (set_symbol value s) p q sd ty ts
      else if k =? #"p" then OrderRequest i u s (cast_i64 (strtod vb)) q sd ty ts
      else if k =? #"q" then OrderRequest i u s p (u32 (strtoull vb)) sd ty ts
      else if k =? #"d" then OrderRequest i u s p q (side_of c) ty ts
      else if k =? #"t" then OrderRequest i u s p q sd (type_of c) ts
      else req
  | _, _ => req
  end.

(** The field loop over the unread bytes; each round consumes at least the
    ['='], so the length of the payload is enough fuel. *)
Fixpoint text_loop (fuel : nat) (l : list Z) (req : bt_order_request_t) : bt_order_request_t :=
  match fuel with
  | O => req
  | S fuel =>
      match skip_seps l with
      | [] => req
      | l =>
          match split_at #"=" l with
          | None => req
          | Some (key, vs) =>
              match split_at #"|" vs with
              | Some (value, rest) => text_loop fuel (#"|" :: rest) (text_field key value req)
              | None => text_field key vs req
              end
          end
      end
  end.

Definition gw_parse_order_text (now : Z) (payload : list Z) : Z * bt_order_request_t :=
  let req := OrderRequest 0 0 (replicate 16 0) 0 0 0 0 now in
  let req := text_loop (length payload) payload req in
  ((if (rq_symbol req).[0] =? 0 then -1 else 0), req).

(** ** The binary protocol *)

(** [buf] is the buffer [payload] points into and [len] the length of the
    message; the [memcpy] takes 64 bytes whatever [len] is. *)
Definition gw_parse_order_binary (now : Z) (buf : list Z) (len : Z) : Z * bt_order_request_t :=
  if (len <? 48) || (sizeof_order_request <? len) then (-1, zero_request)
  else
    let r := order_request_of_bytes (take 64 buf) in
    let req := OrderRequest (rq_request_id r) (rq_user_id r) (rq_symbol r) (rq_price r)
                 (rq_quantity r) (rq_side r) (rq_type r) now in
    if ((rq_symbol req).[0] =? 0) || (rq_quantity req =? 0) then (-1, req)
    else if negb (rq_side req =? BT_SIDE_BUY) && negb (rq_side req =? BT_SIDE_SELL) then (-1, req)
    else if BT_TYPE_FOK <? rq_type req then (-1, req)
    else (0, req).

(** ** Examples *)

Example strtod_half : cast_i64 (strtod (cstr "101.25" ++ [0])) = 101.
Proof. reflexivity. Qed.
Example strtod_rounds_up : cast_i64 (strtod (cstr "1.99999999999999999999" ++ [0])) = 2.
Proof. reflexivity. Qed.
Example strtod_exponent : cast_i64 (strtod (cstr " -1.5e3|" ++ [0])) = -1500.
Proof. reflexivity. Qed.
Example strtod_huge : cast_i64 (strtod (cstr "1e400" ++ [0])) = - 2 ^ 63.
Proof. reflexivity. Qed.
Example strtod_hex : cast_i64 (strtod (cstr "0x1.8p4" ++ [0])) = 24.
Proof. reflexivity. Qed.
Example strtoull_sat : strtoull (cstr "99999999999999999999" ++ [0]) = 2 ^ 64 - 1.
Proof. reflexivity. Qed.
Example strtoull_neg : strtoull (cstr "-1" ++ [0]) = 2 ^ 64 - 1.
Proof. reflexivity. Qed.

(** A message with a fractional price. *)
Definition fractional_order : list Z := cstr "u=1|s=AAPL|p=101.25|q=10|d=B|t=L".

(** ** Doubles *)

(** Integers below 2^53 are doubles. *)
Lemma round_double_int n :
  0 <= n < 2 ^ 53 -> exists e, -52 <= e <= 0 /\ round_double false n 1 = DFin false (n * 2 ^ (- e)) e.
Proof.
  intros Hn. unfold round_double. destruct (Z.eqb_spec n 0) as [->|Hnz]; [by exists 0|].
  assert (0 <= Z.log2 n <= 52) as Hlog.
  { split; [apply Z.log2_nonneg|]. apply Z.lt_succ_r. apply Z.log2_lt_pow2; lia. }
  assert (rat_log2 n 1 = Z.log2 n) as ->.
  { unfold rat_log2. change (Z.log2 1) with 0. rewrite Z.sub_0_r, Z.max_l, Z.max_r by lia.
    rewrite Z.mul_1_l, Z.pow_0_r, Z.mul_1_r.
    rewrite (proj2 (Z.leb_le _ _)); [done|]. apply Z.log2_spec. lia. }
  rewrite (Z.max_l (Z.log2 n - 52)) by lia.
  set (e := Z.log2 n - 52). assert (-52 <= e <= 0) as He by lia.
  rewrite (Z.max_l (- e)), (Z.max_r e) by lia. rewrite Z.pow_0_r, Z.mul_1_l.
  assert (round_half_even (n * 2 ^ (- e)) 1 = n * 2 ^ (- e)) as ->.
  { unfold round_half_even. by rewrite Z.mod_1_r, Z.div_1_r. }
  exists e. split; [done|].
  destruct (Z.leb_spec 0 e); [|done]. assert (e = 0) as -> by lia. simpl.
  rewrite !Z.pow_0_r, !Z.mul_1_r. rewrite (proj2 (Z.leb_gt _ _)); [done|].
  apply Z.lt_trans with (2 ^ 53); [lia|]. by apply Z.pow_lt_mono_r.
Qed.

Lemma round_half_even_bound a b : 0 < b -> 2 * b * round_half_even a b <= 2 * a + b.
Proof.
  intros Hb. unfold round_half_even. pose proof (Z.div_mod a b). pose proof (Z.mod_pos_bound a b Hb).
  destruct (Z.ltb_spec (2 * (a mod b)) b); [nia|].
  destruct (Z.ltb_spec b (2 * (a mod b))); [nia|]. destruct (Z.even (a / b)); nia.
Qed.

Lemma round_half_even_nonneg a b : 0 <= a -> 0 < b -> 0 <= round_half_even a b.
Proof.
  intros Ha Hb. unfold round_half_even. pose proof (Z.div_pos a b Ha Hb).
  repeat case_match; lia.
Qed.

(** The leading bit of a quotient is not above the quotient. *)
Lemma rat_log2_le num den :
  0 < num -> 0 < den ->
  den * 2 ^ (Z.max (rat_log2 num den) 0) <= num * 2 ^ (Z.max (- rat_log2 num den) 0).
Proof.
  intros Hn Hd. unfold rat_log2. set (l := Z.log2 num - Z.log2 den).
  destruct (Z.leb_spec (den * 2 ^ Z.max l 0) (num * 2 ^ Z.max (- l) 0)) as [|_]; [done|].
  destruct (Z.log2_spec num Hn) as [Hn1 _]. destruct (Z.log2_spec den Hd) as [_ Hd2].
  pose proof (Z.log2_nonneg num). pose proof (Z.log2_nonneg den).
  pose proof (pow2_pos (Z.max (l - 1) 0) ltac:(lia)). pose proof (pow2_pos (Z.max (- (l - 1)) 0) ltac:(lia)).
  transitivity (2 ^ (Z.succ (Z.log2 den)) * 2 ^ Z.max (l - 1) 0); [nia|].
  transitivity (2 ^ Z.log2 num * 2 ^ Z.max (- (l - 1)) 0); [|nia].
  rewrite <- !Z.pow_add_r by lia. apply Z.pow_le_mono_r; lia.
Qed.
