(* ===== verification/GwParseProofs.v ===== *)
(** * Properties of the gateway's parsers

    The text parser inverts a printer of orders; the binary parser accepts
    exactly the images of well-formed requests; the conversions of numbers
    are exact on the values they should be exact on. *)

From Stdlib Require Import Ascii.
From S2P Require Import Prelude CTypes GwParse.

(** ** Decimal numerals *)

Fixpoint dec (fuel : nat) (n : Z) : list Z :=
  match fuel with
  | O => []
  | S fuel => if n <? 10 then [48 + n] else dec fuel (n / 10) ++ [48 + n mod 10]
  end.

(** Twenty digits are enough for 64 bits. *)
Definition print_dec (n : Z) : list Z := dec 20 n.

Definition all_digits (l : list Z) : Prop := Forall (fun c => 48 <= c <= 57) l.

Lemma dec_digits fuel n : 0 <= n -> all_digits (dec fuel n).
Proof.
  revert n. induction fuel as [|fuel IH]; intros n Hn; simpl; [constructor|].
  destruct (Z.ltb_spec n 10); [by repeat constructor; lia|].
  apply Forall_app. split; [apply IH; by apply Z.div_pos|].
  pose proof (Z.mod_pos_bound n 10 ltac:(lia)). repeat constructor; lia.
Qed.

Lemma length_dec fuel n : (length (dec fuel n) <= fuel)%nat.
Proof.
  revert n. induction fuel as [|fuel IH]; intros n; simpl; [lia|].
  destruct (n <? 10); simpl; [lia|]. rewrite length_app. simpl. specialize (IH (n / 10)). lia.
Qed.

Lemma length_dec_lt fuel n k : (1 <= k)%nat -> n < 10 ^ Z.of_nat k -> (length (dec fuel n) <= k)%nat.
Proof.
  revert n k. induction fuel as [|fuel IH]; intros n k Hk Hn; simpl; [lia|].
  destruct (Z.ltb_spec n 10); simpl; [lia|]. rewrite length_app. simpl.
  destruct k as [|[|k]]; [lia|simpl in Hn; lia|].
  assert (n / 10 < 10 ^ Z.of_nat (S k)) as Hq.
  { apply Z.div_lt_upper_bound; [lia|]. rewrite Nat2Z.inj_succ, Z.pow_succ_r in Hn by lia. lia. }
  specialize (IH (n / 10) (S k) ltac:(lia) Hq). lia.
Qed.

Lemma dec_nonempty fuel n : dec (S fuel) n <> [].
Proof.
  simpl. destruct (n <? 10); [done|]. intros H. by apply app_eq_nil in H as [_ ?].
Qed.

(** The value of a list of digits, continuing from [acc]. *)
Definition digits_val (acc : Z) (l : list Z) : Z := fold_left (fun a c => a * 10 + (c - 48)) l acc.

Lemma digits_val_dec fuel n acc :
  0 <= n < 10 ^ Z.of_nat fuel ->
  exists k, 0 <= k /\ digits_val acc (dec fuel n) = acc * 10 ^ k + n.
Proof.
  revert n acc. induction fuel as [|fuel IH]; intros n acc Hn.
  { simpl in Hn. exists 0. simpl. split; [lia|]. unfold digits_val; simpl. lia. }
  simpl. destruct (Z.ltb_spec n 10).
  - exists 1. split; [lia|]. unfold digits_val; simpl. lia.
  - assert (0 <= n / 10 < 10 ^ Z.of_nat fuel) as Hq.
    { split; [by apply Z.div_pos; lia|]. apply Z.div_lt_upper_bound; [lia|].
      rewrite Nat2Z.inj_succ, Z.pow_succ_r in Hn by lia. lia. }
    destruct (IH (n / 10) acc Hq) as (k & Hk & Heq).
    exists (k + 1). split; [lia|]. unfold digits_val in *. rewrite fold_left_app, Heq. simpl.
    rewrite Z.pow_add_r by lia. pose proof (Z.div_mod n 10). lia.
Qed.

Lemma isdigit_true c : 48 <= c <= 57 -> isdigit c = true.
Proof. intros H. unfold isdigit. lia. Qed.

Lemma scan_digits_app acc l rest :
  all_digits l -> isdigit (hd 0 rest) = false ->
  scan_digits acc (l ++ rest) = (digits_val acc l, zlen l, rest).
Proof.
  intros Hl Hrest. revert acc. induction Hl as [|c l Hc Hl IH]; intros acc; cbn [app scan_digits].
  - destruct rest as [|c rest]; [done|]. cbn [hd] in Hrest. cbn [scan_digits]. by rewrite Hrest.
  - rewrite isdigit_true, IH, zlen_cons by done. by rewrite (Z.add_comm (zlen l)).
Qed.

Lemma scan_dec fuel n rest :
  0 <= n < 10 ^ Z.of_nat fuel -> isdigit (hd 0 rest) = false ->
  scan_digits 0 (dec fuel n ++ rest) = (n, zlen (dec fuel n), rest).
Proof.
  intros Hn Hrest. rewrite scan_digits_app; [|apply dec_digits; lia|done].
  destruct (digits_val_dec fuel n 0 Hn) as (k & _ & ->). by rewrite Z.mul_0_l.
Qed.

Lemma scan_print_dec n rest :
  0 <= n < 10 ^ 20 -> isdigit (hd 0 rest) = false ->
  scan_digits 0 (print_dec n ++ rest) = (n, zlen (print_dec n), rest).
Proof. apply (scan_dec 20). Qed.

Lemma zlen_print_dec n : 0 < zlen (print_dec n).
Proof.
  unfold print_dec. pose proof (dec_nonempty 19 n). unfold zlen. destruct (dec 20 n); simpl; [done|lia].
Qed.

(** A numeral begins with a digit: no space, sign or letter. *)
Lemma dec_head fuel n : 0 <= n -> exists c l, dec (S fuel) n = c :: l /\ 48 <= c <= 57 /\ all_digits l.
Proof.
  intros Hn. pose proof (dec_digits (S fuel) n Hn) as Hd. pose proof (dec_nonempty fuel n) as Hne.
  destruct (dec (S fuel) n) as [|c l]; [done|]. inversion Hd; subst. by exists c, l.
Qed.

Lemma print_dec_head n : 0 <= n -> exists c l, print_dec n = c :: l /\ 48 <= c <= 57 /\ all_digits l.
Proof. apply (dec_head 19). Qed.

Lemma sign_skip_digit c l :
  48 <= c <= 57 -> sign_of (skip_space (c :: l)) = (false, c :: l).
Proof.
  intros Hc. simpl. replace (isspace c) with false by (unfold isspace; lia).
  simpl. change (#"-") with 45. change (#"+") with 43.
  rewrite (proj2 (Z.eqb_neq c 45)), (proj2 (Z.eqb_neq c 43)) by lia. done.
Qed.

Lemma strtoull_print n : 0 <= n < 2 ^ 64 -> strtoull (print_dec n ++ [0]) = n.
Proof.
  intros Hn. pose proof (scan_print_dec n [0] ltac:(lia) eq_refl) as Hscan.
  pose proof (zlen_print_dec n) as Hlen.
  destruct (print_dec_head n ltac:(lia)) as (c & l & Heq & Hc & _). rewrite Heq in *.
  unfold strtoull. simpl app in *. rewrite sign_skip_digit by done. rewrite Hscan.
  rewrite (proj2 (Z.eqb_neq _ 0)), (proj2 (Z.leb_gt _ _)) by lia. done.
Qed.

(** Integers below 2^53 survive the conversion to [double] and back. *)
Lemma round_double_exact n : 0 <= n < 2 ^ 53 -> cast_i64 (round_double false n 1) = n.
Proof.
  intros Hn. destruct (round_double_int n Hn) as (e & He & ->).
  assert (0 < 2 ^ (- e)) as Hp by (apply Z.pow_pos_nonneg; lia).
  unfold cast_i64. rewrite (Z.max_r e), (Z.max_l (- e)), Z.pow_0_r, Z.mul_1_r by lia.
  rewrite Z.div_mul by lia.
  rewrite (proj2 (Z.leb_le _ _)), (proj2 (Z.ltb_lt _ _)) by lia. done.
Qed.

(** A text that begins with a digit, after an optional minus sign, and is not
    hexadecimal is read as a decimal numeral. *)
Lemma strtod_digit (neg : bool) c l :
  48 <= c <= 57 -> tolower (hd 0 l) <> 120 ->
  strtod ((if neg then [ #"-"] else []) ++ c :: l) = strtod_decimal neg (c :: l).
Proof.
  intros Hc Hx. unfold strtod.
  replace (sign_of (skip_space ((if neg then [ #"-"] else []) ++ c :: l))) with (neg, c :: l)
    by (destruct neg; [done|symmetry; by apply sign_skip_digit]).
  assert (tolower c = c) as Htl by (unfold tolower; replace ((65 <=? c) && (c <=? 90)) with false by lia; done).
  change (cstr _) with [105; 110; 102] at 1. change (cstr _) with [110; 97; 110] at 1.
  change (cstr _) with [48; 120] at 1. cbn [has_prefix]. rewrite Htl.
  rewrite (proj2 (Z.eqb_neq 105 c)), (proj2 (Z.eqb_neq 110 c)) by lia. cbn [andb].
  destruct l as [|d l]; cbn [has_prefix hd] in *; [by rewrite andb_false_r|].
  rewrite (proj2 (Z.eqb_neq 120 _)) by done. by rewrite andb_false_l, andb_false_r.
Qed.

Lemma digit_not_x c : 48 <= c <= 57 -> tolower c <> 120.
Proof. intros Hc. unfold tolower. replace ((65 <=? c) && (c <=? 90)) with false by lia. lia. Qed.

Lemma strtod_print n : 0 <= n < 2 ^ 53 -> cast_i64 (strtod (print_dec n ++ [0])) = n.
Proof.
  intros Hn. pose proof (scan_print_dec n [0] ltac:(lia) eq_refl) as Hscan.
  pose proof (zlen_print_dec n) as Hlen.
  destruct (print_dec_head n ltac:(lia)) as (c & l & Heq & Hc & Hl). rewrite Heq in *.
  cbn [app] in *. change (c :: l ++ [0]) with ([] ++ c :: l ++ [0]).
  rewrite (strtod_digit false); [|done|by destruct Hl; [|apply digit_not_x]].
  unfold strtod_decimal, scan_mantissa. rewrite Hscan.
  change (0 =? #".") with false. cbv iota. rewrite (proj2 (Z.eqb_neq _ 0)) by lia.
  change (scan_exponent #"e" #"E" [0]) with 0. unfold scaled. simpl (0 - 0).
  change (10 ^ Z.max 0 0) with 1. change (10 ^ Z.max (- 0) 0) with 1. rewrite Z.mul_1_r.
  by apply round_double_exact.
Qed.

(** ** Fields *)

Lemma split_at_app c a b : c ∉ a -> split_at c (a ++ c :: b) = Some (a, b).
Proof.
  induction a as [|x a IH]; intros Ha; simpl; [by rewrite Z.eqb_refl|].
  apply not_elem_of_cons in Ha as [Hne Ha].
  rewrite (proj2 (Z.eqb_neq _ _)), IH by done. done.
Qed.

Lemma split_at_none c a : c ∉ a -> split_at c a = None.
Proof.
  induction a as [|x a IH]; intros Ha; simpl; [done|].
  apply not_elem_of_cons in Ha as [Hne Ha].
  rewrite (proj2 (Z.eqb_neq _ _)), IH by done. done.
Qed.

(** One of the six one-letter keys. *)
Definition is_key (k : Z) : Prop := k ∉ [ #"|"; #" "; #"="].

Lemma is_key_neq k : is_key k -> (k =? #"|") = false /\ (k =? #" ") = false /\ (k =? #"=") = false.
Proof.
  unfold is_key. intros H. rewrite !not_elem_of_cons in H. destruct H as (? & ? & ? & _).
  rewrite !Z.eqb_neq. done.
Qed.

(** A field in the middle of the message, and the last one. *)
Lemma text_loop_field fuel k v rest req :
  is_key k -> #"|" ∉ v ->
  text_loop (S fuel) (k :: #"=" :: v ++ #"|" :: rest) req
  = text_loop fuel (#"|" :: rest) (text_field [k] v req).
Proof.
  intros Hk Hv. destruct (is_key_neq k Hk) as (H1 & H2 & H3).
  cbn [text_loop skip_seps]. rewrite H1, H2. cbn [orb].
  cbn [split_at]. rewrite H3, Z.eqb_refl. by rewrite split_at_app.
Qed.

Lemma text_loop_last fuel k v req :
  is_key k -> #"|" ∉ v ->
  text_loop (S fuel) (k :: #"=" :: v) req = text_field [k] v req.
Proof.
  intros Hk Hv. destruct (is_key_neq k Hk) as (H1 & H2 & H3).
  cbn [text_loop skip_seps]. rewrite H1, H2. cbn [orb].
  cbn [split_at]. rewrite H3, Z.eqb_refl. by rewrite split_at_none.
Qed.

Lemma text_loop_sep fuel l req : text_loop fuel (#"|" :: l) req = text_loop fuel l req.
Proof. by destruct fuel. Qed.

(** ** The printer of orders *)

Definition print_side (s : Z) : Z := if s =? BT_SIDE_SELL then #"S" else #"B".
Definition print_type (t : Z) : Z :=
  if t =? BT_TYPE_MARKET then #"M" else if t =? BT_TYPE_IOC then #"I"
  else if t =? BT_TYPE_FOK then #"F" else #"L".

(** A message with the six fields in the order the clients send them:
    [u=<user>|s=<symbol>|p=<price>|q=<quantity>|d=<side>|t=<type>]. *)
Definition print_fields (user symbol price quantity : list Z) (side type : Z) : list Z :=
  (#"u" :: #"=" :: (user ++ #"|" ::
  (#"s" :: #"=" :: (symbol ++ #"|" ::
  (#"p" :: #"=" :: (price ++ #"|" ::
  (#"q" :: #"=" :: (quantity ++ #"|" ::
  (#"d" :: #"=" :: ([side] ++ #"|" ::
  (#"t" :: #"=" :: [type]))))))))))).

Definition print_order (user : Z) (symbol : list Z) (price quantity side type : Z) : list Z :=
  print_fields (print_dec user) symbol (print_dec price) (print_dec quantity)
    (print_side side) (print_type type).

(** A symbol as the text protocol can carry it. *)
Definition symbol_ok (s : list Z) : Prop :=
  (1 <= length s <= 15)%nat /\ (#"|" ∉ s) /\ s.[0] <> 0.

Lemma print_dec_no_pipe n : 0 <= n -> #"|" ∉ print_dec n.
Proof.
  intros Hn Hin. pose proof (dec_digits 20 n Hn) as Hd.
  eapply Forall_forall in Hd; [|exact Hin]. change (#"|") with 124 in Hd. lia.
Qed.

Lemma take31_print_dec n : take 31 (print_dec n) = print_dec n.
Proof. apply take_ge. pose proof (length_dec 20 n). unfold print_dec. lia. Qed.

Lemma set_symbol_fresh s :
  (length s <= 15)%nat -> set_symbol s (replicate 16 0) = s ++ replicate (16 - length s) 0.
Proof.
  intros Hs. unfold set_symbol. rewrite Nat.min_l, take_ge by lia.
  rewrite drop_replicate. f_equal.
  replace (16 - length s)%nat with (S (16 - (length s + 1)))%nat by lia. done.
Qed.

Lemma symbol_head s pad : symbol_ok s -> (s ++ pad).[0] <> 0.
Proof. intros (Hs & _ & Hnz). unfold arr_get in *. by rewrite lookup_total_app_l by (simpl; lia). Qed.

Lemma side_roundtrip s : s = BT_SIDE_BUY \/ s = BT_SIDE_SELL -> side_of (print_side s) = s.
Proof. by intros [->| ->]. Qed.

Lemma type_roundtrip t : 0 <= t <= 3 -> type_of (print_type t) = t.
Proof.
  intros Ht. assert (t = 0 \/ t = 1 \/ t = 2 \/ t = 3) as [->|[->|[->| ->]]] by lia; done.
Qed.

Lemma key_ok k :
  bool_decide (k = #"u" \/ k = #"s" \/ k = #"p" \/ k = #"q" \/ k = #"d" \/ k = #"t") = true -> is_key k.
Proof.
  intros H%bool_decide_eq_true. unfold is_key. rewrite !not_elem_of_cons.
  destruct H as [->|[->|[->|[->|[->| ->]]]]]; (split_and!; [done..|apply not_elem_of_nil]).
Qed.

(** The effect of each field when its value is printed. *)
Section fields.
Context (i u p q sd ty ts : Z) (s : list Z).

Lemma text_field_u n : 0 <= n < 2 ^ 64 ->
  text_field [ #"u"] (print_dec n) (OrderRequest i u s p q sd ty ts) = OrderRequest i n s p q sd ty ts.
Proof.
  intros Hn. unfold text_field. change (#"u" =? #"u") with true. cbv iota.
  by rewrite take31_print_dec, strtoull_print.
Qed.

Lemma text_field_s v :
  text_field [ #"s"] v (OrderRequest i u s p q sd ty ts)
  = OrderRequest i u (set_symbol v s) p q sd ty ts.
Proof. done. Qed.

Lemma text_field_p n : 0 <= n < 2 ^ 53 ->
  text_field [ #"p"] (print_dec n) (OrderRequest i u s p q sd ty ts) = OrderRequest i u s n q sd ty ts.
Proof.
  intros Hn. unfold text_field. change (#"p" =? #"u") with false. change (#"p" =? #"s") with false.
  change (#"p" =? #"p") with true. cbv iota. by rewrite take31_print_dec, strtod_print.
Qed.

Lemma text_field_q n : 0 <= n < 2 ^ 32 ->
  text_field [ #"q"] (print_dec n) (OrderRequest i u s p q sd ty ts) = OrderRequest i u s p n sd ty ts.
Proof.
  intros Hn. unfold text_field. change (#"q" =? #"u") with false. change (#"q" =? #"s") with false.
  change (#"q" =? #"p") with false. change (#"q" =? #"q") with true. cbv iota.
  by rewrite take31_print_dec, strtoull_print, u32_small by lia.
Qed.

Lemma text_field_d c :
  text_field [ #"d"] [c] (OrderRequest i u s p q sd ty ts) = OrderRequest i u s p q (side_of c) ty ts.
Proof. done. Qed.

Lemma text_field_t c :
  text_field [ #"t"] [c] (OrderRequest i u s p q sd ty ts) = OrderRequest i u s p q sd (type_of c) ts.
Proof. done. Qed.

End fields.

(** Parsing a message of the six fields stores each of them. *)
Lemma text_parse_fields now (vu vs vp vq : list Z) (cd ct : Z) :
  (#"|" ∉ vu) -> (#"|" ∉ vs) -> (#"|" ∉ vp) -> (#"|" ∉ vq) -> cd <> #"|" -> ct <> #"|" ->
  text_loop (length (print_fields vu vs vp vq cd ct)) (print_fields vu vs vp vq cd ct)
    (OrderRequest 0 0 (replicate 16 0) 0 0 0 0 now)
  = text_field [ #"t"] [ct] (text_field [ #"d"] [cd] (text_field [ #"q"] vq
      (text_field [ #"p"] vp (text_field [ #"s"] vs (text_field [ #"u"] vu
        (OrderRequest 0 0 (replicate 16 0) 0 0 0 0 now)))))).
Proof.
  intros Hu Hs Hp Hq Hd Ht.
  assert ((#"|" ∉ [cd]) /\ (#"|" ∉ [ct])) as [Hd' Ht'].
  { rewrite !not_elem_of_cons. split; (split; [done|apply not_elem_of_nil]). }
  assert (exists n, length (print_fields vu vs vp vq cd ct) = S (S (S (S (S (S n)))))) as [n ->].
  { exists (length (print_fields vu vs vp vq cd ct) - 6)%nat.
    unfold print_fields. repeat (rewrite length_app || cbn [length]). lia. }
  unfold print_fields.
  do 5 (rewrite text_loop_field, text_loop_sep by (done || by apply key_ok)).
  by rewrite text_loop_last by (done || by apply key_ok).
Qed.

(** Parsing what was printed. *)
Lemma text_parse_print (now user price quantity side type : Z) (symbol : list Z) :
  0 <= user < 2 ^ 64 -> symbol_ok symbol -> 0 <= price < 2 ^ 53 -> 0 <= quantity < 2 ^ 32 ->
  side = BT_SIDE_BUY \/ side = BT_SIDE_SELL -> 0 <= type <= 3 ->
  gw_parse_order_text now (print_order user symbol price quantity side type)
  = (0, OrderRequest 0 user (symbol ++ replicate (16 - length symbol) 0) price quantity side type now).
Proof.
  intros Hu Hsym Hp Hq Hsd Hty. pose proof Hsym as (Hs & Hpipe & _). unfold gw_parse_order_text, print_order.
  rewrite text_parse_fields by
    (first [done|apply print_dec_no_pipe; lia|unfold print_side, print_type; by repeat case_match]).
  rewrite text_field_u, text_field_s, text_field_p, text_field_q, text_field_d, text_field_t by lia.
  rewrite set_symbol_fresh, side_roundtrip, type_roundtrip by (done || lia).
  cbn [rq_symbol]. by rewrite (proj2 (Z.eqb_neq _ 0)) by (by apply symbol_head).
Qed.

(** ** Properties *)

(** C25: The text protocol round trip: parsing a printed order gives back its
    user, symbol, price, quantity, side and type, for every user identifier
    of 64 bits, symbol of 1 to 15 bytes, price below 2^53, quantity of 32 bits,
    side and type; the request identifier is always 0 and the timestamp is the
    arrival time. *)
Theorem text_order_roundtrip (now user price quantity side type : Z) (symbol : list Z) :
  0 <= user < 2 ^ 64 -> symbol_ok symbol -> 0 <= price < 2 ^ 53 -> 0 <= quantity < 2 ^ 32 ->
  side = BT_SIDE_BUY \/ side = BT_SIDE_SELL -> 0 <= type <= 3 ->
  gw_parse_order_text now (print_order user symbol price quantity side type)
  = (0, OrderRequest 0 user (symbol ++ replicate (16 - length symbol) 0) price quantity side type now).
Proof. apply text_parse_print. Qed.

(** The text protocol does not scale prices: the price field, a number of
    micro-dollars everywhere else, receives the whole part of the dollars, so
    an order at 101.25 is entered at 101 micro-dollars instead of 101250000. *)
Theorem text_price_not_scaled (now : Z) :
  fst (gw_parse_order_text now fractional_order) = 0 /\
  rq_price (snd (gw_parse_order_text now fractional_order)) = 101 /\
  10125 * (BT_PRICE_SCALE / 100) = 101250000.
Proof. split_and!; reflexivity. Qed.

(** A request the binary parser should accept. *)
Definition request_ok (r : bt_order_request_t) : Prop :=
  (rq_symbol r).[0] <> 0 /\ rq_quantity r <> 0 /\
  (rq_side r = BT_SIDE_BUY \/ rq_side r = BT_SIDE_SELL) /\ rq_type r <= BT_TYPE_FOK.

#[global] Instance request_ok_dec r : Decision (request_ok r).
Proof. unfold request_ok. solve_decision. Defined.

Definition stamped (now : Z) (r : bt_order_request_t) : bt_order_request_t :=
  OrderRequest (rq_request_id r) (rq_user_id r) (rq_symbol r) (rq_price r) (rq_quantity r)
    (rq_side r) (rq_type r) now.

Lemma length_order_request_image pad r :
  length pad = 4%nat -> order_request_wf r -> length (order_request_image pad r) = 64%nat.
Proof.
  intros Hp (_ & _ & [Hs _] & _). unfold order_request_image.
  rewrite !length_app, !length_le_bytes, Hp, Hs. done.
Qed.

(** C26: The binary protocol round trip and validation: for a message that is
    the 64-byte image of a request, whatever the padding and whatever follows
    in the buffer, the parser accepts exactly the requests with a symbol, a
    quantity, a valid side and a valid type, and then yields that request with
    the arrival time as its timestamp. *)
Theorem binary_order_roundtrip (now : Z) (pad stale : list Z) (r : bt_order_request_t) :
  length pad = 4%nat -> order_request_wf r ->
  gw_parse_order_binary now (order_request_image pad r ++ stale) 64
  = (if bool_decide (request_ok r) then 0 else -1, stamped now r).
Proof.
  intros Hpad Hwf. unfold gw_parse_order_binary.
  change ((64 <? 48) || (sizeof_order_request <? 64)) with false. cbv iota.
  rewrite take_app_length' by (by rewrite length_order_request_image).
  rewrite order_request_roundtrip by done. fold (stamped now r).
  cbn [rq_symbol rq_quantity rq_side rq_type stamped]. unfold request_ok.
  destruct (Z.eqb_spec (rq_symbol r).[0] 0); [by rewrite bool_decide_false by tauto|].
  destruct (Z.eqb_spec (rq_quantity r) 0); [by rewrite bool_decide_false by tauto|].
  destruct (Z.eqb_spec (rq_side r) BT_SIDE_BUY), (Z.eqb_spec (rq_side r) BT_SIDE_SELL); simpl;
    destruct (Z.ltb_spec BT_TYPE_FOK (rq_type r));
    first [by rewrite bool_decide_true by (split_and!; auto; lia)
          |by rewrite bool_decide_false by (intros (_ & _ & [?|?] & ?); (done || lia))].
Qed.

(** A binary message of 48 to 63 bytes is accepted with fields that are
    not part of it: the same 48 bytes give a limit order or a fill-or-kill
    order depending on what the receive buffer held before. *)
Theorem binary_order_reads_beyond_message (now : Z) :
  exists payload s1 s2, length payload = 48%nat /\
    gw_parse_order_binary now (payload ++ s1) 48 = (0, stamped now (order_request_of_bytes (payload ++ s1))) /\
    gw_parse_order_binary now (payload ++ s2) 48 = (0, stamped now (order_request_of_bytes (payload ++ s2))) /\
    rq_type (order_request_of_bytes (payload ++ s1)) = BT_TYPE_LIMIT /\
    rq_type (order_request_of_bytes (payload ++ s2)) = BT_TYPE_FOK.
Proof.
  exists (replicate 16 1 ++ replicate 16 65 ++ replicate 8 0 ++ [5; 0; 0; 0] ++ [0; 0; 0; 0]),
    (replicate 16 0), ([3; 0; 0; 0] ++ replicate 12 0).
  split_and!; reflexivity.
Qed.

(** ** Witnesses *)

Lemma text_order_roundtrip_witness :
  gw_parse_order_text 77 (print_order 42 [65; 65; 80; 76] 101250000 10 1 2)
  = (0, OrderRequest 0 42 ([65; 65; 80; 76] ++ replicate 12 0) 101250000 10 1 2 77).
Proof.
  apply (text_order_roundtrip 77 42 101250000 10 1 2 [65; 65; 80; 76]); try lia; [|by right].
  split_and!; [simpl; lia|simpl; lia| |done].
  rewrite !not_elem_of_cons. split_and!; [done..|apply not_elem_of_nil].
Defined.

Lemma binary_order_roundtrip_witness :
  gw_parse_order_binary 77
    (order_request_image [9; 9; 9; 9] (OrderRequest 5 6 (65 :: replicate 15 0) (-3) 10 1 2 0) ++ [1; 2]) 64
  = (0, OrderRequest 5 6 (65 :: replicate 15 0) (-3) 10 1 2 77).
Proof.
  rewrite binary_order_roundtrip; [reflexivity|reflexivity|].
  unfold order_request_wf, is_u64; simpl. split_and!; try done; try lia.
  by apply (bool_decide_unpack _).
Defined.
