(* ===== verification/Price.v ===== *)
(** * Fixed-point prices

    Models the price conversions of [src/src/include/bt_types.h]:
    [BT_PRICE_FROM_DOUBLE] and [BT_PRICE_TO_DOUBLE], with IEEE 754 double
    arithmetic. The build enables fused multiply-add where the machine has it,
    so the conversion from [double] is modelled with and without it. *)

From S2P Require Import Prelude CTypes GwParse.

(** ** Double arithmetic on finite values *)

(** A finite double as a fraction. *)
Definition dnum (neg : bool) (m e : Z) : Z := (if neg then - m else m) * 2 ^ Z.max e 0.
Definition dden (e : Z) : Z := 2 ^ Z.max (- e) 0.

(** The double nearest to a signed fraction. *)
Definition round_signed (num den : Z) : double_val := round_double (num <? 0) (Z.abs num) den.

Definition double_of_Z (n : Z) : double_val := round_signed n 1.

Definition ddiv (a b : double_val) : double_val :=
  match a, b with
  | DFin s1 m1 e1, DFin s2 m2 e2 =>
      let n2 := dnum s2 m2 e2 in
      round_signed (dnum s1 m1 e1 * dden e2 * Z.sgn n2) (dden e1 * Z.abs n2)
  | _, _ => DNaN
  end.

Definition dmul (a b : double_val) : double_val :=
  match a, b with
  | DFin s1 m1 e1, DFin s2 m2 e2 => round_signed (dnum s1 m1 e1 * dnum s2 m2 e2) (dden e1 * dden e2)
  | _, _ => DNaN
  end.

Definition dadd (a b : double_val) : double_val :=
  match a, b with
  | DFin s1 m1 e1, DFin s2 m2 e2 =>
      round_signed (dnum s1 m1 e1 * dden e2 + dnum s2 m2 e2 * dden e1) (dden e1 * dden e2)
  | _, _ => DNaN
  end.

(** [a * b + c] with a single rounding. *)
Definition dfma (a b c : double_val) : double_val :=
  match a, b, c with
  | DFin s1 m1 e1, DFin s2 m2 e2, DFin s3 m3 e3 =>
      round_signed (dnum s1 m1 e1 * dnum s2 m2 e2 * dden e3 + dnum s3 m3 e3 * (dden e1 * dden e2))
        (dden e1 * dden e2 * dden e3)
  | _, _, _ => DNaN
  end.

(** ** The conversions *)

Definition price_scale : double_val := double_of_Z BT_PRICE_SCALE.
Definition half : double_val := round_signed 1 2.

Definition BT_PRICE_TO_DOUBLE (p : Z) : double_val := ddiv (double_of_Z p) price_scale.

(** [contract]: whether the compiler fuses the multiplication and addition. *)
Definition BT_PRICE_FROM_DOUBLE (contract : bool) (d : double_val) : Z :=
  cast_i64 (if contract then dfma d price_scale half else dadd (dmul d price_scale) half).

(** ** Rounding errors *)

Lemma round_half_even_lower a b : 0 < b -> 2 * a - b <= 2 * b * round_half_even a b.
Proof.
  intros Hb. unfold round_half_even. pose proof (Z.div_mod a b). pose proof (Z.mod_pos_bound a b Hb).
  destruct (Z.ltb_spec (2 * (a mod b)) b); [nia|].
  destruct (Z.ltb_spec b (2 * (a mod b))); [nia|]. destruct (Z.even (a / b)); nia.
Qed.

Lemma rat_log2_ge num den : 0 < num -> 0 < den -> den <= num * 2 ^ 1000 -> -1001 <= rat_log2 num den.
Proof.
  intros Hn Hd Hle. apply Z.log2_le_mono in Hle. rewrite Z.log2_mul_pow2 in Hle by lia.
  unfold rat_log2. case_match; lia.
Qed.

(** Rounding [n / d], given as an unreduced fraction: half a unit in the last
    place, and the unit is at most [2^-52] of the value. *)
Lemma round_ratio D n d :
  0 < D -> 0 < n -> 0 < d -> n <= 2 ^ 52 * d -> d <= n * 2 ^ 1000 ->
  exists j m, 0 <= j /\ round_double false (D * n) (D * d) = DFin false m (- j) /\ 0 <= m /\
    - d <= 2 * (m * d - n * 2 ^ j) <= d /\ 2 ^ 52 * d <= n * 2 ^ j.
Proof.
  intros HD Hn Hd Hle Hge. set (L := rat_log2 (D * n) (D * d)).
  assert (0 < D * n) as HDn by nia. assert (0 < D * d) as HDd by nia.
  assert (-1001 <= L) as HL1 by (apply rat_log2_ge; nia).
  pose proof (rat_log2_le (D * n) (D * d) HDn HDd) as HL2. fold L in HL2.
  assert (d * 2 ^ Z.max L 0 <= n * 2 ^ Z.max (- L) 0) as HL3.
  { apply (Z.mul_le_mono_pos_l _ _ D HD). lia. }
  assert (L <= 52) as HL4.
  { destruct (Z.le_gt_cases L 52); [done|exfalso]. rewrite Z.max_l, Z.max_r, Z.pow_0_r in HL3 by lia.
    assert (2 ^ 53 <= 2 ^ L) by (apply Z.pow_le_mono_r; lia). nia. }
  exists (52 - L). unfold round_double. rewrite (proj2 (Z.eqb_neq (D * n) 0)) by lia. fold L.
  rewrite (Z.max_l (L - 52)) by lia. set (e := L - 52).
  rewrite (Z.max_l (- e)), (Z.max_r e), Z.pow_0_r, Z.mul_1_r by lia.
  replace (52 - L) with (- e) by lia. rewrite Z.opp_involutive.
  set (P := 2 ^ (- e)). assert (0 < P) as HP by (apply pow2_pos; lia).
  pose proof (round_half_even_bound (D * n * P) (D * d) HDd) as Hu.
  pose proof (round_half_even_lower (D * n * P) (D * d) HDd) as Hl.
  set (m := round_half_even (D * n * P) (D * d)) in *. exists m.
  assert (0 <= m) as Hm by (apply round_half_even_nonneg; nia).
  assert (((0 <=? e) && (2 ^ 1024 <=? m * 2 ^ e)) = false) as ->.
  { destruct (Z.leb_spec 0 e); [|done]. assert (e = 0) as E by lia. unfold P in *. rewrite E in *.
    rewrite Z.pow_0_r, ?Z.mul_1_r in *. simpl. apply Z.leb_gt.
    apply Z.le_lt_trans with (2 ^ 52 + 1); [nia|].
    apply Z.lt_trans with (2 ^ 53); [lia|]. by apply Z.pow_lt_mono_r. }
  split_and!; try done; try lia.
  - apply (Z.mul_le_mono_pos_l _ _ D HD). lia.
  - apply (Z.mul_le_mono_pos_l _ _ D HD). lia.
  - unfold P, e in *. destruct (Z.le_gt_cases 0 L).
    + rewrite Z.max_l, Z.max_r, Z.pow_0_r, Z.mul_1_r in HL3 by lia.
      assert (2 ^ 52 = 2 ^ L * 2 ^ (- (L - 52))) as -> by (rewrite <- Z.pow_add_r by lia; f_equal; lia). nia.
    + rewrite Z.max_r, Z.max_l, Z.pow_0_r, Z.mul_1_r in HL3 by lia.
      assert (2 ^ (- (L - 52)) = 2 ^ 52 * 2 ^ (- L)) as -> by (rewrite <- Z.pow_add_r by lia; f_equal; lia). nia.
Qed.

(** A value of at most [2^50] is rounded by less than an eighth. *)
Lemma round_eighth D n d :
  0 < D -> 0 < n -> 0 < d -> n <= 2 ^ 50 * d -> d <= n * 2 ^ 1000 ->
  exists j m, 0 <= j /\ round_double false (D * n) (D * d) = DFin false m (- j) /\ 0 <= m /\
    - (d * 2 ^ j) <= 8 * (m * d - n * 2 ^ j) <= d * 2 ^ j.
Proof.
  intros HD Hn Hd Hle Hge.
  destruct (round_ratio D n d HD Hn Hd ltac:(lia) Hge) as (j & m & Hj & E & Hm & Herr & Hulp).
  pose proof (pow2_pos j Hj). assert (4 <= 2 ^ j) by nia.
  exists j, m. split_and!; try done; nia.
Qed.

Lemma round_signed_pos n d : 0 < n -> round_signed n d = round_double false n d.
Proof. intros Hn. unfold round_signed. by rewrite (proj2 (Z.ltb_ge _ _)), Z.abs_eq by lia. Qed.

Lemma dnum_neg j m : 0 <= j -> dnum false m (- j) = m.
Proof. intros Hj. unfold dnum. by rewrite Z.max_r, Z.pow_0_r, Z.mul_1_r by lia. Qed.

Lemma dden_neg j : 0 <= j -> dden (- j) = 2 ^ j.
Proof. intros Hj. unfold dden. by rewrite Z.opp_involutive, Z.max_l by lia. Qed.

Lemma double_of_pos n :
  0 < n < 2 ^ 53 -> exists j, 0 <= j /\ double_of_Z n = DFin false (n * 2 ^ j) (- j).
Proof.
  intros Hn. unfold double_of_Z. rewrite round_signed_pos by lia.
  destruct (round_double_int n ltac:(lia)) as (e & He & ->). exists (- e).
  rewrite Z.opp_involutive. split; [lia|done].
Qed.

Lemma half_eq : half = DFin false (2 ^ 52) (- 53).
Proof. vm_compute. reflexivity. Qed.

(** ** Positive prices *)

(** A fraction of two or more does not become zero. *)
Lemma cast_positive D n d :
  0 < D -> 0 < d -> 2 * d <= n -> n <= 2 ^ 50 * d -> 0 < cast_i64 (round_signed (D * n) (D * d)).
Proof.
  intros HD Hd Hlo Hhi. rewrite round_signed_pos by nia.
  destruct (round_eighth D n d) as (j & m & Hj & -> & Hm & Herr); [lia|lia|lia|lia|lia|].
  pose proof (pow2_pos j Hj). unfold cast_i64.
  rewrite (Z.max_r (- j)), Z.opp_involutive, (Z.max_l j), Z.pow_0_r, Z.mul_1_r by lia.
  assert (2 ^ j <= m) as Hmj by (apply (Z.mul_le_mono_pos_l _ _ d Hd); nia).
  assert (1 <= m / 2 ^ j) by (apply Z.div_le_lower_bound; lia).
  assert (m < 2 ^ 51 * 2 ^ j) as Hmu by (apply (Z.mul_lt_mono_pos_l d); nia).
  assert (m / 2 ^ j < 2 ^ 51) by (apply Z.div_lt_upper_bound; lia).
  rewrite (proj2 (Z.leb_le _ _)), (proj2 (Z.ltb_lt _ _)) by lia. simpl. lia.
Qed.

(** A price of at least one dollar is positive. *)
Lemma from_double_positive contract j m :
  0 <= j -> 2 ^ j <= m <= 2 ^ 20 * 2 ^ j -> 0 < BT_PRICE_FROM_DOUBLE contract (DFin false m (- j)).
Proof.
  intros Hj Hm. pose proof (pow2_pos j Hj).
  destruct (double_of_pos BT_PRICE_SCALE ltac:(unfold BT_PRICE_SCALE; lia)) as (b & Hb & E2).
  pose proof (pow2_pos b Hb).
  unfold BT_PRICE_FROM_DOUBLE, price_scale. rewrite E2, half_eq. unfold BT_PRICE_SCALE.
  destruct contract.
  - unfold dfma. rewrite !dnum_neg, !dden_neg by lia.
    change (dden (-53)) with (2 ^ 53). change (dnum false (2 ^ 52) (-53)) with (2 ^ 52).
    replace (m * (1000000 * 2 ^ b) * 2 ^ 53 + 2 ^ 52 * (2 ^ j * 2 ^ b))
      with (2 ^ b * 2 ^ 52 * (2 * (m * 1000000) + 2 ^ j)) by lia.
    replace (2 ^ j * 2 ^ b * 2 ^ 53) with (2 ^ b * 2 ^ 52 * (2 * 2 ^ j)) by lia.
    apply cast_positive; lia.
  - unfold dmul. rewrite !dnum_neg, !dden_neg by lia.
    replace (m * (1000000 * 2 ^ b)) with (2 ^ b * (m * 1000000)) by lia.
    replace (2 ^ j * 2 ^ b) with (2 ^ b * 2 ^ j) by lia.
    destruct (round_eighth (2 ^ b) (m * 1000000) (2 ^ j)) as (k & m2 & Hk & E & Hm2 & Herr2);
      [lia|lia|lia|lia|lia|].
    rewrite round_signed_pos, E by nia. pose proof (pow2_pos k Hk). unfold dadd.
    rewrite !dnum_neg, !dden_neg by lia.
    change (dden (-53)) with (2 ^ 53). change (dnum false (2 ^ 52) (-53)) with (2 ^ 52).
    replace (m2 * 2 ^ 53 + 2 ^ 52 * 2 ^ k) with (2 ^ 52 * (2 * m2 + 2 ^ k)) by lia.
    replace (2 ^ k * 2 ^ 53) with (2 ^ 52 * (2 * 2 ^ k)) by lia.
    assert (2 * 2 ^ k <= m2) by (apply (Z.mul_le_mono_pos_l _ _ (2 ^ j)); nia).
    assert (m2 <= 2 ^ 41 * 2 ^ k) by (apply (Z.mul_le_mono_pos_l _ _ (2 ^ j)); nia).
    apply cast_positive; lia.
Qed.

(** ** The round trip *)

Section roundtrip.
Context (p : Z) (Hp : 0 < p < 2 ^ 50).

(** The quotient. *)
Lemma to_double :
  exists j m, 0 <= j /\ BT_PRICE_TO_DOUBLE p = DFin false m (- j) /\ 0 < m /\ m * 1000000 < 2 ^ 50 * 2 ^ j + 2 ^ j /\
    - 2 ^ j <= 8 * (m * 1000000 - p * 2 ^ j) <= 2 ^ j.
Proof using Hp.
  destruct (double_of_pos p ltac:(lia)) as (a & Ha & E1).
  destruct (double_of_pos BT_PRICE_SCALE ltac:(unfold BT_PRICE_SCALE; lia)) as (b & Hb & E2).
  unfold BT_PRICE_TO_DOUBLE, price_scale. rewrite E1, E2. unfold ddiv.
  rewrite !dnum_neg, !dden_neg by lia. pose proof (pow2_pos a Ha). pose proof (pow2_pos b Hb).
  unfold BT_PRICE_SCALE. rewrite Z.sgn_pos, Z.abs_eq by nia.
  destruct (round_ratio (2 ^ a * 2 ^ b) p 1000000) as (j & m & Hj & E & Hm & Herr & Hulp);
    [nia|lia|lia|lia|lia|].
  exists j, m. split; [done|]. split.
  { rewrite round_signed_pos by nia. rewrite <- E. f_equal; lia. }
  pose proof (pow2_pos j Hj). assert (4 * 1000000 <= 2 ^ j) by nia.
  split_and!; nia.
Qed.

(** The value before the truncation lies strictly between [p] and [p + 1]. *)
Lemma truncated j m :
  0 <= j -> p * 2 ^ j <= m < (p + 1) * 2 ^ j -> cast_i64 (DFin false m (- j)) = p.
Proof using Hp.
  intros Hj Hm. pose proof (pow2_pos j Hj). unfold cast_i64.
  rewrite (Z.max_r (- j)), Z.opp_involutive, (Z.max_l j), Z.pow_0_r, Z.mul_1_r by lia.
  assert (m / 2 ^ j = p) as -> by (symmetry; apply (Z.div_unique_pos _ _ _ (m - p * 2 ^ j)); lia).
  by rewrite (proj2 (Z.leb_le _ _)), (proj2 (Z.ltb_lt _ _)) by lia.
Qed.

(** Adding one half to a fraction near [p] and rounding. *)
Lemma add_half D n d :
  0 < D -> 0 < n -> 0 < d -> - (2 * d) <= 8 * (n - p * d) <= 2 * d -> d <= n * 2 ^ 999 ->
  cast_i64 (round_signed (D * (2 * n + d)) (D * (2 * d))) = p.
Proof using Hp.
  intros HD Hn Hd Hnear Hge. rewrite round_signed_pos by nia.
  destruct (round_eighth D (2 * n + d) (2 * d)) as (j & m & Hj & -> & Hm & Herr);
    [lia|lia|lia|nia|lia|].
  pose proof (pow2_pos j Hj). apply truncated; [done|].
  split; [apply (Z.mul_le_mono_pos_l _ _ (2 * d))|apply (Z.mul_lt_mono_pos_l (2 * d))]; try lia; nia.
Qed.

Lemma roundtrip_pos contract : BT_PRICE_FROM_DOUBLE contract (BT_PRICE_TO_DOUBLE p) = p.
Proof using Hp.
  destruct to_double as (j & m & Hj & -> & Hm & Hup & Herr).
  destruct (double_of_pos BT_PRICE_SCALE ltac:(unfold BT_PRICE_SCALE; lia)) as (b & Hb & E2).
  pose proof (pow2_pos j Hj). pose proof (pow2_pos b Hb).
  assert (2 ^ j <= p * 2 ^ j <= (2 ^ 50 - 1) * 2 ^ j) as Hpj by nia.
  unfold BT_PRICE_FROM_DOUBLE, price_scale. rewrite E2, half_eq. unfold BT_PRICE_SCALE. destruct contract.
  - unfold dfma. rewrite !dnum_neg, !dden_neg by lia.
    change (dden (-53)) with (2 ^ 53). change (dnum false (2 ^ 52) (-53)) with (2 ^ 52).
    replace (m * (1000000 * 2 ^ b) * 2 ^ 53 + 2 ^ 52 * (2 ^ j * 2 ^ b))
      with (2 ^ b * 2 ^ 52 * (2 * (m * 1000000) + 2 ^ j)) by lia.
    replace (2 ^ j * 2 ^ b * 2 ^ 53) with (2 ^ b * 2 ^ 52 * (2 * 2 ^ j)) by lia.
    apply add_half; lia.
  - unfold dmul. rewrite !dnum_neg, !dden_neg by lia.
    replace (m * (1000000 * 2 ^ b)) with (2 ^ b * (m * 1000000)) by lia.
    replace (2 ^ j * 2 ^ b) with (2 ^ b * 2 ^ j) by lia.
    destruct (round_eighth (2 ^ b) (m * 1000000) (2 ^ j)) as (k & m2 & Hk & E & Hm2 & Herr2);
      [lia|lia|lia|lia|lia|].
    rewrite round_signed_pos, E by nia. pose proof (pow2_pos k Hk). unfold dadd.
    rewrite !dnum_neg, !dden_neg by lia.
    change (dden (-53)) with (2 ^ 53). change (dnum false (2 ^ 52) (-53)) with (2 ^ 52).
    replace (m2 * 2 ^ 53 + 2 ^ 52 * 2 ^ k) with (2 ^ 52 * (2 * m2 + 2 ^ k)) by lia.
    replace (2 ^ k * 2 ^ 53) with (2 ^ 52 * (2 * 2 ^ k)) by lia.
    assert (- (2 * 2 ^ k) <= 8 * (m2 - p * 2 ^ k) <= 2 * 2 ^ k) as Hnear.
    { split; apply (Z.mul_le_mono_pos_l _ _ (2 ^ j)); nia. }
    assert (2 ^ k <= p * 2 ^ k) by nia. apply add_half; lia.
Qed.

End roundtrip.

(** ** Properties *)

(** C37: Prices survive the conversion to [double] and back: every price from
    zero to 2^50 micro-dollars, over a thousand million dollars, is recovered
    exactly, whether or not the compiler fuses the multiplication with the
    addition of one half. *)
Theorem price_roundtrip (contract : bool) (p : Z) :
  0 <= p < 2 ^ 50 -> BT_PRICE_FROM_DOUBLE contract (BT_PRICE_TO_DOUBLE p) = p.
Proof.
  intros Hp. destruct (decide (p = 0)) as [->|Hne].
  - destruct contract; vm_compute; reflexivity.
  - apply roundtrip_pos. lia.
Qed.

(** Adding one half before a truncation toward zero rounds negative values
    wrongly: minus one cent becomes -9999 micro-dollars. *)
Theorem negative_price_off_by_one (contract : bool) :
  BT_PRICE_FROM_DOUBLE contract (ddiv (double_of_Z (-1)) (double_of_Z 100)) = -9999 /\
  BT_PRICE_FROM_DOUBLE contract (BT_PRICE_TO_DOUBLE (-10000)) = -9999.
Proof. destruct contract; vm_compute; split; reflexivity. Qed.

(** ** Witnesses *)

Lemma price_roundtrip_witness : BT_PRICE_FROM_DOUBLE true (BT_PRICE_TO_DOUBLE 101250001) = 101250001.
Proof. apply (price_roundtrip true 101250001). lia. Defined.
