(* ===== verification/Gateway.v ===== *)
(** * The TCP gateway

    Models [src/src/net/gateway.c]: the connection and the gateway context,
    the order admission (rate limit, idempotency ring, push to the OMS
    queue), the response path, the framing loop over the receive ring, the
    accept loop, the body of the gateway thread and the life-cycle functions.
    What the kernel answers ([read], [send], [accept4], [epoll_wait],
    [malloc], the clock) is an input of each definition, and so is the
    earlier content of the stack buffers the source does not initialise. *)

From Stdlib Require Import Ascii.
From S2P Require Import Prelude Queue CTypes GwRing GwParse.

Definition BT_CFG_RECV_BUF_SIZE : Z := 64 * 1024.
Definition GW_SEND_RING_SIZE : Z := 65536.
Definition GW_IDEM_RING_SIZE : Z := 8192.
Definition GW_IDLE_TIMEOUT_NS : Z := 60000000000.
Definition BT_CFG_RATE_LIMIT_RPS : Z := 10000.

(** ** Connections and context *)

Inductive gw_conn_state_t := GW_CONN_READING | GW_CONN_CLOSING.

#[global] Instance gw_conn_state_eq_dec : EqDecision gw_conn_state_t.
Proof. solve_decision. Defined.

(** [c_wire] is the socket's side of the connection: the bytes [send] has
    accepted so far. *)
Record gw_conn_t := Conn {
  c_fd : Z;
  c_state : gw_conn_state_t;
  c_recv : bring;
  c_send : bring;
  c_send_pending : bool;
  c_authenticated : bool;
  c_auth_user_id : Z;
  c_last_active : Z;
  c_rate_window_start : Z;
  c_rate_count : Z;
  c_wire : list Z;
}.

Definition zero_ring (n : Z) : bring := Bring (replicate (Z.to_nat n) 0) 0 0.

(** A connection after [memset (conn, 0, sizeof *conn)]. *)
Definition zero_conn : gw_conn_t :=
  Conn 0 GW_CONN_READING (zero_ring BT_CFG_RECV_BUF_SIZE) (zero_ring GW_SEND_RING_SIZE)
    false false 0 0 0 0 [].

#[global] Instance gw_conn_inhabited : Inhabited gw_conn_t := populate zero_conn.

Definition set_fd (fd : Z) (c : gw_conn_t) : gw_conn_t :=
  Conn fd (c_state c) (c_recv c) (c_send c) (c_send_pending c) (c_authenticated c)
    (c_auth_user_id c) (c_last_active c) (c_rate_window_start c) (c_rate_count c) (c_wire c).
Definition set_state (s : gw_conn_state_t) (c : gw_conn_t) : gw_conn_t :=
  Conn (c_fd c) s (c_recv c) (c_send c) (c_send_pending c) (c_authenticated c)
    (c_auth_user_id c) (c_last_active c) (c_rate_window_start c) (c_rate_count c) (c_wire c).
Definition set_recv (r : bring) (c : gw_conn_t) : gw_conn_t :=
  Conn (c_fd c) (c_state c) r (c_send c) (c_send_pending c) (c_authenticated c)
    (c_auth_user_id c) (c_last_active c) (c_rate_window_start c) (c_rate_count c) (c_wire c).
Definition set_send (r : bring) (wire : list Z) (c : gw_conn_t) : gw_conn_t :=
  Conn (c_fd c) (c_state c) (c_recv c) r (c_send_pending c) (c_authenticated c)
    (c_auth_user_id c) (c_last_active c) (c_rate_window_start c) (c_rate_count c) wire.
Definition set_send_pending (b : bool) (c : gw_conn_t) : gw_conn_t :=
  Conn (c_fd c) (c_state c) (c_recv c) (c_send c) b (c_authenticated c)
    (c_auth_user_id c) (c_last_active c) (c_rate_window_start c) (c_rate_count c) (c_wire c).
Definition set_auth (b : bool) (uid : Z) (c : gw_conn_t) : gw_conn_t :=
  Conn (c_fd c) (c_state c) (c_recv c) (c_send c) (c_send_pending c) b
    uid (c_last_active c) (c_rate_window_start c) (c_rate_count c) (c_wire c).
Definition set_last_active (t : Z) (c : gw_conn_t) : gw_conn_t :=
  Conn (c_fd c) (c_state c) (c_recv c) (c_send c) (c_send_pending c) (c_authenticated c)
    (c_auth_user_id c) t (c_rate_window_start c) (c_rate_count c) (c_wire c).
Definition set_rate (start count : Z) (c : gw_conn_t) : gw_conn_t :=
  Conn (c_fd c) (c_state c) (c_recv c) (c_send c) (c_send_pending c) (c_authenticated c)
    (c_auth_user_id c) (c_last_active c) start count (c_wire c).

(** The parameters given at creation and the two descriptors. *)
Record gw_cfg := GwCfg {
  g_thread_id : Z; g_cpu_core : Z; g_port : Z; g_sched_id : Z;
  g_listen_fd : Z; g_epoll_fd : Z;
}.

Definition zero_cancel : bt_cancel_request_t := CancelRequest 0 0 (replicate 16 0) 0.

#[global] Instance gw_oms_msg_inhabited : Inhabited bt_gw_oms_msg_t :=
  populate (GwOmsMsg 0 zero_request zero_cancel 0).
#[global] Instance order_response_inhabited : Inhabited bt_order_response_t :=
  populate (OrderResponse 0 0 BT_STATUS_NEW 0 (replicate 64 0)).

Record gw_ctx_t := Ctx {
  x_cfg : gw_cfg;
  x_max_conns : Z;
  x_running : bool;
  x_out_queue : queue bt_gw_oms_msg_t;
  x_response_queue : queue bt_order_response_t;
  x_conns : list gw_conn_t;
  x_active_conns : Z;
  x_orders_received : Z;
  x_idem_ring : list Z;
}.

Definition set_conns (cs : list gw_conn_t) (active : Z) (x : gw_ctx_t) : gw_ctx_t :=
  Ctx (x_cfg x) (x_max_conns x) (x_running x) (x_out_queue x) (x_response_queue x) cs active
    (x_orders_received x) (x_idem_ring x).
Definition set_out (q : queue bt_gw_oms_msg_t) (orders : Z) (idem : list Z) (x : gw_ctx_t)
  : gw_ctx_t :=
  Ctx (x_cfg x) (x_max_conns x) (x_running x) q (x_response_queue x) (x_conns x)
    (x_active_conns x) orders idem.
Definition set_resp (q : queue bt_order_response_t) (x : gw_ctx_t) : gw_ctx_t :=
  Ctx (x_cfg x) (x_max_conns x) (x_running x) (x_out_queue x) q (x_conns x)
    (x_active_conns x) (x_orders_received x) (x_idem_ring x).
Definition set_running (b : bool) (x : gw_ctx_t) : gw_ctx_t :=
  Ctx (x_cfg x) (x_max_conns x) b (x_out_queue x) (x_response_queue x) (x_conns x)
    (x_active_conns x) (x_orders_received x) (x_idem_ring x).

(** ** Admission of an order *)

Definition gw_push_order (now : Z) (ctx : gw_ctx_t) (conn : gw_conn_t)
    (req : bt_order_request_t) : gw_ctx_t * gw_conn_t :=
  let conn := if 1000000000 <? u64 (now - c_rate_window_start conn)
              then set_rate now 0 conn else conn in
  if c_rate_count conn <? BT_CFG_RATE_LIMIT_RPS then
    let slot := Z.land (rq_request_id req) (GW_IDEM_RING_SIZE - 1) in
    let known := negb (rq_request_id req =? 0) in
    if known && ((x_idem_ring ctx).[slot] =? rq_request_id req) then (ctx, conn)
    else
      let idem := if known then (x_idem_ring ctx).[slot <- rq_request_id req]
                  else x_idem_ring ctx in
      let conn := set_rate (c_rate_window_start conn) (c_rate_count conn + 1) conn in
      let msg := GwOmsMsg #"O" req zero_cancel 0 in
      let '(_, q) := MPSC_PUSH msg (x_out_queue ctx) in
      (set_out q (u64 (x_orders_received ctx + 1)) idem ctx, conn)
  else (ctx, conn).

(** ** Responses to the client *)

(** [htonl] stored in memory: big-endian bytes. *)
Definition be_bytes (n : nat) (z : Z) : list Z := rev (le_bytes n z).
Definition be_val (l : list Z) : Z := le_val (rev l).

(** The frame of a response: length, type ['R'], image. *)
Definition response_frame (resp : bt_order_response_t) : list Z :=
  be_bytes 4 (5 + sizeof_order_response) ++ [ #"R" ] ++ order_response_image resp.

Definition gw_send_to_conn (conn : gw_conn_t) (resp : bt_order_response_t) : gw_conn_t :=
  let mask := GW_SEND_RING_SIZE - 1 in
  let r := c_send conn in
  if gw_ring_writable (r_head r) (r_tail r) mask <? sizeof_order_response + 5 then conn
  else
    let pos := r_tail r in
    let b := put_bytes (r_buf r) pos mask (be_bytes 4 (5 + sizeof_order_response)) in
    let b := put_bytes b (pos + 4) mask [ #"R" ] in
    let b := put_bytes b (pos + 5) mask (order_response_image resp) in
    set_send (Bring b (r_head r) (Z.land (u64 (pos + 5 + sizeof_order_response)) mask))
      (c_wire conn) conn.

(** One [send]: some bytes (at least one, at most what is offered) are taken,
    the socket would block, or it fails. *)
Inductive send_out := Sent (n : nat) | SAgain | SErr.

(** [gw_flush_send]; [None] while the outcomes given do not end the loop. *)
Fixpoint gw_flush_send (outs : list send_out) (conn : gw_conn_t) : option gw_conn_t :=
  let mask := GW_SEND_RING_SIZE - 1 in
  let r := c_send conn in
  if r_head r =? r_tail r then Some conn
  else
    let avail := gw_ring_readable (r_head r) (r_tail r) mask in
    let pos := r_head r in
    let first := u64 (mask + 1 - pos) in
    let to_write := if first <? avail then first else avail in
    match outs with
    | [] => None
    | Sent n :: outs =>
        let n := Z.max 1 (Z.min (Z.of_nat n) to_write) in
        gw_flush_send outs
          (set_send (Bring (r_buf r) (Z.land (u64 (pos + n)) mask) (r_tail r))
             (c_wire conn ++ mem_read (r_buf r) pos n) conn)
    | SAgain :: _ => Some conn
    | SErr :: _ => Some (set_state GW_CONN_CLOSING conn)
    end.

(** ** Framing *)

(** What the environment supplies while one message is handled: the two clock
    readings, whether [malloc] succeeds, and the bytes the stack buffer held
    before the payload was copied over its beginning. *)
Record menv := MEnv {
  e_now_parse : Z;
  e_now_push : Z;
  e_malloc : bool;
  e_stale : list Z;
}.

Definition overlay (payload stale : list Z) : list Z := payload ++ drop (length payload) stale.

(** Skip the message at the head of the receive ring. *)
Definition consume (msg_len : Z) (conn : gw_conn_t) : gw_conn_t :=
  let r := c_recv conn in
  set_recv (Bring (r_buf r) (gw_ring_advance (r_head r) msg_len (BT_CFG_RECV_BUF_SIZE - 1))
              (r_tail r)) conn.

(** The cancel request built from the first 32 bytes of the payload. *)
Definition cancel_of (now : Z) (cbuf : list Z) : bt_cancel_request_t :=
  CancelRequest (le_val (field 0 8 cbuf)) (le_val (field 8 8 cbuf)) (field 16 16 cbuf) now.

(** The part of the loop body of [gw_process_data] after the message is known
    to be complete; [false] when the function returns. *)
Definition gw_message (e : menv) (ctx : gw_ctx_t) (conn : gw_conn_t) (msg_len : Z)
  : gw_ctx_t * gw_conn_t * bool :=
  let rmask := BT_CFG_RECV_BUF_SIZE - 1 in
  let peek off len := gw_ring_peek (r_buf (c_recv conn)) (r_head (c_recv conn)) off len rmask in
  let msg_type := (peek 4 1).[0] in
  let payload_len := msg_len - 5 in
  let small (size : Z) :=
    if size <? payload_len
    then (if e_malloc e then Some (peek 5 payload_len) else None)
    else Some (overlay (peek 5 payload_len) (e_stale e)) in
  if msg_type =? #"A" then
    match small 256 with
    | None => (ctx, set_state GW_CONN_CLOSING conn, false)
    | Some pb =>
        let conn := if gw_validate_api_key pb then set_auth true 0 conn else conn in
        (ctx, consume msg_len conn, true)
    end
  else if negb (c_authenticated conn) then (ctx, consume msg_len conn, true)
  else if (msg_type =? #"O") || (msg_type =? #"B") then
    match small 8192 with
    | None => (ctx, set_state GW_CONN_CLOSING conn, false)
    | Some pb =>
        let '(ok, req) :=
          if msg_type =? #"B" then gw_parse_order_binary (e_now_parse e) pb payload_len
          else gw_parse_order_text (e_now_parse e) (take (Z.to_nat payload_len) pb) in
        let '(ctx, conn) :=
          if ok =? 0 then gw_push_order (e_now_push e) ctx conn req else (ctx, conn) in
        (ctx, consume msg_len conn, true)
    end
  else if msg_type =? #"C" then
    let ctx :=
      if 32 <=? payload_len then
        let cbuf := peek 5 (if payload_len <? 64 then payload_len else 64) in
        let msg := GwOmsMsg #"C" zero_request (cancel_of (e_now_parse e) cbuf) 0 in
        let '(_, q) := MPSC_PUSH msg (x_out_queue ctx) in
        set_out q (x_orders_received ctx) (x_idem_ring ctx) ctx
      else ctx in
    (ctx, consume msg_len conn, true)
  else (ctx, consume msg_len conn, true).

(** The loop; every complete message takes at least five bytes out of the
    ring, so it ends before [fuel] rounds when [fuel] exceeds the number of
    readable bytes. *)
Fixpoint process_loop (fuel : nat) (env : nat -> menv) (ctx : gw_ctx_t) (conn : gw_conn_t)
  : option (gw_ctx_t * gw_conn_t) :=
  match fuel with
  | O => None
  | S fuel =>
      let rmask := BT_CFG_RECV_BUF_SIZE - 1 in
      let r := c_recv conn in
      let readable := gw_ring_readable (r_head r) (r_tail r) rmask in
      if 5 <=? readable then
        let msg_len := be_val (gw_ring_peek (r_buf r) (r_head r) 0 4 rmask) in
        if (msg_len <? 5) || (BT_CFG_RECV_BUF_SIZE <? msg_len)
        then Some (ctx, set_state GW_CONN_CLOSING conn)
        else if readable <? msg_len then Some (ctx, conn)
        else
          let '(ctx, conn, continue) := gw_message (env O) ctx conn msg_len in
          if continue then process_loop fuel (fun n => env (S n)) ctx conn
          else Some (ctx, conn)
      else Some (ctx, conn)
  end.

Definition gw_process_data (env : nat -> menv) (ctx : gw_ctx_t) (conn : gw_conn_t)
  : option (gw_ctx_t * gw_conn_t) :=
  process_loop (S (Z.to_nat BT_CFG_RECV_BUF_SIZE)) env ctx conn.

(** ** Responses from the matching engine *)

Definition dispatch (resp : bt_order_response_t) (c : gw_conn_t) : gw_conn_t :=
  if (0 <=? c_fd c) && c_authenticated c then gw_send_to_conn c resp else c.

(** Pop until the queue is empty; its length is enough fuel while no other
    thread pushes. *)
Fixpoint drain_loop (fuel : nat) (ctx : gw_ctx_t) : gw_ctx_t :=
  match fuel with
  | O => ctx
  | S fuel =>
      match MPSC_POP (x_response_queue ctx) with
      | (None, q) => set_resp q ctx
      | (Some resp, q) =>
          drain_loop fuel
            (set_conns (map (dispatch resp) (x_conns ctx)) (x_active_conns ctx) (set_resp q ctx))
      end
  end.

Definition gw_drain_responses (ctx : gw_ctx_t) : gw_ctx_t :=
  drain_loop (S (queue_len (x_response_queue ctx))) ctx.

(** ** Accepting connections *)

Fixpoint find_free (cs : list gw_conn_t) (i : Z) : option Z :=
  match cs with
  | [] => None
  | c :: cs => if c_fd c =? -1 then Some i else find_free cs (i + 1)
  end.

Definition gw_find_free_slot (ctx : gw_ctx_t) : option Z := find_free (x_conns ctx) 0.

(** One result of [accept4]: a descriptor, with the success of [epoll_ctl]
    and the clock, or a failure, which ends the loop. *)
Inductive accept_out := Accepted (fd : Z) (epoll_ok : bool) (now : Z) | AcceptNone.

Fixpoint gw_accept (outs : list accept_out) (ctx : gw_ctx_t) : option gw_ctx_t :=
  match outs with
  | [] => None
  | AcceptNone :: _ => Some ctx
  | Accepted cfd epoll_ok now :: outs =>
      match gw_find_free_slot ctx with
      | None => gw_accept outs ctx
      | Some i =>
          if negb epoll_ok then gw_accept outs ctx
          else
            let conn := set_rate now 0 (set_last_active now (set_fd cfd zero_conn)) in
            gw_accept outs (set_conns (x_conns ctx).[i <- conn] (x_active_conns ctx + 1) ctx)
      end
  end.

(** ** The gateway thread *)

(** One [read] on a connection, with the clock and what the messages it
    completes need. *)
Inductive read_out :=
  | RData (data : list Z) (now : Z) (env : nat -> menv)
  | REof | RAgain | RErr.

(** The read loop of the EPOLLIN branch. *)
Fixpoint gw_read_loop (outs : list read_out) (ctx : gw_ctx_t) (conn : gw_conn_t)
  : option (gw_ctx_t * gw_conn_t) :=
  let rmask := BT_CFG_RECV_BUF_SIZE - 1 in
  let r := c_recv conn in
  let tail := r_tail r in
  let phys := u64 (BT_CFG_RECV_BUF_SIZE - tail) in
  let free := gw_ring_writable (r_head r) tail rmask in
  let tr := if phys <? free then phys else free in
  if tr =? 0 then Some (ctx, conn)
  else
    match outs with
    | [] => None
    | RData data now env :: outs =>
        let data := take (Z.to_nat tr) data in
        match data with
        | [] => Some (ctx, set_state GW_CONN_CLOSING conn)
        | _ :: _ =>
            let r := Bring (mem_write (r_buf r) tail data) (r_head r)
                       (Z.land (u64 (tail + zlen data)) rmask) in
            let conn := set_last_active now (set_recv r conn) in
            match gw_process_data env ctx conn with
            | Some (ctx, conn) => gw_read_loop outs ctx conn
            | None => None
            end
        end
    | REof :: _ => Some (ctx, set_state GW_CONN_CLOSING conn)
    | RAgain :: _ => Some (ctx, conn)
    | RErr :: _ => Some (ctx, set_state GW_CONN_CLOSING conn)
    end.

(** An epoll event of a connection: its flags and the outcomes of the system
    calls its handling makes. *)
Record conn_event := ConnEvent {
  v_err : bool; v_in : bool; v_out : bool;
  v_reads : list read_out;
  v_sends : list send_out;
  v_close_sends : list send_out;
}.

(** The re-registration of EPOLLOUT. *)
Definition update_pending (c : gw_conn_t) : gw_conn_t :=
  let r := c_send c in
  if negb (r_head r =? r_tail r) && negb (c_send_pending c) then set_send_pending true c
  else if (r_head r =? r_tail r) && c_send_pending c then set_send_pending false c
  else c.

(** The handling of one event of the connection in slot [i]. *)
Definition gw_conn_event (i : Z) (v : conn_event) (ctx : gw_ctx_t) : option gw_ctx_t :=
  let conn := (x_conns ctx).[i] in
  let conn := if v_err v then set_state GW_CONN_CLOSING conn else conn in
  match (if v_in v then gw_read_loop (v_reads v) ctx conn else Some (ctx, conn)) with
  | None => None
  | Some (ctx, conn) =>
      match (if v_out v then gw_flush_send (v_sends v) conn else Some conn) with
      | None => None
      | Some conn =>
          let conn := update_pending conn in
          match c_state conn with
          | GW_CONN_CLOSING =>
              match gw_flush_send (v_close_sends v) conn with
              | None => None
              | Some conn =>
                  Some (set_conns (x_conns ctx).[i <- set_fd (-1) conn]
                          (x_active_conns ctx - 1) ctx)
              end
          | GW_CONN_READING => Some (set_conns (x_conns ctx).[i <- conn] (x_active_conns ctx) ctx)
          end
      end
  end.

Inductive gw_event := EvListen (readable : bool) (outs : list accept_out)
                    | EvConn (i : Z) (v : conn_event).

Definition gw_one_event (ev : gw_event) (ctx : gw_ctx_t) : option gw_ctx_t :=
  match ev with
  | EvListen readable outs => if readable then gw_accept outs ctx else Some ctx
  | EvConn i v => gw_conn_event i v ctx
  end.

Fixpoint gw_events (evs : list gw_event) (ctx : gw_ctx_t) : option gw_ctx_t :=
  match evs with
  | [] => Some ctx
  | ev :: evs =>
      match gw_one_event ev ctx with
      | Some ctx => gw_events evs ctx
      | None => None
      end
  end.

Definition idle_conn (now : Z) (c : gw_conn_t) : gw_conn_t :=
  if (0 <=? c_fd c) && (GW_IDLE_TIMEOUT_NS <? u64 (now - c_last_active c))
  then set_state GW_CONN_CLOSING c else c.

Definition gw_idle_scan (now : Z) (ctx : gw_ctx_t) : gw_ctx_t :=
  set_conns (map (idle_conn now) (x_conns ctx)) (x_active_conns ctx) ctx.

(** The result of one [epoll_wait]. *)
Inductive wait_out := WaitEvents (evs : list gw_event) (now : Z) | WaitIntr | WaitErr.

(** One round of [gw_thread_core] while [running] is set; the flag tells
    whether the loop goes on. *)
Definition gw_iteration (w : wait_out) (ctx : gw_ctx_t) : option (gw_ctx_t * bool) :=
  let ctx := gw_drain_responses ctx in
  match w with
  | WaitIntr => Some (ctx, true)
  | WaitErr => Some (ctx, false)
  | WaitEvents evs now =>
      match gw_events evs ctx with
      | Some ctx => Some (gw_idle_scan now ctx, true)
      | None => None
      end
  end.

(** The rounds of the thread for the given results of [epoll_wait]. *)
Fixpoint gw_thread_core (ws : list wait_out) (ctx : gw_ctx_t) : option gw_ctx_t :=
  match ws with
  | [] => Some ctx
  | w :: ws =>
      if x_running ctx then
        match gw_iteration w ctx with
        | Some (ctx, true) => gw_thread_core ws ctx
        | Some (ctx, false) => Some ctx
        | None => None
        end
      else Some ctx
  end.

(** ** Life cycle *)

(** The results of the calls of [gw_create_listen]. *)
Record listen_env := ListenEnv { l_socket : Z; l_bind : bool; l_listen : bool }.

Definition gw_create_listen (e : listen_env) : Z :=
  if l_socket e <? 0 then -1
  else if negb (l_bind e) then -1
  else if negb (l_listen e) then -1
  else l_socket e.

Definition bt_gateway_create (ctx_ok conns_ok : bool) (le : listen_env) (epoll_fd : Z)
    (tid cpu port max_conns sched_id : Z)
    (out : queue bt_gw_oms_msg_t) (resp : queue bt_order_response_t) : option gw_ctx_t :=
  if negb ctx_ok then None
  else if negb conns_ok then None
  else
    let conns := replicate (Z.to_nat max_conns) (set_fd (-1) zero_conn) in
    let listen_fd := gw_create_listen le in
    if (listen_fd <? 0) || (epoll_fd <? 0) then None
    else Some (Ctx (GwCfg tid cpu port sched_id listen_fd epoll_fd) max_conns true out resp conns
                 0 0 (replicate (Z.to_nat GW_IDEM_RING_SIZE) 0)).

(** [bt_gateway_stop] clears [running] and, once the thread has returned,
    closes what is open; the closed descriptors are the result. *)
Definition bt_gateway_stop (ctx : gw_ctx_t) : gw_ctx_t * list Z :=
  (set_running false ctx,
   List.filter (fun fd => 0 <=? fd)
     (map c_fd (x_conns ctx) ++ [g_listen_fd (x_cfg ctx); g_epoll_fd (x_cfg ctx)])).

(** [bt_gateway_destroy]: the descriptors it closes before the memory is
    freed. *)
Definition bt_gateway_destroy (ctx : gw_ctx_t) : list Z :=
  if x_running ctx then snd (bt_gateway_stop ctx) else [].
