(* ===== verification/GatewayFrames.v ===== *)
(** * The gateway's receive path refines a parser of byte lists

    The framing loop of [gw_process_data] works on a ring buffer with wrapping
    cursors. Here it is shown to implement a reference that takes frames off
    the front of a list of bytes, and the consequences are drawn: the loop
    ends, the result does not depend on how the stream was cut into reads,
    and nothing reaches the OMS queue before authentication. *)

From Stdlib Require Import Ascii.
From S2P Require Import Prelude Queue CTypes GwRing GwParse Gateway.

Lemma recv_size_pow : BT_CFG_RECV_BUF_SIZE = 2 ^ 16.
Proof. reflexivity. Qed.
Lemma send_size_pow : GW_SEND_RING_SIZE = 2 ^ 16.
Proof. reflexivity. Qed.
#[global] Opaque BT_CFG_RECV_BUF_SIZE GW_SEND_RING_SIZE.

(** The bytes received and not yet consumed. *)
Definition received (c : gw_conn_t) : list Z := bytes_of 16 (c_recv c).

Definition conn_wf (c : gw_conn_t) : Prop :=
  bring_wf 16 (c_recv c) /\ bring_wf 16 (c_send c).

(** ** The reference: frames of a list *)

(** The handling of a complete frame, its payload given as a list. *)
Definition handle_frame (e : menv) (ctx : gw_ctx_t) (conn : gw_conn_t) (msg_type : Z)
    (payload : list Z) : gw_ctx_t * gw_conn_t * bool :=
  let buffer (size : Z) :=
    if size <? zlen payload then (if e_malloc e then Some payload else None)
    else Some (overlay payload (e_stale e)) in
  if msg_type =? #"A" then
    match buffer 256 with
    | None => (ctx, set_state GW_CONN_CLOSING conn, false)
    | Some pb => (ctx, if gw_validate_api_key pb then set_auth true 0 conn else conn, true)
    end
  else if negb (c_authenticated conn) then (ctx, conn, true)
  else if (msg_type =? #"O") || (msg_type =? #"B") then
    match buffer 8192 with
    | None => (ctx, set_state GW_CONN_CLOSING conn, false)
    | Some pb =>
        let '(ok, req) :=
          if msg_type =? #"B" then gw_parse_order_binary (e_now_parse e) pb (zlen payload)
          else gw_parse_order_text (e_now_parse e) payload in
        let '(ctx, conn) :=
          if ok =? 0 then gw_push_order (e_now_push e) ctx conn req else (ctx, conn) in
        (ctx, conn, true)
    end
  else if msg_type =? #"C" then
    (if 32 <=? zlen payload then
       let msg := GwOmsMsg #"C" zero_request (cancel_of (e_now_parse e) payload) 0 in
       let '(_, q) := MPSC_PUSH msg (x_out_queue ctx) in
       set_out q (x_orders_received ctx) (x_idem_ring ctx) ctx
     else ctx, conn, true)
  else (ctx, conn, true).

(** The first frame of a byte list. *)
Inductive frame_result :=
  | NeedMore
  | BadLength
  | Frame (msg_type : Z) (payload rest : list Z).

Definition next_frame (l : list Z) : frame_result :=
  if 5 <=? zlen l then
    let msg_len := be_val (take 4 l) in
    if (msg_len <? 5) || (2 ^ 16 <? msg_len) then BadLength
    else if zlen l <? msg_len then NeedMore
    else Frame l.[4] (take (Z.to_nat (msg_len - 5)) (drop 5 l)) (drop (Z.to_nat msg_len) l)
  else NeedMore.

(** How the reference stops: out of complete frames, or because the
    connection is to be closed. *)
Inductive stop := StopMore | StopClose.

(** The result is the context, the connection with its receive ring left
    aside, the bytes not consumed, the number of frames handled and how the
    loop stopped. *)
Fixpoint run_frames (fuel : nat) (env : nat -> menv) (ctx : gw_ctx_t) (conn : gw_conn_t)
    (l : list Z) : option (gw_ctx_t * gw_conn_t * list Z * nat * stop) :=
  match fuel with
  | O => None
  | S fuel =>
      match next_frame l with
      | NeedMore => Some (ctx, conn, l, O, StopMore)
      | BadLength => Some (ctx, set_state GW_CONN_CLOSING conn, l, O, StopClose)
      | Frame ty payload rest =>
          match handle_frame (env O) ctx conn ty payload with
          | (ctx, conn, false) => Some (ctx, conn, l, O, StopClose)
          | (ctx, conn, true) =>
              match run_frames fuel (fun n => env (S n)) ctx conn rest with
              | Some (ctx, conn, rest, n, st) => Some (ctx, conn, rest, S n, st)
              | None => None
              end
          end
      end
  end.

(** ** Facts about frames *)

Lemma next_frame_shorter l ty p rest :
  next_frame l = Frame ty p rest -> (length rest + 5 <= length l)%nat.
Proof.
  unfold next_frame, zlen. destruct (Z.leb_spec 5 (Z.of_nat (length l))); [|done].
  destruct (_ || _) eqn:E; [done|]. apply orb_false_iff in E as [E%Z.ltb_ge _].
  destruct (Z.ltb_spec (Z.of_nat (length l)) (be_val (take 4 l))); [done|].
  intros [= <- <- <-]. rewrite length_drop. lia.
Qed.

(** More bytes behind a complete frame do not change it. *)
Lemma next_frame_app l l' ty p rest :
  next_frame l = Frame ty p rest -> next_frame (l ++ l') = Frame ty p (rest ++ l').
Proof.
  unfold next_frame, zlen. rewrite length_app.
  destruct (Z.leb_spec 5 (Z.of_nat (length l))) as [H5|]; [|done].
  rewrite (proj2 (Z.leb_le 5 _)) by lia. rewrite take_app_le by lia.
  destruct (_ || _) eqn:E; [done|]. apply orb_false_iff in E as [E%Z.ltb_ge _].
  destruct (Z.ltb_spec (Z.of_nat (length l)) (be_val (take 4 l))); [done|].
  rewrite (proj2 (Z.ltb_ge _ _)) by lia. intros [= <- <- <-].
  rewrite !drop_app_le by lia. rewrite take_app_le by (rewrite length_drop; lia).
  f_equal. unfold arr_get. apply lookup_total_app_l. simpl. lia.
Qed.

Lemma next_frame_bad_app l l' : next_frame l = BadLength -> next_frame (l ++ l') = BadLength.
Proof.
  unfold next_frame, zlen. rewrite length_app.
  destruct (Z.leb_spec 5 (Z.of_nat (length l))) as [H5|]; [|done].
  rewrite (proj2 (Z.leb_le 5 _)) by lia. rewrite take_app_le by lia.
  destruct (_ || _); [done|]. destruct (_ <? _); done.
Qed.

(** More fuel than bytes is enough. *)
Lemma run_frames_total fuel env ctx conn l :
  (length l < fuel)%nat -> is_Some (run_frames fuel env ctx conn l).
Proof.
  revert env ctx conn l. induction fuel as [|fuel IH]; intros env ctx conn l Hl; [lia|].
  simpl. destruct (next_frame l) as [| |ty p rest] eqn:Hf; [done..|].
  apply next_frame_shorter in Hf.
  destruct (handle_frame (env O) ctx conn ty p) as [[ctx1 conn1] [|]]; [|done].
  destruct (IH (fun n => env (S n)) ctx1 conn1 rest ltac:(lia)) as [[[[[? ?] ?] ?] ?] ->]. done.
Qed.

Lemma run_frames_fuel fuel fuel' env ctx conn l :
  (length l < fuel)%nat -> (length l < fuel')%nat ->
  run_frames fuel env ctx conn l = run_frames fuel' env ctx conn l.
Proof.
  revert fuel' env ctx conn l. induction fuel as [|fuel IH]; intros fuel' env ctx conn l Hl Hl'; [lia|].
  destruct fuel' as [|fuel']; [lia|]. simpl.
  destruct (next_frame l) as [| |ty p rest] eqn:Hf; [done..|].
  apply next_frame_shorter in Hf.
  destruct (handle_frame (env O) ctx conn ty p) as [[ctx1 conn1] [|]]; [|done].
  by rewrite (IH fuel') by lia.
Qed.

(** One round on a complete frame. *)
Lemma run_frames_frame fuel env ctx conn l ty p rest :
  next_frame l = Frame ty p rest ->
  run_frames (S fuel) env ctx conn l =
    match handle_frame (env O) ctx conn ty p with
    | (ctx, conn, false) => Some (ctx, conn, l, O, StopClose)
    | (ctx, conn, true) =>
        match run_frames fuel (fun n => env (S n)) ctx conn rest with
        | Some (ctx, conn, rest, n, st) => Some (ctx, conn, rest, S n, st)
        | None => None
        end
    end.
Proof. intros Hf. simpl. by rewrite Hf. Qed.

Lemma run_frames_rest fuel env ctx conn l ctx' conn' rest n st :
  run_frames fuel env ctx conn l = Some (ctx', conn', rest, n, st) ->
  (length rest + n <= length l)%nat.
Proof.
  revert env ctx conn l n. induction fuel as [|fuel IH]; intros env ctx conn l n Hr; [done|].
  cbn [run_frames] in Hr. destruct (next_frame l) as [| |ty p r'] eqn:Hf; [by simplify_eq; lia..|].
  apply next_frame_shorter in Hf.
  destruct (handle_frame (env O) ctx conn ty p) as [[? ?] [|]]; [|by simplify_eq; lia].
  destruct (run_frames fuel _ _ _ r') as [[[[[? ?] ?] ?] ?]|] eqn:Hr'; [|done].
  simplify_eq. apply IH in Hr'. lia.
Qed.

(** Processing a prefix first and the rest with what was left over is
    processing everything at once. *)
Lemma run_frames_app fuel env ctx conn a b ctx1 conn1 rest n :
  run_frames fuel env ctx conn a = Some (ctx1, conn1, rest, n, StopMore) ->
  (length (a ++ b) < fuel)%nat ->
  run_frames fuel env ctx conn (a ++ b)
  = match run_frames fuel (fun i => env (n + i)%nat) ctx1 conn1 (rest ++ b) with
    | Some (ctx2, conn2, rest2, m, st) => Some (ctx2, conn2, rest2, (n + m)%nat, st)
    | None => None
    end.
Proof.
  revert env ctx conn a n. induction fuel as [|fuel IH]; intros env ctx conn a n Hrun Hl; [done|].
  destruct (next_frame a) as [| |ty p r] eqn:Hf.
  - simpl in Hrun. rewrite Hf in Hrun. simplify_eq.
    change (fun i => env (0 + i)%nat) with env.
    by destruct (run_frames (S fuel) env ctx1 conn1 (rest ++ b)) as [[[[[? ?] ?] ?] ?]|].
  - simpl in Hrun. by rewrite Hf in Hrun.
  - pose proof (next_frame_shorter _ _ _ _ Hf) as Hs. rewrite length_app in Hl.
    rewrite (run_frames_frame _ _ _ _ _ _ _ _ Hf) in Hrun.
    rewrite (run_frames_frame _ _ _ _ _ _ _ _ (next_frame_app _ b _ _ _ Hf)).
    destruct (handle_frame (env O) ctx conn ty p) as [[ctx2 conn2] [|]]; [|done].
    destruct (run_frames fuel (fun i => env (S i)) ctx2 conn2 r)
      as [[[[[c3 k3] r3] n3] st3]|] eqn:Hr; [|done].
    simplify_eq. rewrite (IH _ _ _ _ _ Hr) by (rewrite length_app; lia).
    apply run_frames_rest in Hr.
    change (fun i => env (S (n3 + i))%nat) with (fun i => env (S n3 + i)%nat).
    rewrite (run_frames_fuel (S fuel) fuel) by (rewrite length_app; lia).
    by destruct (run_frames fuel _ ctx1 conn1 (rest ++ b)) as [[[[[? ?] ?] ?] ?]|].
Qed.

(** ** Refinement *)

(** Connections that agree on everything but the receive ring. *)
Definition same_but_recv (c c' : gw_conn_t) : Prop := set_recv (c_recv c) c' = c.

Lemma received_ok (c : gw_conn_t) :
  conn_wf c ->
  gw_ring_readable (r_head (c_recv c)) (r_tail (c_recv c)) (BT_CFG_RECV_BUF_SIZE - 1)
    = zlen (received c) /\ zlen (received c) < 2 ^ 16.
Proof.
  intros [Hwf _]. unfold received. rewrite recv_size_pow, zlen_bytes_of by lia.
  split; [by apply readable_len|]. by apply bring_len_range.
Qed.

Lemma peek_received c off len :
  conn_wf c -> 0 <= off -> 0 <= len -> off + len <= zlen (received c) ->
  gw_ring_peek (r_buf (c_recv c)) (r_head (c_recv c)) off len (BT_CFG_RECV_BUF_SIZE - 1)
  = take (Z.to_nat len) (drop (Z.to_nat off) (received c)).
Proof.
  intros [Hwf _] Ho Hl Hle. unfold received in *. rewrite zlen_bytes_of in Hle by lia.
  rewrite recv_size_pow. by apply peek_bytes; try lia.
Qed.

Lemma consume_received c n :
  conn_wf c -> 0 <= n <= zlen (received c) ->
  conn_wf (consume n c) /\ received (consume n c) = drop (Z.to_nat n) (received c).
Proof.
  intros [Hwf Hs] Hn. unfold received, consume, conn_wf in *. rewrite zlen_bytes_of in Hn by lia.
  rewrite recv_size_pow. simpl.
  destruct (advance_bytes 16 ltac:(lia) (c_recv c) n Hwf Hn) as [Hwf' Hb]. by split_and!.
Qed.

Lemma take1_get (l : list Z) i :
  0 <= i < zlen l -> (take 1 (drop (Z.to_nat i) l)).[0] = l.[i].
Proof.
  intros Hi. rewrite (drop_S _ (l.[i]) (Z.to_nat i)) by (by apply arr_lookup). done.
Qed.

(** The admission of an order reads and writes only the rate fields of the
    connection. *)
Definition admission (now start count : Z) (ctx : gw_ctx_t) (req : bt_order_request_t)
  : gw_ctx_t * Z * Z :=
  let '(start, count) :=
    if 1000000000 <? u64 (now - start) then (now, 0) else (start, count) in
  if count <? BT_CFG_RATE_LIMIT_RPS then
    let slot := Z.land (rq_request_id req) (GW_IDEM_RING_SIZE - 1) in
    let known := negb (rq_request_id req =? 0) in
    if known && ((x_idem_ring ctx).[slot] =? rq_request_id req) then (ctx, start, count)
    else
      let idem := if known then (x_idem_ring ctx).[slot <- rq_request_id req]
                  else x_idem_ring ctx in
      (set_out (snd (MPSC_PUSH (GwOmsMsg #"O" req zero_cancel 0) (x_out_queue ctx)))
         (u64 (x_orders_received ctx + 1)) idem ctx, start, count + 1)
  else (ctx, start, count).

Lemma push_order_admit now ctx c req :
  gw_push_order now ctx c req =
    let '(ctx', s, n) := admission now (c_rate_window_start c) (c_rate_count c) ctx req in
    (ctx', set_rate s n c).
Proof.
  unfold gw_push_order, admission. destruct c as [fd st rc sd sp au ui la rs n w].
  cbn [c_rate_window_start c_rate_count].
  destruct (1000000000 <? u64 (now - rs)); cbn [set_rate c_rate_count c_rate_window_start].
  - destruct (0 <? BT_CFG_RATE_LIMIT_RPS); [|done]. destruct (_ && _); [done|].
    by destruct (MPSC_PUSH _ _).
  - destruct (n <? BT_CFG_RATE_LIMIT_RPS); [|done]. destruct (_ && _); [done|].
    by destruct (MPSC_PUSH _ _).
Qed.

(** What one frame does to the connection besides its receive ring. *)
Lemma handle_frame_rings e ctx c ty p ctx' c' b :
  handle_frame e ctx c ty p = (ctx', c', b) ->
  c_recv c' = c_recv c /\ c_send c' = c_send c.
Proof.
  unfold handle_frame.
  repeat case_match; intros; simplify_eq; try done;
    match goal with H : gw_push_order _ _ _ _ = _ |- _ => rewrite push_order_admit in H end;
    destruct (admission _ _ _ _ _) as [[? ?] ?]; by simplify_eq.
Qed.

Lemma handle_frame_recv e ctx c r ty p :
  handle_frame e ctx (set_recv r c) ty p =
    let '(ctx', c', b) := handle_frame e ctx c ty p in (ctx', set_recv r c', b).
Proof.
  unfold handle_frame. cbn [c_authenticated set_recv].
  repeat case_match; simplify_eq; try done;
    repeat match goal with H : gw_push_order _ _ _ _ = _ |- _ => rewrite push_order_admit in H end;
    cbn [c_rate_window_start c_rate_count set_recv] in *;
    destruct (admission _ _ _ _ _) as [[? ?] ?]; by simplify_eq.
Qed.

Lemma field_take off n m (l : list Z) :
  (off + n <= m)%nat -> field off n (take m l) = field off n l.
Proof.
  intros H. unfold field. rewrite skipn_firstn_comm. by rewrite take_take, Nat.min_l by lia.
Qed.

Lemma cancel_of_take now m l : (32 <= m)%nat -> cancel_of now (take m l) = cancel_of now l.
Proof. intros H. unfold cancel_of. by rewrite !field_take by lia. Qed.

(** The message body on the ring is the frame handler on its bytes. *)
Lemma gw_message_frame e ctx c msg_len :
  conn_wf c -> 5 <= msg_len <= zlen (received c) ->
  gw_message e ctx c msg_len =
    let '(ctx', c', b) :=
      handle_frame e ctx c (received c).[4] (take (Z.to_nat (msg_len - 5)) (drop 5 (received c))) in
    (ctx', if b then consume msg_len c' else c', b).
Proof.
  intros Hwf Hlen. unfold gw_message, handle_frame.
  assert (zlen (take (Z.to_nat (msg_len - 5)) (drop 5 (received c))) = msg_len - 5) as Hpl.
  { unfold zlen in *. rewrite length_take, length_drop. lia. }
  rewrite !peek_received by (try done; unfold zlen in *; lia).
  change (Z.to_nat 1) with 1%nat. change (Z.to_nat 5) with 5%nat.
  rewrite take1_get by lia. rewrite Hpl.
  destruct (_ =? #"A").
  { destruct (256 <? msg_len - 5); [destruct (e_malloc e)|]; done. }
  destruct (negb (c_authenticated c)); [done|].
  assert (forall pb, take (Z.to_nat (msg_len - 5))
    (overlay (take (Z.to_nat (msg_len - 5)) (drop 5 (received c))) pb)
    = take (Z.to_nat (msg_len - 5)) (drop 5 (received c))) as Hov.
  { intros pb. unfold overlay. apply take_app_length'. unfold zlen in Hpl. lia. }
  destruct (_ || _).
  { destruct (8192 <? msg_len - 5); [destruct (e_malloc e)|]; try done.
    - rewrite take_take, Nat.min_id.
      destruct (if _ =? #"B" then _ else _) as [ok req].
      destruct (ok =? 0); [|done]. by destruct (gw_push_order _ _ _ _).
    - rewrite Hov. destruct (if _ =? #"B" then _ else _) as [ok req].
      destruct (ok =? 0); [|done]. by destruct (gw_push_order _ _ _ _). }
  destruct (_ =? #"C"); [|done].
  destruct (Z.leb_spec 32 (msg_len - 5)); [|done].
  rewrite !peek_received by (try done; destruct (_ <? 64) eqn:E; unfold zlen in *; lia).
  rewrite !cancel_of_take by (first [lia | destruct (_ <? 64) eqn:E; lia]).
  change (Z.to_nat 5) with 5%nat.
  by destruct (MPSC_PUSH _ _).
Qed.

Lemma process_loop_refines fuel env ctx c c0 :
  conn_wf c -> same_but_recv c c0 ->
  match run_frames fuel env ctx c0 (received c) with
  | Some (ctx', c', rest, n, st) =>
      exists c'', process_loop fuel env ctx c = Some (ctx', c'') /\ conn_wf c'' /\
        same_but_recv c'' c' /\ received c'' = rest
  | None => process_loop fuel env ctx c = None
  end.
Proof.
  revert env ctx c c0. induction fuel as [|fuel IH]; intros env ctx c c0 Hwf Hsame; [done|].
  simpl. destruct (received_ok c Hwf) as [-> Hlt]. unfold next_frame.
  destruct (Z.leb_spec 5 (zlen (received c))) as [H5|]; [|by exists c].
  rewrite (peek_received c 0 4) by (try done; lia).
  change (Z.to_nat 4) with 4%nat. change (Z.to_nat 0) with 0%nat. rewrite drop_0.
  rewrite recv_size_pow. set (msg_len := be_val (take 4 (received c))).
  destruct (_ || _) eqn:E.
  { exists (set_state GW_CONN_CLOSING c). split_and!; try done. unfold same_but_recv in *. by rewrite <- Hsame. }
  apply orb_false_iff in E as [E%Z.ltb_ge _].
  destruct (Z.ltb_spec (zlen (received c)) msg_len) as [|Hge]; [by exists c|].
  rewrite gw_message_frame by (try done; lia).
  set (p := take _ (drop 5 (received c))). 
  assert (handle_frame (env O) ctx c (received c).[4] p
          = handle_frame (env O) ctx (set_recv (c_recv c) c0) (received c).[4] p) as ->
    by (by unfold same_but_recv in Hsame; rewrite Hsame).
  rewrite handle_frame_recv.
  destruct (handle_frame (env O) ctx c0 (received c).[4] p) as [[ctx1 c1] b] eqn:Hh.
  assert (conn_wf (set_recv (c_recv c) c1) /\ received (set_recv (c_recv c) c1) = received c)
    as [Hwf1 Hr1].
  { apply handle_frame_rings in Hh as [_ Hs]. split; [|done]. split; [apply Hwf|].
    simpl. rewrite Hs. rewrite <- Hsame in Hwf. apply Hwf. }
  destruct b.
  - destruct (consume_received (set_recv (c_recv c) c1) msg_len Hwf1) as [Hwf2 Hr2];
      [rewrite Hr1; lia|].
    specialize (IH (fun n => env (S n)) ctx1 (consume msg_len (set_recv (c_recv c) c1)) c1 Hwf2 eq_refl).
    rewrite Hr2, Hr1 in IH.
    by destruct (run_frames fuel _ ctx1 c1 _) as [[[[[? ?] ?] ?] ?]|].
  - by exists (set_recv (c_recv c) c1).
Qed.

(** [gw_process_data] always returns, with the result of the reference. *)
Lemma process_data_refines env ctx c :
  conn_wf c ->
  exists ctx' c' rest n st c'',
    run_frames (S (Z.to_nat (2 ^ 16))) env ctx c (received c) = Some (ctx', c', rest, n, st) /\
    gw_process_data env ctx c = Some (ctx', c'') /\ conn_wf c'' /\
    same_but_recv c'' c' /\ received c'' = rest.
Proof.
  intros Hwf. destruct (received_ok c Hwf) as [_ Hlt].
  destruct (run_frames_total (S (Z.to_nat (2 ^ 16))) env ctx c (received c))
    as [[[[[ctx' c'] rest] n] st] Hrun]; [unfold zlen in Hlt; lia|].
  assert (same_but_recv c c) as Hsame by (by destruct c).
  pose proof (process_loop_refines (S (Z.to_nat (2 ^ 16))) env ctx c c Hwf Hsame) as H.
  rewrite Hrun in H. destruct H as (c'' & Hp & H).
  exists ctx', c', rest, n, st, c''. split; [done|]. split; [|done].
  unfold gw_process_data. by rewrite recv_size_pow.
Qed.

(** The receive ring of the connection plays no part in the reference. *)
Lemma run_frames_recv fuel env ctx c r l :
  run_frames fuel env ctx (set_recv r c) l =
    match run_frames fuel env ctx c l with
    | Some (ctx', c', rest, n, st) => Some (ctx', set_recv r c', rest, n, st)
    | None => None
    end.
Proof.
  revert env ctx c l. induction fuel as [|fuel IH]; intros env ctx c l; [done|].
  simpl. destruct (next_frame l) as [| |ty p rest]; [done..|].
  rewrite handle_frame_recv.
  destruct (handle_frame (env O) ctx c ty p) as [[ctx1 c1] [|]]; [|done].
  rewrite IH. by destruct (run_frames fuel _ ctx1 c1 rest) as [[[[[? ?] ?] ?] ?]|].
Qed.

Lemma run_frames_close fuel env ctx c l ctx' c' rest n :
  run_frames fuel env ctx c l = Some (ctx', c', rest, n, StopClose) ->
  c_state c' = GW_CONN_CLOSING.
Proof.
  revert env ctx c l n. induction fuel as [|fuel IH]; intros env ctx c l n Hr; [done|].
  cbn [run_frames] in Hr. destruct (next_frame l) as [| |ty p r'] eqn:Hf; [done|by simplify_eq|].
  destruct (handle_frame (env O) ctx c ty p) as [[ctx1 c1] [|]] eqn:Hh.
  - destruct (run_frames fuel _ _ _ r') as [[[[[? ?] ?] ?] ?]|] eqn:Hr'; [|done].
    simplify_eq. by eapply IH.
  - simplify_eq. unfold handle_frame in Hh. repeat case_match; by simplify_eq.
Qed.

(** Two connections that differ only in their rings behave alike. *)
Lemma process_data_same env ctx c1 c2 ctx' k rest n st :
  conn_wf c1 -> same_but_recv c1 c2 ->
  run_frames (S (Z.to_nat (2 ^ 16))) env ctx c2 (received c1) = Some (ctx', k, rest, n, st) ->
  exists c', gw_process_data env ctx c1 = Some (ctx', c') /\ same_but_recv c' k /\
    received c' = rest.
Proof.
  intros Hwf Hs Hrun.
  destruct (process_data_refines env ctx c1 Hwf) as (x & k' & r' & n' & st' & c' & Hrun' & Hp & _ & Hs' & Hr').
  unfold same_but_recv in *. rewrite <- Hs in Hrun' at 1. rewrite run_frames_recv, Hrun in Hrun'.
  simplify_eq. exists c'. by split_and!.
Qed.

Lemma process_loop_stalls fuel env ctx c :
  conn_wf c -> take 4 (received c) = [0; 1; 0; 0] ->
  process_loop (S fuel) env ctx c = Some (ctx, c).
Proof.
  intros Hwf Hhd. cbn [process_loop].
  destruct (received_ok c Hwf) as [-> Hlt].
  destruct (Z.leb_spec 5 (zlen (received c))); [|done].
  rewrite (peek_received c 0 4) by (try done; lia).
  change (Z.to_nat 4) with 4%nat. change (Z.to_nat 0) with 0%nat. rewrite drop_0, Hhd.
  change (be_val [0; 1; 0; 0]) with 65536. rewrite recv_size_pow.
  change ((65536 <? 5) || (2 ^ 16 <? 65536)) with false. cbv iota.
  by rewrite (proj2 (Z.ltb_lt _ _)) by lia.
Qed.

Lemma process_loop_short fuel env ctx c :
  conn_wf c -> zlen (received c) < 5 -> process_loop (S fuel) env ctx c = Some (ctx, c).
Proof.
  intros Hwf Hl. cbn [process_loop]. destruct (received_ok c Hwf) as [-> _].
  by rewrite (proj2 (Z.leb_gt _ _)).
Qed.

(** ** Authentication *)

(** The frames at the front of a byte list. *)
Fixpoint frames_of (fuel : nat) (l : list Z) : list (Z * list Z) :=
  match fuel with
  | O => []
  | S fuel =>
      match next_frame l with
      | Frame ty p rest => (ty, p) :: frames_of fuel rest
      | _ => []
      end
  end.

Definition api_keys32 : list (list Z) := map (take 32) g_api_keys.

Lemma strncmp_eq_take n a b :
  strncmp_eq n a b = true -> Forall (fun x => x <> 0) (take n b) -> take n a = take n b.
Proof.
  revert a b. induction n as [|n IH]; intros [|x a] [|y b] Heq Hnz; simpl in *; try done.
  destruct (Z.eqb_spec x y) as [->|]; [|done]. inversion Hnz; subst.
  destruct (Z.eqb_spec y 0); [done|]. f_equal. by apply IH.
Qed.

Lemma validate_key key : gw_validate_api_key key = true -> take 32 key ∈ api_keys32.
Proof.
  unfold gw_validate_api_key. destruct key as [|c key]; [done|].
  destruct (c =? 0); [done|]. intros H. apply existsb_exists in H as (k & Hin & Heq).
  unfold api_keys32, g_api_keys in *. unfold BT_API_KEY_LEN in Heq.
  repeat destruct Hin as [<-|Hin]; [..|done];
    (apply strncmp_eq_take in Heq; [rewrite Heq|by repeat constructor]);
    [left|right; left].
Qed.

(** A frame other than a successful authentication leaves an unauthenticated
    connection unauthenticated and the context as it is. *)
Lemma handle_frame_unauth e ctx c ty p ctx' c' b :
  c_authenticated c = false ->
  (ty = #"A" -> 32 <= zlen p /\ take 32 p ∉ api_keys32) ->
  handle_frame e ctx c ty p = (ctx', c', b) -> ctx' = ctx /\ c_authenticated c' = false.
Proof.
  intros Ha Hk. unfold handle_frame. rewrite Ha. simpl.
  destruct (Z.eqb_spec ty #"A") as [->|]; [|intros; by simplify_eq].
  destruct (Hk eq_refl) as [Hl Hno].
  assert (forall stale, gw_validate_api_key (p ++ stale) = false) as Hv.
  { intros stale. destruct (gw_validate_api_key _) eqn:E; [|done].
    apply validate_key in E. rewrite take_app_le in E by (unfold zlen in Hl; lia). done. }
  pose proof (Hv []) as Hv0. rewrite app_nil_r in Hv0. unfold overlay.
  repeat case_match; intros; simplify_eq; try done; exfalso; congruence.
Qed.

Lemma run_frames_unauth fuel env ctx c l ctx' c' rest n st :
  c_authenticated c = false ->
  (forall p, (#"A", p) ∈ frames_of fuel l -> 32 <= zlen p /\ take 32 p ∉ api_keys32) ->
  run_frames fuel env ctx c l = Some (ctx', c', rest, n, st) ->
  ctx' = ctx /\ c_authenticated c' = false.
Proof.
  revert env ctx c l n. induction fuel as [|fuel IH]; intros env ctx c l n Ha Hk Hrun; [done|].
  simpl in *. destruct (next_frame l) as [| |ty p r]; [by simplify_eq..|].
  destruct (handle_frame (env O) ctx c ty p) as [[ctx1 c1] b] eqn:Hh.
  apply handle_frame_unauth in Hh as [-> Ha1]; [|done|intros ->; apply Hk; by left].
  destruct b; [|by simplify_eq].
  destruct (run_frames fuel _ ctx c1 r) as [[[[[? ?] ?] ?] ?]|] eqn:Hr; [|done].
  simplify_eq. eapply IH; [exact Ha1| |exact Hr]. intros q Hq. apply Hk. by right.
Qed.

(** ** Connections for the examples *)

(** A fresh connection that has received [l]. *)
Definition conn_with (l : list Z) : gw_conn_t :=
  set_recv (Bring (l ++ replicate (Z.to_nat (2 ^ 16) - length l) 0) 0 (zlen l)) (set_fd 7 zero_conn).

Lemma zero_ring_wf : bring_wf 16 (zero_ring (2 ^ 16)).
Proof.
  split; [|done]. unfold zero_ring, zlen; cbn [r_buf]. rewrite length_replicate.
  apply Z2Nat.id. lia.
Defined.

#[global] Opaque zero_ring.

Lemma conn_with_ok l :
  zlen l < 2 ^ 16 -> conn_wf (conn_with l) /\ received (conn_with l) = l.
Proof.
  intros Hl. pose proof (zlen_nonneg l) as Hn.
  assert (zlen (l ++ replicate (Z.to_nat (2 ^ 16) - length l) 0) = 2 ^ 16) as Hlen.
  { unfold zlen in *. rewrite length_app, length_replicate. lia. }
  split.
  - split; [|change (bring_wf 16 (zero_ring GW_SEND_RING_SIZE));
      rewrite send_size_pow; apply zero_ring_wf].
    split; [exact Hlen|]. split; [split; [done|done]|split; [apply Hn|exact Hl]].
  - unfold received, bytes_of, bring_len, conn_with. cbn [c_recv set_recv r_buf r_head r_tail].
    rewrite Z.sub_0_r, Z.mod_small by lia.
    rewrite <- mem_read_window by lia. unfold mem_read. rewrite drop_0.
    unfold zlen. rewrite Nat2Z.id. by apply take_app_length'.
Qed.

(** ** Properties *)

(** C18: The framing loop over the receive ring, with its wrapping cursors
    and its copies across the end of the buffer, always returns and does
    exactly what the list reference does: it handles the complete frames at
    the front of the received bytes in order, leaves the incomplete remainder
    in the ring and asks for the connection to be closed on a length field
    below 5 or above 65536. *)
Theorem gateway_refines_frames (env : nat -> menv) (ctx : gw_ctx_t) (c : gw_conn_t) :
  conn_wf c ->
  exists ctx' c' rest n st c'',
    run_frames (S (Z.to_nat (2 ^ 16))) env ctx c (received c) = Some (ctx', c', rest, n, st) /\
    gw_process_data env ctx c = Some (ctx', c'') /\ conn_wf c'' /\
    same_but_recv c'' c' /\ received c'' = rest.
Proof. apply process_data_refines. Qed.

(** C19: The effect of a byte stream does not depend on how it is cut into
    reads: handling [received c] and then, with [b] appended to what was left
    over, handling the rest, gives the same context, the same connection and
    the same unread bytes as handling everything at once, unless the first
    part already asked for the connection to be closed. *)
Theorem gateway_chunking (env : nat -> menv) (ctx ctx1 : gw_ctx_t) (c c1 c2 : gw_conn_t)
    (b : list Z) :
  conn_wf c -> c_state c = GW_CONN_READING ->
  gw_process_data env ctx c = Some (ctx1, c1) -> c_state c1 = GW_CONN_READING ->
  conn_wf c2 -> same_but_recv c2 c -> received c2 = received c ++ b ->
  exists n, forall c1b, conn_wf c1b -> same_but_recv c1b c1 -> received c1b = received c1 ++ b ->
    exists ctx2 ca cb,
      gw_process_data (fun i => env (n + i)%nat) ctx1 c1b = Some (ctx2, ca) /\
      gw_process_data env ctx c2 = Some (ctx2, cb) /\
      same_but_recv ca cb /\ received ca = received cb.
Proof.
  intros Hwf Hst Hp Hst1 Hwf2 Hs2 Hr2.
  destruct (process_data_refines env ctx c Hwf) as (ctx' & c' & rest & n & st & c'' & Hrun & Hp' & Hwf' & Hs & Hr).
  rewrite Hp in Hp'. simplify_eq. exists n. intros c1b Hwf1b Hs1b Hr1b.
  assert (st = StopMore) as ->.
  { destruct st; [done|]. exfalso. apply run_frames_close in Hrun.
    unfold same_but_recv in Hs. rewrite <- Hs in Hst1. simpl in Hst1. congruence. }
  destruct (received_ok c2 Hwf2) as [_ Hlt]. rewrite Hr2 in Hlt.
  destruct (run_frames_total (S (Z.to_nat (2 ^ 16))) env ctx c (received c ++ b))
    as [[[[[ctx2 k2] r2] m] st2] Hall]; [unfold zlen in Hlt; lia|].
  rewrite <- Hr2 in Hall.
  destruct (process_data_same _ _ _ _ _ _ _ _ _ Hwf2 Hs2 Hall) as (cb & Hpb & Hsb & Hrb).
  rewrite Hr2, (run_frames_app _ _ _ _ _ b _ _ _ _ Hrun) in Hall by (unfold zlen in Hlt; lia).
  destruct (run_frames _ (fun i => env (n + i)%nat) _ _ _) as [[[[[? ?] ?] ?] ?]|] eqn:Hrest; [|done].
  simplify_eq. rewrite <- Hr1b in Hrest.
  assert (same_but_recv c1b c') as Hs' by (unfold same_but_recv in *; by rewrite <- Hs in Hs1b).
  destruct (process_data_same _ _ _ _ _ _ _ _ _ Hwf1b Hs' Hrest) as (ca & Hpa & Hsa & Hra).
  exists ctx2, ca, cb. split; [done|]. split; [done|]. split; [|congruence].
  unfold same_but_recv in *. by rewrite <- Hsb.
Qed.

(** C20: Nothing passes before authentication: as long as every 'A' message
    in the received bytes carries at least 32 bytes and does not begin with a
    whitelisted key, an unauthenticated connection stays unauthenticated and
    the gateway context (OMS queue, counters, idempotency ring) is untouched,
    whatever orders and cancels were sent. *)
Theorem gateway_auth_gate (env : nat -> menv) (ctx ctx' : gw_ctx_t) (c c' : gw_conn_t) :
  conn_wf c -> c_authenticated c = false ->
  (forall p, (#"A", p) ∈ frames_of (S (Z.to_nat (2 ^ 16))) (received c) ->
     32 <= zlen p /\ take 32 p ∉ api_keys32) ->
  gw_process_data env ctx c = Some (ctx', c') ->
  ctx' = ctx /\ c_authenticated c' = false.
Proof.
  intros Hwf Ha Hk Hp.
  destruct (process_data_refines env ctx c Hwf)
    as (x & k & rest & n & st & c'' & Hrun & Hp' & _ & Hs & _).
  rewrite Hp in Hp'. simplify_eq. apply run_frames_unauth in Hrun as [-> Hk']; [|done..].
  split; [done|]. unfold same_but_recv in Hs. by rewrite <- Hs.
Qed.

(** The check of a short key reads bytes that are not part of the
    message: an 'A' message with no payload authenticates the connection when
    the stack buffer still holds a key, as it does after another client's
    authentication was handled in the same place. *)
Theorem gateway_auth_reads_stale_buffer (ctx : gw_ctx_t) (now : Z) (ok : bool) :
  exists c', gw_process_data (fun _ => MEnv now now ok test_key)
               ctx (conn_with [0; 0; 0; 5; #"A"]) = Some (ctx, c') /\
    c_authenticated (conn_with [0; 0; 0; 5; #"A"]) = false /\ c_authenticated c' = true.
Proof.
  destruct (conn_with_ok [0; 0; 0; 5; #"A"] ltac:(done)) as [Hwf Hr].
  assert (same_but_recv (conn_with [0; 0; 0; 5; #"A"]) (conn_with [0; 0; 0; 5; #"A"])) as Hs
    by reflexivity.
  edestruct (process_data_same (fun _ => MEnv now now ok test_key)
    ctx _ _ ctx (set_auth true 0 (conn_with [0; 0; 0; 5; #"A"])) [] 1 StopMore Hwf Hs)
    as (c' & Hp & Hs' & _).
  { rewrite Hr. rewrite (run_frames_fuel _ 10) by (simpl; lia). reflexivity. }
  exists c'. split; [exact Hp|]. split; [reflexivity|].
  unfold same_but_recv in Hs'. by rewrite <- Hs'.
Qed.

(** A message announced with the length 65536 passes the length check
    but can never be complete, since the ring holds at most 65535 bytes: the
    connection is not closed and nothing is ever consumed, however many bytes
    arrive. *)
Theorem gateway_stalls_on_64k (env : nat -> menv) (ctx : gw_ctx_t) (c : gw_conn_t) :
  conn_wf c -> take 4 (received c) = [0; 1; 0; 0] ->
  gw_process_data env ctx c = Some (ctx, c).
Proof. apply process_loop_stalls. Qed.

(** ** Witnesses *)

Definition quiet_env (n : nat) : menv := MEnv 0 0 true [].

Definition idle_ctx : gw_ctx_t :=
  Ctx (GwCfg 0 2 9000 0 3 4) 0 true (QUEUE_INIT (replicate 4 inhabitant))
    (QUEUE_INIT (replicate 4 inhabitant)) [] 0 0 (replicate (Z.to_nat GW_IDEM_RING_SIZE) 0).

(** A cancel, which is ignored because the client is not authenticated, and
    two bytes of the next header. *)
Definition cancel_bytes : list Z := [0; 0; 0; 6; #"C"; 9].

Lemma gateway_refines_frames_witness :
  exists c'', gw_process_data quiet_env idle_ctx (conn_with (cancel_bytes ++ [0; 0]))
              = Some (idle_ctx, c'') /\ received c'' = [0; 0].
Proof.
  destruct (conn_with_ok (cancel_bytes ++ [0; 0]) ltac:(done)) as [Hwf Hr].
  destruct (gateway_refines_frames quiet_env idle_ctx _ Hwf)
    as (ctx' & c' & rest & n & st & c'' & Hrun & Hp & _ & _ & Hrest).
  rewrite Hr, (run_frames_fuel _ 10) in Hrun by (simpl; lia).
  assert (run_frames 10 quiet_env idle_ctx (conn_with (cancel_bytes ++ [0; 0])) (cancel_bytes ++ [0; 0])
    = Some (idle_ctx, conn_with (cancel_bytes ++ [0; 0]), [0; 0], 1%nat, StopMore)) as Hc by reflexivity.
  rewrite Hc in Hrun. injection Hrun as <- _ <- _ _. exists c''. split; [exact Hp|exact Hrest].
Defined.

Lemma gateway_chunking_witness :
  exists n ctx2 ca cb,
    gw_process_data (fun i => quiet_env (n + i)) idle_ctx (conn_with cancel_bytes)
    = Some (ctx2, ca) /\
    gw_process_data quiet_env idle_ctx (conn_with ([0; 0] ++ drop 2 cancel_bytes)) = Some (ctx2, cb) /\
    same_but_recv ca cb /\ received ca = received cb.
Proof.
  destruct (conn_with_ok [0; 0] ltac:(done)) as [Hwf Hr].
  destruct (conn_with_ok cancel_bytes ltac:(done)) as [Hwf2 Hr2].
  assert (gw_process_data quiet_env idle_ctx (conn_with [0; 0])
          = Some (idle_ctx, conn_with [0; 0])) as Hp.
  { apply process_loop_short; [done|by rewrite Hr]. }
  destruct (gateway_chunking quiet_env idle_ctx idle_ctx (conn_with [0; 0]) (conn_with [0; 0])
    (conn_with cancel_bytes) (drop 2 cancel_bytes) Hwf eq_refl Hp eq_refl Hwf2 eq_refl)
    as (n & Hn); [by rewrite Hr, Hr2|].
  exists n. apply Hn; [done|done|by rewrite Hr, Hr2].
Defined.

Lemma gateway_auth_gate_witness :
  exists ctx' c', gw_process_data quiet_env idle_ctx (conn_with cancel_bytes) = Some (ctx', c') /\
    ctx' = idle_ctx /\ c_authenticated c' = false.
Proof.
  destruct (conn_with_ok cancel_bytes ltac:(done)) as [Hwf Hr].
  destruct (process_data_refines quiet_env idle_ctx _ Hwf) as (ctx' & _ & _ & _ & _ & c' & _ & Hp & _).
  exists ctx', c'. split; [exact Hp|].
  apply (gateway_auth_gate quiet_env idle_ctx ctx' (conn_with cancel_bytes) c' Hwf eq_refl);
    [|exact Hp].
  rewrite Hr. intros p Hin. exfalso.
  change (frames_of _ _) with [( #"C", [9])] in Hin.
  apply elem_of_cons in Hin as [Hin|Hin]; [by vm_compute in Hin|by apply elem_of_nil in Hin].
Defined.

Lemma gateway_stalls_on_64k_witness :
  gw_process_data quiet_env idle_ctx (conn_with ([0; 1; 0; 0; #"O"] ++ replicate 100 0))
  = Some (idle_ctx, conn_with ([0; 1; 0; 0; #"O"] ++ replicate 100 0)).
Proof.
  destruct (conn_with_ok ([0; 1; 0; 0; #"O"] ++ replicate 100 0) ltac:(done)) as [Hwf Hr].
  apply gateway_stalls_on_64k; [done|]. by rewrite Hr.
Defined.
