(* ===== verification/GatewayOps.v ===== *)
(** * Admission, responses and connection slots of the gateway

    Properties of the other operations of the gateway model: the rate limit
    and the idempotency ring of [gw_push_order], the byte stream of the
    response path, and the slots of the connection table through the rounds
    of the gateway thread. *)

From Stdlib Require Import Ascii.
From S2P Require Import Prelude Queue CTypes GwRing GwParse Gateway GatewayFrames.

(** ** Admission *)

Section admission.
Implicit Types (ctx : gw_ctx_t) (req : bt_order_request_t).

(** The orders in the OMS queue. *)
Definition out_msgs ctx : list bt_gw_oms_msg_t := contents (x_out_queue ctx).

Definition order_msg req : bt_gw_oms_msg_t := GwOmsMsg #"O" req zero_cancel 0.

Definition out_wf ctx : Prop :=
  queue_wf (x_out_queue ctx) /\ zlen (x_idem_ring ctx) = GW_IDEM_RING_SIZE.

(** The slot of a request in the idempotency ring. *)
Definition idem_slot (id : Z) : Z := Z.land id (GW_IDEM_RING_SIZE - 1).

Lemma idem_slot_range id : 0 <= idem_slot id < GW_IDEM_RING_SIZE.
Proof.
  unfold idem_slot. change (GW_IDEM_RING_SIZE - 1) with (2 ^ 13 - 1).
  rewrite land_mask by lia. by apply Z.mod_pos_bound.
Qed.

(** What one admission does: nothing, or one message is offered to the queue
    and the idempotency slot is taken. *)
Inductive admitted (now start count : Z) ctx req : gw_ctx_t -> Z -> Z -> bool -> Prop :=
  | admit_no start' count' :
      (start', count') = (if 1000000000 <? u64 (now - start) then (now, 0) else (start, count)) ->
      admitted now start count ctx req ctx start' count' false
  | admit_yes start' count' q :
      (start', count') = (if 1000000000 <? u64 (now - start) then (now, 0) else (start, count)) ->
      count' < BT_CFG_RATE_LIMIT_RPS ->
      (rq_request_id req <> 0 ->
         (x_idem_ring ctx).[idem_slot (rq_request_id req)] <> rq_request_id req) ->
      snd (MPSC_PUSH (order_msg req) (x_out_queue ctx)) = q ->
      admitted now start count ctx req
        (set_out q (u64 (x_orders_received ctx + 1))
           (if rq_request_id req =? 0 then x_idem_ring ctx
            else (x_idem_ring ctx).[idem_slot (rq_request_id req) <- rq_request_id req]) ctx)
        start' (count' + 1) true.

Lemma admit_cases now start count ctx req :
  exists ctx' s n b, admission now start count ctx req = (ctx', s, n) /\
    admitted now start count ctx req ctx' s n b.
Proof.
  unfold admission.
  destruct (if 1000000000 <? u64 (now - start) then (now, 0) else (start, count))
    as [s n] eqn:Er.
  destruct (Z.ltb_spec n BT_CFG_RATE_LIMIT_RPS) as [Hn|Hn].
  2:{ eexists _, _, _, _. split; [done|]. by apply admit_no. }
  fold (idem_slot (rq_request_id req)).
  destruct (negb (rq_request_id req =? 0) &&
    ((x_idem_ring ctx).[idem_slot (rq_request_id req)] =? rq_request_id req)) eqn:E.
  { eexists _, _, _, _. split; [done|]. by apply admit_no. }
  eexists _, _, _, _. split; [|by eapply admit_yes; [done|done| |done];
    intros Hid Heq; rewrite Heq, Z.eqb_refl, (proj2 (Z.eqb_neq _ _) Hid) in E].
  by destruct (rq_request_id req =? 0).
Qed.

(** An admission appends at most its own message to the queue. *)
Lemma admitted_out now start count ctx req ctx' s n b :
  out_wf ctx -> admitted now start count ctx req ctx' s n b ->
  out_wf ctx' /\
  (out_msgs ctx' = out_msgs ctx \/ b = true /\ out_msgs ctx' = out_msgs ctx ++ [order_msg req]).
Proof.
  intros [Hq Hi] Ha. destruct Ha as [|? ? q ? ? ? Hp]; [by split; [|left]|].
  destruct (MPSC_PUSH (order_msg req) (x_out_queue ctx)) as [ok q'] eqn:E. simpl in Hp. subst q'.
  destruct (mpsc_push_spec [] _ _ _ _ Hq E) as (Hq' & _ & _ & Hc).
  split.
  - split; [done|]. simpl. destruct (_ =? 0); [done|]. by rewrite zlen_arr_set.
  - unfold out_msgs; simpl. rewrite Hc. destruct ok; [by right|left; by rewrite app_nil_r].
Qed.

(** ** Sequences of orders on one connection *)

Fixpoint push_orders (calls : list (Z * bt_order_request_t)) ctx (c : gw_conn_t)
  : gw_ctx_t * gw_conn_t :=
  match calls with
  | [] => (ctx, c)
  | (now, req) :: calls =>
      let '(ctx, c) := gw_push_order now ctx c req in push_orders calls ctx c
  end.

(** The orders of a list of calls that reached the queue. *)
Definition appended ctx ctx' (msgs : list bt_gw_oms_msg_t) : Prop :=
  out_msgs ctx' = out_msgs ctx ++ msgs.

(** The clock does not run backwards and stays within a span. *)
Fixpoint clock_ok (t t1 : Z) (calls : list (Z * bt_order_request_t)) : Prop :=
  match calls with
  | [] => True
  | (now, _) :: calls => t <= now <= t1 /\ clock_ok now t1 calls
  end.

Lemma clock_ok_weaken t t' t1 calls : t' <= t -> clock_ok t t1 calls -> clock_ok t' t1 calls.
Proof. destruct calls as [|[now req] calls]; simpl; [done|]. intros ? [? ?]. split; [lia|done]. Qed.

(** Within one rate window. *)
Lemma push_orders_window calls ctx c t t1 :
  out_wf ctx -> 0 <= c_rate_window_start c <= t -> t1 < 2 ^ 64 ->
  t1 <= c_rate_window_start c + 1000000000 ->
  0 <= c_rate_count c <= BT_CFG_RATE_LIMIT_RPS -> clock_ok t t1 calls ->
  exists msgs, appended ctx (fst (push_orders calls ctx c)) msgs /\
    out_wf (fst (push_orders calls ctx c)) /\
    zlen msgs <= BT_CFG_RATE_LIMIT_RPS - c_rate_count c.
Proof.
  revert ctx c t. induction calls as [|[now req] calls IH]; intros ctx c t Hwf Hs Ht1 Hw Hc Hclk; simpl.
  { exists []. unfold appended. rewrite app_nil_r. split_and!; try done. change (zlen []) with 0. lia. }
  destruct Hclk as [Hnow Hclk]. rewrite push_order_admit.
  destruct (admit_cases now (c_rate_window_start c) (c_rate_count c) ctx req)
    as (ctx' & s & n & b & -> & Ha).
  destruct (admitted_out _ _ _ _ _ _ _ _ _ Hwf Ha) as [Hwf' Hmsgs].
  assert (s = c_rate_window_start c /\
    n = c_rate_count c + (if b then 1 else 0) /\ n <= BT_CFG_RATE_LIMIT_RPS) as (-> & -> & Hle).
  { assert ((1000000000 <? u64 (now - c_rate_window_start c)) = false) as Hno.
    { rewrite u64_small by (unfold is_u64; lia). apply Z.ltb_ge. lia. }
    inversion Ha as [? ? Heq|? ? ? Heq Hlt]; subst; rewrite Hno in Heq; simplify_eq; lia. }
  destruct (IH ctx' (set_rate (c_rate_window_start c) (c_rate_count c + (if b then 1 else 0)) c) now)
    as (msgs & Happ & Hwf'' & Hlen); simpl; try done; try lia.
  { destruct b; lia. }
  simpl in Hlen. unfold appended in *. destruct Hmsgs as [Heq|[-> Heq]]; rewrite Heq in Happ.
  - exists msgs. split_and!; try done. destruct b; lia.
  - exists (order_msg req :: msgs). rewrite <- app_assoc in Happ. split_and!; try done.
    rewrite zlen_cons. lia.
Qed.

(** Within any span of one second the window is restarted at most once. *)
Lemma push_orders_second calls ctx c t t1 :
  out_wf ctx -> 0 <= c_rate_window_start c <= t -> t1 < 2 ^ 64 -> t1 <= t + 1000000000 ->
  0 <= c_rate_count c <= BT_CFG_RATE_LIMIT_RPS -> clock_ok t t1 calls ->
  exists msgs, appended ctx (fst (push_orders calls ctx c)) msgs /\
    zlen msgs <= 2 * BT_CFG_RATE_LIMIT_RPS - c_rate_count c.
Proof.
  revert ctx c t. induction calls as [|[now req] calls IH]; intros ctx c t Hwf Hs Ht1 Hw Hc Hclk; simpl.
  { exists []. unfold appended. rewrite app_nil_r. split_and!; try done. change (zlen []) with 0.
    unfold BT_CFG_RATE_LIMIT_RPS in *. lia. }
  destruct Hclk as [Hnow Hclk]. rewrite push_order_admit.
  destruct (admit_cases now (c_rate_window_start c) (c_rate_count c) ctx req)
    as (ctx' & s & n & b & -> & Ha).
  destruct (admitted_out _ _ _ _ _ _ _ _ _ Hwf Ha) as [Hwf' Hmsgs].
  assert (exists msgs, appended ctx' (fst (push_orders calls ctx' (set_rate s n c))) msgs /\
    zlen msgs + (if b then 1 else 0) <= 2 * BT_CFG_RATE_LIMIT_RPS - c_rate_count c)
    as (msgs & Happ & Hlen).
  { destruct (Z.ltb_spec 1000000000 (u64 (now - c_rate_window_start c))) as [Hr|Hno].
    - assert (s = now /\ n = (if b then 1 else 0)) as [-> ->].
      { rewrite <- Z.ltb_lt in Hr.
        inversion Ha as [? ? Heq|? ? ? Heq Hlt]; subst; rewrite Hr in Heq; simplify_eq; lia. }
      destruct (push_orders_window calls ctx' (set_rate now (if b then 1 else 0) c) now t1)
        as (msgs & Happ & _ & Hlen); simpl; try done; try lia.
      { destruct b; unfold BT_CFG_RATE_LIMIT_RPS; lia. }
      exists msgs. split; [done|]. simpl in Hlen. destruct b; lia.
    - rewrite <- Z.ltb_ge in Hno.
      assert (s = c_rate_window_start c /\ n = c_rate_count c + (if b then 1 else 0) /\
        n <= BT_CFG_RATE_LIMIT_RPS) as (-> & -> & Hle).
      { inversion Ha as [? ? Heq|? ? ? Heq Hlt]; subst; rewrite Hno in Heq; simplify_eq; lia. }
      destruct (IH ctx' (set_rate (c_rate_window_start c) (c_rate_count c + (if b then 1 else 0)) c) t)
        as (msgs & Happ & Hlen); simpl; try done; try lia.
      { destruct b; lia. }
      { eapply clock_ok_weaken; [|done]. lia. }
      exists msgs. split; [done|]. simpl in Hlen. destruct b; lia. }
  unfold appended in *. destruct Hmsgs as [Heq|[-> Heq]]; rewrite Heq in Happ.
  - exists msgs. split; [done|]. destruct b; lia.
  - exists (order_msg req :: msgs). rewrite <- app_assoc in Happ. split; [done|].
    rewrite zlen_cons. lia.
Qed.

End admission.

(** ** Idempotency *)

Section idempotency.
Implicit Types (ctx : gw_ctx_t).

(** Orders of any connections, one after the other. *)
Fixpoint push_many (calls : list (Z * gw_conn_t * bt_order_request_t)) ctx : gw_ctx_t :=
  match calls with
  | [] => ctx
  | (now, c, req) :: calls => push_many calls (fst (gw_push_order now ctx c req))
  end.

Definition call_id (call : Z * gw_conn_t * bt_order_request_t) : Z := rq_request_id (snd call).

Definition nonzero_ids (msgs : list bt_gw_oms_msg_t) : list Z :=
  List.filter (fun id => negb (id =? 0)) (map (fun m => rq_request_id (gm_request m)) msgs).

(** No two different nonzero identifiers of the list share a slot. *)
Definition collision_free (ids : list Z) : Prop :=
  forall a b, a ∈ ids -> b ∈ ids -> a <> 0 -> b <> 0 -> idem_slot a = idem_slot b -> a = b.

Lemma nonzero_ids_cons req msgs :
  nonzero_ids (order_msg req :: msgs)
  = if rq_request_id req =? 0 then nonzero_ids msgs else rq_request_id req :: nonzero_ids msgs.
Proof. unfold nonzero_ids. simpl. by destruct (rq_request_id req =? 0). Qed.

(** The ring remembers the identifiers in their slots. *)
Definition remembered (held : list Z) ctx : Prop :=
  forall id, id ∈ held -> id <> 0 /\ (x_idem_ring ctx).[idem_slot id] = id.

Lemma collision_free_sub ids ids' : collision_free ids -> ids' ⊆ ids -> collision_free ids'.
Proof. intros Hcf Hsub a b Ha Hb. apply Hcf; by apply Hsub. Qed.

Lemma remembered_cons held id ctx q n :
  out_wf ctx -> id <> 0 -> collision_free (id :: held) -> remembered held ctx -> id ∉ held ->
  remembered (id :: held) (set_out q n ((x_idem_ring ctx).[idem_slot id <- id]) ctx).
Proof.
  intros [_ Hlen] Hid Hcf Hheld Hnew i Hin. pose proof (idem_slot_range id). simpl.
  apply elem_of_cons in Hin as [->|Hin].
  - split; [done|]. apply arr_get_set_eq. by rewrite Hlen.
  - destruct (Hheld i Hin) as [Hi0 Hi]. split; [done|].
    rewrite arr_get_set_ne; [done|lia|apply idem_slot_range|].
    intros Heq. apply Hcf in Heq; [congruence|by left|by right|done|done].
Qed.

(** After a call the ring also remembers the order's identifier if it was
    passed on, which it had not been before. *)
Lemma admitted_remembers now start count ctx req ctx' s n b held :
  out_wf ctx -> admitted now start count ctx req ctx' s n b ->
  collision_free (rq_request_id req :: held) -> remembered held ctx ->
  exists held', remembered held' ctx' /\ held ⊆ held' /\ held' ⊆ rq_request_id req :: held /\
    (b = true -> rq_request_id req <> 0 -> rq_request_id req ∈ held' /\ rq_request_id req ∉ held).
Proof.
  intros Hwf Ha Hcf Hheld.
  destruct Ha as [s' n' _|s' n' q _ _ Hfresh _]; [by exists held; split_and!; set_solver|].
  destruct (Z.eqb_spec (rq_request_id req) 0) as [E|Hid].
  - exists held. split_and!; [done|done|set_solver|done].
  - assert (rq_request_id req ∉ held) as Hnew by (intros Hin; apply (Hfresh Hid), Hheld, Hin).
    exists (rq_request_id req :: held). split_and!; [by apply remembered_cons|set_solver|done|].
    intros _ _. split; [left|done].
Qed.

Lemma push_many_nodup calls ctx held :
  out_wf ctx -> collision_free (held ++ map call_id calls) -> remembered held ctx ->
  exists msgs, appended ctx (push_many calls ctx) msgs /\ NoDup (nonzero_ids msgs) /\
    (forall id, id ∈ nonzero_ids msgs -> id ∉ held).
Proof.
  revert ctx held. induction calls as [|[[now c] req] calls IH]; intros ctx held Hwf Hcf Hheld; simpl.
  { exists []. unfold appended. rewrite app_nil_r. split_and!; [done|constructor|].
    intros id Hin. by apply elem_of_nil in Hin. }
  rewrite push_order_admit.
  destruct (admit_cases now (c_rate_window_start c) (c_rate_count c) ctx req)
    as (ctx' & s & n & b & -> & Ha). simpl.
  destruct (admitted_out _ _ _ _ _ _ _ _ _ Hwf Ha) as [Hwf' Hmsgs]. simpl in Hcf.
  destruct (admitted_remembers _ _ _ _ _ _ _ _ _ held Hwf Ha) as (held' & Hheld' & Hsub & Hsup & Hb);
    [eapply collision_free_sub; [exact Hcf|set_solver]|done|].
  destruct (IH ctx' held' Hwf') as (msgs & Happ & Hnd & Hdis);
    [eapply collision_free_sub; [exact Hcf|set_solver]|done|].
  unfold appended in *. destruct Hmsgs as [Hm|[-> Hm]]; rewrite Hm in Happ.
  { exists msgs. split_and!; [done|done|]. intros id Hin Hh. apply (Hdis id Hin), Hsub, Hh. }
  exists (order_msg req :: msgs). rewrite <- app_assoc in Happ. split; [done|].
  rewrite nonzero_ids_cons. destruct (Z.eqb_spec (rq_request_id req) 0) as [E|Hid]; [set_solver|].
  destruct (Hb eq_refl Hid) as [Hin Hnew]. split; [constructor; [|done]; intros Hin'; by apply (Hdis _ Hin')|].
  intros id [->|Hin']%elem_of_cons; [done|]. intros Hh. apply (Hdis id Hin'), Hsub, Hh.
Qed.

End idempotency.

(** ** The response path *)

Section responses.
Implicit Types (c : gw_conn_t) (resp : bt_order_response_t).

(** The bytes queued for the client. *)
Definition outgoing c : list Z := bytes_of 16 (c_send c).

Lemma zlen_response_frame resp : order_response_wf resp -> zlen (response_frame resp) = 93.
Proof.
  intros Hwf. unfold response_frame. rewrite !zlen_app, length_order_response_image by done. done.
Qed.

(** A response is queued whole when 93 bytes are free, and not at all
    otherwise. *)
Lemma send_to_conn_spec c resp :
  conn_wf c -> order_response_wf resp ->
  (zlen (outgoing c) + 93 < 2 ^ 16 /\ conn_wf (gw_send_to_conn c resp) /\
   outgoing (gw_send_to_conn c resp) = outgoing c ++ response_frame resp) \/
  (2 ^ 16 <= zlen (outgoing c) + 93 /\ gw_send_to_conn c resp = c).
Proof.
  intros [Hr Hs] Hresp. unfold outgoing. rewrite zlen_bytes_of by lia.
  unfold gw_send_to_conn. rewrite send_size_pow, writable_len by (lia || done).
  change (sizeof_order_response + 5) with 93.
  destruct (Z.ltb_spec (2 ^ 16 - 1 - bring_len 16 (c_send c)) 93) as [Hlt|Hge];
    [right; split; [lia|done]|left].
  destruct (put_bytes_append 16 ltac:(lia) (c_send c) (response_frame resp) Hs) as [Hwf Hb].
  { rewrite zlen_response_frame by done. lia. }
  assert (Bring
      (put_bytes
         (put_bytes
            (put_bytes (r_buf (c_send c)) (r_tail (c_send c)) (2 ^ 16 - 1)
               (be_bytes 4 (5 + sizeof_order_response)))
            (r_tail (c_send c) + 4) (2 ^ 16 - 1) [ #"R" ])
         (r_tail (c_send c) + 5) (2 ^ 16 - 1) (order_response_image resp))
      (r_head (c_send c))
      (Z.land (u64 (r_tail (c_send c) + 5 + sizeof_order_response)) (2 ^ 16 - 1))
    = Bring (put_bytes (r_buf (c_send c)) (r_tail (c_send c)) (2 ^ 16 - 1) (response_frame resp))
        (r_head (c_send c)) ((r_tail (c_send c) + zlen (response_frame resp)) mod 2 ^ 16)) as Heq.
  { rewrite zlen_response_frame by done. rewrite mask_mod by lia. unfold response_frame.
    rewrite !put_bytes_app. f_equal; [|f_equal; unfold sizeof_order_response; lia].
    change (zlen (be_bytes 4 (5 + sizeof_order_response))) with 4. change (zlen [ #"R" ]) with 1.
    by replace (r_tail (c_send c) + 4 + 1) with (r_tail (c_send c) + 5) by lia. }
  rewrite Heq. split; [lia|]. split; [by split|done].
Qed.

(** A flush hands bytes of the front of the queue to the socket. *)
Lemma flush_send_spec outs c c' :
  conn_wf c -> gw_flush_send outs c = Some c' ->
  conn_wf c' /\ c_wire c' ++ outgoing c' = c_wire c ++ outgoing c /\
  c_fd c' = c_fd c /\ c_recv c' = c_recv c.
Proof.
  revert c. induction outs as [|o outs IH]; intros c [Hr Hs] Hf; simpl in Hf.
  { destruct (_ =? _); by simplify_eq. }
  destruct (Z.eqb_spec (r_head (c_send c)) (r_tail (c_send c))) as [Heq|Hne]; [by simplify_eq|].
  destruct o as [n| |]; [|by simplify_eq..].
  rewrite send_size_pow in Hf. rewrite (readable_len 16 ltac:(lia) _ Hs) in Hf.
  assert (0 < bring_len 16 (c_send c)) as Hpos.
  { pose proof (bring_len_range 16 ltac:(lia) (c_send c)).
    destruct (decide (bring_len 16 (c_send c) = 0)) as [H0|]; [|lia].
    pose proof (tail_of_len 16 ltac:(lia) _ Hs) as Htl. destruct Hs as (_ & Hh & _).
    rewrite H0, Z.add_0_r, Z.mod_small in Htl by lia. congruence. }
  pose proof Hs as (_ & Hh & _).
  replace (2 ^ 16 - 1 + 1 - r_head (c_send c)) with (2 ^ 16 - r_head (c_send c)) in Hf by lia.
  rewrite (u64_small (2 ^ 16 - r_head (c_send c))) in Hf by (unfold is_u64; lia).
  set (tw := if _ <? _ then _ else _) in Hf. set (k := Z.max 1 _) in Hf.
  assert (0 < k <= bring_len 16 (c_send c) /\ r_head (c_send c) + k <= 2 ^ 16) as [Hk Hkw].
  { unfold k, tw. destruct (Z.ltb_spec (2 ^ 16 - r_head (c_send c)) (bring_len 16 (c_send c))); lia. }
  destruct (advance_bytes 16 ltac:(lia) (c_send c) k Hs ltac:(lia)) as [Hwf Hb].
  apply IH in Hf as (Hwf' & Hw & Hfd & Hrc); [|by split].
  split_and!; try done. rewrite Hw. unfold outgoing; simpl.
  rewrite (mem_read_head 16 ltac:(lia)) by (try done; lia).
  unfold gw_ring_advance in Hb. rewrite Hb. by rewrite <- app_assoc, take_drop.
Qed.

(** The writes and flushes of a connection's send ring, in order. *)
Inductive send_op := SRespond (resp : bt_order_response_t) | SFlush (outs : list send_out).

Fixpoint run_sends (ops : list send_op) c : option gw_conn_t :=
  match ops with
  | [] => Some c
  | SRespond resp :: ops => run_sends ops (gw_send_to_conn c resp)
  | SFlush outs :: ops =>
      match gw_flush_send outs c with
      | Some c => run_sends ops c
      | None => None
      end
  end.

Definition responses (ops : list send_op) : list bt_order_response_t :=
  omap (fun op => match op with SRespond r => Some r | SFlush _ => None end) ops.

Lemma send_to_conn_wire c resp : c_wire (gw_send_to_conn c resp) = c_wire c.
Proof. unfold gw_send_to_conn. by destruct (_ <? _). Qed.

Lemma run_sends_stream ops c c' :
  conn_wf c -> Forall order_response_wf (responses ops) -> run_sends ops c = Some c' ->
  exists acc, acc `sublist_of` responses ops /\ conn_wf c' /\
    c_wire c' ++ outgoing c' = c_wire c ++ outgoing c ++ concat (map response_frame acc).
Proof.
  revert c. induction ops as [|[resp|outs] ops IH]; intros c Hwf Hresp Hrun; simpl in *.
  - simplify_eq. exists []. simpl. rewrite app_nil_r. done.
  - inversion Hresp as [|? ? Hr Hrs]; subst.
    destruct (send_to_conn_spec c resp Hwf Hr) as [(_ & Hwf' & Hout)|[_ Heq]].
    + destruct (IH _ Hwf' Hrs Hrun) as (acc & Hsub & Hwf'' & Hstream).
      exists (resp :: acc). split; [by apply sublist_skip|]. split; [done|].
      rewrite Hstream, Hout, send_to_conn_wire. simpl. by rewrite <- !app_assoc.
    + rewrite Heq in Hrun. destruct (IH _ Hwf Hrs Hrun) as (acc & Hsub & Hwf'' & Hstream).
      exists acc. split; [by apply sublist_cons|]. done.
  - destruct (gw_flush_send outs c) as [c1|] eqn:Hf; [|done].
    destruct (flush_send_spec outs c c1 Hwf Hf) as (Hwf1 & Hw & _ & _).
    destruct (IH _ Hwf1 Hresp Hrun) as (acc & Hsub & Hwf'' & Hstream).
    exists acc. split; [done|]. split; [done|]. by rewrite Hstream, !app_assoc, Hw.
Qed.

End responses.

(** ** The connection table *)

Section table.
Implicit Types (ctx : gw_ctx_t) (c : gw_conn_t).

Definition is_open c : bool := 0 <=? c_fd c.

Definition open_count (cs : list gw_conn_t) : Z := zlen (List.filter is_open cs).

(** A slot is well formed when its rings are and it is free or open. *)
Definition slot_ok c : Prop := conn_wf c /\ -1 <= c_fd c.

Record ctx_ok ctx : Prop := {
  k_conns : Forall slot_ok (x_conns ctx);
  k_max : zlen (x_conns ctx) = x_max_conns ctx;
  k_active : x_active_conns ctx = open_count (x_conns ctx);
  k_out : out_wf ctx;
  k_resp : queue_wf (x_response_queue ctx);
  k_resps : Forall order_response_wf (contents (x_response_queue ctx));
}.

(** What the receive path leaves alone. *)
Definition same_table ctx ctx' : Prop :=
  x_conns ctx' = x_conns ctx /\ x_active_conns ctx' = x_active_conns ctx /\
  x_response_queue ctx' = x_response_queue ctx /\ x_max_conns ctx' = x_max_conns ctx.

Lemma open_count_set cs i c :
  0 <= i < zlen cs ->
  open_count cs.[i <- c]
  = open_count cs - (if is_open cs.[i] then 1 else 0) + (if is_open c then 1 else 0).
Proof.
  intros Hi. unfold open_count, arr_set.
  rewrite insert_take_drop by (unfold zlen in Hi; lia).
  pose proof (take_drop_middle cs _ _ (arr_lookup cs i Hi)) as Hl.
  assert (zlen (List.filter is_open cs)
    = zlen (List.filter is_open (take (Z.to_nat i) cs)) + (if is_open cs.[i] then 1 else 0)
      + zlen (List.filter is_open (drop (S (Z.to_nat i)) cs))) as ->.
  { rewrite <- Hl at 1. rewrite List.filter_app, zlen_app. simpl.
    destruct (is_open cs.[i]); rewrite ?zlen_cons; lia. }
  rewrite List.filter_app, zlen_app. simpl. destruct (is_open c); rewrite ?zlen_cons; lia.
Qed.

Lemma slot_ok_set cs i c : Forall slot_ok cs -> slot_ok c -> Forall slot_ok cs.[i <- c].
Proof. intros Hcs Hc. by apply Forall_insert. Qed.

Lemma slot_ok_get cs i : Forall slot_ok cs -> 0 <= i < zlen cs -> slot_ok cs.[i].
Proof. intros Hcs Hi. eapply Forall_lookup_1; [done|]. by apply arr_lookup. Qed.

(** ** The receive path on a well-formed context *)

Lemma push_out_ok msg ctx q ok orders :
  out_wf ctx -> MPSC_PUSH msg (x_out_queue ctx) = (ok, q) ->
  out_wf (set_out q orders (x_idem_ring ctx) ctx).
Proof.
  intros [Hq Hi] Hp. split; [|done]. by destruct (mpsc_push_spec [] _ _ _ _ Hq Hp).
Qed.

Lemma handle_frame_ctx e ctx c ty p ctx' c' b :
  out_wf ctx -> handle_frame e ctx c ty p = (ctx', c', b) ->
  out_wf ctx' /\ same_table ctx ctx' /\ c_fd c' = c_fd c.
Proof.
  intros Hwf. unfold handle_frame.
  repeat case_match; intros; simplify_eq; try done;
    try match goal with H : gw_push_order ?n _ _ ?r = _ |- _ =>
      rewrite push_order_admit in H;
      destruct (admit_cases n (c_rate_window_start c) (c_rate_count c) ctx r)
        as (? & ? & ? & ? & Hadm & Ha); rewrite Hadm in H; simplify_eq;
      split; [by eapply admitted_out|]; by destruct Ha end.
  split; [|done]. by eapply push_out_ok.
Qed.

Lemma run_frames_ctx fuel env ctx c l ctx' c' rest n st :
  out_wf ctx -> run_frames fuel env ctx c l = Some (ctx', c', rest, n, st) ->
  out_wf ctx' /\ same_table ctx ctx' /\ c_fd c' = c_fd c.
Proof.
  revert env ctx c l n. induction fuel as [|fuel IH]; intros env ctx c l n Hwf Hr; [done|].
  cbn [run_frames] in Hr. destruct (next_frame l) as [| |ty p r]; [by simplify_eq..|].
  destruct (handle_frame (env O) ctx c ty p) as [[ctx1 c1] b] eqn:Hh.
  destruct (handle_frame_ctx _ _ _ _ _ _ _ _ Hwf Hh) as (Hwf1 & Ht1 & Hfd1).
  destruct b; [|by simplify_eq].
  destruct (run_frames fuel _ ctx1 c1 r) as [[[[[? ?] ?] ?] ?]|] eqn:Hr'; [|done].
  simplify_eq. destruct (IH _ _ _ _ _ Hwf1 Hr') as (Hwf2 & Ht2 & Hfd2).
  split; [done|]. split; [|congruence].
  destruct Ht1 as (? & ? & ? & ?), Ht2 as (? & ? & ? & ?). split_and!; congruence.
Qed.

Lemma process_data_ok env ctx c :
  conn_wf c -> out_wf ctx ->
  exists ctx' c', gw_process_data env ctx c = Some (ctx', c') /\ conn_wf c' /\
    out_wf ctx' /\ same_table ctx ctx' /\ c_fd c' = c_fd c.
Proof.
  intros Hc Hwf.
  destruct (process_data_refines env ctx c Hc) as (x & k & rest & n & st & c' & Hrun & Hp & Hc' & Hs & _).
  destruct (run_frames_ctx _ _ _ _ _ _ _ _ _ _ Hwf Hrun) as (Hwf' & Ht & Hfd).
  exists x, c'. split_and!; try done. unfold same_but_recv in Hs. rewrite <- Hs. done.
Qed.

Lemma same_table_trans ctx1 ctx2 ctx3 :
  same_table ctx1 ctx2 -> same_table ctx2 ctx3 -> same_table ctx1 ctx3.
Proof. intros (? & ? & ? & ?) (? & ? & ? & ?). split_and!; congruence. Qed.

(** Filling the ring by a [read]. *)
Lemma read_fill c data :
  conn_wf c -> 0 < zlen data ->
  zlen data <= 2 ^ 16 - 1 - bring_len 16 (c_recv c) -> r_tail (c_recv c) + zlen data <= 2 ^ 16 ->
  let r := Bring (mem_write (r_buf (c_recv c)) (r_tail (c_recv c)) data) (r_head (c_recv c))
             (Z.land (u64 (r_tail (c_recv c) + zlen data)) (2 ^ 16 - 1)) in
  conn_wf (set_recv r c) /\ received (set_recv r c) = received c ++ data.
Proof.
  intros [Hr Hs] Hd Hroom Hphys r. unfold received, conn_wf, r; simpl.
  rewrite (mem_write_put_bytes 16 ltac:(lia)) by (try done; destruct Hr as (_ & _ & ?); lia).
  rewrite mask_mod by lia.
  destruct (put_bytes_append 16 ltac:(lia) (c_recv c) data Hr Hroom) as [Hwf Hb]. by split_and!.
Qed.

Lemma read_loop_ok outs ctx c ctx' c' :
  conn_wf c -> out_wf ctx -> gw_read_loop outs ctx c = Some (ctx', c') ->
  conn_wf c' /\ out_wf ctx' /\ same_table ctx ctx' /\ c_fd c' = c_fd c.
Proof.
  revert ctx c. induction outs as [|o outs IH]; intros ctx c Hc Hwf H; simpl in H.
  { destruct (_ =? 0); by simplify_eq. }
  rewrite recv_size_pow in H. rewrite (writable_len 16 ltac:(lia) _ (proj1 Hc)) in H.
  pose proof (proj1 Hc) as (_ & _ & Ht).
  rewrite u64_small in H by (unfold is_u64; lia).
  set (tr := if 2 ^ 16 - r_tail (c_recv c) <? _ then _ else _) in H.
  destruct (Z.eqb_spec tr 0) as [|Htr]; [by simplify_eq|].
  destruct o as [data now env| | |]; [|by simplify_eq..].
  destruct (take (Z.to_nat tr) data) as [|b d] eqn:Hd; [by simplify_eq|]. rewrite <- Hd in H.
  assert (0 < tr /\ tr <= 2 ^ 16 - r_tail (c_recv c) /\
    tr <= 2 ^ 16 - 1 - bring_len 16 (c_recv c)) as Hbnd.
  { unfold tr in *. pose proof (bring_len_range 16 ltac:(lia) (c_recv c)).
    destruct (Z.ltb_spec (2 ^ 16 - r_tail (c_recv c)) (2 ^ 16 - 1 - bring_len 16 (c_recv c))); lia. }
  assert (0 < zlen (take (Z.to_nat tr) data) <= tr) as Hlen.
  { split; [rewrite Hd; unfold zlen; simpl; lia|]. unfold zlen. rewrite length_take. lia. }
  destruct (read_fill c (take (Z.to_nat tr) data) Hc) as [Hc1 _]; [lia..|].
  match type of H with context [gw_process_data env ctx ?k] =>
    destruct (process_data_ok env ctx k) as (ctx1 & c1 & Hp & Hc1' & Hwf1 & Ht1 & Hfd1);
    [split; apply Hc1|done|rewrite Hp in H] end.
  destruct (IH ctx1 c1 Hc1' Hwf1 H) as (? & ? & ? & ?).
  split_and!; try done; [by eapply same_table_trans|]. simpl in Hfd1. congruence.
Qed.

End table.

(** ** Orders that come as fast as they are let through *)

Section burst.
Implicit Types (ctx : gw_ctx_t) (req : bt_order_request_t).

Definition rate_roll (now : Z) (c : gw_conn_t) : Z * Z :=
  if 1000000000 <? u64 (now - c_rate_window_start c) then (now, 0)
  else (c_rate_window_start c, c_rate_count c).

(** The queue has room for [n] messages more. *)
Definition out_room ctx (n : Z) : Prop := out_wf ctx /\ zlen (out_msgs ctx) + n <= q_mask (x_out_queue ctx).

Lemma push_one now ctx c req n :
  out_room ctx (n + 1) -> 0 <= n -> rq_request_id req = 0 -> (rate_roll now c).2 < BT_CFG_RATE_LIMIT_RPS ->
  exists ctx', gw_push_order now ctx c req = (ctx', set_rate (rate_roll now c).1 ((rate_roll now c).2 + 1) c) /\
    out_room ctx' n /\ appended ctx ctx' [order_msg req].
Proof.
  intros [[Hq Hi] Hroom] Hn Hid Hlt. rewrite push_order_admit. unfold admission. fold (rate_roll now c).
  destruct (rate_roll now c) as [s k]. cbn [fst snd] in *. rewrite (proj2 (Z.ltb_lt _ _) Hlt), Hid, Z.eqb_refl.
  cbn [negb andb]. eexists. split; [reflexivity|]. fold (order_msg req).
  destruct (MPSC_PUSH (order_msg req) (x_out_queue ctx)) as [ok q'] eqn:E.
  destruct (mpsc_push_spec [] _ _ _ _ Hq E) as (Hq' & Hm & -> & Hc). unfold out_msgs in *.
  rewrite bool_decide_true in Hc by lia. unfold out_room, out_wf, appended, out_msgs. cbn [snd set_out x_out_queue x_idem_ring].
  rewrite Hm, Hc, zlen_app. change (zlen [_]) with 1. split_and!; try done. lia.
Qed.

Lemma push_burst n now ctx c req m :
  out_room ctx (m + Z.of_nat n) -> 0 <= m -> rq_request_id req = 0 ->
  u64 (now - c_rate_window_start c) <= 1000000000 -> c_rate_count c + Z.of_nat n <= BT_CFG_RATE_LIMIT_RPS ->
  exists ctx', push_orders (replicate n (now, req)) ctx c =
      (ctx', set_rate (c_rate_window_start c) (c_rate_count c + Z.of_nat n) c) /\
    out_room ctx' m /\ appended ctx ctx' (replicate n (order_msg req)).
Proof.
  intros Hroom Hm Hid Hw. revert ctx c Hroom Hw. induction n as [|n IH]; intros ctx c Hroom Hw Hle.
  { exists ctx. rewrite Z.add_0_r in *. split_and!; [by destruct c|done|]. unfold appended. by rewrite app_nil_r. }
  assert (rate_roll now c = (c_rate_window_start c, c_rate_count c)) as Hroll.
  { unfold rate_roll. by rewrite (proj2 (Z.ltb_ge _ _) Hw). }
  destruct (push_one now ctx c req (m + Z.of_nat n)) as (ctx1 & E1 & Hroom1 & Happ1);
    [by replace (m + Z.of_nat n + 1) with (m + Z.of_nat (S n)) by lia|lia|done|rewrite Hroll; cbn [snd]; lia|].
  rewrite Hroll in E1. cbn [replicate push_orders]. rewrite E1. cbn [fst snd].
  destruct (IH ctx1 (set_rate (c_rate_window_start c) (c_rate_count c + 1) c)) as (ctx' & E & Hroom' & Happ);
    [done|done|cbn [set_rate c_rate_count]; lia|].
  exists ctx'. rewrite E. cbn [set_rate c_rate_count c_rate_window_start]. split_and!; [|done|].
  - f_equal. unfold set_rate. cbn. f_equal. lia.
  - unfold appended in *. by rewrite Happ, Happ1, <- app_assoc.
Qed.

End burst.

(** ** Properties *)

(** C21: The rate limit that the code keeps: with a clock that does not run
    backwards, the orders of one connection that reach the OMS queue within the
    second from the start of a window are at most 10000 less the count already
    used, and within any other second at most 20000, because the windows are
    fixed and a second can touch two of them. [src/README.md] names 10000 orders
    a second as the limit (and a token bucket as the means);
    [gateway_rate_burst] reaches 20000 within a nanosecond. *)
Theorem gateway_rate_limit (calls : list (Z * bt_order_request_t)) (ctx : gw_ctx_t)
    (c : gw_conn_t) (t : Z) :
  out_wf ctx -> 0 <= c_rate_window_start c <= t -> t + 1000000000 < 2 ^ 64 ->
  0 <= c_rate_count c <= BT_CFG_RATE_LIMIT_RPS -> clock_ok t (t + 1000000000) calls ->
  exists msgs, appended ctx (fst (push_orders calls ctx c)) msgs /\
    zlen msgs <= 2 * BT_CFG_RATE_LIMIT_RPS /\
    (t = c_rate_window_start c -> zlen msgs <= BT_CFG_RATE_LIMIT_RPS - c_rate_count c).
Proof.
  intros Hwf Hs Ht Hc Hclk.
  destruct (push_orders_second calls ctx c t (t + 1000000000)) as (msgs & Happ & Hlen);
    [done|lia|lia|lia|done|done|].
  exists msgs. split; [done|]. split; [lia|]. intros ->.
  destruct (push_orders_window calls ctx c (c_rate_window_start c) (c_rate_window_start c + 1000000000))
    as (msgs' & Happ' & _ & Hlen'); [done|lia|lia|lia|done|done|].
  unfold appended in *. rewrite Happ in Happ'. by apply app_inv_head in Happ' as ->.
Qed.

(** 20000 orders of a connection go through within a nanosecond: 10000 at the
    end of a window and 10000 at the start of the next. *)
Theorem gateway_rate_burst (ctx : gw_ctx_t) (c : gw_conn_t) (req : bt_order_request_t) :
  let t := c_rate_window_start c + 1000000000 in
  out_room ctx 20000 -> rq_request_id req = 0 ->
  0 <= c_rate_window_start c -> t + 1 < 2 ^ 64 -> c_rate_count c = 0 ->
  appended ctx (fst (push_orders (replicate (Z.to_nat 10000) (t, req) ++ replicate (Z.to_nat 10000) (t + 1, req)) ctx c))
    (replicate (Z.to_nat 20000) (order_msg req)).
Proof.
  intros t Hroom Hid Hs Ht Hc. assert (forall l l' ctx c, push_orders (l ++ l') ctx c =
    let '(ctx, c) := push_orders l ctx c in push_orders l' ctx c) as Happ.
  { intros l l'. induction l as [|[now r] l IH]; intros ctx0 c0; [done|]. cbn [app push_orders].
    destruct (gw_push_order now ctx0 c0 r). apply IH. }
  rewrite Happ. unfold BT_CFG_RATE_LIMIT_RPS in *.
  destruct (push_burst (Z.to_nat 10000) t ctx c req 10000) as (ctx1 & -> & Hroom1 & Happ1);
    [done|lia|done|rewrite u64_small; [lia|unfold is_u64; lia]|unfold BT_CFG_RATE_LIMIT_RPS; lia|].
  set (c1 := set_rate _ _ c). assert (rate_roll (t + 1) c1 = (t + 1, 0)) as Hroll.
  { unfold rate_roll. cbn [c1 set_rate c_rate_window_start]. rewrite u64_small by (unfold is_u64; lia).
    by rewrite (proj2 (Z.ltb_lt _ _)) by lia. }
  replace (replicate (Z.to_nat 10000) (t + 1, req)) with ((t + 1, req) :: replicate (Z.to_nat 9999) (t + 1, req))
    by (replace (Z.to_nat 10000) with (S (Z.to_nat 9999)) by lia; done). cbn [push_orders].
  destruct (push_one (t + 1) ctx1 c1 req 9999) as (ctx2 & -> & Hroom2 & Happ2); [done|lia|done|by rewrite Hroll|].
  rewrite Hroll. cbn [fst snd].
  destruct (push_burst (Z.to_nat 9999) (t + 1) ctx2 (set_rate (t + 1) (0 + 1) c1) req 0) as (ctx3 & -> & _ & Happ3);
    [done|lia|done|cbn [set_rate c_rate_window_start]; by rewrite Z.sub_diag|done|].
  unfold appended in *. cbn [fst]. rewrite Happ3, Happ2, Happ1, <- !app_assoc. f_equal.
Qed.

(** C22: Idempotency: as long as no two different request identifiers share a
    slot of the ring (they are equal modulo 8192), no identifier other than
    zero reaches the OMS queue twice, whatever connections the requests come
    from and whenever they come. *)
Theorem gateway_idempotent (calls : list (Z * gw_conn_t * bt_order_request_t)) (ctx : gw_ctx_t) :
  out_wf ctx -> collision_free (map call_id calls) ->
  exists msgs, appended ctx (push_many calls ctx) msgs /\ NoDup (nonzero_ids msgs).
Proof.
  intros Hwf Hcf.
  destruct (push_many_nodup calls ctx [] Hwf Hcf) as (msgs & Happ & Hnd & _); [|by exists msgs].
  intros id Hin. by apply elem_of_nil in Hin.
Qed.

(** An order refused by a full OMS queue is lost for good: the call marks
    its identifier as seen and counts it as received although nothing was
    queued, so a retry of the same request is discarded as a duplicate, even
    when the queue has room again. *)
Theorem gateway_loses_order_when_full (now now' : Z) (ctx : gw_ctx_t) (c c' : gw_conn_t)
    (req : bt_order_request_t) (out : queue bt_gw_oms_msg_t) :
  out_wf ctx -> zlen (out_msgs ctx) = q_mask (x_out_queue ctx) ->
  rq_request_id req <> 0 -> (x_idem_ring ctx).[idem_slot (rq_request_id req)] <> rq_request_id req ->
  u64 (now - c_rate_window_start c) <= 1000000000 -> c_rate_count c < BT_CFG_RATE_LIMIT_RPS ->
  let ctx1 := fst (gw_push_order now ctx c req) in
  let ctx2 := set_out out (x_orders_received ctx1) (x_idem_ring ctx1) ctx1 in
  out_msgs ctx1 = out_msgs ctx /\
  x_orders_received ctx1 = u64 (x_orders_received ctx + 1) /\
  fst (gw_push_order now' ctx2 c' req) = ctx2.
Proof.
  intros Hwf Hfull Hid Hslot Hw Hc. cbv zeta. rewrite !push_order_admit.
  destruct (admit_cases now (c_rate_window_start c) (c_rate_count c) ctx req)
    as (ctx1 & s & n & b & Hadm & Ha). rewrite Hadm. simpl.
  assert (b = true) as ->.
  { destruct b; [done|]. unfold admission in Hadm. rewrite (proj2 (Z.ltb_ge _ _) Hw) in Hadm.
    rewrite (proj2 (Z.ltb_lt _ _) Hc) in Hadm. fold (idem_slot (rq_request_id req)) in Hadm.
    rewrite (proj2 (Z.eqb_neq _ _) Hid), (proj2 (Z.eqb_neq _ _) Hslot) in Hadm. simpl in Hadm.
    inversion Ha; subst. injection Hadm as _ _ Hn. rewrite (proj2 (Z.ltb_ge _ _) Hw) in *.
    simplify_eq. lia. }
  inversion Ha as [|s' n' q Heq Hlt Hfresh Hq Hctx]; subst. destruct Hwf as [Hqwf Hlen].
  split_and!.
  - unfold out_msgs; simpl. unfold MPSC_PUSH. rewrite mpsc_push_retry_eq.
    rewrite spsc_push_full; [done|done|]. unfold out_msgs, zlen in Hfull.
    rewrite length_contents in Hfull. done.
  - done.
  - rewrite (proj2 (Z.eqb_neq _ _) Hid).
    match goal with |- context [admission now' ?s0 ?n0 ?x req] =>
      destruct (admit_cases now' s0 n0 x req) as (x' & s2 & n2 & b2 & Hadm2 & Ha2) end.
    rewrite Hadm2. simpl. inversion Ha2 as [|? ? ? ? ? Hfresh2]; subst; [done|].
    exfalso. apply (Hfresh2 Hid). simpl. apply arr_get_set_eq.
    rewrite Hlen. apply idem_slot_range.
Qed.

(** C23: The response stream: for any sequence of responses and flushes, with
    any partial sends, the bytes given to the socket followed by the bytes
    still queued are what was there before followed by whole frames of a
    subsequence of the responses, in order; a response that does not fit is
    dropped entirely, so the client never sees a torn or interleaved frame. *)
Theorem gateway_response_stream (ops : list send_op) (c c' : gw_conn_t) :
  conn_wf c -> Forall order_response_wf (responses ops) -> run_sends ops c = Some c' ->
  exists acc, acc `sublist_of` responses ops /\ conn_wf c' /\
    c_wire c' ++ outgoing c' = c_wire c ++ outgoing c ++ concat (map response_frame acc).
Proof. apply run_sends_stream. Qed.

(** ** Witnesses *)

Definition sample_request (id : Z) : bt_order_request_t :=
  OrderRequest id 1 (#"A" :: replicate 15 0) 100 10 0 0 0.

Lemma idle_ctx_wf : out_wf idle_ctx.
Proof.
  split; [by apply (queue_init_wf _ 2)|]. unfold idle_ctx; cbn [x_idem_ring]. unfold zlen.
  rewrite length_replicate. by apply Z2Nat.id.
Defined.

Definition sample_calls : list (Z * bt_order_request_t) :=
  [(10, sample_request 5); (20, sample_request 5); (30, sample_request 6)].

Lemma gateway_rate_limit_witness :
  exists msgs, appended idle_ctx (fst (push_orders sample_calls idle_ctx (conn_with []))) msgs /\
    zlen msgs <= 20000.
Proof.
  destruct (gateway_rate_limit sample_calls idle_ctx (conn_with []) 0 idle_ctx_wf)
    as (msgs & Happ & Hlen & _); [done|done|done|simpl; lia|].
  exists msgs. split; [exact Happ|exact Hlen].
Defined.

(** The same gateway with a queue of 32767 entries, and its first window. *)
Definition with_storage (buf : list bt_gw_oms_msg_t) : gw_ctx_t :=
  set_out (QUEUE_INIT buf) 0 (x_idem_ring idle_ctx) idle_ctx.

Definition wide_ctx : gw_ctx_t := with_storage (replicate (Z.to_nat 32768) inhabitant).

Lemma storage_room buf : zlen buf = 2 ^ 15 -> out_room (with_storage buf) 20000.
Proof.
  intros Hl. split; [split; [|apply idle_ctx_wf]|].
  - apply (queue_init_wf _ 15); [lia|exact Hl].
  - change (q_mask (x_out_queue (with_storage buf))) with (u64 (zlen buf - 1)).
    assert (out_msgs (with_storage buf) = []) as -> by done. change (zlen []) with 0. by rewrite Hl.
Qed.

Lemma wide_ctx_room : out_room wide_ctx 20000.
Proof. apply storage_room. unfold zlen. rewrite length_replicate, Z2Nat.id; lia. Qed.

Lemma gateway_rate_burst_witness :
  appended wide_ctx (fst (push_orders (replicate (Z.to_nat 10000) (1000000000, sample_request 0) ++
      replicate (Z.to_nat 10000) (1000000000 + 1, sample_request 0)) wide_ctx (conn_with [])))
    (replicate (Z.to_nat 20000) (order_msg (sample_request 0))).
Proof.
  exact (gateway_rate_burst wide_ctx (conn_with []) (sample_request 0) wide_ctx_room eq_refl
    (Z.le_refl 0) eq_refl eq_refl).
Defined.

Lemma gateway_idempotent_witness :
  exists msgs, appended idle_ctx
      (push_many (map (fun '(t, r) => (t, conn_with [], r)) sample_calls) idle_ctx) msgs /\
    NoDup (nonzero_ids msgs).
Proof.
  apply gateway_idempotent; [apply idle_ctx_wf|].
  intros a b Ha Hb _ _. change (map call_id _) with [5; 5; 6] in *.
  assert (forall x, x ∈ [5; 5; 6] -> x = 5 \/ x = 6) as Hcase
    by (intros x Hx; rewrite !elem_of_cons, elem_of_nil in Hx; tauto).
  destruct (Hcase a Ha) as [->| ->], (Hcase b Hb) as [->| ->]; by vm_compute.
Defined.

(** The same gateway with its OMS queue of three entries full. *)
Definition full_ctx : gw_ctx_t :=
  set_out (Queue 0 3 (replicate 4 inhabitant) 3) 0 (x_idem_ring idle_ctx) idle_ctx.

Lemma full_ctx_wf : out_wf full_ctx.
Proof. split; [by exists 2|apply idle_ctx_wf]. Defined.

Lemma gateway_loses_order_when_full_witness :
  out_msgs (fst (gw_push_order 10 full_ctx (conn_with []) (sample_request 5))) = out_msgs full_ctx.
Proof.
  apply (gateway_loses_order_when_full 10 20 full_ctx (conn_with []) (conn_with [])
    (sample_request 5) (QUEUE_INIT (replicate 4 inhabitant)) full_ctx_wf); try done.
Defined.

Definition sample_response (id : Z) : bt_order_response_t :=
  OrderResponse id 77 BT_STATUS_ACK 0 (replicate 64 0).

Definition sample_sends : list send_op :=
  [SRespond (sample_response 1); SFlush [Sent 40; SAgain]; SRespond (sample_response 2)].

Lemma gateway_response_stream_witness :
  exists c' acc, acc `sublist_of` [sample_response 1; sample_response 2] /\
    c_wire c' ++ outgoing c' = concat (map response_frame acc).
Proof.
  destruct (conn_with_ok [] ltac:(done)) as [Hwf _].
  destruct (run_sends sample_sends (conn_with [])) as [c'|] eqn:Hrun.
  - destruct (gateway_response_stream sample_sends (conn_with []) c' Hwf) as (acc & Hsub & _ & Heq).
    + repeat constructor; by apply (bool_decide_unpack _).
    + exact Hrun.
    + exists c', acc. split; [exact Hsub|]. rewrite Heq.
      assert (outgoing (conn_with []) = []) as -> by (apply bytes_of_nil; [lia|apply Hwf|done]).
      done.
  - exfalso. cbn [run_sends sample_sends] in Hrun.
    set (c1 := gw_send_to_conn (conn_with []) (sample_response 1)) in Hrun.
    destruct (gw_flush_send [Sent 40; SAgain] c1) eqn:E; [done|].
    cbn [gw_flush_send] in E. repeat case_match; done.
Defined.
