(* ===== verification/GatewayThread.v ===== *)
(** * The rounds of the gateway thread

    The invariant of the gateway context through accepts, connection events,
    response dispatch and idle scans, and what follows for the connection
    table: [active_conns] counts the open slots, a slot in use is never given
    to another client, and an idle connection is only closed when another
    event arrives for it. *)

From Stdlib Require Import Ascii.
From S2P Require Import Prelude Queue CTypes GwRing GwParse Gateway GatewayFrames GatewayOps.

Section thread.
Implicit Types (ctx : gw_ctx_t) (c : gw_conn_t).

(** ** What the kernel may report *)

Definition accept_ok (o : accept_out) : Prop :=
  match o with Accepted fd _ _ => 0 <= fd | AcceptNone => True end.

(** [epoll] reports only descriptors that are registered, that is the open
    connections; [accept4] returns valid descriptors. *)
Definition ev_ok ctx (ev : gw_event) : Prop :=
  match ev with
  | EvListen _ outs => Forall accept_ok outs
  | EvConn i _ => 0 <= i < zlen (x_conns ctx) /\ 0 <= c_fd (x_conns ctx).[i]
  end.

Fixpoint evs_ok (evs : list gw_event) ctx : Prop :=
  match evs with
  | [] => True
  | ev :: evs =>
      ev_ok ctx ev /\
      match gw_one_event ev ctx with Some ctx' => evs_ok evs ctx' | None => True end
  end.

Fixpoint waits_ok (ws : list wait_out) ctx : Prop :=
  match ws with
  | [] => True
  | w :: ws =>
      match w with WaitEvents evs _ => evs_ok evs (gw_drain_responses ctx) | _ => True end /\
      match gw_iteration w ctx with Some (ctx', true) => waits_ok ws ctx' | _ => True end
  end.

(** The connection of an open slot is the same. *)
Definition keeps_open ctx ctx' : Prop :=
  zlen (x_conns ctx') = zlen (x_conns ctx) /\
  forall i, 0 <= i < zlen (x_conns ctx) -> is_open (x_conns ctx).[i] = true ->
    (x_conns ctx').[i] = (x_conns ctx).[i].

(** ** Accepting *)

Lemma find_free_spec cs j i :
  find_free cs j = Some i -> j <= i < j + zlen cs /\ c_fd cs.[i - j] = -1.
Proof.
  revert j. induction cs as [|c cs IH]; intros j H; simpl in H; [done|].
  rewrite zlen_cons. pose proof (zlen_nonneg cs).
  destruct (Z.eqb_spec (c_fd c) (-1)) as [Hc|Hc].
  - simplify_eq. rewrite Z.sub_diag. split; [lia|done].
  - apply IH in H as [Hr Hfd]. split; [lia|].
    rewrite <- Hfd. unfold arr_get. replace (Z.to_nat (i - j)) with (S (Z.to_nat (i - (j + 1)))) by lia.
    done.
Qed.

Lemma find_free_None cs j : find_free cs j = None -> Forall (fun c => c_fd c <> -1) cs.
Proof.
  revert j. induction cs as [|c cs IH]; intros j H; simpl in H; [constructor|].
  destruct (Z.eqb_spec (c_fd c) (-1)); [done|]. constructor; [done|by eapply IH].
Qed.

Lemma zero_conn_wf : conn_wf zero_conn.
Proof.
  split.
  - change (bring_wf 16 (zero_ring BT_CFG_RECV_BUF_SIZE)). rewrite recv_size_pow. apply zero_ring_wf.
  - change (bring_wf 16 (zero_ring GW_SEND_RING_SIZE)). rewrite send_size_pow. apply zero_ring_wf.
Qed.

Lemma set_slot_ok ctx i c active :
  ctx_ok ctx -> 0 <= i < zlen (x_conns ctx) -> slot_ok c ->
  active = x_active_conns ctx - (if is_open (x_conns ctx).[i] then 1 else 0)
           + (if is_open c then 1 else 0) ->
  ctx_ok (set_conns (x_conns ctx).[i <- c] active ctx).
Proof.
  intros [] Hi Hc ->. split; simpl; try done.
  - by apply slot_ok_set.
  - by rewrite zlen_arr_set.
  - rewrite open_count_set, k_active by done. lia.
Qed.

Lemma gw_accept_ok outs ctx ctx' :
  ctx_ok ctx -> Forall accept_ok outs -> gw_accept outs ctx = Some ctx' ->
  ctx_ok ctx' /\ keeps_open ctx ctx'.
Proof.
  revert ctx. induction outs as [|[cfd ok now|] outs IH]; intros ctx Hok Houts H; simpl in H.
  - done.
  - inversion Houts as [|? ? Hfd Houts']; subst. simpl in Hfd.
    destruct (gw_find_free_slot ctx) as [i|] eqn:Hfree; [|by apply IH].
    destruct (negb ok); [by apply IH|].
    apply find_free_spec in Hfree as [Hi Hclosed]. rewrite Z.sub_0_r in Hclosed.
    assert (is_open (x_conns ctx).[i] = false) as Hno by (unfold is_open; rewrite Hclosed; done).
    set (fresh := set_rate now 0 _) in H.
    assert (slot_ok fresh /\ is_open fresh = true) as [Hfresh Hopen].
    { split; [split; [apply zero_conn_wf|unfold fresh; simpl; lia]|].
      unfold is_open, fresh. by apply Z.leb_le. }
    clearbody fresh.
    apply IH in H as [Hok' [Hlen Hkeep]];
      [|apply set_slot_ok; [done|lia|done|rewrite Hno, Hopen; lia]|done].
    split; [done|]. simpl in *. rewrite zlen_arr_set in *. split; [done|].
    intros j Hj Hj'. assert (j <> i) by congruence.
    rewrite Hkeep; rewrite ?arr_get_set_ne; try done; lia.
  - simplify_eq. split; [done|]. by split.
Qed.

(** ** Connection events *)

Lemma same_table_ok ctx ctx' : ctx_ok ctx -> out_wf ctx' -> same_table ctx ctx' -> ctx_ok ctx'.
Proof.
  intros [] Hout (Hc & Ha & Hr & Hm). split; rewrite ?Hc, ?Ha, ?Hr, ?Hm; done.
Qed.

Lemma update_pending_same c :
  conn_wf c -> conn_wf (update_pending c) /\ c_fd (update_pending c) = c_fd c.
Proof. intros Hwf. unfold update_pending. destruct (_ && _); [done|]. by destruct (_ && _). Qed.

Lemma gw_conn_event_ok i v ctx ctx' :
  ctx_ok ctx -> 0 <= i < zlen (x_conns ctx) -> 0 <= c_fd (x_conns ctx).[i] ->
  gw_conn_event i v ctx = Some ctx' ->
  ctx_ok ctx' /\ zlen (x_conns ctx') = zlen (x_conns ctx) /\
  (forall j, 0 <= j -> j <> i -> (x_conns ctx').[j] = (x_conns ctx).[j]).
Proof.
  intros Hok Hi Hfd H. unfold gw_conn_event in H.
  destruct (slot_ok_get _ _ (k_conns _ Hok) Hi) as [Hwf0 _].
  set (c0 := if v_err v then set_state GW_CONN_CLOSING (x_conns ctx).[i] else (x_conns ctx).[i]) in H.
  assert (conn_wf c0 /\ c_fd c0 = c_fd (x_conns ctx).[i]) as [Hc0 Hfd0]
    by (unfold c0; by destruct (v_err v)).
  destruct (if v_in v then gw_read_loop (v_reads v) ctx c0 else Some (ctx, c0))
    as [[ctx1 c1]|] eqn:Hread; [|done].
  assert (conn_wf c1 /\ out_wf ctx1 /\ same_table ctx ctx1 /\ c_fd c1 = c_fd c0)
    as (Hc1 & Hout1 & Ht1 & Hfd1).
  { destruct (v_in v); [|by simplify_eq; split_and!; try done; apply Hok].
    by apply read_loop_ok in Hread; try done; apply Hok. }
  destruct (if v_out v then gw_flush_send (v_sends v) c1 else Some c1) as [c2|] eqn:Hflush; [|done].
  assert (conn_wf c2 /\ c_fd c2 = c_fd c1) as [Hc2 Hfd2].
  { destruct (v_out v); [|by simplify_eq]. by apply flush_send_spec in Hflush as (? & _ & ? & _). }
  destruct (update_pending_same c2 Hc2) as [Hc3 Hfd3].
  pose proof (same_table_ok _ _ Hok Hout1 Ht1) as Hok1. destruct Ht1 as (Hcs & Hac & _ & _).
  assert (is_open (x_conns ctx1).[i] = true) as Hopen
    by (rewrite Hcs; unfold is_open; by apply Z.leb_le).
  destruct (c_state (update_pending c2)).
  - simplify_eq. split.
    + apply set_slot_ok; [done|by rewrite Hcs|split; [done|lia]|].
      rewrite Hopen. unfold is_open. rewrite (proj2 (Z.leb_le 0 _)) by lia. lia.
    + simpl. rewrite zlen_arr_set, Hcs. split; [done|].
      intros j Hj Hne. apply arr_get_set_ne; lia.
  - destruct (gw_flush_send (v_close_sends v) (update_pending c2)) as [c4|] eqn:Hf4; [|done].
    apply flush_send_spec in Hf4 as (Hc4 & _); [|done]. simplify_eq. split.
    + apply set_slot_ok; [done|by rewrite Hcs|split; [done|simpl; lia]|].
      rewrite Hopen. unfold is_open; cbn [c_fd set_fd]. change (0 <=? -1) with false. cbv iota. lia.
    + simpl. rewrite zlen_arr_set, Hcs. split; [done|].
      intros j Hj Hne. apply arr_get_set_ne; lia.
Qed.

(** ** Responses and idle scans *)

Lemma map_slots_ok ctx f q :
  ctx_ok ctx -> (forall c, slot_ok c -> slot_ok (f c) /\ c_fd (f c) = c_fd c) ->
  queue_wf q -> Forall order_response_wf (contents q) ->
  ctx_ok (set_conns (map f (x_conns ctx)) (x_active_conns ctx) (set_resp q ctx)).
Proof.
  intros [Hcs Hmax Hact Hout Hrq Hrs] Hf Hq Hqs. split; simpl; try done.
  - apply Forall_fmap. eapply Forall_impl; [done|]. intros c Hc. by apply Hf.
  - unfold zlen in *. by rewrite length_map.
  - rewrite Hact. unfold open_count, zlen. f_equal.
    clear -Hcs Hf. induction Hcs as [|c cs Hc Hcs IH]; [done|]. simpl.
    assert (is_open (f c) = is_open c) as -> by (unfold is_open; by rewrite (proj2 (Hf c Hc))).
    destruct (is_open c); simpl; by rewrite IH.
Qed.

Lemma dispatch_ok resp c :
  order_response_wf resp -> slot_ok c -> slot_ok (dispatch resp c) /\ c_fd (dispatch resp c) = c_fd c.
Proof.
  intros Hresp [Hwf Hfd]. unfold dispatch. destruct (_ && _); [|by split].
  assert (c_fd (gw_send_to_conn c resp) = c_fd c) as Hsame
    by (unfold gw_send_to_conn; by destruct (_ <? _)).
  destruct (send_to_conn_spec c resp Hwf Hresp) as [(_ & Hwf' & _)|[_ ->]]; [|done].
  split; [split; [done|lia]|done].
Qed.

Lemma drain_loop_ok fuel ctx :
  ctx_ok ctx ->
  ctx_ok (drain_loop fuel ctx) /\ map c_fd (x_conns (drain_loop fuel ctx)) = map c_fd (x_conns ctx).
Proof.
  revert ctx. induction fuel as [|fuel IH]; intros ctx Hok; simpl; [done|].
  pose proof (k_resp _ Hok) as Hq. pose proof (k_resps _ Hok) as Hqs.
  destruct (MPSC_POP (x_response_queue ctx)) as [r q] eqn:Hpop.
  destruct (spsc_pop_spec _ _ _ Hq Hpop) as (Hq' & _ & Hr & Hc).
  assert (Forall order_response_wf (contents q)) as Hqs'.
  { rewrite Hc. destruct (contents (x_response_queue ctx)); [done|]. by inversion Hqs. }
  destruct r as [resp|].
  - assert (order_response_wf resp) as Hresp.
    { destruct (contents (x_response_queue ctx)); [done|]. simpl in Hr. simplify_eq. by inversion Hqs. }
    destruct (IH (set_conns (map (dispatch resp) (x_conns ctx)) (x_active_conns ctx) (set_resp q ctx)))
      as [Hok' Hfds].
    { apply map_slots_ok; try done. intros c Hcok. by apply dispatch_ok. }
    split; [done|]. rewrite Hfds. simpl. rewrite map_map.
    apply map_ext_in. intros c Hin. apply dispatch_ok; [done|].
    by eapply List.Forall_forall; [apply Hok|].
  - split; [|done]. destruct Hok. by split.
Qed.

Lemma idle_scan_ok now ctx :
  ctx_ok ctx -> ctx_ok (gw_idle_scan now ctx) /\
  map c_fd (x_conns (gw_idle_scan now ctx)) = map c_fd (x_conns ctx).
Proof.
  intros Hok.
  assert (forall c, slot_ok c -> slot_ok (idle_conn now c) /\ c_fd (idle_conn now c) = c_fd c) as Hf
    by (intros c [Hwf Hfd]; unfold idle_conn; by destruct (_ && _)).
  split.
  - pose proof (map_slots_ok ctx (idle_conn now) (x_response_queue ctx) Hok Hf (k_resp _ Hok) (k_resps _ Hok))
      as H. by destruct H; split.
  - simpl. rewrite map_map. apply map_ext. intros c. unfold idle_conn. by destruct (_ && _).
Qed.

(** ** Rounds *)

Lemma gw_one_event_ok ev ctx ctx' :
  ctx_ok ctx -> ev_ok ctx ev -> gw_one_event ev ctx = Some ctx' -> ctx_ok ctx'.
Proof.
  intros Hok Hev H. destruct ev as [[|] outs|i v]; simpl in *.
  - by eapply gw_accept_ok.
  - by simplify_eq.
  - destruct Hev. by eapply gw_conn_event_ok.
Qed.

Lemma gw_events_ok evs ctx ctx' :
  ctx_ok ctx -> evs_ok evs ctx -> gw_events evs ctx = Some ctx' -> ctx_ok ctx'.
Proof.
  revert ctx. induction evs as [|ev evs IH]; intros ctx Hok Hevs H; simpl in *; [by simplify_eq|].
  destruct Hevs as [Hev Hevs].
  destruct (gw_one_event ev ctx) as [ctx1|] eqn:H1; [|done].
  eapply IH; [|done|done]. by eapply gw_one_event_ok.
Qed.

Lemma gw_iteration_ok w ctx ctx' b :
  ctx_ok ctx -> match w with WaitEvents evs _ => evs_ok evs (gw_drain_responses ctx) | _ => True end ->
  gw_iteration w ctx = Some (ctx', b) -> ctx_ok ctx'.
Proof.
  intros Hok Hw H. unfold gw_iteration in H.
  assert (ctx_ok (gw_drain_responses ctx)) as Hd by (by apply drain_loop_ok).
  destruct w as [evs now| |]; [|by simplify_eq..].
  destruct (gw_events evs (gw_drain_responses ctx)) as [ctx1|] eqn:He; [|done].
  simplify_eq. apply idle_scan_ok. by eapply gw_events_ok.
Qed.

(** An event that does not concern slot [i]. *)
Definition spares (i : Z) (ev : gw_event) : Prop :=
  match ev with EvListen _ _ => True | EvConn j _ => j <> i end.

Lemma map_fd_get cs cs' i :
  map c_fd cs' = map c_fd cs -> 0 <= i < zlen cs -> c_fd cs'.[i] = c_fd cs.[i].
Proof.
  intros Hm Hi. assert (zlen cs' = zlen cs) as Hl.
  { apply (f_equal length) in Hm. rewrite !length_map in Hm. unfold zlen. lia. }
  apply (f_equal (fun l => l !! Z.to_nat i)) in Hm.
  rewrite !list_lookup_fmap, !arr_lookup in Hm by lia. by simplify_eq.
Qed.

Lemma gw_events_spare i evs ctx ctx' :
  ctx_ok ctx -> evs_ok evs ctx -> Forall (spares i) evs -> gw_events evs ctx = Some ctx' ->
  0 <= i < zlen (x_conns ctx) -> is_open (x_conns ctx).[i] = true ->
  zlen (x_conns ctx') = zlen (x_conns ctx) /\ (x_conns ctx').[i] = (x_conns ctx).[i].
Proof.
  revert ctx. induction evs as [|ev evs IH]; intros ctx Hok Hevs Hsp H Hi Hopen; simpl in *;
    [by simplify_eq|].
  destruct Hevs as [Hev Hevs]. inversion Hsp as [|? ? Hsp1 Hsp2]; subst.
  destruct (gw_one_event ev ctx) as [ctx1|] eqn:H1; [|done].
  pose proof (gw_one_event_ok _ _ _ Hok Hev H1) as Hok1.
  assert (zlen (x_conns ctx1) = zlen (x_conns ctx) /\ (x_conns ctx1).[i] = (x_conns ctx).[i])
    as [Hl1 Hc1].
  { destruct ev as [[|] outs|j v]; simpl in *.
    - destruct (gw_accept_ok _ _ _ Hok Hev H1) as [_ [Hl Hk]]. split; [done|]. by apply Hk.
    - by simplify_eq.
    - destruct Hev as [Hj Hfd]. destruct (gw_conn_event_ok _ _ _ _ Hok Hj Hfd H1) as (_ & Hl & Hk).
      split; [done|]. apply Hk; lia. }
  destruct (IH ctx1 Hok1 Hevs Hsp2 H) as [Hl Hc]; [by rewrite Hl1|by rewrite Hc1|].
  split; congruence.
Qed.

Definition wait_spares (i : Z) (w : wait_out) : Prop :=
  match w with WaitEvents evs _ => Forall (spares i) evs | _ => True end.

Lemma gw_iteration_spare i w ctx ctx' b :
  ctx_ok ctx -> match w with WaitEvents evs _ => evs_ok evs (gw_drain_responses ctx) | _ => True end ->
  wait_spares i w -> gw_iteration w ctx = Some (ctx', b) ->
  0 <= i < zlen (x_conns ctx) -> is_open (x_conns ctx).[i] = true ->
  zlen (x_conns ctx') = zlen (x_conns ctx) /\ c_fd (x_conns ctx').[i] = c_fd (x_conns ctx).[i].
Proof.
  intros Hok Hw Hsp H Hi Hopen. unfold gw_iteration in H.
  destruct (drain_loop_ok (S (queue_len (x_response_queue ctx))) ctx Hok) as [Hd Hfds].
  fold (gw_drain_responses ctx) in Hd, Hfds.
  assert (forall cs cs' : list gw_conn_t, map c_fd cs = map c_fd cs' -> zlen cs = zlen cs') as Hzl.
  { intros cs cs' Hm. apply (f_equal length) in Hm. rewrite !length_map in Hm. unfold zlen. lia. }
  pose proof (Hzl _ _ Hfds) as Hl0. pose proof (map_fd_get _ _ i Hfds Hi) as Hc0.
  destruct w as [evs now| |]; [|by simplify_eq..].
  destruct (gw_events evs (gw_drain_responses ctx)) as [ctx1|] eqn:He; [|done]. simplify_eq.
  destruct (gw_events_spare i _ _ _ Hd Hw Hsp He) as [Hl1 Hc1].
  { by rewrite Hl0. } { unfold is_open in *. by rewrite Hc0. }
  pose proof (gw_events_ok _ _ _ Hd Hw He) as Hok1.
  destruct (idle_scan_ok now ctx1 Hok1) as [_ Hfds1].
  pose proof (Hzl _ _ Hfds1) as Hl2.
  rewrite (map_fd_get _ _ i Hfds1) by lia. split; [lia|]. congruence.
Qed.

End thread.

(** ** Executions of the thread *)

Definition set_queues (out : queue bt_gw_oms_msg_t) (resp : queue bt_order_response_t)
    (x : gw_ctx_t) : gw_ctx_t :=
  set_resp resp (set_out out (x_orders_received x) (x_idem_ring x) x).

(** The contexts the thread reaches, with rounds whose [epoll_wait] satisfies
    [P]; between rounds the other threads may change the two shared queues,
    which they keep well formed. *)
Inductive greach (P : wait_out -> Prop) (ctx0 : gw_ctx_t) : gw_ctx_t -> Prop :=
  | greach_init : greach P ctx0 ctx0
  | greach_round ctx w ctx' b :
      greach P ctx0 ctx -> P w ->
      match w with WaitEvents evs _ => evs_ok evs (gw_drain_responses ctx) | _ => True end ->
      gw_iteration w ctx = Some (ctx', b) -> greach P ctx0 ctx'
  | greach_others ctx out resp :
      greach P ctx0 ctx -> queue_wf out -> queue_wf resp ->
      Forall order_response_wf (contents resp) -> greach P ctx0 (set_queues out resp ctx).

Lemma set_queues_ok out resp ctx :
  ctx_ok ctx -> queue_wf out -> queue_wf resp -> Forall order_response_wf (contents resp) ->
  ctx_ok (set_queues out resp ctx).
Proof. intros [? ? ? [? ?] ? ?] Hout Hresp Hrs. by split. Qed.

Lemma greach_ok P ctx0 ctx : ctx_ok ctx0 -> greach P ctx0 ctx -> ctx_ok ctx.
Proof.
  intros Hok. induction 1.
  - done.
  - by eapply gw_iteration_ok.
  - by apply set_queues_ok.
Qed.

Lemma open_count_closed n c : is_open c = false -> open_count (replicate n c) = 0.
Proof. intros Hc. induction n as [|n IH]; [done|]. unfold open_count in *. simpl. by rewrite Hc. Qed.

Lemma create_ok a b le epoll tid cpu port max sched out resp ctx :
  0 <= max -> queue_wf out -> queue_wf resp -> Forall order_response_wf (contents resp) ->
  bt_gateway_create a b le epoll tid cpu port max sched out resp = Some ctx -> ctx_ok ctx.
Proof.
  intros Hmax Hout Hresp Hrs. unfold bt_gateway_create.
  destruct (negb a); [done|]. destruct (negb b); [done|].
  destruct ((gw_create_listen le <? 0) || (epoll <? 0)); [done|]. intros H%Some_inj. subst ctx.
  split; cbn [x_conns x_max_conns x_active_conns x_response_queue]; [| | | |done|done].
  - apply Forall_replicate. split; [apply zero_conn_wf|]. apply Z.leb_le. reflexivity.
  - unfold zlen. rewrite length_replicate. by apply Z2Nat.id.
  - by rewrite open_count_closed.
  - split; [exact Hout|]. cbn [x_idem_ring]. unfold zlen. rewrite length_replicate. by apply Z2Nat.id.
Qed.

(** ** Properties *)

(** C24: The gateway context stays well formed through every execution of the
    gateway thread that starts from [bt_gateway_create], with any mixture of
    accepts, reads, sends, errors, closes and idle scans, and with the other
    threads working on the shared queues: every ring keeps its cursors inside
    its buffer, [active_conns] is the number of open slots, the table keeps
    its size and the idempotency ring too. *)
Theorem gateway_invariant (a b : bool) (le : listen_env) (epoll tid cpu port max sched : Z)
    (out : queue bt_gw_oms_msg_t) (resp : queue bt_order_response_t) (ctx0 ctx : gw_ctx_t) :
  0 <= max -> queue_wf out -> queue_wf resp -> Forall order_response_wf (contents resp) ->
  bt_gateway_create a b le epoll tid cpu port max sched out resp = Some ctx0 ->
  greach (fun _ => True) ctx0 ctx ->
  ctx_ok ctx.
Proof.
  intros Hmax Hout Hresp Hrs Hcreate Hreach.
  eapply greach_ok; [|exact Hreach]. by eapply create_ok.
Qed.

(** A connection is closed, and its slot given to another client, only
    while an event of its own is handled: in every execution without events
    for slot [i] its descriptor stays the same. In particular the idle
    timeout closes nothing by itself: it only marks the connection, which
    stays open for as long as its client is silent. *)
Theorem gateway_idle_stays_open (ctx0 ctx : gw_ctx_t) (i : Z) :
  ctx_ok ctx0 -> greach (wait_spares i) ctx0 ctx ->
  0 <= i < zlen (x_conns ctx0) -> is_open (x_conns ctx0).[i] = true ->
  c_fd (x_conns ctx).[i] = c_fd (x_conns ctx0).[i].
Proof.
  intros Hok Hreach Hi Hopen.
  cut (zlen (x_conns ctx) = zlen (x_conns ctx0) /\
       c_fd (x_conns ctx).[i] = c_fd (x_conns ctx0).[i]); [by intros [_ ?]|].
  induction Hreach as [|ctx w ctx' b Hr IH Hsp Hw Hit|ctx out resp Hr IH]; [done| |done].
  destruct IH as [Hl Hfd]. pose proof (greach_ok _ _ _ Hok Hr) as Hok1.
  destruct (gw_iteration_spare i _ _ _ _ Hok1 Hw Hsp Hit) as [Hl' Hfd'].
  { by rewrite Hl. } { unfold is_open in *. by rewrite Hfd. }
  split; congruence.
Qed.

(** ** Witnesses *)

Definition small_out : queue bt_gw_oms_msg_t := QUEUE_INIT (replicate 4 inhabitant).
Definition small_resp : queue bt_order_response_t := QUEUE_INIT (replicate 4 inhabitant).

Lemma small_queues_wf : queue_wf small_out /\ queue_wf small_resp.
Proof. split; by apply (queue_init_wf _ 2). Defined.

Lemma small_max : 0 <= 2.
Proof. lia. Qed.

(** A gateway with two slots. *)
Definition small_ctx : gw_ctx_t :=
  Ctx (GwCfg 0 2 9000 0 3 4) 2 true small_out small_resp
    (replicate 2 (set_fd (-1) zero_conn)) 0 0 (replicate (Z.to_nat GW_IDEM_RING_SIZE) 0).

Lemma small_create :
  bt_gateway_create true true (ListenEnv 3 true true) 4 0 2 9000 2 0 small_out small_resp
  = Some small_ctx.
Proof. reflexivity. Defined.

(** A client connects. *)
Definition one_accept : wait_out := WaitEvents [EvListen true [Accepted 7 true 100; AcceptNone]] 200.

Definition one_conn_ctx : gw_ctx_t :=
  set_conns [set_rate 100 0 (set_last_active 100 (set_fd 7 zero_conn)); set_fd (-1) zero_conn] 1 small_ctx.

Lemma one_accept_step : gw_iteration one_accept small_ctx = Some (one_conn_ctx, true).
Proof. reflexivity. Defined.

Lemma gateway_invariant_witness : ctx_ok one_conn_ctx /\ x_active_conns one_conn_ctx = 1.
Proof.
  split; [|reflexivity].
  destruct small_queues_wf as [Hout Hresp].
  apply (gateway_invariant _ _ _ _ _ _ _ _ _ small_out small_resp small_ctx one_conn_ctx
    small_max Hout Hresp (Forall_nil_2 _) small_create).
  apply (greach_round _ _ small_ctx one_accept one_conn_ctx true); [constructor|done| |exact one_accept_step].
  split; [|done]. repeat constructor. simpl. lia.
Defined.

(** An hour of silence later the connection is still open, though marked. *)
Definition hour_later : wait_out := WaitEvents [] 3600000000000.

Lemma gateway_idle_stays_open_witness :
  exists ctx, gw_iteration hour_later one_conn_ctx = Some (ctx, true) /\
    c_state (x_conns ctx).[0] = GW_CONN_CLOSING /\ c_fd (x_conns ctx).[0] = 7.
Proof.
  eexists. split; [reflexivity|]. split; [reflexivity|].
  apply (gateway_idle_stays_open one_conn_ctx _ 0);
    [|eapply (greach_round _ _ one_conn_ctx hour_later); [constructor|constructor|done|reflexivity]
     |done|reflexivity].
  apply (gw_iteration_ok one_accept small_ctx one_conn_ctx true); [|by repeat constructor|reflexivity].
  destruct small_queues_wf as [Hout Hresp].
  by eapply (create_ok _ _ _ _ _ _ _ _ _ _ _ _ small_max Hout Hresp (Forall_nil_2 _) small_create).
Defined.
