(* ===== verification/Session.v ===== *)
(** * Client sessions, from the socket to the OMS queue

    Composes the parts of the gateway: the reads of the EPOLLIN branch, the
    receive ring, the framing loop, authentication, the text parser, the
    admission of orders and the queue to the OMS. A socket holds the bytes the
    client sent and hands them out in reads of any size; the theorem says what
    is in the queue when it has been drained. *)

From Stdlib Require Import Ascii String.
From S2P Require Import Prelude Queue CTypes GwRing GwParse GwParseProofs Gateway GatewayFrames GatewayOps.

(** ** Frames as a client sends them *)

Definition frame_bytes (f : Z * list Z) : list Z := be_bytes 4 (5 + zlen f.2) ++ f.1 :: f.2.
Definition stream_of (fs : list (Z * list Z)) : list Z := mjoin (frame_bytes <$> fs).

(** Frames whose payload fits the buffers on the stack. *)
Definition small_frame (f : Z * list Z) : Prop := zlen f.2 <= 256.

Lemma be_val_bytes n z : 0 <= z < 256 ^ Z.of_nat n -> be_val (be_bytes n z) = z.
Proof. intros Hz. unfold be_val, be_bytes. rewrite rev_involutive. by apply le_val_bytes_small. Qed.

Lemma length_be_bytes n z : length (be_bytes n z) = n.
Proof. unfold be_bytes. by rewrite length_rev, length_le_bytes. Qed.

Lemma zlen_frame f : zlen (frame_bytes f) = 5 + zlen f.2.
Proof. unfold frame_bytes. rewrite zlen_app, zlen_cons. unfold zlen at 1. rewrite length_be_bytes. lia. Qed.

Lemma frame_header f : small_frame f -> be_val (take 4 (frame_bytes f)) = 5 + zlen f.2.
Proof.
  intros Hs. unfold frame_bytes. rewrite take_app_le by (by rewrite length_be_bytes).
  rewrite take_ge by (by rewrite length_be_bytes). apply be_val_bytes.
  unfold small_frame in Hs. pose proof (zlen_nonneg f.2). change (256 ^ Z.of_nat 4) with (2 ^ 32). lia.
Qed.

(** A frame at the front of a stream is the next frame. *)
Lemma next_frame_whole f l : small_frame f -> next_frame (frame_bytes f ++ l) = Frame f.1 f.2 l.
Proof.
  intros Hs. pose proof (zlen_nonneg f.2) as H0. pose proof (zlen_frame f) as Hz.
  pose proof (frame_header f Hs) as Hh. unfold small_frame in Hs.
  rewrite <- (app_nil_l l) at 2. apply next_frame_app. unfold next_frame.
  rewrite Hz, Hh, (proj2 (Z.leb_le _ _)) by lia.
  rewrite (proj2 (Z.ltb_ge (5 + zlen f.2) 5)), (proj2 (Z.ltb_ge (2 ^ 16) _)) by lia. cbn [orb].
  rewrite Z.ltb_irrefl. f_equal.
  - unfold frame_bytes. rewrite drop_app_ge by (rewrite length_be_bytes; lia).
    rewrite length_be_bytes. cbn [skipn Nat.sub]. rewrite drop_0, take_ge; [done|]. unfold zlen. lia.
  - apply drop_ge. unfold zlen in *. lia.
Qed.

(** Part of a frame is not a frame yet. *)
Lemma next_frame_part f r s t :
  small_frame f -> r ++ s = frame_bytes f ++ t -> zlen r < zlen (frame_bytes f) ->
  next_frame r = NeedMore.
Proof.
  intros Hs Heq Hlt. pose proof (zlen_nonneg f.2) as H0. pose proof (zlen_frame f) as Hz.
  pose proof (frame_header f Hs) as Hh. unfold small_frame in Hs. unfold next_frame.
  destruct (Z.leb_spec 5 (zlen r)) as [H5|]; [|done].
  assert (take 4 r = take 4 (frame_bytes f)) as ->.
  { transitivity (take 4 (r ++ s)); [symmetry; apply take_app_le; unfold zlen in *; lia|].
    rewrite Heq. apply take_app_le. unfold zlen in *. lia. }
  rewrite Hh. rewrite (proj2 (Z.ltb_ge (5 + zlen f.2) 5)), (proj2 (Z.ltb_ge (2 ^ 16) _)) by lia. cbn [orb].
  by rewrite (proj2 (Z.ltb_lt _ _)) by lia.
Qed.

(** ** Handling a list of frames *)

Inductive handles : list (Z * list Z) -> gw_ctx_t -> gw_conn_t -> gw_ctx_t -> gw_conn_t -> Prop :=
  | handles_nil ctx c : handles [] ctx c ctx c
  | handles_cons e f fs ctx c ctx1 c1 ctx2 c2 :
      handle_frame e ctx c f.1 f.2 = (ctx1, c1, true) -> handles fs ctx1 c1 ctx2 c2 ->
      handles (f :: fs) ctx c ctx2 c2.

Lemma handles_app fs1 fs2 ctx c ctx1 c1 ctx2 c2 :
  handles fs1 ctx c ctx1 c1 -> handles fs2 ctx1 c1 ctx2 c2 -> handles (fs1 ++ fs2) ctx c ctx2 c2.
Proof. induction 1; intros; [done|]. cbn. econstructor; eauto. Qed.

(** Small frames never ask for the connection to be closed. *)
Lemma handle_small e ctx c f :
  small_frame f -> exists ctx' c', handle_frame e ctx c f.1 f.2 = (ctx', c', true).
Proof.
  intros Hs. unfold small_frame in Hs. unfold handle_frame.
  rewrite (proj2 (Z.ltb_ge 256 _)), (proj2 (Z.ltb_ge 8192 _)) by lia.
  repeat case_match; simplify_eq; eauto.
Qed.

(** The framing loop on a prefix of a stream of frames: it handles the
    frames that are complete. *)
Lemma run_frames_prefix fuel env ctx c r s fs :
  Forall small_frame fs -> r ++ s = stream_of fs -> (length r < fuel)%nat ->
  exists ctx' c' rest n fs1 fs2,
    run_frames fuel env ctx c r = Some (ctx', c', rest, n, StopMore) /\
    fs = fs1 ++ fs2 /\ rest ++ s = stream_of fs2 /\ handles fs1 ctx c ctx' c' /\
    next_frame rest = NeedMore.
Proof.
  revert env ctx c r fs. induction fuel as [|fuel IH]; intros env ctx c r fs Hok Heq Hl; [lia|].
  destruct fs as [|f fs].
  { apply app_eq_nil in Heq as [-> ->].
    exists ctx, c, [], O, [], []. split_and!; try done. constructor. }
  inversion_clear Hok as [|?? Hf Hfs]. change (stream_of (f :: fs)) with (frame_bytes f ++ stream_of fs) in *.
  destruct (Z.lt_ge_cases (zlen r) (zlen (frame_bytes f))) as [Hlt|Hge].
  { pose proof (next_frame_part f r s _ Hf Heq Hlt) as Hn.
    exists ctx, c, r, O, [], (f :: fs). cbn [run_frames]. rewrite Hn. split_and!; try done. constructor. }
  assert (exists r', r = frame_bytes f ++ r' /\ r' ++ s = stream_of fs) as (r' & -> & Heq').
  { exists (drop (length (frame_bytes f)) r).
    assert (take (length (frame_bytes f)) r = frame_bytes f) as Ht.
    { transitivity (take (length (frame_bytes f)) (r ++ s));
        [symmetry; apply take_app_le; unfold zlen in *; lia|]. rewrite Heq. by apply take_app_length. }
    split; [by rewrite <- Ht at 1; rewrite take_drop|].
    transitivity (drop (length (frame_bytes f)) (r ++ s));
      [symmetry; apply drop_app_le; unfold zlen in *; lia|]. rewrite Heq. apply drop_app_length. }
  rewrite (run_frames_frame _ _ _ _ _ _ _ _ (next_frame_whole f r' Hf)).
  destruct (handle_small (env O) ctx c f Hf) as (ctx1 & c1 & Hh). rewrite Hh.
  pose proof (zlen_frame f) as Hz. pose proof (zlen_nonneg f.2).
  destruct (IH (fun n => env (S n)) ctx1 c1 r' fs Hfs Heq') as (ctx' & c' & rest & n & fs1 & fs2 & Hr & -> & Hrest & Hh' & Hn).
  { rewrite length_app in Hl. unfold zlen in *. lia. }
  exists ctx', c', rest, (S n), (f :: fs1), fs2. rewrite Hr. split_and!; try done. by econstructor.
Qed.

(** ** Reading a socket until it is empty *)

(** The connection without its receive ring and its activity time, which play
    no part in the handling of frames. *)
Definition norm (c : gw_conn_t) : gw_conn_t := set_recv (Bring [] 0 0) (set_last_active 0 c).

Lemma handle_frame_active e ctx c t ty p :
  handle_frame e ctx (set_last_active t c) ty p =
    let '(ctx', c', b) := handle_frame e ctx c ty p in (ctx', set_last_active t c', b).
Proof.
  unfold handle_frame. cbn [c_authenticated set_last_active].
  repeat case_match; simplify_eq; try done;
    repeat match goal with H : gw_push_order _ _ _ _ = _ |- _ => rewrite push_order_admit in H end;
    cbn [c_rate_window_start c_rate_count set_last_active] in *;
    destruct (admission _ _ _ _ _) as [[? ?] ?]; by simplify_eq.
Qed.

Lemma handles_norm fs ctx c ctx' c' : handles fs ctx c ctx' c' -> handles fs ctx (norm c) ctx' (norm c').
Proof.
  induction 1 as [|e f fs ctx c ctx1 c1 ctx2 c2 Hh _ IH]; [constructor|].
  econstructor; [|exact IH]. unfold norm. rewrite handle_frame_recv, handle_frame_active.
  by rewrite Hh.
Qed.

(** How much one [read] may return. *)
Definition room (c : gw_conn_t) : Z :=
  let r := c_recv c in
  let phys := u64 (BT_CFG_RECV_BUF_SIZE - r_tail r) in
  let free := gw_ring_writable (r_head r) (r_tail r) (BT_CFG_RECV_BUF_SIZE - 1) in
  if phys <? free then phys else free.

(** The connection after a read. *)
Definition filled (now : Z) (data : list Z) (c : gw_conn_t) : gw_conn_t :=
  let r := c_recv c in
  set_last_active now
    (set_recv (Bring (mem_write (r_buf r) (r_tail r) data) (r_head r)
                 (Z.land (u64 (r_tail r + zlen data)) (BT_CFG_RECV_BUF_SIZE - 1))) c).

(** The reads a socket holding [stream] answers: the [i]-th returns at most
    [policy i] bytes (at least one, at most what was asked for), at a time and
    with clock readings the policy gives; then the socket would block. *)
Fixpoint socket_reads (fuel : nat) (policy : nat -> nat * Z * (nat -> menv)) (stream : list Z)
    (ctx : gw_ctx_t) (c : gw_conn_t) : list read_out :=
  match fuel, stream with
  | O, _ | _, [] => [RAgain]
  | S fuel, _ =>
      let '(n, now, env) := policy O in
      let k := Z.to_nat (Z.max 1 (Z.min (Z.of_nat n) (room c))) in
      let data := take k stream in
      RData data now env ::
        match gw_process_data env ctx (filled now data c) with
        | Some (ctx, c) => socket_reads fuel (fun i => policy (S i)) (drop k stream) ctx c
        | None => []
        end
  end.

Lemma room_range c : conn_wf c -> zlen (received c) < 2 ^ 16 - 1 ->
  0 < room c /\ r_tail (c_recv c) + room c <= 2 ^ 16 /\
  room c <= 2 ^ 16 - 1 - bring_len 16 (c_recv c).
Proof.
  intros Hc Hlt. pose proof (received_ok c Hc) as [Hrd _].
  unfold room. rewrite recv_size_pow, (writable_len 16 ltac:(lia) _ (proj1 Hc)).
  pose proof (proj1 Hc) as Hr. rewrite recv_size_pow in Hrd.
  rewrite (readable_len 16 ltac:(lia) _ Hr) in Hrd.
  destruct Hr as (_ & _ & Ht).
  rewrite u64_small by (unfold is_u64; lia). case_match; lia.
Qed.

Lemma filled_ok now data c :
  conn_wf c -> 0 < zlen data -> zlen data <= 2 ^ 16 - 1 - bring_len 16 (c_recv c) ->
  r_tail (c_recv c) + zlen data <= 2 ^ 16 ->
  conn_wf (filled now data c) /\ received (filled now data c) = received c ++ data /\
  norm (filled now data c) = norm c.
Proof.
  intros Hc Hd Hroom Hphys. unfold filled. rewrite recv_size_pow.
  destruct (read_fill c data Hc Hd Hroom Hphys) as [Hwf Hr].
  split_and!; [apply Hwf|exact Hr|by destruct c].
Qed.

(** One round of the read loop on data that fits. *)
Lemma read_loop_step data now env outs ctx c :
  0 < zlen data -> zlen data <= room c ->
  gw_read_loop (RData data now env :: outs) ctx c =
    match gw_process_data env ctx (filled now data c) with
    | Some (ctx, c) => gw_read_loop outs ctx c
    | None => None
    end.
Proof.
  intros H0 Hle. cbn [gw_read_loop]. fold (room c).
  rewrite (proj2 (Z.eqb_neq (room c) 0)) by lia.
  rewrite take_ge by (unfold zlen in *; lia).
  destruct data as [|b d]; [unfold zlen in H0; cbn in H0; lia|]. done.
Qed.

(** What is left of a stream of small frames when no frame is complete. *)
Lemma leftover_short r s fs :
  Forall small_frame fs -> r ++ s = stream_of fs -> next_frame r = NeedMore -> zlen r < 261.
Proof.
  intros Hok Heq Hn. destruct fs as [|f fs].
  { apply app_eq_nil in Heq as [-> _]. done. }
  inversion_clear Hok as [|?? Hf _]. pose proof (zlen_frame f) as Hz. unfold small_frame in Hf.
  destruct (Z.lt_ge_cases (zlen r) (zlen (frame_bytes f))) as [|Hge]; [lia|exfalso].
  change (stream_of (f :: fs)) with (frame_bytes f ++ stream_of fs) in Heq.
  assert (r = frame_bytes f ++ drop (length (frame_bytes f)) r) as Hr.
  { rewrite <- (take_drop (length (frame_bytes f)) r) at 1. f_equal.
    transitivity (take (length (frame_bytes f)) (r ++ s));
      [symmetry; apply take_app_le; unfold zlen in *; lia|]. rewrite Heq. by apply take_app_length. }
  rewrite Hr, next_frame_whole in Hn by done. done.
Qed.

Lemma norm_same c c' : same_but_recv c c' -> norm c = norm c'.
Proof. unfold same_but_recv. intros <-. by destruct c'. Qed.

(** The read loop drains the socket and handles every frame, whatever the
    sizes of the reads and wherever they cut the frames. *)
Lemma socket_drained fuel policy stream ctx c fs :
  conn_wf c -> Forall small_frame fs -> received c ++ stream = stream_of fs ->
  next_frame (received c) = NeedMore -> (length stream < fuel)%nat ->
  exists ctx' c',
    gw_read_loop (socket_reads fuel policy stream ctx c) ctx c = Some (ctx', c') /\
    conn_wf c' /\ received c' = [] /\ handles fs ctx (norm c) ctx' (norm c').
Proof.
  revert policy stream ctx c fs. induction fuel as [|fuel IH]; intros policy stream ctx c fs Hc Hok Heq Hn Hl; [lia|].
  pose proof (leftover_short _ _ _ Hok Heq Hn) as Hshort.
  destruct (room_range c Hc ltac:(lia)) as (Hr0 & Hrt & Hrl).
  destruct stream as [|b stream'].
  { cbn [socket_reads gw_read_loop]. fold (room c). rewrite (proj2 (Z.eqb_neq (room c) 0)) by lia.
    rewrite app_nil_r in Heq. exists ctx, c. split; [done|]. split; [done|].
    destruct fs as [|f fs]; [split; [done|constructor]|]. exfalso.
    inversion_clear Hok as [|?? Hf _].
    rewrite Heq in Hn. change (stream_of (f :: fs)) with (frame_bytes f ++ stream_of fs) in Hn.
    by rewrite next_frame_whole in Hn. }
  set (stream := b :: stream') in *. destruct (policy O) as [[n now] env] eqn:Ep.
  set (k := Z.to_nat (Z.max 1 (Z.min (Z.of_nat n) (room c)))).
  set (data := take k stream).
  assert (0 < zlen data <= room c) as Hd.
  { unfold data, zlen. rewrite length_take. cbn [length stream]. unfold k. lia. }
  assert (socket_reads (S fuel) policy stream ctx c =
    RData data now env :: match gw_process_data env ctx (filled now data c) with
      | Some (ctx, c) => socket_reads fuel (fun i => policy (S i)) (drop k stream) ctx c
      | None => [] end) as -> by (cbn [socket_reads]; unfold stream; by rewrite Ep).
  rewrite read_loop_step by lia.
  destruct (filled_ok now data c Hc) as (Hc1 & Hr1 & Hn1); [lia..|].
  set (c1 := filled now data c) in *.
  destruct (process_data_refines env ctx c1 Hc1)
    as (x & k1 & rest & m & st & c2 & Hrun & -> & Hc2 & Hs2 & Hr2).
  assert (received c1 ++ drop k stream = stream_of fs) as Heq1.
  { rewrite Hr1, <- app_assoc. unfold data. by rewrite take_drop. }
  destruct (received_ok c1 Hc1) as [_ Hlt].
  destruct (run_frames_prefix (S (Z.to_nat (2 ^ 16))) env ctx c1 _ _ fs Hok Heq1)
    as (x' & k1' & rest' & m' & fs1 & fs2 & Hrun' & -> & Hrest & Hh & Hnm);
    [unfold zlen in Hlt; lia|].
  rewrite Hrun in Hrun'. simplify_eq. apply Forall_app in Hok as [_ Hok2].
  destruct (IH (fun i => policy (S i)) (drop k stream) x' c2 fs2) as (ctx' & c' & HL & Hc' & Hr' & Hh');
    [done|done|done|done| |].
  { rewrite length_drop. unfold k. cbn [length stream] in *. lia. }
  exists ctx', c'. split_and!; [done|done|done|].
  apply handles_norm in Hh. rewrite Hn1 in Hh. rewrite (norm_same _ _ Hs2) in Hh'.
  by eapply handles_app.
Qed.

(** ** A session: authentication, then orders *)

(** The key is sent with its terminator. *)
Definition auth_frame (key : list Z) : Z * list Z := (#"A", key ++ [0]).

(** A frame that the text parser turns into a request without identifier. *)
Definition order_text (f : Z * list Z) (req : Z -> bt_order_request_t) : Prop :=
  small_frame f /\ f.1 = #"O" /\
  forall now, gw_parse_order_text now f.2 = (0, req now) /\ rq_request_id (req now) = 0.

Lemma auth_handled e ctx c key :
  key ∈ [test_key; benchmark_key] ->
  small_frame (auth_frame key) /\
  handle_frame e ctx c (auth_frame key).1 (auth_frame key).2 = (ctx, set_auth true 0 c, true).
Proof.
  intros Hk. repeat (apply elem_of_cons in Hk as [->|Hk]; [by split|]). by apply elem_of_nil in Hk.
Qed.

(** An order from an authenticated client that is within its rate and finds
    room in the queue. *)
Lemma order_handled e ctx c f req ctx' c' :
  order_text f req -> c_authenticated c = true -> out_wf ctx ->
  0 <= c_rate_count c < BT_CFG_RATE_LIMIT_RPS -> zlen (out_msgs ctx) < q_mask (x_out_queue ctx) ->
  handle_frame e ctx c f.1 f.2 = (ctx', c', true) ->
  out_wf ctx' /\ q_mask (x_out_queue ctx') = q_mask (x_out_queue ctx) /\
  out_msgs ctx' = out_msgs ctx ++ [order_msg (req (e_now_parse e))] /\
  c_authenticated c' = true /\ 0 <= c_rate_count c' <= c_rate_count c + 1.
Proof.
  intros (Hs & Ho & Hparse) Ha [Hq Hi] Hc Hroom. unfold small_frame in Hs.
  destruct (Hparse (e_now_parse e)) as [Hp Hid].
  unfold handle_frame. rewrite Ho.
  change (#"O" =? #"A") with false. change (#"O" =? #"O") with true. change (#"O" =? #"B") with false.
  rewrite Ha, (proj2 (Z.ltb_ge 8192 _)) by lia. cbn [negb orb].
  rewrite Hp, Z.eqb_refl, push_order_admit. unfold admission.
  assert (exists s n, (if 1000000000 <? u64 (e_now_push e - c_rate_window_start c) then (e_now_push e, 0)
    else (c_rate_window_start c, c_rate_count c)) = (s, n) /\ 0 <= n <= c_rate_count c) as (s & n & -> & Hn).
  { case_match; eexists _, _; (split; [done|lia]). }
  rewrite (proj2 (Z.ltb_lt n _)) by lia. rewrite Hid. cbn [negb Z.eqb andb].
  fold (order_msg (req (e_now_parse e))).
  destruct (MPSC_PUSH (order_msg (req (e_now_parse e))) (x_out_queue ctx)) as [ok q] eqn:E.
  destruct (mpsc_push_spec [] _ _ _ _ Hq E) as (Hq' & Hm & Hb & Hcont).
  rewrite bool_decide_eq_true_2 in Hb by exact Hroom. subst ok.
  intros [= <- <-]. split_and!; try done; cbn; lia.
Qed.

Lemma orders_handled fs reqs ctx c ctx' c' :
  Forall2 order_text fs reqs -> c_authenticated c = true -> out_wf ctx ->
  0 <= c_rate_count c -> c_rate_count c + zlen fs <= BT_CFG_RATE_LIMIT_RPS ->
  zlen (out_msgs ctx) + zlen fs <= q_mask (x_out_queue ctx) ->
  handles fs ctx c ctx' c' ->
  exists tss, length tss = length fs /\ c_authenticated c' = true /\
    out_msgs ctx' = out_msgs ctx ++ zip_with (fun req ts => order_msg (req ts)) reqs tss.
Proof.
  intros Hok. revert ctx c. induction Hok as [|f req fs reqs Ho _ IH]; intros ctx c Ha Hwf H0 Hc Hr Hh.
  { inversion Hh; subst. exists []. split_and!; try done. by rewrite app_nil_r. }
  rewrite zlen_cons in *. pose proof (zlen_nonneg fs) as Hz.
  inversion Hh as [|e f' fs' ? ? ctx1 c1 ? ? Hf Hfs]; subst.
  destruct (order_handled e ctx c f req ctx1 c1 Ho Ha Hwf ltac:(lia) ltac:(lia) Hf)
    as (Hwf1 & Hm1 & Hout & Ha1 & Hc1).
  destruct (IH ctx1 c1 Ha1 Hwf1) as (tss & Hl & Ha' & Hmsgs); [lia|lia| |done|].
  { rewrite Hm1, Hout, zlen_app. change (zlen [_]) with 1. lia. }
  exists (e_now_parse e :: tss). split_and!; [cbn; lia|done|].
  rewrite Hmsgs, Hout, <- app_assoc. done.
Qed.

(** The socket of a client that authenticates and sends orders is drained, and
    the orders are in the queue. *)
Lemma session_delivers policy ctx c key fs reqs :
  conn_wf c -> received c = [] -> out_wf ctx -> key ∈ [test_key; benchmark_key] ->
  Forall2 order_text fs reqs ->
  0 <= c_rate_count c -> c_rate_count c + zlen fs <= BT_CFG_RATE_LIMIT_RPS ->
  zlen (out_msgs ctx) + zlen fs <= q_mask (x_out_queue ctx) ->
  let stream := stream_of (auth_frame key :: fs) in
  exists ctx' c' tss,
    gw_read_loop (socket_reads (S (length stream)) policy stream ctx c) ctx c = Some (ctx', c') /\
    received c' = [] /\ c_authenticated c' = true /\ length tss = length fs /\
    out_msgs ctx' = out_msgs ctx ++ zip_with (fun req ts => order_msg (req ts)) reqs tss.
Proof.
  intros Hc Hr Hwf Hk Hok H0 Hrate Hroom stream.
  destruct (socket_drained (S (length stream)) policy stream ctx c (auth_frame key :: fs))
    as (ctx' & c' & HL & Hc' & Hr' & Hh); [done| |by rewrite Hr|by rewrite Hr|lia|].
  { constructor; [by apply (auth_handled (MEnv 0 0 true []) ctx c)|].
    clear - Hok. induction Hok as [|????[? _]]; by constructor. }
  inversion Hh as [|e f fs' ? ? ctx1 c1 ? ? Hf Hfs]; subst.
  destruct (auth_handled e ctx (norm c) key Hk) as [_ Ha]. rewrite Ha in Hf. simplify_eq.
  destruct (orders_handled fs reqs ctx1 (set_auth true 0 (norm c)) ctx' (norm c'))
    as (tss & Hl & Ha' & Hm); try done.
  exists ctx', c', tss. by split_and!.
Qed.

(** ** Orders with integer prices *)

Record client_order := ClientOrder {
  co_user : Z; co_symbol : list Z; co_price : Z; co_quantity : Z; co_side : Z; co_type : Z;
}.

Definition client_order_ok (o : client_order) : Prop :=
  0 <= co_user o < 2 ^ 64 /\ symbol_ok (co_symbol o) /\ 0 <= co_price o < 2 ^ 53 /\
  0 <= co_quantity o < 2 ^ 32 /\ (co_side o = BT_SIDE_BUY \/ co_side o = BT_SIDE_SELL) /\
  0 <= co_type o <= 3.

Definition order_frame (o : client_order) : Z * list Z :=
  (#"O", print_order (co_user o) (co_symbol o) (co_price o) (co_quantity o) (co_side o) (co_type o)).

Definition session (key : list Z) (orders : list client_order) : list (Z * list Z) :=
  auth_frame key :: (order_frame <$> orders).

(** The request that reaches the OMS; [ts] is the time of its arrival. *)
Definition request_of (o : client_order) (ts : Z) : bt_order_request_t :=
  OrderRequest 0 (co_user o) (co_symbol o ++ replicate (16 - length (co_symbol o)) 0) (co_price o)
    (co_quantity o) (co_side o) (co_type o) ts.

Lemma length_print_fields vu vs vp vq cd ct :
  length (print_fields vu vs vp vq cd ct) = (length vu + length vs + length vp + length vq + 19)%nat.
Proof. unfold print_fields. repeat (rewrite length_app || cbn [length app]). lia. Qed.

Lemma order_frame_text o : client_order_ok o -> order_text (order_frame o) (request_of o).
Proof.
  intros (Hu & Hsym & Hp & Hq & Hsd & Hty). split_and!; [|done|].
  - unfold small_frame, order_frame, print_order, zlen; cbn [snd]. rewrite length_print_fields.
    pose proof (length_dec 20 (co_user o)). pose proof (length_dec 20 (co_price o)).
    pose proof (length_dec 20 (co_quantity o)). destruct Hsym as [Hs _]. unfold print_dec. lia.
  - intros now. split; [|done]. by apply text_parse_print.
Qed.

(** ** Properties *)

(** C1: From the socket to the queue: a client that sends a valid key and then any
    orders in the text protocol (symbols of 1 to 15 bytes, prices printed as
    whole numbers below 2^53), within its rate and the room of the queue, finds
    exactly these orders in the queue to the OMS, once each and in the order it
    sent them, however the socket cuts the bytes into reads; nothing it sent is
    left in the ring. *)
Theorem session_reaches_queue (policy : nat -> nat * Z * (nat -> menv)) (ctx : gw_ctx_t) (c : gw_conn_t)
    (key : list Z) (orders : list client_order) :
  conn_wf c -> received c = [] -> out_wf ctx -> key ∈ [test_key; benchmark_key] ->
  Forall client_order_ok orders ->
  0 <= c_rate_count c -> c_rate_count c + zlen orders <= BT_CFG_RATE_LIMIT_RPS ->
  zlen (out_msgs ctx) + zlen orders <= q_mask (x_out_queue ctx) ->
  let stream := stream_of (session key orders) in
  exists ctx' c' tss,
    gw_read_loop (socket_reads (S (length stream)) policy stream ctx c) ctx c = Some (ctx', c') /\
    received c' = [] /\ c_authenticated c' = true /\ length tss = length orders /\
    out_msgs ctx' = out_msgs ctx ++ zip_with (fun o ts => order_msg (request_of o ts)) orders tss.
Proof.
  intros Hc Hr Hwf Hk Hok H0 Hrate Hroom stream.
  destruct (session_delivers policy ctx c key (order_frame <$> orders) (request_of <$> orders))
    as (ctx' & c' & tss & HL & Hr' & Ha' & Hl & Hm); try done; [|by rewrite zlen_fmap..|].
  { apply Forall2_fmap, Forall_Forall2_diag. eapply Forall_impl; [exact Hok|]. apply order_frame_text. }
  rewrite length_fmap in Hl. rewrite zip_with_fmap_l in Hm. by exists ctx', c', tss.
Qed.

(** ** Witness *)

Definition sample_orders : list client_order :=
  [ClientOrder 7 (cstr "AAPL"%string) 101250000 10 BT_SIDE_BUY BT_TYPE_LIMIT;
   ClientOrder 8 (cstr "MSFT"%string) 99 5 BT_SIDE_SELL BT_TYPE_IOC].

Lemma sample_orders_ok : Forall client_order_ok sample_orders.
Proof.
  assert (symbol_ok (cstr "AAPL"%string) /\ symbol_ok (cstr "MSFT"%string)) as [H1 H2].
  { split; (split; [cbn; lia|split; [|done]]); vm_compute;
      intros H; repeat (apply elem_of_cons in H as [H|H]; [done|]); by apply elem_of_nil in H. }
  repeat (apply Forall_cons_2; [unfold client_order_ok;
    cbn [co_user co_symbol co_price co_quantity co_side co_type]; split_and!;
    first [exact H1|exact H2|by left|by right|by vm_compute]|]).
  by apply Forall_nil_2.
Qed.

(** Reads of seven bytes. *)
Lemma session_reaches_queue_witness :
  exists ctx' t1 t2, out_msgs ctx' =
    [order_msg (request_of (ClientOrder 7 (cstr "AAPL"%string) 101250000 10 BT_SIDE_BUY BT_TYPE_LIMIT) t1);
     order_msg (request_of (ClientOrder 8 (cstr "MSFT"%string) 99 5 BT_SIDE_SELL BT_TYPE_IOC) t2)] /\
    exists c', gw_read_loop
      (socket_reads (S (length (stream_of (session test_key sample_orders)))) (fun i => (7%nat, 0, quiet_env))
         (stream_of (session test_key sample_orders)) idle_ctx (conn_with [])) idle_ctx (conn_with [])
      = Some (ctx', c').
Proof.
  destruct (conn_with_ok [] ltac:(done)) as [Hwf Hr].
  destruct (session_reaches_queue (fun i => (7%nat, 0, quiet_env)) idle_ctx (conn_with []) test_key sample_orders)
    as (ctx' & c' & tss & HL & _ & _ & Hl & Hm).
  - exact Hwf.
  - exact Hr.
  - exact idle_ctx_wf.
  - by left.
  - exact sample_orders_ok.
  - done.
  - done.
  - done.
  - clear Hwf Hr. destruct tss as [|t1 [|t2 [|]]]; try discriminate Hl.
    exists ctx', t1, t2. split; [|exists c'; exact HL].
    change (out_msgs idle_ctx) with (@nil bt_gw_oms_msg_t) in Hm. exact Hm.
Defined.
