(* ===== verification/Client.v ===== *)
(** * The test client

    Models [src/test/test_trading.c], the one client of the gateway in the
    repository: the construction of order messages with [snprintf], sending
    and draining, the scenarios and the verdict of [main]. What [send] and
    [recv] return is an input; clock, sleeps and console output are left out.

    The client does not authenticate, and [test_client_locked_out] shows what
    follows when it meets the gateway. [client_orders_reach_queue] is what its
    messages would become behind a key. *)

From Stdlib Require Import Ascii String.
From S2P Require Import Prelude Queue CTypes GwRing GwParse GwParseProofs Price Gateway.
From S2P Require Import GatewayFrames GatewayOps Session.

(** ** [snprintf] *)

(** The absolute value of a double in millionths, to the nearest, ties to even. *)
Definition micro_of (m e : Z) : Z :=
  round_half_even (m * 2 ^ Z.max e 0 * 10 ^ 6) (2 ^ Z.max (- e) 0).

Definition six_digits (n : Z) : list Z :=
  (fun i => 48 + (n / 10 ^ i) mod 10) <$> [5; 4; 3; 2; 1; 0].

(** [%.6f]. *)
Definition fmt_6f (d : double_val) : list Z :=
  match d with
  | DFin neg m e =>
      let x := micro_of m e in
      let whole := x / 10 ^ 6 in
      (if neg then [ #"-"] else []) ++ dec (S (Z.to_nat (Z.log2 whole))) whole ++
      #"." :: six_digits (x mod 10 ^ 6)
  | DInf => cstr "inf"
  | DNaN => cstr "nan"
  end.

(** The arguments of [send_order]; a symbol is the string without its NUL. *)
Record test_order := TestOrder {
  to_user : Z; to_symbol : list Z; to_side : Z; to_type : Z; to_price : double_val; to_quantity : Z;
}.

(** The text ["u=%lu|s=%s|p=%.6f|q=%u|d=%c|t=%c"]. *)
Definition order_payload (o : test_order) : list Z :=
  print_fields (print_dec (to_user o)) (to_symbol o) (fmt_6f (to_price o))
    (print_dec (to_quantity o)) (to_side o) (to_type o).

(** ** Messages *)

(** The result and the bytes written to [buf]; [None] when the [memcpy] reads
    beyond the 256 bytes of [payload]. [snprintf] returns the length the text
    would have, and stores at most 255 characters and a NUL. *)
Definition build_order_msg (buf_sz : Z) (o : test_order) : option (Z * list Z) :=
  let text := order_payload o in
  let plen := zlen text in
  let msg_len := u32 (5 + plen) in
  if buf_sz <? u32 (msg_len + 4) then Some (-1, [])
  else if 256 <? plen then None
  else
    let payload := take 255 text ++ [0] in
    Some (5 + plen, be_bytes 4 msg_len ++ #"O" :: take (Z.to_nat plen) payload).

(** The counters of [g_stats] that the client changes, and the bytes the socket
    took. *)
Record client := Client {
  cl_total : Z; cl_passed : Z; cl_failed : Z; cl_orders_sent : Z; cl_trades_received : Z;
  cl_wire : list Z;
}.

Definition client_start : client := Client 0 0 0 0 0 [].

(** [sent] is what [send] returns: -1 or the number of bytes it took. *)
Definition send_order (sent : Z) (o : test_order) (c : client) : option (Z * client) :=
  match build_order_msg 512 o with
  | None => None
  | Some (len, buf) =>
      if len <? 0 then Some (-1, c)
      else
        let wire := cl_wire c ++ take (Z.to_nat sent) buf in
        let '(Client total passed failed orders trades _) := c in
        if negb (sent =? len) then Some (-1, Client total passed failed orders trades wire)
        else Some (0, Client total passed failed (orders + 1) trades wire)
  end.

(** The results of the [recv] calls, up to the first that is not positive. *)
Fixpoint drain_loop (recvs : list Z) (total trades : Z) : Z * Z :=
  match recvs with
  | n :: recvs => if 0 <? n then drain_loop recvs (i32 (total + n)) (trades + 1) else (total, trades)
  | [] => (total, trades)
  end.

Definition drain_socket (setsockopt_ok : bool) (recvs : list Z) (c : client) : Z * client :=
  if setsockopt_ok then
    let '(Client total passed failed orders trades wire) := c in
    let '(n, trades) := drain_loop recvs 0 trades in
    (n, Client total passed failed orders trades wire)
  else (0, c).

Definition test_pass (c : client) : client :=
  let '(Client total passed failed orders trades wire) := c in
  Client (total + 1) (passed + 1) failed orders trades wire.

Definition test_fail (c : client) : client :=
  let '(Client total passed failed orders trades wire) := c in
  Client (total + 1) passed (failed + 1) orders trades wire.

(** ** The scenarios *)

(** A floating literal [n / d]. *)
Definition lit (n d : Z) : double_val := round_signed n d.

Definition limit_orders : list test_order :=
  let sym := cstr "TEST01" in
  [TestOrder 1 sym #"B" #"L" (lit 10000 100) 100;
   TestOrder 2 sym #"B" #"L" (lit 10050 100) 200;
   TestOrder 3 sym #"B" #"L" (lit 9950 100) 300;
   TestOrder 4 sym #"B" #"L" (lit 10100 100) 50;
   TestOrder 5 sym #"S" #"L" (lit 10200 100) 150;
   TestOrder 6 sym #"S" #"L" (lit 10150 100) 250;
   TestOrder 7 sym #"S" #"L" (lit 10300 100) 80].

Definition priority_orders : list test_order :=
  [TestOrder 10 (cstr "TEST01") #"B" #"M" (lit 0 1) 80;
   TestOrder 11 (cstr "TEST01") #"B" #"L" (lit 10100 100) 300].

Definition ioc_orders : list test_order :=
  [TestOrder 20 (cstr "IOC01") #"S" #"L" (lit 10500 100) 500;
   TestOrder 21 (cstr "IOC01") #"B" #"I" (lit 10600 100) 200;
   TestOrder 22 (cstr "IOC01") #"B" #"I" (lit 10400 100) 200].

Definition fok_orders : list test_order :=
  [TestOrder 30 (cstr "FOK01") #"S" #"L" (lit 20000 100) 100;
   TestOrder 31 (cstr "FOK01") #"B" #"F" (lit 20000 100) 50;
   TestOrder 32 (cstr "FOK01") #"B" #"F" (lit 20000 100) 200].

Definition multi_symbol_orders : list test_order :=
  let syms := [cstr "AAPL"; cstr "GOOG"; cstr "MSFT"; cstr "TSLA"; cstr "NVDA"] in
  seqZ 0 5 ≫= fun i =>
    [TestOrder (40 + i) syms.[i] #"B" #"L" (dadd (lit 1000 10) (double_of_Z i)) (100 + i * 50);
     TestOrder (50 + i) syms.[i] #"S" #"L" (dadd (lit 1050 10) (double_of_Z i)) (100 + i * 50)].

Definition validation_orders : list test_order :=
  [TestOrder 60 (cstr "BAD01") #"B" #"L" (lit (-1) 1) 100;
   TestOrder 61 (cstr "BAD02") #"B" #"L" (lit 1000 10) 0;
   TestOrder 62 (cstr "BAD03") #"B" #"L" (lit 1000 10) 10000001;
   TestOrder 63 [] #"B" #"L" (lit 1000 10) 100;
   TestOrder 64 (cstr "BAD04") #"X" #"L" (lit 1000 10) 100].

Definition stress_orders : list test_order :=
  let syms := [cstr "STR01"; cstr "STR02"; cstr "STR03"; cstr "STR04"; cstr "STR05"] in
  (fun i => TestOrder (100 + i) syms.[i mod 5] [ #"B"; #"S"].[i mod 2]
     [ #"L"; #"M"; #"I"; #"F"].[i mod 4]
     (dadd (lit 500 10) (ddiv (double_of_Z ((i * 7) mod 5000)) (lit 1000 10))) (i mod 100 + 1))
  <$> seqZ 0 1000.

(** ** Running them *)

(** What [send] returns for each message and the calls of [recv] after it. *)
Record io := Io { io_sends : list Z; io_opt : bool; io_recvs : list Z }.

(** [ok &= (send_order (...) == 0)] for each order; a call whose result the
    environment does not supply fails. *)
Fixpoint send_all (sends : list Z) (os : list test_order) (ok : bool) (c : client)
  : option (bool * client) :=
  match os with
  | [] => Some (ok, c)
  | o :: os =>
      match send_order (default (-1) (head sends)) o c with
      | None => None
      | Some (r, c) => send_all (tail sends) os (ok && (r =? 0)) c
      end
  end.

Definition verdict (ok : bool) (c : client) : client := if ok then test_pass c else test_fail c.

(** The scenarios with a verdict on their sends; only the first does not drain
    the socket. *)
Definition scenario (drain : bool) (w : io) (os : list test_order) (c : client) : option client :=
  match send_all (io_sends w) os true c with
  | None => None
  | Some (ok, c) =>
      let c := if drain then snd (drain_socket (io_opt w) (io_recvs w) c) else c in
      Some (verdict ok c)
  end.

(** [ok] stays 1 in the stress test. *)
Definition test_stress (w : io) (c : client) : option client :=
  match send_all (io_sends w) stress_orders true c with
  | None => None
  | Some (_, c) => Some (test_pass (snd (drain_socket (io_opt w) (io_recvs w) c)))
  end.

(** The scenarios before the stress test, in the order [main] calls them. *)
Definition scenarios : list (bool * list test_order) :=
  [(false, limit_orders); (true, priority_orders); (true, ioc_orders); (true, fok_orders);
   (true, multi_symbol_orders); (true, validation_orders)].

(** [w i] is what the socket answers in the [i]-th of them. *)
Fixpoint run_scenarios (w : nat -> io) (l : list (bool * list test_order)) (c : client) : option client :=
  match l with
  | [] => Some c
  | (drain, os) :: l =>
      c ← scenario drain (w 0%nat) os c; run_scenarios (fun i => w (S i)) l c
  end.

(** [main] after the connection: its exit code and the client's state. *)
Definition client_main (fd : Z) (w : nat -> io) (stress last : io) : option (Z * client) :=
  if fd <? 0 then Some (1, test_fail client_start)
  else
    c ← run_scenarios w scenarios (test_pass client_start);
    c ← test_stress stress c;
    let '(n, Client total passed failed orders trades wire) :=
      drain_socket (io_opt last) (io_recvs last) c in
    let c := Client total passed failed orders (trades + n) wire in
    Some (if cl_failed c =? 0 then 0 else 1, c).

(** Every order of a run. *)
Definition test_suite : list test_order := mjoin scenarios.*2 ++ stress_orders.

(** ** Prices in the text *)

Definition price_ok (d : double_val) : Prop :=
  match d with DFin _ m e => 0 <= micro_of m e < 2 ^ 50 | _ => False end.

(** What the gateway makes of it: the whole dollars. *)
Definition whole_price (d : double_val) : Z :=
  match d with
  | DFin neg m e => let w := micro_of m e / 10 ^ 6 in if neg then - w else w
  | _ => 0
  end.

Lemma round_double_sign neg num den :
  round_double neg num den =
  match round_double false num den with DFin _ m e => DFin neg m e | d => d end.
Proof. unfold round_double. by repeat case_match; simplify_eq. Qed.

(** Rounding a number of millionths to a double does not cross an integer. *)
Lemma cast_millionths neg x :
  0 <= x < 2 ^ 50 ->
  cast_i64 (round_double neg x (10 ^ 6)) = if neg then - (x / 10 ^ 6) else x / 10 ^ 6.
Proof.
  intros Hx. destruct (decide (x = 0)) as [->|Hne]; [by destruct neg|].
  pose proof (round_ratio 1 x (10 ^ 6) ltac:(lia) ltac:(lia) ltac:(lia) ltac:(lia) ltac:(lia))
    as (j & m & Hj & E & Hm & Herr & Hulp).
  rewrite !Z.mul_1_l in E. rewrite round_double_sign, E. pose proof (pow2_pos j Hj) as Hp.
  assert (2 ^ j > 10 ^ 6) as Hbig by nia.
  assert (m / 2 ^ j = x / 10 ^ 6) as Hq.
  { pose proof (Z.div_mod x (10 ^ 6) ltac:(lia)) as Hd.
    pose proof (Z.mod_pos_bound x (10 ^ 6) ltac:(lia)) as Hr.
    set (q := x / 10 ^ 6) in *. set (r := x mod 10 ^ 6) in *. set (P := 2 ^ j) in *. clearbody q r P.
    symmetry. apply (Z.div_unique_pos _ _ _ (m - q * P)); [|lia].
    subst x. destruct (decide (r = 0)) as [->|Hr0]; [|nia].
    assert (m = q * P) by nia. lia. }
  unfold cast_i64. rewrite (Z.max_r (- j)), Z.opp_involutive, (Z.max_l j), Z.pow_0_r, Z.mul_1_r, Hq by lia.
  assert (0 <= x / 10 ^ 6 < 2 ^ 50).
  { split; [apply Z.div_pos; lia|]. apply Z.div_lt_upper_bound; lia. }
  destruct neg; rewrite (proj2 (Z.leb_le _ _)), (proj2 (Z.ltb_lt _ _)) by lia; done.
Qed.

Lemma six_digits_ok n : all_digits (six_digits n).
Proof.
  unfold six_digits, all_digits. rewrite Forall_fmap. apply Forall_forall. intros i _. cbn.
  pose proof (Z.mod_pos_bound (n / 10 ^ i) 10 ltac:(lia)). lia.
Qed.

Lemma six_digits_val w n : 0 <= n < 10 ^ 6 -> digits_val w (six_digits n) = w * 10 ^ 6 + n.
Proof.
  intros Hn. unfold six_digits, digits_val. cbn [fmap list_fmap fold_left].
  change (10 ^ 5) with 100000. change (10 ^ 4) with 10000. change (10 ^ 3) with 1000.
  change (10 ^ 2) with 100. change (10 ^ 1) with 10. change (10 ^ 0) with 1. change (10 ^ 6) with 1000000 in *.
  Z.to_euclidean_division_equations. lia.
Qed.

Section price_text.
Context (neg : bool) (m e : Z) (Hok : price_ok (DFin neg m e)).
Local Abbreviation x := (micro_of m e).
Local Abbreviation whole := (x / 10 ^ 6).
Local Abbreviation digits := (dec (S (Z.to_nat (Z.log2 whole))) whole).

Lemma whole_range : 0 <= whole < 2 ^ 31.
Proof using Hok.
  cbn in Hok. split; [by apply Z.div_pos; lia|]. apply Z.div_lt_upper_bound; lia.
Qed.

Lemma whole_fuel : 0 <= whole < 10 ^ Z.of_nat (S (Z.to_nat (Z.log2 whole))).
Proof using Hok.
  pose proof whole_range as Hw. split; [lia|]. destruct (decide (whole = 0)) as [->|]; [done|].
  pose proof (Z.log2_nonneg whole). rewrite Nat2Z.inj_succ, Z2Nat.id by lia.
  apply Z.lt_le_trans with (2 ^ Z.succ (Z.log2 whole)); [apply Z.log2_spec; lia|].
  apply Z.pow_le_mono_l; lia.
Qed.

(** The value is read back as the same number of millionths. *)
Lemma strtod_6f : strtod (fmt_6f (DFin neg m e) ++ [0]) = round_double neg x (10 ^ 6).
Proof using Hok.
  pose proof whole_fuel as Hw. cbn [fmt_6f].
  pose proof (scan_dec _ whole (#"." :: six_digits (x mod 10 ^ 6) ++ [0]) Hw eq_refl) as Hscan.
  destruct (dec_head (Z.to_nat (Z.log2 whole)) whole ltac:(lia)) as (c & l & Ed & Hc & Hl).
  rewrite Ed in *. rewrite <- !app_assoc. cbn [app] in *.
  rewrite strtod_digit; [|done|by destruct Hl; [|apply digit_not_x]].
  unfold strtod_decimal, scan_mantissa. rewrite Hscan. rewrite Z.eqb_refl.
  rewrite scan_digits_app by (done || apply six_digits_ok).
  rewrite six_digits_val by (apply Z.mod_pos_bound; lia).
  change (zlen (six_digits (x mod 10 ^ 6))) with 6.
  rewrite (proj2 (Z.eqb_neq _ 0)) by (pose proof (zlen_nonneg (c :: l)); lia).
  change (scan_exponent #"e" #"E" [0]) with 0. unfold scaled.
  change (10 ^ Z.max (0 - 6) 0) with 1. change (10 ^ Z.max (- (0 - 6)) 0) with (10 ^ 6).
  f_equal. rewrite Z.mul_1_r. pose proof (Z.div_mod x (10 ^ 6) ltac:(lia)). lia.
Qed.

Lemma length_6f : (length (fmt_6f (DFin neg m e)) <= 18)%nat.
Proof using Hok.
  cbn [fmt_6f]. rewrite !length_app. cbn [length]. change (length (six_digits (x mod 10 ^ 6))) with 6%nat.
  pose proof (length_dec_lt (S (Z.to_nat (Z.log2 whole))) whole 10 ltac:(lia)
    ltac:(pose proof whole_range; lia)). destruct neg; cbn [length]; lia.
Qed.

Lemma no_pipe_6f : #"|" ∉ fmt_6f (DFin neg m e).
Proof using Hok.
  cbn [fmt_6f]. pose proof whole_range as Hw. rewrite !not_elem_of_app, not_elem_of_cons. split_and!.
  - destruct neg; [|apply not_elem_of_nil]. by intros H%list_elem_of_singleton.
  - intros H. pose proof (dec_digits (S (Z.to_nat (Z.log2 whole))) whole ltac:(lia)) as Hd.
    eapply Forall_forall in Hd; [|exact H]. change (#"|") with 124 in Hd. lia.
  - done.
  - intros H. pose proof (six_digits_ok (x mod 10 ^ 6)) as Hd.
    eapply Forall_forall in Hd; [|exact H]. change (#"|") with 124 in Hd. lia.
Qed.

End price_text.

(** ** Messages the buffers hold *)

Definition sendable (o : test_order) : Prop :=
  0 <= to_user o < 2 ^ 64 /\ (length (to_symbol o) <= 15)%nat /\ 0 <= to_quantity o < 2 ^ 32 /\
  price_ok (to_price o).

Definition sendableb (o : test_order) : bool :=
  (0 <=? to_user o) && (to_user o <? 2 ^ 64) && (length (to_symbol o) <=? 15)%nat &&
  (0 <=? to_quantity o) && (to_quantity o <? 2 ^ 32) &&
  match to_price o with
  | DFin _ m e => (0 <=? micro_of m e) && (micro_of m e <? 2 ^ 50)
  | _ => false
  end.

Lemma sendableb_spec o : sendableb o = true -> sendable o.
Proof.
  unfold sendableb, sendable, price_ok. rewrite !andb_true_iff, Nat.leb_le.
  intros (((((? & ?) & ?) & ?) & ?) & Hp). split_and!; try lia.
  destruct (to_price o); [lia|done|done].
Qed.

(** The frame of an order as the gateway sees it. *)
Definition test_frame (o : test_order) : Z * list Z := (#"O", order_payload o).

Lemma payload_length o : sendable o -> (length (order_payload o) <= 92)%nat.
Proof.
  intros (Hu & Hs & Hq & Hp). unfold order_payload. rewrite length_print_fields.
  pose proof (length_dec 20 (to_user o)). pose proof (length_dec 20 (to_quantity o)).
  destruct (to_price o) as [neg m e| |]; [|done|done].
  pose proof (length_6f neg m e Hp). unfold print_dec. lia.
Qed.

Lemma test_frame_small o : sendable o -> small_frame (test_frame o).
Proof. intros Hs%payload_length. unfold small_frame, test_frame, zlen. cbn [snd]. lia. Qed.

(** The bytes built for an order are its frame, whole. *)
Lemma build_frame o :
  sendable o -> build_order_msg 512 o = Some (zlen (frame_bytes (test_frame o)), frame_bytes (test_frame o)).
Proof.
  intros Hs%payload_length. unfold build_order_msg.
  rewrite zlen_frame. unfold frame_bytes, test_frame. cbn [fst snd].
  set (text := order_payload o) in *. assert (0 <= zlen text <= 92) as Hz by (unfold zlen; lia).
  rewrite (u32_small (5 + zlen text)), u32_small by lia.
  rewrite (proj2 (Z.ltb_ge 512 _)), (proj2 (Z.ltb_ge 256 _)) by lia.
  do 4 f_equal. unfold zlen. rewrite Nat2Z.id, (take_ge text 255) by lia. by apply take_app_length.
Qed.

(** An order is sent when [send] takes all of it. *)
Lemma send_order_frame sent o c :
  sendable o ->
  send_order sent o c =
  let ok := sent =? zlen (frame_bytes (test_frame o)) in
  Some (if ok then 0 else -1,
        Client (cl_total c) (cl_passed c) (cl_failed c)
          (if ok then cl_orders_sent c + 1 else cl_orders_sent c) (cl_trades_received c)
          (cl_wire c ++ take (Z.to_nat sent) (frame_bytes (test_frame o)))).
Proof.
  intros Hs. unfold send_order. rewrite build_frame by done.
  rewrite (proj2 (Z.ltb_ge _ 0)) by apply zlen_nonneg. destruct c. cbn.
  by destruct (sent =? zlen _).
Qed.

(** The request an order turns into. *)
Definition test_request (o : test_order) (ts : Z) : bt_order_request_t :=
  OrderRequest 0 (to_user o) (to_symbol o ++ replicate (16 - length (to_symbol o)) 0)
    (whole_price (to_price o)) (to_quantity o) (side_of (to_side o)) (type_of (to_type o)) ts.

Lemma text_field_price (d : double_val) i u s p q sd ty ts :
  price_ok d ->
  text_field [ #"p"] (fmt_6f d) (OrderRequest i u s p q sd ty ts)
  = OrderRequest i u s (whole_price d) q sd ty ts.
Proof.
  intros Hp. destruct d as [neg m e| |]; [|done|done]. pose proof (length_6f neg m e Hp) as Hl.
  unfold text_field. change (#"p" =? #"u") with false. change (#"p" =? #"s") with false.
  change (#"p" =? #"p") with true. cbv iota. rewrite take_ge by lia.
  rewrite strtod_6f by done. cbn in Hp. by rewrite cast_millionths.
Qed.

Lemma test_frame_text o :
  sendable o -> symbol_ok (to_symbol o) -> to_side o <> #"|" -> to_type o <> #"|" ->
  order_text (test_frame o) (test_request o).
Proof.
  intros Hs Hsym Hd Ht. split_and!; [by apply test_frame_small|done|]. intros now. split; [|done].
  destruct Hs as (Hu & Hl & Hq & Hp). pose proof Hsym as (Hlen & Hpipe & _).
  unfold gw_parse_order_text, test_frame, order_payload. cbn [snd].
  assert (#"|" ∉ fmt_6f (to_price o)) as Hnp.
  { destruct (to_price o); [by apply no_pipe_6f|done|done]. }
  rewrite text_parse_fields by (done || apply print_dec_no_pipe; lia).
  rewrite text_field_u, text_field_s, text_field_price, text_field_q, text_field_d, text_field_t by done.
  rewrite set_symbol_fresh by done. cbn [rq_symbol].
  by rewrite (proj2 (Z.eqb_neq _ 0)) by (by apply symbol_head).
Qed.

(** ** A client that does not authenticate *)

Lemma handles_unauth fs ctx c ctx' c' :
  Forall (fun f => f.1 <> #"A") fs -> c_authenticated c = false ->
  handles fs ctx c ctx' c' -> ctx' = ctx /\ c_authenticated c' = false.
Proof.
  intros Hf Ha Hh. revert Hf Ha. induction Hh as [|e f fs ctx c ctx1 c1 ctx2 c2 H _ IH]; [done|].
  intros [Hf Hfs]%Forall_cons Ha. unfold handle_frame in H.
  rewrite (proj2 (Z.eqb_neq _ _) Hf), Ha in H. simplify_eq/=. by apply IH.
Qed.

(** Everything a complete run of sends puts on the wire. *)
Lemma send_all_frames os sends ok c :
  Forall sendable os ->
  sends = (fun o => zlen (frame_bytes (test_frame o))) <$> os ->
  send_all sends os ok c =
  Some (ok, Client (cl_total c) (cl_passed c) (cl_failed c) (cl_orders_sent c + zlen os)
              (cl_trades_received c) (cl_wire c ++ stream_of (test_frame <$> os))).
Proof.
  intros Hs ->. revert ok c. induction Hs as [|o os Ho _ IH]; intros ok c.
  { cbn. rewrite app_nil_r, Z.add_0_r. by destruct c. }
  rewrite fmap_cons. cbn [send_all hd_error tail from_option id]. rewrite send_order_frame by done.
  rewrite Z.eqb_refl. cbn [Z.eqb]. rewrite IH. cbn [cl_total cl_passed cl_failed cl_orders_sent cl_trades_received cl_wire].
  rewrite andb_true_r, zlen_cons, (take_ge (frame_bytes _)) by (unfold zlen; lia).
  rewrite <- app_assoc. do 3 f_equal. lia.
Qed.

(** ** Whole runs *)

(** The socket takes every message whole. *)
Definition takes_all (w : io) (os : list test_order) : Prop :=
  io_sends w = (fun o => zlen (frame_bytes (test_frame o))) <$> os.

Lemma suite_sendable : Forall sendable test_suite.
Proof.
  assert (forallb sendableb test_suite = true) as H by (vm_compute; reflexivity).
  rewrite forallb_forall in H. apply Forall_forall. intros o Ho%list_elem_of_In.
  apply sendableb_spec, H, Ho.
Qed.

(** What a test that passes after sending [os] does to the client. *)
Definition passed_with (os : list test_order) (c c' : client) : Prop :=
  cl_failed c' = cl_failed c /\ cl_orders_sent c' = cl_orders_sent c + zlen os /\
  cl_wire c' = cl_wire c ++ stream_of (test_frame <$> os).

Lemma drain_keeps ok recvs c :
  exists n k, drain_socket ok recvs c =
    (n, Client (cl_total c) (cl_passed c) (cl_failed c) (cl_orders_sent c) k (cl_wire c)).
Proof.
  destruct c, ok; cbn [drain_socket cl_total cl_passed cl_failed cl_orders_sent cl_wire].
  - destruct (drain_loop _ _ _) as [n k]. by exists n, k.
  - by eexists _, _.
Qed.

Lemma scenario_passes drain w os c :
  Forall sendable os -> takes_all w os ->
  exists c', scenario drain w os c = Some c' /\ passed_with os c c'.
Proof.
  intros Hs Hw. unfold scenario. rewrite (send_all_frames os) by done. eexists. split; [done|].
  destruct drain; [|done]. edestruct drain_keeps as (n & k & ->). done.
Qed.

Lemma stress_passes w c :
  Forall sendable stress_orders -> takes_all w stress_orders ->
  exists c', test_stress w c = Some c' /\ passed_with stress_orders c c'.
Proof.
  intros Hs Hw. unfold test_stress. rewrite (send_all_frames stress_orders) by done.
  eexists. split; [done|]. edestruct drain_keeps as (n & k & ->). done.
Qed.

Lemma stream_of_app fs fs' : stream_of (fs ++ fs') = stream_of fs ++ stream_of fs'.
Proof. unfold stream_of. by rewrite fmap_app, join_app. Qed.

Lemma passed_with_app os os' c c1 c2 :
  passed_with os c c1 -> passed_with os' c1 c2 -> passed_with (os ++ os') c c2.
Proof.
  intros (F1 & S1 & W1) (F2 & S2 & W2). split_and!.
  - congruence.
  - rewrite S2, S1, zlen_app. lia.
  - by rewrite W2, W1, fmap_app, stream_of_app, app_assoc.
Qed.

Lemma run_scenarios_pass w l c :
  Forall sendable (mjoin l.*2) -> (forall i d os, l !! i = Some (d, os) -> takes_all (w i) os) ->
  exists c', run_scenarios w l c = Some c' /\ passed_with (mjoin l.*2) c c'.
Proof.
  revert w c. induction l as [|[d os] l IH]; intros w c Hs Hw.
  { exists c. split; [done|]. split_and!; [done|unfold zlen; cbn; lia|]. cbn. by rewrite app_nil_r. }
  cbn in Hs. apply Forall_app in Hs as [Ho Hs]. cbn [run_scenarios].
  destruct (scenario_passes d (w 0%nat) os c Ho (Hw 0%nat d os eq_refl)) as (c1 & -> & H1).
  destruct (IH (fun i => w (S i)) c1 Hs (fun i => Hw (S i))) as (c2 & E & H2).
  exists c2. split; [exact E|]. cbn. by eapply passed_with_app.
Qed.

(** When the socket takes every message, [main] reports success and the wire
    carries the suite. *)
Lemma client_main_passes fd w stress last :
  0 <= fd -> (forall i d os, scenarios !! i = Some (d, os) -> takes_all (w i) os) ->
  takes_all stress stress_orders ->
  exists c, client_main fd w stress last = Some (0, c) /\
    cl_orders_sent c = zlen test_suite /\ cl_wire c = stream_of (test_frame <$> test_suite).
Proof.
  intros Hfd Hw Hst. pose proof suite_sendable as Hs. apply Forall_app in Hs as [Hs Hs'].
  unfold client_main. rewrite (proj2 (Z.ltb_ge fd 0)) by done.
  destruct (run_scenarios_pass w scenarios (test_pass client_start) Hs Hw) as (c1 & E1 & H1). rewrite E1.
  destruct (stress_passes stress c1 Hs' Hst) as (c2 & E & H2). cbn [mbind option_bind]. rewrite E.
  pose proof (passed_with_app _ _ _ _ _ H1 H2) as (F & S & W). cbn [mbind option_bind].
  destruct (drain_keeps (io_opt last) (io_recvs last) c2) as (n & k & ->).
  eexists. split; [cbn [cl_failed]; rewrite F; reflexivity|]. cbn [cl_orders_sent cl_wire].
  rewrite S, W. unfold test_suite. split; [apply Z.add_0_l|apply app_nil_l].
Qed.

(** ** Properties *)

(** What a client with the messages of this one would get from the gateway if it
    sent a key first, which this one does not: orders whose symbol is not empty
    and has no bar, whose price is below 2^50 millionths, within the rate of the
    connection and the room of the queue, are in the queue to the OMS in order,
    with their user, symbol, quantity and type, the whole dollars of their price
    to the nearest millionth, and the side [side_of] makes of theirs (SELL for
    an S, BUY for any other letter, an X too), however the socket cuts the bytes
    into reads. *)
Theorem client_orders_reach_queue (policy : nat -> nat * Z * (nat -> menv)) (ctx : gw_ctx_t)
    (c : gw_conn_t) (key : list Z) (orders : list test_order) (w : io) :
  conn_wf c -> received c = [] -> out_wf ctx -> key ∈ [test_key; benchmark_key] ->
  Forall (fun o => sendable o /\ symbol_ok (to_symbol o) /\ to_side o <> #"|" /\ to_type o <> #"|") orders ->
  0 <= c_rate_count c -> c_rate_count c + zlen orders <= BT_CFG_RATE_LIMIT_RPS ->
  zlen (out_msgs ctx) + zlen orders <= q_mask (x_out_queue ctx) -> takes_all w orders ->
  exists cl ctx' c' tss,
    send_all (io_sends w) orders true client_start = Some (true, cl) /\
    let stream := frame_bytes (auth_frame key) ++ cl_wire cl in
    gw_read_loop (socket_reads (S (length stream)) policy stream ctx c) ctx c = Some (ctx', c') /\
    received c' = [] /\ length tss = length orders /\
    out_msgs ctx' = out_msgs ctx ++ zip_with (fun o ts => order_msg (test_request o ts)) orders tss.
Proof.
  intros Hc Hr Hwf Hk Hok H0 Hrate Hroom Hw.
  assert (Forall sendable orders) as Hs by (eapply Forall_impl; [exact Hok|]; naive_solver).
  destruct (session_delivers policy ctx c key (test_frame <$> orders) (test_request <$> orders))
    as (ctx' & c' & tss & HL & Hr' & _ & Hl & Hm); try done; [|by rewrite zlen_fmap..|].
  { apply Forall2_fmap, Forall_Forall2_diag. eapply Forall_impl; [exact Hok|].
    intros o (? & ? & ? & ?). by apply test_frame_text. }
  rewrite length_fmap in Hl. rewrite zip_with_fmap_l in Hm.
  eexists _, ctx', c', tss. split; [by apply send_all_frames|]. by split_and!.
Qed.

(** C2: The test client is locked out and does not notice. When it gets a
    connection and the socket takes each of its messages whole, its [main]
    reports that all tests passed, whatever it receives; and a gateway that
    reads those bytes on a connection that is not authenticated, however the
    socket cuts them into reads, drops every one of the 1030 orders, its state
    unchanged, since the client sends no key. *)
Theorem test_client_locked_out (policy : nat -> nat * Z * (nat -> menv)) (ctx : gw_ctx_t)
    (c : gw_conn_t) (fd : Z) (w : nat -> io) (stress last : io) :
  conn_wf c -> received c = [] -> c_authenticated c = false -> 0 <= fd ->
  (forall i d os, scenarios !! i = Some (d, os) -> takes_all (w i) os) ->
  takes_all stress stress_orders ->
  exists cl c', client_main fd w stress last = Some (0, cl) /\ cl_orders_sent cl = 1030 /\
    gw_read_loop (socket_reads (S (length (cl_wire cl))) policy (cl_wire cl) ctx c) ctx c
      = Some (ctx, c') /\
    received c' = [].
Proof.
  intros Hc Hr Ha Hfd Hw Hst.
  destruct (client_main_passes fd w stress last Hfd Hw Hst) as (cl & Hmain & Hsent & Hwire).
  destruct (socket_drained (S (length (cl_wire cl))) policy (cl_wire cl) ctx c (test_frame <$> test_suite))
    as (ctx' & c' & HL & _ & Hr' & Hh); [done| |by rewrite Hr|by rewrite Hr|lia|].
  { apply Forall_fmap. eapply Forall_impl; [exact suite_sendable|]. apply test_frame_small. }
  apply handles_unauth in Hh as [-> _]; [| |by destruct c].
  - exists cl, c'. split_and!; [exact Hmain|rewrite Hsent; vm_compute; reflexivity|exact HL|exact Hr'].
  - apply Forall_fmap, Forall_true. by intros [].
Qed.

(** ** Witnesses *)

(** A socket that takes everything and answers nothing. *)
Definition generous (os : list test_order) : io :=
  Io ((fun o => zlen (frame_bytes (test_frame o))) <$> os) true [].

Lemma client_orders_reach_queue_witness :
  exists ctx' t1 t2, out_msgs ctx' =
    [order_msg (OrderRequest 0 10 (cstr "TEST01" ++ replicate 10 0) 0 80 BT_SIDE_BUY BT_TYPE_MARKET t1);
     order_msg (OrderRequest 0 11 (cstr "TEST01" ++ replicate 10 0) 101 300 BT_SIDE_BUY BT_TYPE_LIMIT t2)].
Proof.
  destruct (conn_with_ok [] ltac:(done)) as [Hwf Hr].
  destruct (client_orders_reach_queue (fun i => (7%nat, 0, quiet_env)) idle_ctx (conn_with []) test_key
    priority_orders (generous priority_orders)) as (cl & ctx' & c' & tss & _ & _ & _ & Hl & Hm).
  - exact Hwf.
  - exact Hr.
  - exact idle_ctx_wf.
  - by left.
  - assert (symbol_ok (cstr "TEST01")) as Hsym.
    { split; [cbn; lia|split; [|done]]. vm_compute.
      intros H; repeat (apply elem_of_cons in H as [H|H]; [done|]); by apply elem_of_nil in H. }
    repeat (apply Forall_cons_2; [split_and!; [by apply sendableb_spec|exact Hsym|by vm_compute..]|]).
    by apply Forall_nil_2.
  - by vm_compute.
  - by vm_compute.
  - by vm_compute.
  - reflexivity.
  - destruct tss as [|t1 [|t2 [|]]]; try discriminate Hl.
    exists ctx', t1, t2. change (out_msgs idle_ctx) with (@nil bt_gw_oms_msg_t) in Hm. exact Hm.
Defined.

Lemma test_client_locked_out_witness :
  exists cl c',
    client_main 3 (fun i => generous (default [] (snd <$> scenarios !! i))) (generous stress_orders)
      (generous []) = Some (0, cl) /\ cl_orders_sent cl = 1030 /\
    gw_read_loop (socket_reads (S (length (cl_wire cl))) (fun i => (7%nat, 0, quiet_env)) (cl_wire cl)
      idle_ctx (conn_with [])) idle_ctx (conn_with []) = Some (idle_ctx, c') /\ received c' = [].
Proof.
  destruct (conn_with_ok [] ltac:(done)) as [Hwf Hr].
  apply (test_client_locked_out (fun i => (7%nat, 0, quiet_env)) idle_ctx (conn_with []) 3
    (fun i => generous (default [] (snd <$> scenarios !! i))) (generous stress_orders) (generous [])).
  - exact Hwf.
  - exact Hr.
  - reflexivity.
  - lia.
  - intros i d os E. rewrite E. reflexivity.
  - reflexivity.
Defined.
