(* ===== verification/FreeList.v ===== *)
(** * Embedded free lists

    The slab allocator, the lock-free object pool and the arenas of the memory
    pool link their free blocks through a pointer stored in the first word of
    each block. This file models the memory that holds these pointers, the
    list a head pointer denotes, and the contract the allocators with such a
    list fulfil ([FreeStack]). *)

From S2P Require Import Prelude.

(** The pointer stored at each address; a pointer is an address and NULL is 0. *)
Abbreviation heap := (gmap Z Z).

Definition load (h : heap) (p : Z) : Z := default 0 (h !! p).
Definition store (p v : Z) (h : heap) : heap := <[p := v]> h.

(** [chain h p l]: following the pointers from [p] visits the blocks [l]. *)
Fixpoint chain (h : heap) (p : Z) (l : list Z) : Prop :=
  match l with
  | [] => p = 0
  | x :: l => p = x /\ x <> 0 /\ chain h (load h x) l
  end.

Lemma load_store_eq h p v : load (store p v h) p = v.
Proof. unfold load, store. by rewrite lookup_insert_eq. Qed.

Lemma load_store_ne h p q v : p <> q -> load (store p v h) q = load h q.
Proof. intros Hne. unfold load, store. by rewrite lookup_insert_ne. Qed.

(** Writing into a block that is not on the list leaves the list alone. *)
Lemma chain_store h p l q v : q ∉ l -> chain h p l -> chain (store q v h) p l.
Proof.
  revert p. induction l as [|x l IH]; intros p Hq Hc; simpl in *; [done|].
  apply not_elem_of_cons in Hq as [Hne Hq]. destruct Hc as (-> & Hx & Hc).
  split_and!; try done. rewrite load_store_ne by done. by apply IH.
Qed.

Lemma chain_nonnull h p l x : chain h p l -> x ∈ l -> x <> 0.
Proof.
  revert p. induction l as [|y l IH]; intros p Hc Hx; [by apply elem_of_nil in Hx|].
  simpl in Hc. destruct Hc as (_ & Hy & Hc). apply elem_of_cons in Hx as [->|Hx]; [done|by eapply IH].
Qed.

Lemma chain_head h p l : chain h p l -> p = 0 <-> l = [].
Proof.
  destruct l as [|x l]; simpl; [by intros ->|].
  intros (-> & Hx & _). by split.
Qed.

Lemma chain_unique h p l l' : chain h p l -> chain h p l' -> l = l'.
Proof.
  revert p l'. induction l as [|x l IH]; intros p l' Hc Hc'; destruct l' as [|y l']; simpl in *; try done.
  - destruct Hc' as (-> & ? & _). done.
  - by destruct Hc as (-> & ? & _).
  - destruct Hc as (-> & _ & Hc), Hc' as (-> & _ & Hc'). f_equal. by eapply IH.
Qed.

(** ** The contract of a stack of free blocks *)

(** [S] is the state of an allocator together with the memory of its blocks.
    Freeing returns a block to the stack if it is acceptable and not on it. *)
Class FreeStack (S : Type) := {
  fs_wf : S -> list Z -> Prop;
  fs_alloc : S -> Z * S;
  fs_free : Z -> S -> S;
  fs_accepts : S -> Z -> Prop;
  fs_alloc_nil : forall s, fs_wf s [] -> fs_alloc s = (0, s);
  fs_alloc_cons : forall s x l, fs_wf s (x :: l) ->
    exists s', fs_alloc s = (x, s') /\ fs_wf s' l /\
      (forall p, fs_accepts s' p <-> fs_accepts s p);
  fs_free_ok : forall s l p, fs_wf s l -> p ∉ l -> fs_accepts s p ->
    fs_wf (fs_free p s) (p :: l) /\ (forall q, fs_accepts (fs_free p s) q <-> fs_accepts s q);
  fs_nonnull : forall s l x, fs_wf s l -> x ∈ l -> x <> 0;
}.

(** ** Clients of a stack of free blocks

    A client that frees only blocks it holds: the blocks on the stack and the
    blocks it holds are, at any time, the initial blocks. *)

Inductive fs_op := FAlloc | FFree (p : Z).

Section client.
Context {S : Type} (FS : FreeStack S).

(** The states reached, with the blocks the client holds. *)
Inductive fs_reach (s0 : S) : list Z -> S -> Prop :=
  | fs_start : fs_reach s0 [] s0
  | fs_got held s p s' :
      fs_reach s0 held s -> fs_alloc s = (p, s') -> p <> 0 -> fs_reach s0 (p :: held) s'
  | fs_none held s s' :
      fs_reach s0 held s -> fs_alloc s = (0, s') -> fs_reach s0 held s'
  | fs_gave held1 p held2 s :
      fs_reach s0 (held1 ++ p :: held2) s -> fs_reach s0 (held1 ++ held2) (fs_free p s).

Lemma fs_reach_inv s0 blocks held s :
  fs_wf s0 blocks -> NoDup blocks -> (forall p, p ∈ blocks -> fs_accepts s0 p) ->
  fs_reach s0 held s ->
  exists l, fs_wf s l /\ l ++ held ≡ₚ blocks /\ (forall p, fs_accepts s p <-> fs_accepts s0 p).
Proof.
  intros Hwf Hnd Hacc. induction 1 as [|held s p s' Hr IH Ha Hp|held s s' Hr IH Ha|held1 p held2 s Hr IH].
  - exists blocks. by rewrite app_nil_r.
  - destruct IH as (l & Hl & Hperm & Hsame). destruct l as [|x l].
    { rewrite fs_alloc_nil in Ha by done. congruence. }
    destruct (fs_alloc_cons s x l Hl) as (s2 & E & Hwf' & Hs2). rewrite E in Ha. simplify_eq.
    exists l. split; [done|]. split; [|intros q; by rewrite Hs2].
    rewrite <- Hperm. simpl. by rewrite Permutation_middle.
  - destruct IH as (l & Hl & Hperm & Hsame). destruct l as [|x l].
    { rewrite fs_alloc_nil in Ha by done. simplify_eq. by exists []. }
    destruct (fs_alloc_cons s x l Hl) as (s2 & E & _). rewrite E in Ha. simplify_eq.
    exfalso. eapply (fs_nonnull s _ 0 Hl); [by left|done].
  - destruct IH as (l & Hl & Hperm & Hsame).
    assert (NoDup (l ++ held1 ++ p :: held2)) as Hnd' by (by rewrite Hperm).
    assert (p ∈ blocks) as Hin.
    { rewrite <- Hperm. rewrite !elem_of_app, elem_of_cons. auto. }
    destruct (fs_free_ok s l p Hl) as [Hwf' Hs2].
    + intros Hpl. apply NoDup_app in Hnd' as (_ & Hdis & _). apply (Hdis p Hpl).
      rewrite elem_of_app, elem_of_cons. auto.
    + apply Hsame. by apply Hacc.
    + exists (p :: l). split; [done|]. split; [|intros q; by rewrite Hs2].
      rewrite <- Hperm. simpl. rewrite !app_assoc. by rewrite Permutation_middle.
Qed.

(** Hence no block is held twice, and the allocator answers NULL exactly when
    every block is held. *)
Lemma fs_reach_safe s0 blocks held s :
  fs_wf s0 blocks -> NoDup blocks -> (forall p, p ∈ blocks -> fs_accepts s0 p) ->
  fs_reach s0 held s ->
  NoDup held /\ held ⊆ blocks /\
  (fst (fs_alloc s) = 0 <-> length held = length blocks).
Proof.
  intros Hwf Hnd Hacc Hr. destruct (fs_reach_inv s0 blocks held s Hwf Hnd Hacc Hr) as (l & Hl & Hperm & _).
  assert (NoDup (l ++ held)) as Hnd' by (by rewrite Hperm).
  split_and!.
  - by apply NoDup_app in Hnd' as (_ & _ & ?).
  - intros p Hp. rewrite <- Hperm. apply elem_of_app. auto.
  - apply Permutation_length in Hperm. rewrite length_app in Hperm. destruct l as [|x l].
    + rewrite fs_alloc_nil by done. simpl in *. split; [done|]. done.
    + destruct (fs_alloc_cons s x l Hl) as (s2 & E & _). rewrite E. simpl in *.
      pose proof (fs_nonnull s _ x Hl ltac:(by left)). split; [done|lia].
Qed.

End client.
