(* ===== verification/Slab.v ===== *)
(** * The slab allocator

    Models [src/src/utils/slab_allocator.c]: fixed-size blocks carved out of a
    memory region, linked through their first word. The allocator has one
    owner at a time, as its header says, so a compare-and-swap succeeds in its
    first round. *)

From S2P Require Import Prelude FreeList.

Definition BT_CACHE_LINE_SIZE : Z := 64.
Definition sizeof_ptr : Z := 8.

Record bt_slab := Slab {
  sl_base : Z;
  sl_block_size : Z;
  sl_num_blocks : Z;
  sl_aligned_size : Z;
  sl_free_list : Z;
  sl_alloc_count : Z;
  sl_free_count : Z;
}.

(** The allocator and the memory its blocks live in. *)
Definition slab_state : Type := bt_slab * heap.

Definition set_list (free_list allocs frees : Z) (s : bt_slab) : bt_slab :=
  Slab (sl_base s) (sl_block_size s) (sl_num_blocks s) (sl_aligned_size s) free_list allocs frees.

(** The loop that links block [i] and the [n - 1] blocks after it. *)
Fixpoint link_blocks (n : nat) (i : Z) (st : slab_state) : slab_state :=
  match n with
  | O => st
  | S n =>
      let '(s, h) := st in
      let block := u64 (sl_base s + u64 (i * sl_aligned_size s)) in
      link_blocks n (i + 1)
        (set_list block (sl_alloc_count s) (u32 (sl_free_count s + 1)) s,
         store block (sl_free_list s) h)
  end.

(** [bt_slab_init]; [None] for a NULL slab, which stays as it is. *)
Definition bt_slab_init (slab : option bt_slab) (memory memory_size block_size : Z) (h : heap)
  : Z * option slab_state :=
  match slab with
  | None => (-1, None)
  | Some slab =>
      if (memory =? 0) || (memory_size =? 0) || (block_size =? 0) then (-1, Some (slab, h))
      else
        let aligned := align_up BT_CACHE_LINE_SIZE block_size in
        let aligned := if aligned <? sizeof_ptr then sizeof_ptr else aligned in
        let num := memory_size / aligned in
        if num =? 0 then (-1, Some (Slab 0 0 num aligned 0 0 0, h))
        else (0, Some (link_blocks (Z.to_nat num) 0 (Slab memory block_size num aligned 0 0 0, h)))
  end.

(** [bt_slab_alloc]: the block, or 0 when the list is empty. *)
Definition bt_slab_alloc (st : slab_state) : Z * slab_state :=
  let '(s, h) := st in
  let old_head := sl_free_list s in
  if old_head =? 0 then (0, st)
  else
    let new_head := load h old_head in
    (old_head,
     (set_list new_head (u32 (sl_alloc_count s + 1)) (u32 (sl_free_count s - 1)) s, h)).

Definition in_slab (s : bt_slab) (ptr : Z) : bool :=
  negb ((ptr <? sl_base s) ||
        (u64 (sl_base s + u64 (sl_num_blocks s * sl_aligned_size s)) <=? ptr)).

Definition bt_slab_free (ptr : Z) (st : slab_state) : slab_state :=
  let '(s, h) := st in
  if ptr =? 0 then st
  else if negb (in_slab s ptr) then st
  else
    let old_head := sl_free_list s in
    let allocs := if 0 <? sl_alloc_count s then u32 (sl_alloc_count s - 1) else sl_alloc_count s in
    (set_list ptr allocs (u32 (sl_free_count s + 1)) s, store ptr old_head h).

Definition bt_slab_reset (st : slab_state) : slab_state :=
  let '(s, h) := st in
  link_blocks (Z.to_nat (sl_num_blocks s)) 0 (set_list 0 0 0 s, h).

(** The four statistics: bytes used, bytes in total, allocations, frees. *)
Definition bt_slab_stats (s : bt_slab) : Z * Z * Z * Z :=
  (u64 (sl_alloc_count s * sl_aligned_size s), u64 (sl_num_blocks s * sl_aligned_size s),
   sl_alloc_count s, sl_free_count s).

(** ** Well-formed slabs *)

(** The region of the slab does not wrap around the address space and does
    not contain address 0, blocks hold a pointer, and the counters do not
    overflow. *)
Record geometry (s : bt_slab) : Prop := {
  g_base : 0 < sl_base s;
  g_size : sizeof_ptr <= sl_aligned_size s;
  g_num : 0 < sl_num_blocks s < 2 ^ 32;
  g_fits : sl_base s + sl_num_blocks s * sl_aligned_size s < 2 ^ 64;
}.

(** The address of block [i]. *)
Definition block_at (s : bt_slab) (i : Z) : Z := sl_base s + i * sl_aligned_size s.

(** The blocks in the order the initial list has them: last block first. *)
Fixpoint blocks_down (s : bt_slab) (n : nat) : list Z :=
  match n with
  | O => []
  | S n => block_at s (Z.of_nat n) :: blocks_down s n
  end.

Definition all_blocks (s : bt_slab) : list Z := blocks_down s (Z.to_nat (sl_num_blocks s)).

Record slab_wf (st : slab_state) (l : list Z) : Prop := {
  w_geo : geometry st.1;
  w_chain : chain st.2 (sl_free_list st.1) l;
  w_nodup : NoDup l;
  w_sub : l ⊆ all_blocks st.1;
  w_free : sl_free_count st.1 = zlen l;
  w_alloc : sl_alloc_count st.1 = sl_num_blocks st.1 - zlen l;
}.

Section slab_laws.
Implicit Types (s : bt_slab) (st : slab_state) (l : list Z).

Lemma elem_of_blocks_down s n p :
  p ∈ blocks_down s n <-> exists i, 0 <= i < Z.of_nat n /\ p = block_at s i.
Proof.
  induction n as [|n IH]; simpl.
  - rewrite elem_of_nil. split; [done|]. intros (i & ? & _). lia.
  - rewrite elem_of_cons, IH. split.
    + intros [->|(i & Hi & ->)]; [exists (Z.of_nat n)|exists i]; split; try done; lia.
    + intros (i & Hi & ->). destruct (decide (i = Z.of_nat n)) as [->|]; [by left|].
      right. exists i. split; [lia|done].
Qed.

Lemma elem_of_all_blocks s p :
  0 <= sl_num_blocks s ->
  p ∈ all_blocks s <-> exists i, 0 <= i < sl_num_blocks s /\ p = block_at s i.
Proof. intros Hn. unfold all_blocks. by rewrite elem_of_blocks_down, Z2Nat.id. Qed.

Lemma blocks_down_nodup s n : 0 < sl_aligned_size s -> NoDup (blocks_down s n).
Proof.
  intros Hsz. induction n as [|n IH]; simpl; constructor; [|done].
  rewrite elem_of_blocks_down. intros (i & Hi & Heq). unfold block_at in Heq. nia.
Qed.

Lemma length_blocks_down s n : length (blocks_down s n) = n.
Proof. induction n; simpl; congruence. Qed.

Lemma zlen_all_blocks s : 0 <= sl_num_blocks s -> zlen (all_blocks s) = sl_num_blocks s.
Proof. intros Hn. unfold zlen, all_blocks. rewrite length_blocks_down. lia. Qed.

Lemma block_bounds s i :
  geometry s -> 0 <= i < sl_num_blocks s ->
  0 < block_at s i /\ block_at s i + sl_aligned_size s <= sl_base s + sl_num_blocks s * sl_aligned_size s.
Proof. intros [] Hi. unfold block_at, sizeof_ptr in *. nia. Qed.

Lemma geometry_set_list s p a f : geometry s -> geometry (set_list p a f s).
Proof. intros [H1 H2 H3 H4]. constructor; assumption. Qed.

Lemma blocks_down_set_list s p a f n : blocks_down (set_list p a f s) n = blocks_down s n.
Proof. induction n as [|n IH]; simpl; [done|]. by rewrite IH. Qed.

(** The linking loop, from block [i] on, puts the blocks in front. *)
Lemma link_blocks_spec n i s h l :
  geometry s -> 0 <= i -> i + Z.of_nat n <= sl_num_blocks s ->
  l = blocks_down s (Z.to_nat i) -> chain h (sl_free_list s) l -> sl_free_count s = i ->
  exists s' h', link_blocks n i (s, h) = (s', h') /\
    s' = set_list (sl_free_list s') (sl_alloc_count s) (i + Z.of_nat n) s /\
    chain h' (sl_free_list s') (blocks_down s (Z.to_nat (i + Z.of_nat n))).
Proof.
  revert i s h l. induction n as [|n IH]; intros i s h l Hg Hi Hn Hl Hc Hf; cbn [link_blocks].
  - exists s, h. rewrite Z.add_0_r. split_and!; try done; [|by subst].
    destruct s; simpl in *; by subst.
  - destruct (block_bounds s i Hg ltac:(lia)) as [Hpos Hend].
    assert (u64 (sl_base s + u64 (i * sl_aligned_size s)) = block_at s i) as Hb.
    { unfold block_at in *. destruct Hg. unfold sizeof_ptr in *.
      rewrite (u64_small (i * sl_aligned_size s)) by (unfold is_u64; nia).
      apply u64_small. unfold is_u64. nia. }
    rewrite Hb, u32_small by (destruct Hg; lia).
    destruct (IH (i + 1)
      (set_list (block_at s i) (sl_alloc_count s) (sl_free_count s + 1) s)
      (store (block_at s i) (sl_free_list s) h) (block_at s i :: l)) as (s' & h' & E & Hs' & Hc').
    + by apply geometry_set_list.
    + lia.
    + simpl. lia.
    + replace (Z.to_nat (i + 1)) with (S (Z.to_nat i)) by lia. simpl.
      rewrite Z2Nat.id, blocks_down_set_list by lia. by rewrite Hl.
    + simpl. split_and!; [done|lia|]. rewrite load_store_eq. apply chain_store; [|done].
      rewrite Hl, elem_of_blocks_down. intros (j & Hj & Heq). unfold block_at in Heq.
      destruct Hg. unfold sizeof_ptr in *. nia.
    + simpl. lia.
    + exists s', h'. split; [done|]. split.
      * etransitivity; [exact Hs'|]. unfold set_list; cbn. f_equal. lia.
      * replace (i + Z.of_nat (S n)) with (i + 1 + Z.of_nat n) by lia.
        by rewrite blocks_down_set_list in Hc'.
Qed.

Lemma link_all_wf s h :
  geometry s -> sl_free_list s = 0 -> sl_free_count s = 0 -> sl_alloc_count s = 0 ->
  exists s' h', link_blocks (Z.to_nat (sl_num_blocks s)) 0 (s, h) = (s', h') /\
    s' = set_list (sl_free_list s') 0 (sl_num_blocks s) s /\
    slab_wf (s', h') (all_blocks s).
Proof.
  intros Hg Hl Hf Ha. pose proof Hg as [Hb Hsz Hn Hfit].
  destruct (link_blocks_spec (Z.to_nat (sl_num_blocks s)) 0 s h [] Hg) as (s' & h' & E & Hs' & Hc);
    try done; try lia.
  rewrite Z2Nat.id, Z.add_0_l in * by lia. rewrite Ha in Hs'.
  exists s', h'. split_and!; try done. split; simpl.
  - rewrite Hs'. by apply geometry_set_list.
  - done.
  - apply blocks_down_nodup. unfold sizeof_ptr in Hsz. lia.
  - rewrite Hs'. unfold all_blocks. simpl. by rewrite blocks_down_set_list.
  - rewrite Hs', zlen_all_blocks by lia. done.
  - rewrite Hs', zlen_all_blocks by lia. simpl. lia.
Qed.

Lemma in_slab_block s p :
  geometry s -> p ∈ all_blocks s -> in_slab s p = true /\ p <> 0.
Proof.
  intros Hg Hp. pose proof Hg as [Hb Hsz Hn Hfit].
  apply elem_of_all_blocks in Hp as (i & Hi & ->); [|lia].
  destruct (block_bounds s i Hg Hi) as [Hpos Hend]. unfold sizeof_ptr in Hsz. split; [|lia].
  unfold in_slab. rewrite (u64_small (sl_num_blocks s * _)) by (unfold is_u64; nia).
  rewrite u64_small by (unfold is_u64; nia).
  rewrite (proj2 (Z.ltb_ge _ _)), (proj2 (Z.leb_gt _ _)); [done|lia|]. unfold block_at. nia.
Qed.

Lemma sub_length s l : 0 <= sl_num_blocks s -> NoDup l -> l ⊆ all_blocks s -> zlen l <= sl_num_blocks s.
Proof.
  intros Hn Hnd Hsub. rewrite <- (zlen_all_blocks s Hn). unfold zlen. apply inj_le.
  apply submseteq_length. by apply NoDup_submseteq.
Qed.

Lemma alloc_nil st : slab_wf st [] -> bt_slab_alloc st = (0, st).
Proof. destruct st as [s h]. intros [_ Hc _ _ _ _]. simpl in *. by rewrite Hc. Qed.

Lemma alloc_cons st x l :
  slab_wf st (x :: l) ->
  exists st', bt_slab_alloc st = (x, st') /\ slab_wf st' l /\ all_blocks st'.1 = all_blocks st.1.
Proof.
  destruct st as [s h]. intros [Hg Hc Hnd Hsub Hf Ha]. simpl in *. pose proof Hg as [Hb Hsz Hn Hfit].
  pose proof (sub_length s (x :: l) ltac:(lia) Hnd Hsub) as Hlen.
  destruct Hc as (Hx & Hx0 & Hc). rewrite Hx, (proj2 (Z.eqb_neq _ _)) by done.
  eexists. split; [done|]. rewrite zlen_cons in *. pose proof (zlen_nonneg l).
  assert (all_blocks (set_list (load h x) (u32 (sl_alloc_count s + 1)) (u32 (sl_free_count s - 1)) s)
          = all_blocks s) as Hall by apply blocks_down_set_list.
  split; [|exact Hall]. split; simpl.
  - by apply geometry_set_list.
  - done.
  - by inversion Hnd.
  - rewrite Hall. intros p Hp. apply Hsub. by right.
  - rewrite u32_small; lia.
  - rewrite u32_small; lia.
Qed.

Lemma free_ok st l p :
  slab_wf st l -> p ∉ l -> p ∈ all_blocks st.1 ->
  slab_wf (bt_slab_free p st) (p :: l) /\ all_blocks (bt_slab_free p st).1 = all_blocks st.1.
Proof.
  destruct st as [s h]. intros [Hg Hc Hnd Hsub Hf Ha] Hp Hin. simpl in *.
  pose proof Hg as [Hb Hsz Hn Hfit].
  destruct (in_slab_block s p Hg Hin) as [-> Hp0].
  rewrite (proj2 (Z.eqb_neq p 0)) by done. cbn [negb].
  assert (NoDup (p :: l)) as Hnd' by (by constructor).
  assert (p :: l ⊆ all_blocks s) as Hsub'.
  { intros q Hq. apply elem_of_cons in Hq as [->|Hq]; [done|by apply Hsub]. }
  pose proof (sub_length s (p :: l) ltac:(lia) Hnd' Hsub') as Hlen. rewrite zlen_cons in Hlen.
  pose proof (zlen_nonneg l).
  rewrite (proj2 (Z.ltb_lt 0 (sl_alloc_count s))) by lia.
  split; [|apply blocks_down_set_list]. split; simpl.
  - by apply geometry_set_list.
  - split_and!; try done. rewrite load_store_eq. by apply chain_store.
  - done.
  - intros q Hq. apply Hsub' in Hq. unfold all_blocks in *. simpl. by rewrite blocks_down_set_list.
  - rewrite zlen_cons, u32_small; lia.
  - rewrite zlen_cons, u32_small; lia.
Qed.

End slab_laws.

(** The slab fulfils the contract. *)
Definition slab_stack : FreeStack slab_state.
Proof.
  refine {| fs_wf := slab_wf; fs_alloc := bt_slab_alloc; fs_free := bt_slab_free;
            fs_accepts := fun st p => p ∈ all_blocks st.1 |}.
  - apply alloc_nil.
  - intros s x l Hwf. destruct (alloc_cons s x l Hwf) as (s' & E & Hwf' & Hall).
    exists s'. split_and!; try done. intros p. by rewrite Hall.
  - intros s l p Hwf Hp Hin. destruct (free_ok s l p Hwf Hp Hin) as [Hwf' Hall].
    split; [done|]. intros q. by rewrite Hall.
  - intros s l x Hwf Hx. eapply chain_nonnull; [apply Hwf|done].
Defined.

(** What a successful initialisation establishes. *)
Lemma slab_init_spec slab0 memory memory_size block_size h st :
  0 < memory -> 0 <= memory_size < 2 ^ 38 -> memory + memory_size < 2 ^ 64 ->
  0 <= block_size -> block_size + 63 < 2 ^ 64 ->
  bt_slab_init (Some slab0) memory memory_size block_size h = (0, Some st) ->
  exists q, align_up 64 block_size = q * 64 /\ 0 < block_size <= q * 64 /\
    sl_base st.1 = memory /\ sl_aligned_size st.1 = q * 64 /\
    sl_num_blocks st.1 = memory_size / (q * 64) /\ slab_wf st (all_blocks st.1).
Proof.
  intros Hm Hms Hfit Hbs Hov. unfold bt_slab_init, BT_CACHE_LINE_SIZE, sizeof_ptr.
  destruct (align_up_spec 6 block_size) as (q & Hq & Hr); [lia|lia|lia|].
  change (2 ^ 6) with 64 in *. rewrite Hq.
  rewrite (proj2 (Z.eqb_neq memory 0)) by lia. cbn [orb].
  destruct (Z.eqb_spec memory_size 0); [done|]. destruct (Z.eqb_spec block_size 0); [done|]. cbn [orb].
  rewrite (proj2 (Z.ltb_ge _ _)) by lia.
  destruct (Z.eqb_spec (memory_size / (q * 64)) 0) as [|Hn]; [done|]. intros H.
  pose proof (Z.mul_div_le memory_size (q * 64) ltac:(lia)).
  pose proof (Z.div_pos memory_size (q * 64) ltac:(lia) ltac:(lia)).
  assert (geometry (Slab memory block_size (memory_size / (q * 64)) (q * 64) 0 0 0)) as Hg.
  { split; simpl; unfold sizeof_ptr; nia. }
  destruct (link_all_wf _ h Hg eq_refl eq_refl eq_refl) as (s' & h' & E & Hs' & Hwf).
  cbn [sl_num_blocks] in E. rewrite E in H. injection H as <-.
  exists q. simpl. rewrite Hs' at 1 2 3. simpl. split_and!; try done; try lia.
  assert (all_blocks s' = all_blocks (Slab memory block_size (memory_size / (q * 64)) (q * 64) 0 0 0))
    as -> by (rewrite Hs'; apply blocks_down_set_list).
  exact Hwf.
Qed.

(** ** Properties *)

(** C30: The slab allocator is safe and complete: after a successful
    initialisation over a region that does not wrap around, for every client
    that frees only what it holds, the blocks it holds are different, lie in
    the region at multiples of a cache line from its start, are at least
    [block_size] bytes apart, and an allocation fails exactly when all the
    blocks the region has room for are held. *)
Theorem slab_safe (slab0 : bt_slab) (memory memory_size block_size : Z) (h : heap)
    (st0 st : slab_state) (held : list Z) :
  0 < memory -> 0 <= memory_size < 2 ^ 38 -> memory + memory_size < 2 ^ 64 ->
  0 <= block_size -> block_size + 63 < 2 ^ 64 ->
  bt_slab_init (Some slab0) memory memory_size block_size h = (0, Some st0) ->
  fs_reach slab_stack st0 held st ->
  NoDup held /\
  (forall p, p ∈ held -> memory <= p /\ p + block_size <= memory + memory_size /\
     (p - memory) mod 64 = 0) /\
  (forall p p', p ∈ held -> p' ∈ held -> p <> p' -> p + block_size <= p' \/ p' + block_size <= p) /\
  (fst (bt_slab_alloc st) = 0 <-> zlen held = memory_size / align_up 64 block_size).
Proof.
  intros Hm Hms Hfit Hbs Hov Hinit Hr.
  destruct (slab_init_spec _ _ _ _ _ _ Hm Hms Hfit Hbs Hov Hinit)
    as (q & Hq & Hle & Hbase & Hal & Hnum & Hwf).
  destruct (fs_reach_safe slab_stack st0 (all_blocks st0.1) held st Hwf (w_nodup _ _ Hwf)
    ltac:(done) Hr) as (Hnd & Hsub & Hfull).
  pose proof (w_geo _ _ Hwf) as [_ _ Hn _].
  assert (forall p, p ∈ held -> exists i, 0 <= i < sl_num_blocks st0.1 /\ p = memory + i * (q * 64))
    as Hblock.
  { intros p Hp. apply Hsub, elem_of_all_blocks in Hp as (i & Hi & ->); [|lia].
    exists i. unfold block_at. by rewrite Hbase, Hal. }
  pose proof (Z.mul_div_le memory_size (q * 64) ltac:(lia)) as Hdiv. rewrite <- Hnum in Hdiv.
  split_and!.
  - done.
  - intros p Hp. destruct (Hblock p Hp) as (i & Hi & ->). split_and!; [nia|nia|].
    replace (memory + i * (q * 64) - memory) with (i * q * 64) by lia. by apply Z.mod_mul.
  - intros p p' Hp Hp' Hne. destruct (Hblock p Hp) as (i & Hi & ->), (Hblock p' Hp') as (j & Hj & ->).
    assert (i <> j) by (intros ->; done). destruct (Z.lt_ge_cases i j); [left|right]; nia.
  - change (fst (bt_slab_alloc st)) with (fst (@fs_alloc _ slab_stack st)). rewrite Hfull, Hq, <- Hnum.
    rewrite <- (zlen_all_blocks st0.1) by lia. unfold zlen. lia.
Qed.

(** ** Witness *)

Definition no_slab : bt_slab := Slab 0 0 0 0 0 0 0.

(** Three blocks of 100 bytes in 400 bytes; all are taken and the one in the
    middle is returned. *)
Definition slab400 : slab_state :=
  default (no_slab, ∅) (snd (bt_slab_init (Some no_slab) 4096 400 100 ∅)).

Definition slab400_used : slab_state :=
  snd (bt_slab_alloc (snd (bt_slab_alloc (snd (bt_slab_alloc slab400))))).

Lemma slab400_reach : fs_reach slab_stack slab400 ([4096] ++ 4224 :: [4352]) slab400_used.
Proof.
  pose proof (fs_got slab_stack slab400 [] slab400 4352 _ (fs_start _ _) eq_refl ltac:(done)) as H1.
  pose proof (fs_got slab_stack slab400 _ _ 4224 _ H1 eq_refl ltac:(done)) as H2.
  exact (fs_got slab_stack slab400 _ _ 4096 _ H2 eq_refl ltac:(done)).
Defined.

Lemma slab_safe_witness :
  NoDup [4096; 4352] /\ 4352 + 100 <= 4096 + 400 /\
  fst (bt_slab_alloc (bt_slab_free 4224 slab400_used)) <> 0.
Proof.
  destruct (slab_safe no_slab 4096 400 100 ∅ slab400 (bt_slab_free 4224 slab400_used)
    ([4096] ++ [4352])) as (Hnd & Hin & _ & Hfull); try lia.
  - reflexivity.
  - apply fs_gave, slab400_reach.
  - split; [exact Hnd|]. split; [by apply (Hin 4352); right; left|]. by rewrite Hfull.
Defined.
