(* ===== verification/LfPool.v ===== *)
(** * The lock-free object pool

    Models the C functions of [src/src/include/bt_lockfree_pool.h]: a free list
    whose head is changed by compare-and-swap. First each call runs alone,
    where the pool fulfils the contract of [FreeList]; then the accesses of
    concurrent calls are interleaved, which exhibits the ABA problem. *)

From S2P Require Import Prelude FreeList.

Record bt_lfpool := LfPool { lp_head : Z; lp_alloc_count : Z; lp_free_count : Z }.

(** The pool and the [next] fields of the objects. *)
Definition lf_state : Type := bt_lfpool * heap.

Definition bt_lfpool_init : bt_lfpool := LfPool 0 0 0.

(** With no other thread between the load and the strong compare-and-swap,
    the loops end in their first round. *)
Definition bt_lfpool_alloc (st : lf_state) : Z * lf_state :=
  let '(p, h) := st in
  let head := lp_head p in
  if head =? 0 then (0, st)
  else (head, (LfPool (load h head) (u64 (lp_alloc_count p + 1)) (lp_free_count p), h)).

Definition bt_lfpool_free (ptr : Z) (st : lf_state) : lf_state :=
  let '(p, h) := st in
  if ptr =? 0 then st
  else
    let old_head := lp_head p in
    (LfPool ptr (lp_alloc_count p) (u64 (lp_free_count p + 1)), store ptr old_head h).

(** The linking loop of the bulk free over all but the last pointer, and the
    link of the last one to the old head. *)
Fixpoint link_chain (ptrs : list Z) (last_next : Z) (h : heap) : heap :=
  match ptrs with
  | [] => h
  | p :: rest =>
      match rest with
      | [] => store p last_next h
      | q :: _ => link_chain rest last_next (store p q h)
      end
  end.

Definition bt_lfpool_bulk_free (ptrs : list Z) (st : lf_state) : lf_state :=
  let '(p, h) := st in
  match ptrs with
  | [] => st
  | first :: _ =>
      (LfPool first (lp_alloc_count p) (u64 (lp_free_count p + zlen ptrs)),
       link_chain ptrs (lp_head p) h)
  end.

Definition bt_lfpool_stats (p : bt_lfpool) : Z * Z := (lp_alloc_count p, lp_free_count p).

(** ** One thread at a time *)

Definition lf_wf (st : lf_state) (l : list Z) : Prop :=
  chain st.2 (lp_head st.1) l /\ NoDup l.

Definition lf_stack : FreeStack lf_state.
Proof.
  refine {| fs_wf := lf_wf; fs_alloc := bt_lfpool_alloc; fs_free := bt_lfpool_free;
            fs_accepts := fun _ p => p <> 0 |}.
  - intros [p h] [Hc _]. simpl in *. by rewrite Hc.
  - intros [p h] x l [Hc Hnd]. simpl in *. destruct Hc as (Hx & Hx0 & Hc).
    rewrite Hx, (proj2 (Z.eqb_neq _ _)) by done.
    eexists. split; [done|]. split; [|done]. split; [done|by inversion Hnd].
  - intros [p h] l q [Hc Hnd] Hq Hq0. simpl in *. rewrite (proj2 (Z.eqb_neq q 0)) by done.
    split; [|done]. split; [|by constructor]. simpl. split_and!; try done.
    rewrite load_store_eq. by apply chain_store.
  - intros [p h] l x [Hc _] Hx. by eapply chain_nonnull.
Defined.

Lemma link_chain_other qs last h p : p ∉ qs -> load (link_chain qs last h) p = load h p.
Proof.
  revert h. induction qs as [|x qs IH]; intros h Hp; [done|].
  apply not_elem_of_cons in Hp as [Hne Hp].
  destruct qs as [|y qs]; [by apply load_store_ne|].
  change (link_chain (x :: y :: qs) last h) with (link_chain (y :: qs) last (store x y h)).
  rewrite IH by done. by apply load_store_ne.
Qed.

Lemma link_chain_spec ptrs last h l :
  NoDup ptrs -> (forall p, p ∈ ptrs -> p <> 0 /\ p ∉ l) -> ptrs <> [] -> chain h last l ->
  chain (link_chain ptrs last h) (hd 0 ptrs) (ptrs ++ l).
Proof.
  revert h. induction ptrs as [|p ptrs IH]; intros h Hnd Hok Hne Hc; [done|].
  inversion Hnd as [|? ? Hp Hnd']; subst.
  destruct (Hok p ltac:(by left)) as [Hp0 Hpl].
  destruct ptrs as [|q ptrs].
  - simpl. split_and!; try done. rewrite load_store_eq. by apply chain_store.
  - change (link_chain (p :: q :: ptrs) last h) with (link_chain (q :: ptrs) last (store p q h)).
    split; [done|]. split; [done|]. rewrite link_chain_other, load_store_eq by done.
    apply IH; try done; [|by apply chain_store]. intros x Hx. apply Hok. by right.
Qed.

Lemma bulk_free_wf ptrs st l :
  lf_wf st l -> NoDup ptrs -> (forall p, p ∈ ptrs -> p <> 0 /\ p ∉ l) ->
  lf_wf (bt_lfpool_bulk_free ptrs st) (ptrs ++ l).
Proof.
  intros [Hc Hnd] Hnd' Hok. destruct st as [p h]. destruct ptrs as [|q ptrs]; [by split|].
  split.
  - by apply (link_chain_spec (q :: ptrs)).
  - apply NoDup_app. split_and!; try done. intros x Hx. by apply Hok.
Qed.

(** ** Interleaved calls *)

(** Where a call is: [ALoaded] after the load of the head, [ANext] after the
    read of [head->next], before the compare-and-swap; [FLoaded] with the
    expected head, [FStored] after the store to [node->next]. *)
Inductive lf_pc :=
  | Idle | AStart | ALoaded (head : Z) | ANext (head next : Z)
  | FStart (node : Z) | FLoaded (node old_head : Z) | FStored (node old_head : Z).

Record lf_conc := LfConc {
  lc_pool : bt_lfpool;
  lc_heap : heap;
  lc_pc : gmap nat lf_pc;
  lc_held : gmap nat (list Z);
}.

Definition pc_of (t : nat) (s : lf_conc) : lf_pc := default Idle (lc_pc s !! t).
Definition held_by (t : nat) (s : lf_conc) : list Z := default [] (lc_held s !! t).

Definition goto (t : nat) (pc : lf_pc) (s : lf_conc) : lf_conc :=
  LfConc (lc_pool s) (lc_heap s) (<[t := pc]> (lc_pc s)) (lc_held s).

(** A thread begins a call or makes the next access of the one it is in. *)
Inductive lf_event := BeginAlloc (t : nat) | BeginFree (t : nat) (node : Z) | Step (t : nat).

Definition lf_step (ev : lf_event) (s : lf_conc) : option lf_conc :=
  match ev with
  | BeginAlloc t => match pc_of t s with Idle => Some (goto t AStart s) | _ => None end
  | BeginFree t node =>
      match pc_of t s with
      | Idle =>
          if bool_decide (node ∈ held_by t s) then
            Some (LfConc (lc_pool s) (lc_heap s) (<[t := FStart node]> (lc_pc s))
                    (<[t := List.filter (fun p => negb (p =? node)) (held_by t s)]> (lc_held s)))
          else None
      | _ => None
      end
  | Step t =>
      let p := lc_pool s in
      match pc_of t s with
      | Idle => None
      | AStart =>
          Some (goto t (if lp_head p =? 0 then Idle else ALoaded (lp_head p)) s)
      | ALoaded head => Some (goto t (ANext head (load (lc_heap s) head)) s)
      | ANext head next =>
          if lp_head p =? head then
            Some (LfConc (LfPool next (u64 (lp_alloc_count p + 1)) (lp_free_count p)) (lc_heap s)
                    (<[t := Idle]> (lc_pc s)) (<[t := head :: held_by t s]> (lc_held s)))
          else Some (goto t AStart s)
      | FStart node => Some (goto t (FLoaded node (lp_head p)) s)
      | FLoaded node old =>
          Some (LfConc p (store node old (lc_heap s)) (<[t := FStored node old]> (lc_pc s)) (lc_held s))
      | FStored node old =>
          if lp_head p =? old then
            Some (LfConc (LfPool node (lp_alloc_count p) (u64 (lp_free_count p + 1))) (lc_heap s)
                    (<[t := Idle]> (lc_pc s)) (lc_held s))
          else Some (goto t (FLoaded node (lp_head p)) s)
      end
  end.

Fixpoint lf_run (evs : list lf_event) (s : lf_conc) : option lf_conc :=
  match evs with
  | [] => Some s
  | ev :: evs => match lf_step ev s with Some s => lf_run evs s | None => None end
  end.

Definition lf_start (st : lf_state) : lf_conc := LfConc st.1 st.2 ∅ ∅.

(** A whole call of one thread while the others stand still. *)
Definition whole_alloc (t : nat) : list lf_event := [BeginAlloc t; Step t; Step t; Step t].
Definition whole_free (t : nat) (p : Z) : list lf_event := [BeginFree t p; Step t; Step t; Step t].

(** A run of whole calls is the sequential pool. *)
Lemma whole_alloc_sequential t s x s1 :
  pc_of t s = Idle -> bt_lfpool_alloc (lc_pool s, lc_heap s) = (x, s1) -> x <> 0 ->
  exists s', lf_run (whole_alloc t) s = Some s' /\ (lc_pool s', lc_heap s') = s1 /\
    held_by t s' = x :: held_by t s.
Proof.
  intros Hpc Ha Hx. simpl in Ha. destruct (Z.eqb_spec (lp_head (lc_pool s)) 0); [by simplify_eq|].
  simplify_eq. eexists. unfold whole_alloc. cbn [lf_run lf_step]. rewrite Hpc.
  cbn [lf_step]. unfold pc_of, goto; simpl. rewrite !lookup_insert_eq; simpl.
  rewrite (proj2 (Z.eqb_neq _ 0)) by done. rewrite !lookup_insert_eq; simpl.
  rewrite !lookup_insert_eq; simpl. rewrite Z.eqb_refl. split; [reflexivity|].
  split; [done|]. unfold held_by; simpl. by rewrite lookup_insert_eq.
Qed.

(** ** Properties *)

(** Used by one thread at a time, the pool hands out objects safely: after
    a bulk free of distinct objects into an empty pool, for every client that
    frees only what it holds, the objects it holds are different objects of
    that batch, and an allocation fails exactly when it holds all of them. *)
Theorem lfpool_safe (ptrs held : list Z) (h : heap) (st : lf_state) :
  NoDup ptrs -> 0 ∉ ptrs ->
  fs_reach lf_stack (bt_lfpool_bulk_free ptrs (bt_lfpool_init, h)) held st ->
  NoDup held /\ held ⊆ ptrs /\ (fst (bt_lfpool_alloc st) = 0 <-> length held = length ptrs).
Proof.
  intros Hnd H0 Hr.
  assert (lf_wf (bt_lfpool_bulk_free ptrs (bt_lfpool_init, h)) ptrs) as Hwf.
  { rewrite <- (app_nil_r ptrs) at 2. apply bulk_free_wf; [by split; [|constructor]|done|].
    intros p Hp. split; [by intros ->|apply not_elem_of_nil]. }
  apply (fs_reach_safe lf_stack _ ptrs held st Hwf Hnd); [|done].
  intros p Hp ->. done.
Qed.

(** Used by several threads, the pool can give one object to two of them:
    while thread 1 is between reading the next pointer of the head and its
    compare-and-swap, thread 2 takes two objects and returns the first; the
    compare-and-swap succeeds with the stale next pointer, and the object
    thread 2 still holds is allocated again. *)
Theorem lfpool_aba :
  exists evs s, lf_run evs (lf_start (bt_lfpool_bulk_free [100; 200; 300] (bt_lfpool_init, ∅))) = Some s /\
    held_by 1 s = [200; 100] /\ held_by 2 s = [200].
Proof.
  exists ([BeginAlloc 1; Step 1; Step 1] ++ whole_alloc 2 ++ whole_alloc 2 ++ whole_free 2 100 ++
          [Step 1] ++ whole_alloc 1).
  eexists. split; [vm_compute; reflexivity|]. by vm_compute.
Qed.

(** ** Witness *)

Definition pool3 : lf_state := bt_lfpool_bulk_free [100; 200; 300] (bt_lfpool_init, ∅).

Lemma pool3_reach :
  fs_reach lf_stack pool3 ([] ++ [100]) (bt_lfpool_free 200 (snd (bt_lfpool_alloc (snd (bt_lfpool_alloc pool3))))).
Proof.
  apply (fs_gave lf_stack pool3 [] 200 [100]).
  pose proof (fs_got lf_stack pool3 [] pool3 100 _ (fs_start _ _) eq_refl ltac:(done)) as H1.
  exact (fs_got lf_stack pool3 _ _ 200 _ H1 eq_refl ltac:(done)).
Defined.

Lemma pool3_ok : NoDup [100; 200; 300] /\ 0 ∉ [100; 200; 300].
Proof.
  rewrite !NoDup_cons, !not_elem_of_cons.
  split_and!; try done; first [apply not_elem_of_nil|apply NoDup_nil_2].
Qed.

Lemma lfpool_safe_witness : NoDup [100] /\ [100] ⊆ [100; 200; 300].
Proof.
  destruct (lfpool_safe [100; 200; 300] [100] ∅ _ (proj1 pool3_ok) (proj2 pool3_ok) pool3_reach)
    as (Hnd & Hsub & _). split; [exact Hnd|exact Hsub].
Defined.
