(* ===== verification/LfPoolConc.v ===== *)
(** * The lock-free object pool with its threads interleaved

    [LfPool.lfpool_aba] is an execution in which a compare-and-swap succeeds
    with a next pointer that was read before the head was taken and returned.
    This file shows that this is the only thing that goes wrong: in every
    execution in which the next pointer is current when the compare-and-swap
    succeeds, for any number of threads, the objects are partitioned between
    the free list, the threads that hold them and the calls that are returning
    them. Executions without frees, and executions without allocations, are of
    this kind. *)

From S2P Require Import Prelude FreeList LfPool.

(** The event does not install a stale next pointer. *)
Definition next_current (ev : lf_event) (s : lf_conc) : Prop :=
  match ev with
  | Step t =>
      match pc_of t s with
      | ANext head next => lp_head (lc_pool s) = head -> load (lc_heap s) head = next
      | _ => True
      end
  | _ => True
  end.

Fixpoint aba_free (evs : list lf_event) (s : lf_conc) : Prop :=
  match evs with
  | [] => True
  | ev :: evs =>
      next_current ev s /\ match lf_step ev s with Some s => aba_free evs s | None => True end
  end.

(** ** Who has an object *)

(** The object a call is returning. *)
Definition transit (pc : lf_pc) : list Z :=
  match pc with FStart node | FLoaded node _ | FStored node _ => [node] | _ => [] end.

Definition owned (t : nat) (s : lf_conc) : list Z := transit (pc_of t s) ++ held_by t s.

Record pool_inv (ptrs : list Z) (l : list Z) (s : lf_conc) : Prop := {
  pi_chain : chain (lc_heap s) (lp_head (lc_pool s)) l;
  pi_free : NoDup l;
  pi_owned : forall t, NoDup (owned t s);
  pi_apart : forall t p, p ∈ owned t s -> p ∉ l;
  pi_unique : forall t t' p, p ∈ owned t s -> p ∈ owned t' s -> t = t';
  pi_all : forall p, p ∈ ptrs <-> p ∈ l \/ exists t, p ∈ owned t s;
  pi_head : forall t head next, pc_of t s = ALoaded head \/ pc_of t s = ANext head next -> head <> 0;
  pi_stored : forall t node old, pc_of t s = FStored node old -> load (lc_heap s) node = old;
}.

Lemma pc_of_insert t t' pc p h pcs held :
  pc_of t' (LfConc p h (<[t := pc]> pcs) held) = if decide (t' = t) then pc else pc_of t' (LfConc p h pcs held).
Proof.
  unfold pc_of. cbn [lc_pc]. case_decide as E; [subst; by rewrite lookup_insert_eq|by rewrite lookup_insert_ne].
Qed.

Lemma held_by_insert t t' x p h pcs held :
  held_by t' (LfConc p h pcs (<[t := x]> held)) = if decide (t' = t) then x else held_by t' (LfConc p h pcs held).
Proof.
  unfold held_by. cbn [lc_held]. case_decide as E; [subst; by rewrite lookup_insert_eq|by rewrite lookup_insert_ne].
Qed.

(** A thread moves on without touching the pool, with the same objects. *)
Lemma inv_goto ptrs l s t pc :
  pool_inv ptrs l s -> transit pc = transit (pc_of t s) ->
  (forall head next, pc = ALoaded head \/ pc = ANext head next -> head <> 0) ->
  (forall node old, pc = FStored node old -> load (lc_heap s) node = old) ->
  pool_inv ptrs l (goto t pc s).
Proof.
  intros [Hc Hf Ho Ha Hu Hall Hh Hs] Ht Hn Hst.
  assert (forall t', owned t' (goto t pc s) = owned t' s) as Eo.
  { intros t'. unfold owned, goto. rewrite pc_of_insert. case_decide as E; [|by destruct s].
    subst t'. by rewrite Ht. }
  split; [done|done| | | | | |].
  - intros t'. rewrite Eo. apply Ho.
  - intros t' p. rewrite Eo. apply Ha.
  - intros t' t2 p. rewrite !Eo. apply Hu.
  - intros p. rewrite Hall. by setoid_rewrite Eo.
  - intros t' head next. unfold goto. rewrite pc_of_insert. case_decide; [apply Hn|]. destruct s. apply Hh.
  - intros t' node old. unfold goto. rewrite pc_of_insert. case_decide; [apply Hst|]. destruct s. apply Hs.
Qed.

(** An object moves from what a thread holds to what it is returning. *)
Lemma inv_begin_free ptrs l s t node :
  pool_inv ptrs l s -> pc_of t s = Idle -> node ∈ held_by t s ->
  pool_inv ptrs l (LfConc (lc_pool s) (lc_heap s) (<[t := FStart node]> (lc_pc s))
    (<[t := List.filter (fun p => negb (p =? node)) (held_by t s)]> (lc_held s))).
Proof.
  intros [Hc Hf Ho Ha Hu Hall Hh Hs] Hpc Hin.
  set (s' := LfConc _ _ _ _).
  assert (forall t', owned t' s' ≡ₚ owned t' s) as Eo.
  { intros t'. unfold owned, s'. rewrite pc_of_insert, held_by_insert. case_decide as E; [|by destruct s].
    subst t'. rewrite Hpc. cbn [transit app]. specialize (Ho t). unfold owned in Ho. rewrite Hpc in Ho. cbn in Ho.
    apply NoDup_Permutation; [|done|].
    - constructor; [|by apply NoDup_ListNoDup, List.NoDup_filter, NoDup_ListNoDup]. intros [_ H]%list_elem_of_In%filter_In. lia.
    - intros p. rewrite elem_of_cons, list_elem_of_In, filter_In, <- list_elem_of_In.
      destruct (Z.eqb_spec p node); naive_solver. }
  split; [done|done| | | | | |].
  - intros t'. by rewrite Eo.
  - intros t' p. rewrite Eo. apply Ha.
  - intros t' t2 p. rewrite !Eo. apply Hu.
  - intros p. rewrite Hall. by setoid_rewrite Eo.
  - intros t' head next. unfold s'. rewrite pc_of_insert. case_decide; [naive_solver|]. destruct s. apply Hh.
  - intros t' n old. unfold s'. rewrite pc_of_insert. case_decide; [naive_solver|]. destruct s. apply Hs.
Qed.

(** A successful compare-and-swap of an allocation takes the first free object. *)
Lemma inv_alloc ptrs l s t head :
  pool_inv ptrs l s -> pc_of t s = ANext head (load (lc_heap s) head) -> lp_head (lc_pool s) = head ->
  exists l', pool_inv ptrs l' (LfConc (LfPool (load (lc_heap s) head) (u64 (lp_alloc_count (lc_pool s) + 1))
    (lp_free_count (lc_pool s))) (lc_heap s) (<[t := Idle]> (lc_pc s))
    (<[t := head :: held_by t s]> (lc_held s))).
Proof.
  intros [Hc Hf Ho Ha Hu Hall Hh Hs] Hpc Hhead.
  pose proof (Hh t head _ (or_intror Hpc)) as Hnz. rewrite Hhead in Hc.
  destruct l as [|x l]; [done|]. destruct Hc as (<- & _ & Hc). inversion Hf as [|?? Hx Hf']; subst x l0.
  set (s' := LfConc _ _ _ _).
  assert (forall t', owned t' s' = if decide (t' = t) then head :: owned t s else owned t' s) as Eo.
  { intros t'. unfold owned, s'. rewrite pc_of_insert, held_by_insert. case_decide; [|by destruct s].
    by rewrite Hpc. }
  exists l. split; [done|done| | | | | |].
  - intros t'. rewrite Eo. case_decide; [|done]. constructor; [|done]. intros Hin. apply (Ha t head Hin). by left.
  - intros t' p. rewrite Eo. case_decide.
    + intros [->|Hp]%elem_of_cons; [done|]. intros Hl. apply (Ha t p Hp). by right.
    + intros Hp Hl. apply (Ha t' p Hp). by right.
  - assert (forall t', head ∉ owned t' s) as Hnew by (intros t' Hin; apply (Ha t' head Hin); by left).
    intros t1 t2 p. rewrite !Eo. repeat case_decide; subst; rewrite ?elem_of_cons; naive_solver.
  - intros p. rewrite Hall, elem_of_cons. setoid_rewrite Eo. split.
    + intros [[->|Hp]|[t' Hp]]; [right; exists t; rewrite decide_True by done; by left|by left|].
      right. exists t'. case_decide; [subst; by right|done].
    + intros [Hp|[t' Hp]]; [by left; right|]. case_decide; [|by right; exists t'].
      apply elem_of_cons in Hp as [->|Hp]; [by left; left|by right; exists t].
  - intros t' h n. unfold s'. rewrite pc_of_insert. case_decide; [naive_solver|]. destruct s. apply Hh.
  - intros t' n old. unfold s'. rewrite pc_of_insert. case_decide; [naive_solver|]. destruct s. apply Hs.
Qed.

(** The store to [node->next] touches no free object and no other call's. *)
Lemma inv_store ptrs l s t node old :
  pool_inv ptrs l s -> pc_of t s = FLoaded node old ->
  pool_inv ptrs l (LfConc (lc_pool s) (store node old (lc_heap s)) (<[t := FStored node old]> (lc_pc s)) (lc_held s)).
Proof.
  intros [Hc Hf Ho Ha Hu Hall Hh Hs] Hpc. set (s' := LfConc _ _ _ _).
  assert (forall t', owned t' s' = owned t' s) as Eo.
  { intros t'. unfold owned, s'. rewrite pc_of_insert. case_decide; [subst; by rewrite Hpc|by destruct s]. }
  assert (node ∈ owned t s) as Hin by (unfold owned; rewrite Hpc; by left).
  split; cbn [lc_pool lc_heap s']; [|done| | | | | |].
  - apply chain_store; [by apply (Ha t)|done].
  - intros t'. rewrite Eo. apply Ho.
  - intros t' p. rewrite Eo. apply Ha.
  - intros t' t2 p. rewrite !Eo. apply Hu.
  - intros p. rewrite Hall. by setoid_rewrite Eo.
  - intros t' h n. unfold s'. rewrite pc_of_insert. case_decide; [naive_solver|]. destruct s. apply Hh.
  - intros t' n o. unfold s'. rewrite pc_of_insert. case_decide as E.
    + intros [= <- <-]. apply load_store_eq.
    + intros Hpc'. assert (pc_of t' s = FStored n o) as Hpc2 by (by destruct s). cbn.
      rewrite load_store_ne; [by apply (Hs t')|]. intros ->. apply E. symmetry. apply (Hu t t' n); [done|].
      unfold owned. rewrite Hpc2. by left.
Qed.

(** A successful compare-and-swap of a free puts the object in front. *)
Lemma inv_free ptrs l s t node :
  pool_inv ptrs l s -> 0 ∉ ptrs -> pc_of t s = FStored node (lp_head (lc_pool s)) ->
  pool_inv ptrs (node :: l) (LfConc (LfPool node (lp_alloc_count (lc_pool s))
    (u64 (lp_free_count (lc_pool s) + 1))) (lc_heap s) (<[t := Idle]> (lc_pc s)) (lc_held s)).
Proof.
  intros [Hc Hf Ho Ha Hu Hall Hh Hs] H0 Hpc. set (s' := LfConc _ _ _ _).
  assert (owned t s = node :: held_by t s) as Et by (unfold owned; by rewrite Hpc).
  assert (forall t', owned t' s' = if decide (t' = t) then held_by t s else owned t' s) as Eo.
  { intros t'. unfold owned, s'. rewrite pc_of_insert. case_decide; [subst; by destruct s|by destruct s]. }
  assert (node ∈ owned t s) as Hin by (rewrite Et; by left).
  pose proof (Ho t) as Hnd. rewrite Et in Hnd. inversion Hnd as [|?? Hni Hnd']; subst.
  assert (node <> 0) as Hn0 by (intros ->; apply H0, Hall; right; by exists t).
  split; cbn [lc_pool lc_heap lp_head s'].
  - split_and!; [done|done|]. by rewrite (Hs t node _ Hpc).
  - constructor; [by apply (Ha t)|done].
  - intros t'. rewrite Eo. by case_decide.
  - intros t' p. rewrite Eo, not_elem_of_cons. case_decide as E.
    + intros Hp. split; [by intros ->|]. apply (Ha t). rewrite Et. by right.
    + intros Hp. split; [|by apply (Ha t')]. intros ->. apply E. by apply (Hu t' t node).
  - assert (forall p, p ∈ held_by t s -> p ∈ owned t s) as Hsub by (intros p Hp; rewrite Et; by right).
    intros t1 t2 p. rewrite !Eo. repeat case_decide; subst; [done| | |apply Hu]; intros Hp1 Hp2.
    + by apply (Hu t t2 p); [apply Hsub|].
    + by apply (Hu t1 t p); [|apply Hsub].
  - intros p. rewrite Hall, elem_of_cons. setoid_rewrite Eo. split.
    + intros [Hp|[t' Hp]]; [by left; right|]. destruct (decide (t' = t)) as [->|].
      * rewrite Et in Hp. apply elem_of_cons in Hp as [->|Hp]; [by left; left|].
        right. exists t. by rewrite decide_True.
      * right. exists t'. by rewrite decide_False.
    + intros [[->|Hp]|[t' Hp]]; [right; by exists t|by left|]. right. case_decide; [|by exists t'].
      exists t. rewrite Et. by right.
  - intros t' h n. unfold s'. rewrite pc_of_insert. case_decide; [naive_solver|]. destruct s. apply Hh.
  - intros t' n o. unfold s'. rewrite pc_of_insert. case_decide; [naive_solver|]. destruct s. apply Hs.
Qed.

(** ** Executions *)

Lemma pool_step ptrs l ev s s' :
  0 ∉ ptrs -> pool_inv ptrs l s -> next_current ev s -> lf_step ev s = Some s' ->
  exists l', pool_inv ptrs l' s'.
Proof.
  intros H0 Hi Hcur Hs. destruct ev as [t|t node|t]; cbn in Hs, Hcur.
  - destruct (pc_of t s) eqn:Hpc; simplify_eq. exists l. apply inv_goto; [done|by rewrite Hpc|naive_solver..].
  - destruct (pc_of t s) eqn:Hpc; simplify_eq. case_bool_decide; simplify_eq. exists l. by apply inv_begin_free.
  - destruct (pc_of t s) as [| |head|head next|node|node old|node old] eqn:Hpc; simplify_eq.
    + exists l. apply inv_goto; [done|rewrite Hpc; by case_match| |by case_match].
      intros h n. destruct (Z.eqb_spec (lp_head (lc_pool s)) 0); naive_solver.
    + exists l. apply inv_goto; [done|by rewrite Hpc| |naive_solver].
      intros h n [?|?]; simplify_eq. apply (pi_head _ _ _ Hi t h 0). by left.
    + destruct (Z.eqb_spec (lp_head (lc_pool s)) head) as [E|E]; simplify_eq.
      * rewrite <- (Hcur eq_refl) in *. by apply (inv_alloc ptrs l).
      * exists l. apply inv_goto; [done|by rewrite Hpc|naive_solver..].
    + exists l. apply inv_goto; [done|by rewrite Hpc|naive_solver..].
    + exists l. by apply inv_store.
    + destruct (Z.eqb_spec (lp_head (lc_pool s)) old) as [E|E]; simplify_eq.
      * exists (node :: l). by apply inv_free.
      * exists l. apply inv_goto; [done|by rewrite Hpc|naive_solver..].
Qed.

Lemma pool_run ptrs l evs s s' :
  0 ∉ ptrs -> pool_inv ptrs l s -> aba_free evs s -> lf_run evs s = Some s' -> exists l', pool_inv ptrs l' s'.
Proof.
  intros H0. revert l s. induction evs as [|ev evs IH]; intros l s Hi Ha Hr; [simplify_eq/=; by exists l|].
  cbn in Ha, Hr. destruct Ha as [Hcur Ha]. destruct (lf_step ev s) as [s1|] eqn:E; [|done].
  destruct (pool_step ptrs l ev s s1 H0 Hi Hcur E) as [l1 H1]. by apply (IH l1 s1).
Qed.

Lemma start_inv_pool ptrs st : lf_wf st ptrs -> pool_inv ptrs ptrs (lf_start st).
Proof.
  intros [Hc Hnd]. assert (forall t, owned t (lf_start st) = []) as Eo by done.
  split; [done|done| | | | |by intros ??? [?|?]|done].
  - intros t. rewrite Eo. constructor.
  - intros t p. rewrite Eo. by intros ?%elem_of_nil.
  - intros t t' p. rewrite Eo. by intros ?%elem_of_nil.
  - intros p. setoid_rewrite Eo. split; [by left|]. intros [?|[? ?%elem_of_nil]]; done.
Qed.

(** ** Executions that are free of ABA *)

(** Every next pointer read is current, and no call is returning an object. *)
Definition allocs_only (s : lf_conc) : Prop :=
  forall t, match pc_of t s with
            | ANext head next => load (lc_heap s) head = next
            | FStart _ | FLoaded _ _ | FStored _ _ => False
            | _ => True
            end.

Lemma allocs_only_step ev s s' :
  (forall t node, ev <> BeginFree t node) -> allocs_only s -> lf_step ev s = Some s' ->
  next_current ev s /\ allocs_only s'.
Proof.
  intros Hev Ha Hs. destruct ev as [t|t node|t]; [|by destruct (Hev t node)|].
  - cbn in Hs. destruct (pc_of t s) eqn:Hpc; simplify_eq. split; [done|]. intros t'. unfold goto.
    rewrite pc_of_insert. case_decide; [done|]. specialize (Ha t'). by destruct s.
  - cbn in *. pose proof (Ha t) as Ht. destruct (pc_of t s) as [| |head|head next| | |] eqn:Hpc; simplify_eq; try done.
    + split; [done|]. intros t'. unfold goto. rewrite pc_of_insert. case_decide; [by destruct (lp_head (lc_pool s) =? 0)|].
      specialize (Ha t'). by destruct s.
    + split; [done|]. intros t'. unfold goto. rewrite pc_of_insert. case_decide; [done|].
      specialize (Ha t'). by destruct s.
    + split; [done|]. case_match; simplify_eq; intros t'; unfold goto; rewrite pc_of_insert;
        (case_decide; [done|]); specialize (Ha t'); by destruct s.
Qed.

Lemma allocs_only_free evs s :
  Forall (fun ev => forall t node, ev <> BeginFree t node) evs -> allocs_only s -> aba_free evs s.
Proof.
  intros Hev. revert s. induction Hev as [|ev evs Hev _ IH]; intros s Ha; [done|]. cbn.
  destruct (lf_step ev s) as [s1|] eqn:E.
  - destruct (allocs_only_step ev s s1 Hev Ha E). split; [done|by apply IH].
  - split; [|done]. destruct ev as [| |t]; try done. cbn. specialize (Ha t).
    by destruct (pc_of t s).
Qed.

(** Without allocations nothing compares and swaps with a next pointer. *)
Definition no_alloc (s : lf_conc) : Prop :=
  forall t, match pc_of t s with AStart | ALoaded _ | ANext _ _ => False | _ => True end.

Lemma no_alloc_step ev s s' :
  (forall t, ev <> BeginAlloc t) -> no_alloc s -> lf_step ev s = Some s' -> no_alloc s'.
Proof.
  intros Hev Ha Hs t'. pose proof (Ha t') as Ht'. destruct ev as [t|t node|t]; [by destruct (Hev t)| |].
  - cbn in Hs. destruct (pc_of t s) eqn:Hpc; simplify_eq. case_bool_decide; simplify_eq.
    rewrite pc_of_insert. case_decide; [done|]. by destruct s.
  - cbn in Hs. pose proof (Ha t) as Ht.
    destruct (pc_of t s) eqn:Hpc; try done;
      try match type of Hs with (if ?b then _ else _) = _ => destruct b end; simplify_eq;
      unfold goto; rewrite pc_of_insert; (case_decide; [done|by destruct s]).
Qed.

Lemma no_alloc_free evs s :
  Forall (fun ev => forall t, ev <> BeginAlloc t) evs -> no_alloc s -> aba_free evs s.
Proof.
  intros Hev. revert s. induction Hev as [|ev evs Hev _ IH]; intros s Ha; [done|]. cbn. split.
  - destruct ev as [| |t]; try done. cbn. specialize (Ha t). by destruct (pc_of t s).
  - destruct (lf_step ev s) as [s1|] eqn:E; [|done]. by eapply IH, no_alloc_step.
Qed.

(** ** Properties *)

(** C31: The pool is safe for any number of threads while no stale next pointer is
    installed: no object is held twice or by two threads, a free object is
    held by nobody, and every object of the pool is free, held, or being
    returned; executions in which no thread frees, and executions in which no
    thread allocates, are of this kind. *)
Theorem lfpool_conc_safe (st : lf_state) (ptrs : list Z) (evs : list lf_event) (s : lf_conc) :
  lf_wf st ptrs -> 0 ∉ ptrs -> lf_run evs (lf_start st) = Some s ->
  aba_free evs (lf_start st) \/ Forall (fun ev => forall t node, ev <> BeginFree t node) evs \/
  Forall (fun ev => forall t, ev <> BeginAlloc t) evs ->
  (forall t, NoDup (held_by t s)) /\
  (forall t t' p, p ∈ held_by t s -> p ∈ held_by t' s -> t = t') /\
  exists l, chain (lc_heap s) (lp_head (lc_pool s)) l /\ NoDup l /\
    (forall t p, p ∈ held_by t s -> p ∉ l) /\
    forall p, p ∈ ptrs <-> p ∈ l \/ exists t, p ∈ transit (pc_of t s) ++ held_by t s.
Proof.
  intros Hwf H0 Hr Hok.
  assert (aba_free evs (lf_start st)) as Haba.
  { destruct Hok as [?|[?|?]]; [done|by apply allocs_only_free|by apply no_alloc_free]. }
  destruct (pool_run ptrs ptrs evs _ s H0 (start_inv_pool _ _ Hwf) Haba Hr) as [l [Hc Hf Ho Ha Hu Hall _ _]].
  assert (forall t p, p ∈ held_by t s -> p ∈ owned t s) as Hsub.
  { intros t p Hp. unfold owned. apply elem_of_app. by right. }
  split_and!; [|eauto|exists l; split_and!; eauto].
  intros t. specialize (Ho t). unfold owned in Ho. by apply NoDup_app in Ho as (_ & _ & ?).
Qed.

(** ** Witness *)

(** Two threads allocate, their accesses interleaved; the second retries. *)
Lemma lfpool_conc_safe_witness :
  exists s, lf_run [BeginAlloc 1; BeginAlloc 2; Step 1; Step 2; Step 1; Step 2; Step 1; Step 2; Step 2; Step 2; Step 2]
              (lf_start pool3) = Some s /\
    held_by 1 s = [100] /\ held_by 2 s = [200] /\ forall t t' p, p ∈ held_by t s -> p ∈ held_by t' s -> t = t'.
Proof.
  eexists. split; [vm_compute; reflexivity|]. split; [reflexivity|]. split; [reflexivity|].
  apply (lfpool_conc_safe pool3 [100; 200; 300]
    [BeginAlloc 1; BeginAlloc 2; Step 1; Step 2; Step 1; Step 2; Step 1; Step 2; Step 2; Step 2; Step 2]).
  - rewrite <- (app_nil_r [100; 200; 300]). unfold pool3. apply bulk_free_wf.
    + split; [done|constructor].
    + exact (proj1 pool3_ok).
    + intros p Hp. split; [|apply not_elem_of_nil]. intros ->. exact (proj2 pool3_ok Hp).
  - exact (proj2 pool3_ok).
  - vm_compute. reflexivity.
  - right; left. repeat (apply Forall_cons_2; [intros ? ?; discriminate|]). apply Forall_nil_2.
Defined.
