(* ===== verification/MemoryPool.v ===== *)
(** * The memory pool and its arenas

    Models [src/src/utils/memory_pool.c]: one slab of memory carved into
    per-thread arenas whose descriptors sit at its end, a bump allocator per
    arena and the recycling of order nodes through an embedded free list.
    Addresses are integers; the arena descriptors are the list of the structs
    the pool writes at [arenas]. *)

From S2P Require Import Prelude FreeList Slab.

Record bt_mempool := MemPool {
  mp_base : Z;
  mp_total_size : Z;
  mp_offset : Z;
  mp_arena_counter : Z;
  mp_num_arenas : Z;
  mp_arenas : Z;
  mp_hugepage : bool;
}.

Record bt_mempool_arena := Arena {
  ar_base : Z;
  ar_size : Z;
  ar_offset : Z;
  ar_free_orders : Z;
  ar_alloc_count : Z;
  ar_free_count : Z;
}.

Definition sizeof_arena : Z := 64.
(** [bt_order_node_t]: a 64-byte order and two pointers. *)
Definition sizeof_order_node : Z := 80.

Definition zero_pool : bt_mempool := MemPool 0 0 0 0 0 0 false.

(** The descriptors the initialisation loop writes, for [i] and on. *)
Fixpoint init_arenas (n : nat) (i base arena_size : Z) : list bt_mempool_arena :=
  match n with
  | O => []
  | S n => Arena (u64 (base + u64 (i * arena_size))) arena_size 0 0 0 0
           :: init_arenas n (i + 1) base arena_size
  end.

(** [bt_mempool_init]; [mem] is the address the allocation of the slab
    returns, 0 if it fails. Without a pool argument nothing is written. *)
Definition bt_mempool_init (pool : option bt_mempool) (mem total_size num_arenas : Z)
    (use_hugepages : bool) : Z * option (bt_mempool * list bt_mempool_arena) :=
  match pool with
  | None => (-1, None)
  | Some pool =>
      if (total_size =? 0) || (num_arenas <? 1) then (-1, Some (pool, []))
      else if mem =? 0 then (-1, Some (zero_pool, []))
      else
        let arena_array_size := u64 (num_arenas * sizeof_arena) in
        let usable_size := u64 (total_size - arena_array_size) in
        let arena_size := Z.land (usable_size / num_arenas) (not64 4095) in
        (0, Some (MemPool mem total_size 0 0 num_arenas (u64 (mem + usable_size)) use_hugepages,
                  init_arenas (Z.to_nat num_arenas) 0 mem arena_size))
  end.

(** [bt_mempool_destroy]: the pool is cleared. *)
Definition bt_mempool_destroy (pool : bt_mempool) : bt_mempool :=
  if mp_base pool =? 0 then pool else zero_pool.

(** The index of the next arena, round robin, at type [unsigned int]. *)
Definition bt_mempool_assign_arena (pool : bt_mempool) : Z * bt_mempool :=
  (u32 (mp_arena_counter pool mod mp_num_arenas pool),
   MemPool (mp_base pool) (mp_total_size pool) (mp_offset pool) (u64 (mp_arena_counter pool + 1))
     (mp_num_arenas pool) (mp_arenas pool) (mp_hugepage pool)).

(** [tls] is the thread's cached arena. *)
Definition bt_mempool_get_arena (tls : option Z) (pool : bt_mempool) : Z * option Z * bt_mempool :=
  match tls with
  | Some id => (id, tls, pool)
  | None => let '(id, pool) := bt_mempool_assign_arena pool in (id, Some id, pool)
  end.

Definition bt_mempool_alloc (size : Z) (a : bt_mempool_arena) : Z * bt_mempool_arena :=
  let size := align_up BT_CACHE_LINE_SIZE size in
  if ar_size a <? u64 (ar_offset a + size) then (0, a)
  else (u64 (ar_base a + ar_offset a),
        Arena (ar_base a) (ar_size a) (u64 (ar_offset a + size)) (ar_free_orders a)
          (u32 (ar_alloc_count a + 1)) (ar_free_count a)).

(** The arena and the [next] fields of its order nodes. *)
Definition arena_state : Type := bt_mempool_arena * heap.

Definition bt_mempool_alloc_order (st : arena_state) : Z * arena_state :=
  let '(a, h) := st in
  if negb (ar_free_orders a =? 0) then
    let node := ar_free_orders a in
    (node, (Arena (ar_base a) (ar_size a) (ar_offset a) (load h node)
              (u32 (ar_alloc_count a + 1)) (u32 (ar_free_count a - 1)),
            store node 0 h))
  else
    let '(p, a) := bt_mempool_alloc sizeof_order_node a in (p, (a, h)).

Definition bt_mempool_free_order (node : Z) (st : arena_state) : arena_state :=
  let '(a, h) := st in
  if node =? 0 then st
  else (Arena (ar_base a) (ar_size a) (ar_offset a) node (ar_alloc_count a) (u32 (ar_free_count a + 1)),
        store node (ar_free_orders a) h).

Definition bt_mempool_arena_reset (a : bt_mempool_arena) : bt_mempool_arena :=
  Arena (ar_base a) (ar_size a) 0 0 0 0.

(** Bytes used, bytes in total, allocations, frees. *)
Definition bt_mempool_arena_stats (a : bt_mempool_arena) : Z * Z * Z * Z :=
  (ar_offset a, ar_size a, ar_alloc_count a, ar_free_count a).

(** ** Carving the slab *)

Lemma init_arenas_lookup n i base asz j :
  (j < n)%nat ->
  init_arenas n i base asz !! j
  = Some (Arena (u64 (base + u64 ((i + Z.of_nat j) * asz))) asz 0 0 0 0).
Proof.
  revert i j. induction n as [|n IH]; intros i j Hj; [lia|].
  destruct j as [|j]; cbn [init_arenas lookup list_lookup]; [by rewrite Z.add_0_r|].
  change (init_arenas n (i + 1) base asz !! j = Some (Arena (u64 (base + u64 ((i + Z.of_nat (S j)) * asz))) asz 0 0 0 0)).
  rewrite IH by lia. by replace (i + 1 + Z.of_nat j) with (i + Z.of_nat (S j)) by lia.
Qed.

Lemma length_init_arenas n i base asz : length (init_arenas n i base asz) = n.
Proof. revert i. induction n as [|n IH]; intros i; simpl; [done|by rewrite IH]. Qed.

(** The size of an arena is rounded down to whole pages. *)
Lemma page_size x : is_u64 x -> Z.land x (not64 4095) = x - x mod 4096.
Proof. intros Hx. change 4095 with (2 ^ 12 - 1). by rewrite land_not64_pow2 by (done || lia). Qed.

(** ** Allocation from an arena *)

(** Slots in the order they were carved, the last one first: each ends where
    the next begins or before, all between [lo] and [hi]. *)
Fixpoint spaced (lo hi : Z) (slots : list (Z * Z)) : Prop :=
  match slots with
  | [] => lo <= hi
  | (p, n) :: slots => 0 < n /\ p + n <= hi /\ (p - lo) mod 64 = 0 /\ spaced lo p slots
  end.

Lemma spaced_le lo hi slots : spaced lo hi slots -> lo <= hi.
Proof.
  revert hi. induction slots as [|[p n] slots IH]; intros hi H; simpl in *; [done|].
  destruct H as (? & ? & _ & H). apply IH in H. lia.
Qed.

Lemma spaced_in lo hi slots p n :
  spaced lo hi slots -> (p, n) ∈ slots -> lo <= p /\ 0 < n /\ p + n <= hi /\ (p - lo) mod 64 = 0.
Proof.
  revert hi. induction slots as [|[q m] slots IH]; intros hi H Hin; [by apply elem_of_nil in Hin|].
  simpl in H. destruct H as (Hm & Hq & Hmod & H). pose proof (spaced_le _ _ _ H).
  apply elem_of_cons in Hin as [Heq|Hin]; [simplify_eq; split_and!; done || lia|].
  destruct (IH _ H Hin) as (? & ? & ? & ?). split_and!; try done; lia.
Qed.

Lemma spaced_nodup lo hi slots : spaced lo hi slots -> NoDup slots.*1.
Proof.
  revert hi. induction slots as [|[q m] slots IH]; intros hi H; simpl in *; constructor.
  - intros Hin. apply list_elem_of_fmap in Hin as ([p n] & -> & Hin). simpl in *.
    destruct H as (Hm & Hq & _ & H). apply (spaced_in _ _ _ _ _ H) in Hin. lia.
  - destruct H as (_ & _ & _ & H). by eapply IH.
Qed.

Lemma spaced_disjoint lo hi slots p n q m :
  spaced lo hi slots -> (p, n) ∈ slots -> (q, m) ∈ slots -> (p, n) <> (q, m) ->
  p + n <= q \/ q + m <= p.
Proof.
  revert hi. induction slots as [|[r k] slots IH]; intros hi H Hp Hq Hne; [by apply elem_of_nil in Hp|].
  simpl in H. destruct H as (Hk & Hr & _ & H).
  apply elem_of_cons in Hp as [Ep|Hp]; apply elem_of_cons in Hq as [Eq|Hq].
  - congruence.
  - simplify_eq. apply (spaced_in _ _ _ _ _ H) in Hq. lia.
  - simplify_eq. apply (spaced_in _ _ _ _ _ H) in Hp. lia.
  - by eapply IH.
Qed.

(** The states of an arena reached from [a0] by a client that frees only
    order nodes it holds, with the sizes it asked [bt_mempool_alloc] for, any of
    type [size_t], and the blocks it holds with their lengths. *)
Definition node_len : Z := align_up BT_CACHE_LINE_SIZE sizeof_order_node.

Inductive areach (st0 : arena_state) : list Z -> list (Z * Z) -> arena_state -> Prop :=
  | areach_start : areach st0 [] [] st0
  | areach_alloc sizes live st size p a' :
      areach st0 sizes live st -> is_u64 size -> bt_mempool_alloc size st.1 = (p, a') -> p <> 0 ->
      areach st0 (sizes ++ [size]) ((p, align_up BT_CACHE_LINE_SIZE size) :: live) (a', st.2)
  | areach_refused sizes live st size a' :
      areach st0 sizes live st -> is_u64 size -> bt_mempool_alloc size st.1 = (0, a') ->
      areach st0 (sizes ++ [size]) live (a', st.2)
  | areach_order sizes live st p st' :
      areach st0 sizes live st -> bt_mempool_alloc_order st = (p, st') -> p <> 0 ->
      areach st0 sizes ((p, node_len) :: live) st'
  | areach_free sizes live1 p live2 st :
      areach st0 sizes (live1 ++ (p, node_len) :: live2) st ->
      areach st0 sizes (live1 ++ live2) (bt_mempool_free_order p st).

(** The sizes an object can have: at least a byte, at most [PTRDIFF_MAX]. *)
Definition object_size (size : Z) : Prop := 0 < size < 2 ^ 63.

(** Every slot carved so far is held by the client or is a recycled node. *)
Record arena_inv (a0 : bt_mempool_arena) (live : list (Z * Z)) (st : arena_state) : Prop := {
  v_base : ar_base st.1 = ar_base a0;
  v_size : ar_size st.1 = ar_size a0;
  v_off : 0 <= ar_offset st.1 <= ar_size a0;
  v_off64 : ar_offset st.1 mod 64 = 0;
  v_slots : exists slots free,
    spaced (ar_base a0) (ar_base a0 + ar_offset st.1) slots /\
    chain st.2 (ar_free_orders st.1) free /\
    slots ≡ₚ live ++ map (fun p => (p, node_len)) free;
}.

(** An arena inside the address space. *)
Definition arena_ok (a : bt_mempool_arena) : Prop :=
  0 < ar_base a /\ 0 <= ar_size a < 2 ^ 62 /\ ar_base a + ar_size a < 2 ^ 64.

Section arena.
Context (a0 : bt_mempool_arena) (Hok : arena_ok a0).

(** Carving a new slot. *)
Lemma alloc_inv live st size p a' :
  arena_inv a0 live st -> object_size size -> bt_mempool_alloc size st.1 = (p, a') -> p <> 0 ->
  arena_inv a0 ((p, align_up BT_CACHE_LINE_SIZE size) :: live) (a', st.2).
Proof using Hok.
  intros [Hb Hs Ho Ho64 (slots & free & Hsp & Hc & Hperm)] Hsz Ha Hp. unfold object_size in Hsz.
  destruct Hok as (Hbase & Hsize & Hfit). unfold bt_mempool_alloc, BT_CACHE_LINE_SIZE in *.
  destruct (align_up_spec 6 size) as (q & Hq & Hr); [lia|lia|lia|].
  change (2 ^ 6) with 64 in *. rewrite Hq in *. rewrite Hb, Hs in *.
  rewrite (u64_small (ar_offset st.1 + q * 64)) in Ha by (unfold is_u64; lia).
  destruct (Z.ltb_spec (ar_size a0) (ar_offset st.1 + q * 64)) as [|Hroom]; [simplify_eq|].
  rewrite u64_small in Ha by (unfold is_u64; lia). simplify_eq.
  split; simpl; try done; try lia.
  - rewrite Z.mod_add by lia. done.
  - exists ((ar_base a0 + ar_offset st.1, q * 64) :: slots), free. simpl.
    split_and!; try done; try lia; [|by rewrite Hperm].
    replace (ar_base a0 + ar_offset st.1 - ar_base a0) with (ar_offset st.1) by lia. done.
Qed.

Lemma node_len_eq : node_len = 128.
Proof using. reflexivity. Qed.

(** The recycled nodes are distinct and not among the blocks held. *)
Lemma free_apart live (st : arena_state) slots free p :
  spaced (ar_base a0) (ar_base a0 + ar_offset st.1) slots ->
  slots ≡ₚ live ++ map (fun p => (p, node_len)) free ->
  NoDup free /\ ((p, node_len) ∈ live -> (p ∉ free) /\ p <> 0).
Proof using Hok.
  intros Hsp Hperm. pose proof (spaced_nodup _ _ _ Hsp) as Hnd.
  assert (slots.*1 ≡ₚ live.*1 ++ free) as Hp1.
  { rewrite Hperm, fmap_app. f_equiv. clear. induction free; simpl; [done|by f_equiv]. }
  rewrite Hp1 in Hnd. apply NoDup_app in Hnd as (_ & Hdis & Hnd). split; [done|].
  intros Hin. split.
  - apply Hdis. apply list_elem_of_fmap. by exists (p, node_len).
  - assert ((p, node_len) ∈ slots) as Hs by (rewrite Hperm; apply elem_of_app; auto).
    apply (spaced_in _ _ _ _ _ Hsp) in Hs. destruct Hok. lia.
Qed.

Lemma alloc_order_inv live st p st' :
  arena_inv a0 live st -> bt_mempool_alloc_order st = (p, st') -> p <> 0 ->
  arena_inv a0 ((p, node_len) :: live) st'.
Proof using Hok.
  intros Hinv Ha Hp. destruct st as [a h]. unfold bt_mempool_alloc_order in Ha.
  destruct (Z.eqb_spec (ar_free_orders a) 0) as [E|E]; cbn [negb] in Ha.
  - destruct (bt_mempool_alloc sizeof_order_node a) as [q a'] eqn:Hal. simplify_eq.
    apply (alloc_inv live (a, h) sizeof_order_node p a'); done.
  - simplify_eq. destruct Hinv as [Hb Hs Ho Ho64 (slots & free & Hsp & Hc & Hperm)]. simpl in *.
    destruct free as [|x free]; simpl in Hc; [done|]. destruct Hc as (Hx & Hx0 & Hc).
    destruct (free_apart live (a, h) slots (x :: free) 0 Hsp Hperm) as [Hnd _].
    apply NoDup_cons in Hnd as [Hxf Hnd'].
    split; simpl; try done. exists slots, free. rewrite Hx. split_and!; try done.
    + by apply chain_store.
    + rewrite Hperm. simpl. by rewrite Permutation_middle.
Qed.

Lemma free_order_inv live1 p live2 st :
  arena_inv a0 (live1 ++ (p, node_len) :: live2) st ->
  arena_inv a0 (live1 ++ live2) (bt_mempool_free_order p st).
Proof using Hok.
  intros [Hb Hs Ho Ho64 (slots & free & Hsp & Hc & Hperm)]. destruct st as [a h]. simpl in *.
  destruct (free_apart (live1 ++ (p, node_len) :: live2) (a, h) slots free p Hsp Hperm) as [Hnd Hp].
  destruct Hp as [Hpf Hp0]; [rewrite elem_of_app, elem_of_cons; auto|].
  rewrite (proj2 (Z.eqb_neq p 0)) by done. split; simpl; try done.
  exists slots, (p :: free). split_and!; try done.
  - simpl. split_and!; try done. rewrite load_store_eq. by apply chain_store.
  - rewrite Hperm. simpl. rewrite <- !app_assoc. simpl. f_equiv. by rewrite Permutation_middle.
Qed.

(** A request that is refused changes nothing. *)
Lemma alloc_refused live st size a' :
  arena_inv a0 live st -> object_size size -> bt_mempool_alloc size st.1 = (0, a') ->
  arena_inv a0 live (a', st.2).
Proof using Hok.
  intros Hinv Hsz Ha. pose proof Hinv as [Hb Hs Ho _ _]. unfold object_size in Hsz.
  destruct Hok as (Hbase & Hsize & Hfit). unfold bt_mempool_alloc, BT_CACHE_LINE_SIZE in Ha.
  destruct (align_up_spec 6 size) as (q & Hq & Hr); [lia|lia|lia|]. change (2 ^ 6) with 64 in *.
  rewrite Hq, Hb, Hs, (u64_small (ar_offset st.1 + q * 64)) in Ha by (unfold is_u64; lia).
  destruct (Z.ltb_spec (ar_size a0) (ar_offset st.1 + q * 64)) as [|Hroom].
  - injection Ha as <-. by destruct st.
  - injection Ha as Ep Ea. rewrite u64_small in Ep by (unfold is_u64; lia). lia.
Qed.

Lemma areach_inv h sizes live st :
  ar_offset a0 = 0 -> ar_free_orders a0 = 0 -> areach (a0, h) sizes live st ->
  Forall object_size sizes -> arena_inv a0 live st.
Proof using Hok.
  intros Ho Hf. induction 1 as [|sizes live st size p a' Hr IH Hsz Ha Hp|sizes live st size a' Hr IH Hsz Ha
                               |sizes live st p st' Hr IH Ha Hp|sizes live1 p live2 st Hr IH]; intros Hall.
  - split; simpl; try done; rewrite ?Ho; try done; [destruct Hok as (_ & ? & _); lia|].
    exists [], []. simpl. split_and!; try done; lia.
  - apply Forall_app in Hall as [Hall Hs]; apply Forall_cons in Hs as [Hs _]. exact (alloc_inv live st size p a' (IH Hall) Hs Ha Hp).
  - apply Forall_app in Hall as [Hall Hs]; apply Forall_cons in Hs as [Hs _]. exact (alloc_refused live st size a' (IH Hall) Hs Ha).
  - eapply alloc_order_inv; [by apply IH|done..].
  - by apply free_order_inv, IH.
Qed.

End arena.

(** What a successful initialisation produces. *)
Lemma init_ok_spec pool0 mem total n huge pool arenas :
  bt_mempool_init (Some pool0) mem total n huge = (0, Some (pool, arenas)) ->
  0 < mem -> 0 <= total -> mem + total < 2 ^ 64 -> n * sizeof_arena <= total ->
  let usable := total - n * 64 in
  let asz := usable / n - (usable / n) mod 4096 in
  1 <= n /\ mp_arenas pool = mem + usable /\ 0 <= asz /\ n * asz <= usable /\
  asz mod 4096 = 0 /\ length arenas = Z.to_nat n /\
  (forall i, (i < Z.to_nat n)%nat ->
     arenas !! i = Some (Arena (mem + Z.of_nat i * asz) asz 0 0 0 0)).
Proof.
  intros H Hm Ht Hfit Hn usable asz. unfold bt_mempool_init, sizeof_arena in *.
  destruct ((total =? 0) || (n <? 1)) eqn:E; [done|]. apply orb_false_iff in E as [_ E%Z.ltb_ge].
  rewrite (proj2 (Z.eqb_neq mem 0)) in H by lia.
  rewrite (u64_small (n * 64)) in H by (unfold is_u64; lia).
  rewrite (u64_small (total - n * 64)) in H by (unfold is_u64; lia). fold usable in H.
  assert (0 <= usable) by (unfold usable; lia).
  pose proof (Z.div_pos usable n ltac:(lia) ltac:(lia)).
  pose proof (Z.mul_div_le usable n ltac:(lia)).
  assert (usable / n <= usable) by (apply Z.div_le_upper_bound; nia).
  rewrite page_size in H by (unfold is_u64, usable in *; lia). fold asz in H.
  pose proof (Z.mod_pos_bound (usable / n) 4096 ltac:(lia)).
  pose proof (Z.mod_le (usable / n) 4096 ltac:(lia) ltac:(lia)).
  assert (asz mod 4096 = 0) as Hmod.
  { unfold asz. rewrite Zminus_mod_idemp_r, Z.sub_diag. done. }
  rewrite (u64_small (mem + usable)) in H by (unfold is_u64, usable in *; lia). simplify_eq. simpl.
  assert (n * asz <= usable) by (unfold asz; nia).
  split_and!; try done; try (unfold asz; lia).
  - apply length_init_arenas.
  - intros i Hi. rewrite init_arenas_lookup, Z.add_0_l by done.
    assert (0 <= asz) by (unfold asz; lia).
    assert (0 <= Z.of_nat i * asz <= usable) as Hi2 by nia.
    assert (usable <= total) by (unfold usable; lia). clearbody asz usable.
    rewrite (u64_small (Z.of_nat i * asz)) by (unfold is_u64; lia).
    rewrite u64_small by (unfold is_u64; lia). done.
Qed.

(** ** Properties *)

(** C32: The pool carves its slab without overlap: when the slab has room for
    the descriptors, the arenas are consecutive, page-sized, disjoint and
    inside the slab, the array of descriptors follows them and ends where the
    slab ends, and every arena starts empty. *)
Theorem mempool_partition (pool0 pool : bt_mempool) (mem total n : Z) (huge : bool)
    (arenas : list bt_mempool_arena) :
  bt_mempool_init (Some pool0) mem total n huge = (0, Some (pool, arenas)) ->
  0 < mem -> 0 <= total -> mem + total < 2 ^ 64 -> n * sizeof_arena <= total ->
  zlen arenas = n /\ mp_arenas pool + n * sizeof_arena = mem + total /\
  (forall i a, arenas !! i = Some a ->
     mem <= ar_base a /\ ar_base a + ar_size a <= mp_arenas pool /\
     ar_size a mod 4096 = 0 /\ ar_offset a = 0 /\ ar_free_orders a = 0) /\
  (forall i j a b, arenas !! i = Some a -> arenas !! j = Some b -> (i < j)%nat ->
     ar_base a + ar_size a <= ar_base b).
Proof.
  intros H Hm Ht Hfit Hn.
  destruct (init_ok_spec _ _ _ _ _ _ _ H Hm Ht Hfit Hn) as (Hn1 & Hard & Hasz & Hle & Hmod & Hlen & Hl).
  set (asz := (total - n * 64) / n - _) in *.
  assert (forall i a, arenas !! i = Some a ->
    (i < Z.to_nat n)%nat /\ a = Arena (mem + Z.of_nat i * asz) asz 0 0 0 0) as Hget.
  { intros i a Ha. assert (i < Z.to_nat n)%nat as Hi by (rewrite <- Hlen; by eapply lookup_lt_Some).
    rewrite Hl in Ha by done. by simplify_eq. }
  unfold sizeof_arena in *. split_and!.
  - unfold zlen. rewrite Hlen. lia.
  - lia.
  - intros i a Ha. apply Hget in Ha as [Hi ->]. simpl. split_and!; try done; nia.
  - intros i j a b Ha Hb Hij. apply Hget in Ha as [Hi ->], Hb as [Hj ->]. simpl. nia.
Qed.

(** A slab too small for its descriptors is not refused: the usable size
    wraps around, the descriptors are placed before the slab, and the arenas
    claim more memory than the slab has. *)
Theorem mempool_init_underflows (pool0 : bt_mempool) :
  exists pool arenas, bt_mempool_init (Some pool0) 8192 64 2 false = (0, Some (pool, arenas)) /\
    mp_arenas pool + sizeof_arena = 8192 /\ Forall (fun a => 64 < ar_size a) arenas.
Proof.
  eexists _, _. split; [reflexivity|]. split; [reflexivity|].
  repeat constructor; by vm_compute.
Qed.

Definition arena0 : bt_mempool_arena := Arena 2097152 258048 0 0 0 0.

(** A request close to 2^64 passes the test for room, because the sum with the
    offset wraps around, and moves the offset back: after blocks of 192 and 64
    bytes and one of 2^64 - 128, the next block is handed out inside the first. *)
Lemma arena_alloc_wraps :
  exists a1 a2 a3 a4 p, bt_mempool_alloc 192 arena0 = (2097152, a1) /\ bt_mempool_alloc 64 a1 = (2097344, a2) /\
    bt_mempool_alloc (2 ^ 64 - 128) a2 = (p, a3) /\ p <> 0 /\ bt_mempool_alloc 64 a3 = (2097152 + 128, a4).
Proof. eexists _, _, _, _, _. by split_and!. Qed.

(** A request for nothing gives an address that the next one gives again. *)
Lemma arena_alloc_nothing :
  exists a1 a2, bt_mempool_alloc 0 arena0 = (2097152, a1) /\ bt_mempool_alloc 64 a1 = (2097152, a2).
Proof. eexists _, _. by split. Qed.

(** C33: The blocks a thread holds from an arena of the pool do not overlap:
    for any sequence of bump allocations of 1 to 2^63 - 1 bytes, granted or
    refused, of order-node allocations (fresh or recycled) and of frees of nodes
    it holds, the blocks are different, disjoint, inside the arena and at
    multiples of a cache line from its start. The bound on the sizes is needed:
    [arena_alloc_wraps], [arena_alloc_nothing]. *)
Theorem arena_blocks_disjoint (pool0 pool : bt_mempool) (mem total n : Z) (huge : bool)
    (arenas : list bt_mempool_arena) (i : nat) (a : bt_mempool_arena) (h : heap)
    (sizes : list Z) (live : list (Z * Z)) (st : arena_state) :
  bt_mempool_init (Some pool0) mem total n huge = (0, Some (pool, arenas)) ->
  0 < mem -> 0 <= total < 2 ^ 62 -> mem + total < 2 ^ 64 -> n * sizeof_arena <= total ->
  arenas !! i = Some a -> areach (a, h) sizes live st -> Forall object_size sizes ->
  NoDup live.*1 /\
  (forall p len, (p, len) ∈ live ->
     ar_base a <= p /\ p + len <= ar_base a + ar_size a /\ (p - ar_base a) mod 64 = 0) /\
  (forall p len q len', (p, len) ∈ live -> (q, len') ∈ live -> (p, len) <> (q, len') ->
     p + len <= q \/ q + len' <= p).
Proof.
  intros H Hm Ht Hfit Hn Ha Hr Hsz.
  destruct (init_ok_spec _ _ _ _ _ _ _ H Hm ltac:(lia) Hfit Hn) as (Hn1 & Hard & Hasz & Hle & Hmod & Hlen & Hl).
  set (asz := (total - n * 64) / n - _) in *.
  assert (i < Z.to_nat n)%nat as Hi by (rewrite <- Hlen; by eapply lookup_lt_Some).
  rewrite Hl in Ha by done. simplify_eq. unfold sizeof_arena in *.
  assert (arena_ok (Arena (mem + Z.of_nat i * asz) asz 0 0 0 0)) as Hok.
  { unfold arena_ok; simpl. nia. }
  destruct (areach_inv _ Hok h sizes live st eq_refl eq_refl Hr Hsz) as [_ _ Ho _ (slots & free & Hsp & _ & Hperm)].
  simpl in *.
  assert (forall x, x ∈ live -> x ∈ slots) as Hin by (intros x Hx; rewrite Hperm; apply elem_of_app; auto).
  split_and!.
  - pose proof (spaced_nodup _ _ _ Hsp) as Hnd. rewrite Hperm, fmap_app in Hnd.
    by apply NoDup_app in Hnd as (? & _ & _).
  - intros p len Hp. apply Hin, (spaced_in _ _ _ _ _ Hsp) in Hp as (? & ? & ? & ?). split_and!; try done; lia.
  - intros p len q len' Hp Hq Hne. eapply spaced_disjoint; [exact Hsp|by apply Hin|by apply Hin|done].
Qed.

(** ** Witnesses *)

Definition pool_1m : option (bt_mempool * list bt_mempool_arena) :=
  snd (bt_mempool_init (Some zero_pool) 2097152 1048576 4 false).
Definition pool_1m_arenas : list bt_mempool_arena := default [] (snd <$> pool_1m).
Definition pool_1m_pool : bt_mempool := default zero_pool (fst <$> pool_1m).

Lemma mempool_partition_witness :
  zlen pool_1m_arenas = 4 /\ mp_arenas pool_1m_pool + 256 = 2097152 + 1048576.
Proof.
  destruct (mempool_partition zero_pool pool_1m_pool 2097152 1048576 4 false pool_1m_arenas)
    as (Hlen & Hend & _); [reflexivity|done|done|done|done|]. split; [exact Hlen|exact Hend].
Defined.


(** A raw block, a node that is freed, and the node that reuses it. *)
Lemma arena0_reach :
  exists st, areach (arena0, ∅) [40] [(2097216, 128); (2097152, 64)] st.
Proof.
  pose proof (areach_alloc (arena0, ∅) [] [] (arena0, ∅) 40 2097152 _ (areach_start _)
    ltac:(unfold is_u64; lia) eq_refl ltac:(done)) as H1.
  pose proof (areach_order _ _ _ _ 2097216 _ H1 eq_refl ltac:(done)) as H2.
  pose proof (areach_free _ _ [] 2097216 _ _ H2) as H3. simpl in H3.
  pose proof (areach_order _ _ _ _ 2097216 _ H3 eq_refl ltac:(done)) as H4.
  eexists. exact H4.
Defined.

Lemma arena_blocks_disjoint_witness :
  NoDup [2097216; 2097152] /\ (2097216 + 128 <= 2097152 \/ 2097152 + 64 <= 2097216).
Proof.
  destruct arena0_reach as [st Hr].
  destruct (arena_blocks_disjoint zero_pool pool_1m_pool 2097152 1048576 4 false pool_1m_arenas 0
    arena0 ∅ [40] [(2097216, 128); (2097152, 64)] st eq_refl) as (Hnd & _ & Hdis);
    [done|done|done|done|reflexivity|exact Hr|by repeat constructor|].
  split; [exact Hnd|].
  apply Hdis; [by left|by right; left|done].
Defined.
