(* ===== verification/Hugepage.v ===== *)
(** * The huge-page arena

    Models [src/src/utils/hugepage.c] and the accessors of
    [src/src/include/bt_hugepage.h]: a region mapped with huge pages where the
    system grants them, handed out in 2 MB steps. The answers of [mmap] are
    parameters. *)

From S2P Require Import Prelude.

Definition TWO_MB : Z := 2 * 1024 * 1024.

(** The value [(void * )-1] that a failed [mmap] returns. *)
Definition MAP_FAILED : Z := 2 ^ 64 - 1.

Record bt_hugepage := Hugepage {
  hp_base : Z;
  hp_total_size : Z;
  hp_offset : Z;
  hp_use_1gb : Z;
}.

(** The answers to the three mappings: 1 GB pages, 2 MB pages, plain pages. *)
Record mmap_env := MmapEnv { mm_1gb : Z; mm_2mb : Z; mm_plain : Z }.

(** [bt_hugepage_init]; [None] for a NULL argument. The state is returned on
    failure too, since the caller keeps it. *)
Definition bt_hugepage_init (hp : option bt_hugepage) (mm : mmap_env) (total_size use_1gb : Z)
  : Z * option bt_hugepage :=
  match hp with
  | None => (-1, None)
  | Some _ =>
      let aligned := align_up TWO_MB total_size in
      let mapped base := (0, Some (Hugepage base aligned 0 use_1gb)) in
      if negb (use_1gb =? 0) && negb (mm_1gb mm =? MAP_FAILED) then mapped (mm_1gb mm)
      else if negb (mm_2mb mm =? MAP_FAILED) then mapped (mm_2mb mm)
      else if mm_plain mm =? MAP_FAILED then
        (-1, Some (Hugepage MAP_FAILED aligned 0 use_1gb))
      else mapped (mm_plain mm)
  end.

Definition bt_hugepage_alloc (hp : option bt_hugepage) (size : Z) : Z * option bt_hugepage :=
  match hp with
  | None => (0, None)
  | Some hp =>
      if hp_base hp =? 0 then (0, Some hp)
      else
        let aligned := align_up TWO_MB size in
        if hp_total_size hp <? u64 (hp_offset hp + aligned) then (0, Some hp)
        else
          (u64 (hp_base hp + hp_offset hp),
           Some (Hugepage (hp_base hp) (hp_total_size hp) (u64 (hp_offset hp + aligned))
                   (hp_use_1gb hp)))
  end.

Definition bt_hugepage_reset (hp : option bt_hugepage) : option bt_hugepage :=
  match hp with
  | Some hp => Some (Hugepage (hp_base hp) (hp_total_size hp) 0 (hp_use_1gb hp))
  | None => None
  end.

(** The range unmapped, if any, and the state left. *)
Definition bt_hugepage_destroy (hp : option bt_hugepage) : option (Z * Z) * option bt_hugepage :=
  match hp with
  | Some hp =>
      if hp_base hp =? 0 then (None, Some hp)
      else (Some (hp_base hp, hp_total_size hp), Some (Hugepage 0 0 0 0))
  | None => (None, None)
  end.

Definition bt_hugepage_used (hp : bt_hugepage) : Z := hp_offset hp.
Definition bt_hugepage_total (hp : bt_hugepage) : Z := hp_total_size hp.
Definition bt_hugepage_avail (hp : bt_hugepage) : Z := u64 (hp_total_size hp - hp_offset hp).

(** ** Sequences of allocations *)

(** The blocks handed out, newest first, with the sizes asked for; a reset
    gives all of them back. *)
Inductive hp_reach (hp0 : bt_hugepage) : list (Z * Z) -> bt_hugepage -> Prop :=
  | hp_start : hp_reach hp0 [] hp0
  | hp_alloc live hp size p hp' :
      hp_reach hp0 live hp -> 0 < size < 2 ^ 63 ->
      bt_hugepage_alloc (Some hp) size = (p, Some hp') -> p <> 0 ->
      hp_reach hp0 ((p, size) :: live) hp'
  | hp_reset live hp hp' :
      hp_reach hp0 live hp -> bt_hugepage_reset (Some hp) = Some hp' -> hp_reach hp0 [] hp'.

(** The blocks are stacked below the offset. *)
Fixpoint stacked (base off : Z) (live : list (Z * Z)) : Prop :=
  match live with
  | [] => 0 <= off
  | (p, n) :: live =>
      base <= p /\ p + n <= base + off /\ (p - base) mod TWO_MB = 0 /\ 0 < n /\
      stacked base (p - base) live
  end.

Section hugepage_laws.
Context (hp0 : bt_hugepage).
Hypothesis Hbase : 0 < hp_base hp0.
Hypothesis Htotal : 0 <= hp_total_size hp0 < 2 ^ 62.
Hypothesis Hfit : hp_base hp0 + hp_total_size hp0 < 2 ^ 64.
Hypothesis Hoff : hp_offset hp0 = 0.

Record hp_inv (live : list (Z * Z)) (hp : bt_hugepage) : Prop := {
  i_base : hp_base hp = hp_base hp0;
  i_total : hp_total_size hp = hp_total_size hp0;
  i_off : 0 <= hp_offset hp <= hp_total_size hp0;
  i_mod : hp_offset hp mod TWO_MB = 0;
  i_stack : stacked (hp_base hp0) (hp_offset hp) live;
}.

Lemma hp_reach_inv live hp : hp_reach hp0 live hp -> hp_inv live hp.
Proof using Hbase Htotal Hfit Hoff.
  induction 1 as [|live hp size p hp' _ [Hb Ht Ho Hm Hs] Hsz Ha Hp|live hp hp' _ [Hb Ht Ho Hm Hs] Hr].
  - split; rewrite ?Hoff; try done; lia.
  - unfold bt_hugepage_alloc in Ha. rewrite (proj2 (Z.eqb_neq _ 0)) in Ha by lia.
    destruct (align_up_spec 21 size) as (q & Hq & Hr); [lia|lia|lia|].
    change (2 ^ 21) with TWO_MB in *. rewrite Hq in Ha. unfold TWO_MB in *.
    rewrite (u64_small (hp_offset hp + _)) in Ha by (unfold is_u64; lia).
    destruct (Z.ltb_spec (hp_total_size hp) (hp_offset hp + q * (2 * 1024 * 1024))) as [|Hroom];
      [simplify_eq|].
    rewrite u64_small in Ha by (unfold is_u64; lia). simplify_eq. split; simpl; try done; try lia.
    + unfold TWO_MB. by rewrite Z.mod_add.
    + rewrite Hb. replace (hp_base hp0 + hp_offset hp - hp_base hp0) with (hp_offset hp) by lia.
      unfold TWO_MB. split_and!; try done; lia.
  - simpl in Hr. simplify_eq. split; simpl; try done; lia.
Qed.

Lemma stacked_in off live p n :
  stacked (hp_base hp0) off live -> (p, n) ∈ live ->
  hp_base hp0 <= p /\ p + n <= hp_base hp0 + off /\ (p - hp_base hp0) mod TWO_MB = 0 /\ 0 < n.
Proof using.
  revert off. induction live as [|[q m] live IH]; intros off Hs Hin; [by apply elem_of_nil in Hin|].
  destruct Hs as (Hq & Hqm & Hmod & Hm & Hs). apply elem_of_cons in Hin as [E|Hin]; [by simplify_eq|].
  destruct (IH _ Hs Hin) as (? & ? & ? & ?). split_and!; try done; lia.
Qed.

Lemma stacked_disjoint off live i j p n q m :
  stacked (hp_base hp0) off live -> live !! i = Some (p, n) -> live !! j = Some (q, m) -> (i < j)%nat ->
  q + m <= p.
Proof using.
  revert off i j. induction live as [|[r k] live IH]; intros off i j Hs Hi Hj Hij; [done|].
  destruct Hs as (Hr & Hrk & Hmod & Hk & Hs). destruct i as [|i], j as [|j]; try lia; simpl in *.
  - simplify_eq. apply list_elem_of_lookup_2 in Hj. apply (stacked_in _ _ _ _ Hs) in Hj. lia.
  - apply (IH _ i j Hs Hi Hj). lia.
Qed.

End hugepage_laws.

(** ** Properties *)

(** The blocks of a huge-page arena are disjoint and inside it: after a
    successful initialisation over a mapping that fits the address space, for
    any sequence of allocations of less than 2^63 bytes and resets, the blocks
    handed out since the last reset lie inside the mapping at multiples of
    2 MB from its start, and a block ends before every later one starts. *)
Theorem hugepage_blocks_disjoint (hp00 hp0 hp : bt_hugepage) (mm : mmap_env) (total use_1gb : Z)
    (live : list (Z * Z)) :
  bt_hugepage_init (Some hp00) mm total use_1gb = (0, Some hp0) ->
  0 < hp_base hp0 -> 0 <= total < 2 ^ 61 -> hp_base hp0 + total + TWO_MB < 2 ^ 64 ->
  hp_reach hp0 live hp ->
  (forall p n, (p, n) ∈ live ->
     hp_base hp0 <= p /\ p + n <= hp_base hp0 + hp_total_size hp0 /\ (p - hp_base hp0) mod TWO_MB = 0) /\
  (forall i j p n q m, live !! i = Some (p, n) -> live !! j = Some (q, m) -> (i < j)%nat -> q + m <= p).
Proof.
  intros Hinit Hb Ht Hfit Hr. destruct (align_up_spec 21 total) as (k & Hk & Hkr); [lia|lia|lia|].
  change (2 ^ 21) with TWO_MB in *.
  assert (hp_total_size hp0 = k * TWO_MB /\ hp_offset hp0 = 0) as [Htot Hoff].
  { unfold bt_hugepage_init in Hinit. rewrite Hk in Hinit.
    repeat case_match; simplify_eq; done. }
  assert (hp_inv hp0 live hp) as [_ _ Ho _ Hs].
  { apply hp_reach_inv; try done; rewrite ?Htot; unfold TWO_MB in *; lia. }
  split.
  - intros p n Hin. destruct (stacked_in hp0 _ _ _ _ Hs Hin) as (? & ? & ? & ?). split_and!; try done; lia.
  - intros i j p n q m. by apply (stacked_disjoint hp0 (hp_offset hp)).
Qed.

(** The rounding of a size close to 2^64 wraps to zero: the request is granted
    with the next block's address and nothing is reserved for it. *)
Theorem hugepage_alloc_wraps (hp : bt_hugepage) :
  hp_base hp <> 0 -> is_u64 (hp_base hp + hp_offset hp) -> 0 <= hp_offset hp <= hp_total_size hp ->
  is_u64 (hp_offset hp) ->
  bt_hugepage_alloc (Some hp) (2 ^ 64 - 1) = (hp_base hp + hp_offset hp, Some hp).
Proof.
  intros Hb Hfit Hoff Ho. unfold bt_hugepage_alloc. rewrite (proj2 (Z.eqb_neq _ 0)) by done.
  change (align_up TWO_MB (2 ^ 64 - 1)) with 0. rewrite Z.add_0_r, !u64_small by done.
  rewrite (proj2 (Z.ltb_ge _ _)) by lia. by destruct hp.
Qed.

(** After a failed initialisation the base is [MAP_FAILED], which is not
    NULL: an allocation still returns an address. *)
Theorem hugepage_alloc_after_failed_init (hp00 : bt_hugepage) :
  let '(rc, hp) := bt_hugepage_init (Some hp00) (MmapEnv MAP_FAILED MAP_FAILED MAP_FAILED) TWO_MB 0 in
  rc = -1 /\ fst (bt_hugepage_alloc hp 100) = MAP_FAILED /\ MAP_FAILED <> 0.
Proof. split_and!; [reflexivity..|done]. Qed.

(** With plain pages the blocks are only as aligned as the mapping. *)
Theorem hugepage_plain_not_aligned (hp00 : bt_hugepage) :
  let '(rc, hp) := bt_hugepage_init (Some hp00) (MmapEnv MAP_FAILED MAP_FAILED 4096) TWO_MB 0 in
  rc = 0 /\ fst (bt_hugepage_alloc hp 100) mod TWO_MB = 4096.
Proof. split; reflexivity. Qed.

(** ** Witnesses *)

Definition hp_two : bt_hugepage := Hugepage 4194304 4194304 0 0.

Lemma hugepage_blocks_disjoint_witness :
  4194304 + 5 <= 6291456 /\ 6291456 + 7 <= 4194304 + 4194304.
Proof.
  assert (hp_reach hp_two [(6291456, 7); (4194304, 5)] (Hugepage 4194304 4194304 4194304 0)) as Hr.
  { apply (hp_alloc _ _ (Hugepage 4194304 4194304 2097152 0) 7); [|lia|reflexivity|done].
    apply (hp_alloc _ _ hp_two 5); [|lia|reflexivity|done]. apply hp_start. }
  destruct (hugepage_blocks_disjoint hp_two hp_two (Hugepage 4194304 4194304 4194304 0)
    (MmapEnv MAP_FAILED 4194304 MAP_FAILED) 4194304 0 [(6291456, 7); (4194304, 5)] eq_refl)
    as [Hin Hdis]; [done|lia|done|exact Hr|].
  split.
  - apply (Hdis 0%nat 1%nat 6291456 7); [reflexivity..|lia].
  - apply (Hin 6291456 7). by left.
Defined.
