(* ===== verification/Tier.v ===== *)
(** * Tiered memory

    Models [src/src/utils/memory_tier.c]: HOT requests are served from eight
    slabs in turn, WARM requests from a bump pool, COLD requests by the C
    library; an exhausted tier falls through to the next. The memory that
    [bt_numa_alloc_local] and [calloc] return is a parameter. *)

From S2P Require Import Prelude FreeList Slab.

Inductive bt_tier_t := BT_TIER_HOT | BT_TIER_WARM | BT_TIER_COLD.

#[global] Instance bt_tier_eq : EqDecision bt_tier_t.
Proof. solve_decision. Defined.

Record bt_tier_stats_t := TierStats {
  hot_allocs : Z;
  hot_bytes : Z;
  warm_allocs : Z;
  warm_bytes : Z;
  cold_allocs : Z;
  cold_bytes : Z;
}.

(** The static variables of the file and the memory of the slabs. *)
Record tier_state := Tier {
  g_hot_slabs : list bt_slab;
  g_num_hot : Z;
  g_hot_next : Z;
  g_warm_pool : Z;
  g_warm_size : Z;
  g_warm_offset : Z;
  g_tier_stats : bt_tier_stats_t;
  t_heap : heap;
}.

Definition zero_slab : bt_slab := Slab 0 0 0 0 0 0 0.
Definition zero_stats : bt_tier_stats_t := TierStats 0 0 0 0 0 0.
Definition tier_start : tier_state := Tier [] 0 0 0 0 0 zero_stats ∅.

#[global] Instance bt_slab_inhabited : Inhabited bt_slab := populate zero_slab.

Definition set_hot (slabs : list bt_slab) (next : Z) (h : heap) (t : tier_state) : tier_state :=
  Tier slabs (g_num_hot t) next (g_warm_pool t) (g_warm_size t) (g_warm_offset t) (g_tier_stats t) h.
Definition set_warm (off : Z) (t : tier_state) : tier_state :=
  Tier (g_hot_slabs t) (g_num_hot t) (g_hot_next t) (g_warm_pool t) (g_warm_size t) off
    (g_tier_stats t) (t_heap t).
Definition set_stats (s : bt_tier_stats_t) (t : tier_state) : tier_state :=
  Tier (g_hot_slabs t) (g_num_hot t) (g_hot_next t) (g_warm_pool t) (g_warm_size t)
    (g_warm_offset t) s (t_heap t).

(** The two counters of a tier after an allocation of [size] bytes. *)
Definition count_hot (size : Z) (t : tier_state) : tier_state :=
  let s := g_tier_stats t in
  set_stats (TierStats (u64 (hot_allocs s + 1)) (u64 (hot_bytes s + size)) (warm_allocs s)
    (warm_bytes s) (cold_allocs s) (cold_bytes s)) t.
Definition count_warm (size : Z) (t : tier_state) : tier_state :=
  let s := g_tier_stats t in
  set_stats (TierStats (hot_allocs s) (hot_bytes s) (u64 (warm_allocs s + 1))
    (u64 (warm_bytes s + size)) (cold_allocs s) (cold_bytes s)) t.
Definition count_cold (size : Z) (t : tier_state) : tier_state :=
  let s := g_tier_stats t in
  set_stats (TierStats (hot_allocs s) (hot_bytes s) (warm_allocs s) (warm_bytes s)
    (u64 (cold_allocs s + 1)) (u64 (cold_bytes s + size))) t.

(** ** Allocation: one definition per case label, each falling through *)

Definition alloc_cold (size calloc : Z) (t : tier_state) : Z * tier_state :=
  (calloc, count_cold size t).

Definition alloc_warm (size calloc : Z) (t : tier_state) : Z * tier_state :=
  if negb (g_warm_pool t =? 0) then
    let aligned := align_up 64 size in
    let my_offset := g_warm_offset t in
    let t := set_warm (u64 (my_offset + aligned)) t in
    if u64 (my_offset + aligned) <=? g_warm_size t
    then (u64 (g_warm_pool t + my_offset), count_warm size t)
    else alloc_cold size calloc t
  else alloc_cold size calloc t.

(** [None]: the slab index is outside the array. *)
Definition alloc_hot (size calloc : Z) (t : tier_state) : option (Z * tier_state) :=
  if 0 <? g_num_hot t then
    let idx := Z.rem (g_hot_next t) (g_num_hot t) in
    let next := i32 (g_hot_next t + 1) in
    if (0 <=? idx) && (idx <? zlen (g_hot_slabs t)) then
      let '(ptr, (s, h)) := bt_slab_alloc ((g_hot_slabs t).[idx], t_heap t) in
      let t := set_hot (arr_set (g_hot_slabs t) idx s) next h t in
      if negb (ptr =? 0) then Some (ptr, count_hot size t)
      else Some (alloc_warm size calloc t)
    else None
  else Some (alloc_warm size calloc t).

Definition bt_tier_alloc (tier : bt_tier_t) (size calloc : Z) (t : tier_state)
  : option (Z * tier_state) :=
  match tier with
  | BT_TIER_HOT => alloc_hot size calloc t
  | BT_TIER_WARM => Some (alloc_warm size calloc t)
  | BT_TIER_COLD => Some (alloc_cold size calloc t)
  end.

(** ** Ownership of an address *)

Definition owns (s : bt_slab) (p : Z) : bool :=
  (sl_base s <=? p) && (p <? u64 (sl_base s + u64 (sl_num_blocks s * sl_aligned_size s))).

(** The index of the first slab from [i] on that owns [p]. *)
Fixpoint find_owner (slabs : list bt_slab) (i p : Z) : option Z :=
  match slabs with
  | [] => None
  | s :: slabs => if owns s p then Some i else find_owner slabs (i + 1) p
  end.

(** The new state and the address passed to [free], if any. *)
Definition bt_tier_free (tier : bt_tier_t) (ptr : Z) (t : tier_state) : tier_state * option Z :=
  if ptr =? 0 then (t, None)
  else
    match tier with
    | BT_TIER_HOT =>
        match find_owner (take (Z.to_nat (g_num_hot t)) (g_hot_slabs t)) 0 ptr with
        | Some i =>
            let '(s, h) := bt_slab_free ptr ((g_hot_slabs t).[i], t_heap t) in
            (set_hot (arr_set (g_hot_slabs t) i s) (g_hot_next t) h t, None)
        | None => (t, None)
        end
    | BT_TIER_WARM => (t, None)
    | BT_TIER_COLD => (t, Some ptr)
    end.

Definition is_Some_b {A} (o : option A) : bool := match o with Some _ => true | None => false end.

Definition in_warm (t : tier_state) (p : Z) : bool :=
  negb (g_warm_pool t =? 0) && (g_warm_pool t <=? p) && (p <? u64 (g_warm_pool t + g_warm_size t)).

Definition bt_tier_classify (ptr : Z) (t : tier_state) : bt_tier_t :=
  if ptr =? 0 then BT_TIER_COLD
  else if is_Some_b (find_owner (take (Z.to_nat (g_num_hot t)) (g_hot_slabs t)) 0 ptr) then BT_TIER_HOT
  else if in_warm t ptr then BT_TIER_WARM
  else BT_TIER_COLD.

(** ** Initialisation *)

(** The loop over the slabs; [mems] are the results of the NUMA allocator. *)
Fixpoint init_slabs (n : nat) (i : Z) (mems : list Z) (per_slab : Z) (slabs : list bt_slab) (h : heap)
  : bool * list bt_slab * heap :=
  match n with
  | O => (true, slabs, h)
  | S n =>
      let mem := mems.[i] in
      if mem =? 0 then (false, slabs, h)
      else
        match bt_slab_init (Some (slabs.[i])) mem per_slab 64 h with
        | (rc, Some (s, h')) =>
            let slabs := arr_set slabs i s in
            if rc <? 0 then (false, slabs, h') else init_slabs n (i + 1) mems per_slab slabs h'
        | (_, None) => (false, slabs, h)
        end
  end.

(** [calloc_ok]: whether the array of slabs could be allocated. *)
Definition bt_tier_init (calloc_ok : bool) (mems : list Z) (warm_mem hot_pool_mb warm_pool_mb : Z)
    (t : tier_state) : Z * tier_state :=
  let hot_per_slab := u64 (u64 (hot_pool_mb * 1024) * 1024) / 8 in
  if negb calloc_ok then
    (-1, Tier [] 8 (g_hot_next t) (g_warm_pool t) (g_warm_size t) (g_warm_offset t) zero_stats (t_heap t))
  else
    let '(ok, slabs, h) := init_slabs 8 0 mems hot_per_slab (replicate 8 zero_slab) (t_heap t) in
    if negb ok then
      (-1, Tier slabs 8 (g_hot_next t) (g_warm_pool t) (g_warm_size t) (g_warm_offset t) zero_stats h)
    else
      let warm_size := u64 (u64 (warm_pool_mb * 1024) * 1024) in
      if warm_mem =? 0 then
        (-1, Tier slabs 8 (g_hot_next t) 0 warm_size (g_warm_offset t) zero_stats h)
      else (0, Tier slabs 8 (g_hot_next t) warm_mem warm_size 0 zero_stats h).

Definition bt_tier_stats (t : tier_state) : bt_tier_stats_t := g_tier_stats t.

(** ** Well-formed tiers *)

Definition slab_end (s : bt_slab) : Z := sl_base s + sl_num_blocks s * sl_aligned_size s.

(** The slabs with their free lists [ls] share one memory; their regions and
    the warm pool are apart; the turn counter is not about to overflow. *)
Record tier_wf (t : tier_state) (ls : list (list Z)) : Prop := {
  tw_num : g_num_hot t = zlen (g_hot_slabs t) /\ 0 < g_num_hot t;
  tw_next : 0 <= g_hot_next t < 2 ^ 31;
  tw_slabs : Forall2 (fun s l => slab_wf (s, t_heap t) l) (g_hot_slabs t) ls;
  tw_apart : forall i j s s', g_hot_slabs t !! i = Some s -> g_hot_slabs t !! j = Some s' -> (i < j)%nat ->
    slab_end s <= sl_base s' \/ slab_end s' <= sl_base s;
  tw_warm : g_warm_pool t = 0 \/
    (0 < g_warm_pool t /\ 0 <= g_warm_size t < 2 ^ 61 /\ 0 <= g_warm_offset t < 2 ^ 61 /\
     g_warm_pool t + g_warm_size t < 2 ^ 64 /\
     forall s, s ∈ g_hot_slabs t ->
       slab_end s <= g_warm_pool t \/ g_warm_pool t + g_warm_size t <= sl_base s);
}.

(** An address no slab and no warm pool contains. *)
Definition outside (p : Z) (t : tier_state) : Prop :=
  p <> 0 /\ (forall s, s ∈ g_hot_slabs t -> owns s p = false) /\ in_warm t p = false.

Section tier_laws.
Implicit Types (t : tier_state) (ls : list (list Z)) (s : bt_slab).

Lemma owns_spec s p : geometry s -> owns s p = true <-> sl_base s <= p < slab_end s.
Proof.
  intros [Hb Hsz Hn Hf]. unfold owns, slab_end, sizeof_ptr in *.
  rewrite (u64_small (sl_num_blocks s * _)) by (unfold is_u64; nia).
  rewrite u64_small by (unfold is_u64; nia).
  rewrite andb_true_iff, Z.leb_le, Z.ltb_lt. done.
Qed.

Lemma find_owner_in slabs i p s : s ∈ slabs -> owns s p = true -> is_Some_b (find_owner slabs i p) = true.
Proof.
  intros Hin Ho. revert i. induction Hin as [|s s' slabs Hin IH]; intros i; simpl; [by rewrite Ho|].
  case_match; [done|]. by apply IH.
Qed.

Lemma find_owner_out slabs i p :
  (forall s, s ∈ slabs -> owns s p = false) -> find_owner slabs i p = None.
Proof.
  revert i. induction slabs as [|s slabs IH]; intros i Ho; simpl; [done|].
  rewrite Ho by by left. apply IH. intros s' Hs'. apply Ho. by right.
Qed.

Lemma all_slabs t ls : tier_wf t ls -> take (Z.to_nat (g_num_hot t)) (g_hot_slabs t) = g_hot_slabs t.
Proof. intros [[-> _] _ _ _ _]. apply take_ge. unfold zlen. lia. Qed.

Lemma slab_geo t ls s : tier_wf t ls -> s ∈ g_hot_slabs t -> geometry s.
Proof.
  intros Hwf Hin. apply list_elem_of_lookup in Hin as [i Hi].
  destruct (Forall2_lookup_l _ _ _ _ _ (tw_slabs _ _ Hwf) Hi) as (l & _ & Hs). apply Hs.
Qed.

Lemma classify_hot t ls s p :
  tier_wf t ls -> s ∈ g_hot_slabs t -> p <> 0 -> sl_base s <= p < slab_end s ->
  bt_tier_classify p t = BT_TIER_HOT.
Proof.
  intros Hwf Hin Hp Hr. unfold bt_tier_classify. rewrite (proj2 (Z.eqb_neq p 0)) by done.
  rewrite (all_slabs _ _ Hwf), (find_owner_in _ _ _ s); [done|done|].
  apply owns_spec; [by eapply slab_geo|done].
Qed.

Lemma classify_warm t ls p :
  tier_wf t ls -> g_warm_pool t <> 0 -> g_warm_pool t <= p < g_warm_pool t + g_warm_size t ->
  bt_tier_classify p t = BT_TIER_WARM.
Proof.
  intros Hwf Hnz Hp. destruct (tw_warm _ _ Hwf) as [|(Hw & Hsz & Hoff & Hfit & Hap)]; [done|].
  unfold bt_tier_classify. rewrite (proj2 (Z.eqb_neq p 0)) by lia.
  rewrite (all_slabs _ _ Hwf), find_owner_out.
  - unfold in_warm. rewrite u64_small by (unfold is_u64; lia).
    rewrite (proj2 (Z.eqb_neq _ 0)), (proj2 (Z.leb_le _ _)), (proj2 (Z.ltb_lt _ _)) by lia. done.
  - intros s Hs. apply not_true_iff_false. rewrite owns_spec by (by eapply slab_geo).
    destruct (Hap s Hs); lia.
Qed.

Lemma classify_cold t ls p : tier_wf t ls -> outside p t -> bt_tier_classify p t = BT_TIER_COLD.
Proof.
  intros Hwf (Hp & Hs & Hw). unfold bt_tier_classify. rewrite (proj2 (Z.eqb_neq p 0)) by done.
  by rewrite (all_slabs _ _ Hwf), find_owner_out, Hw.
Qed.

(** The parts of a state that classification and the invariant look at. *)
Lemma wf_stats t ls st : tier_wf t ls -> tier_wf (set_stats st t) ls.
Proof. intros []. by split. Qed.

Lemma wf_warm t ls off :
  tier_wf t ls -> g_warm_pool t = 0 \/ 0 <= off < 2 ^ 61 -> tier_wf (set_warm off t) ls.
Proof. intros [? ? ? ? Hw] Ho. split; simpl; try done. destruct Hw as [|(? & ? & ? & ? & ?)]; [by left|].
  destruct Ho; [by left|right; done].
Qed.

(** Replacing slab [i] by one with the same region and its new free list. *)
Lemma wf_replace t ls i s s' l next :
  tier_wf t ls -> g_hot_slabs t !! i = Some s -> slab_wf (s', t_heap t) l ->
  sl_base s' = sl_base s -> slab_end s' = slab_end s -> 0 <= next < 2 ^ 31 ->
  tier_wf (set_hot (<[i := s']> (g_hot_slabs t)) next (t_heap t) t) (<[i := l]> ls).
Proof.
  intros [[Hn Hn0] Hnx Hs Hap Hw] Hi Hs' Hb He Hnext.
  assert (forall j r, <[i := s']> (g_hot_slabs t) !! j = Some r -> exists r0,
    g_hot_slabs t !! j = Some r0 /\ sl_base r = sl_base r0 /\ slab_end r = slab_end r0) as Hget.
  { intros j r Hj. destruct (decide (i = j)) as [<-|Hne].
    - rewrite list_lookup_insert_eq in Hj by (by eapply lookup_lt_Some). simplify_eq. by exists s.
    - rewrite list_lookup_insert_ne in Hj by done. by exists r. }
  split; simpl; try done.
  - unfold zlen. by rewrite length_insert.
  - by apply Forall2_insert.
  - intros j k r r' Hj Hk Hjk. destruct (Hget j r Hj) as (r0 & Hj0 & -> & ->).
    destruct (Hget k r' Hk) as (r0' & Hk0 & -> & ->). by eapply Hap.
  - destruct Hw as [|(? & ? & ? & ? & Hd)]; [by left|right]. split_and!; try done; try lia.
    intros r Hr. apply list_elem_of_lookup in Hr as [j Hj].
    destruct (Hget j r Hj) as (r0 & Hj0 & -> & ->). by eapply Hd, list_elem_of_lookup_2.
Qed.

(** What an allocation is: where the block lies, and what it takes away. *)
Definition placed (tier : bt_tier_t) (size calloc : Z) t ls (p : Z) t' ls' : Prop :=
  match bt_tier_classify p t' with
  | BT_TIER_HOT =>
      tier = BT_TIER_HOT /\ t' = count_hot size (set_stats (g_tier_stats t) t') /\
      exists i l, ls !! i = Some (p :: l) /\ ls' = <[i := l]> ls
  | BT_TIER_WARM =>
      tier <> BT_TIER_COLD /\ t' = count_warm size (set_stats (g_tier_stats t) t') /\ ls' = ls /\
      p = g_warm_pool t + g_warm_offset t /\ p + size <= g_warm_pool t + g_warm_size t /\
      g_warm_offset t + size <= g_warm_offset t'
  | BT_TIER_COLD => p = calloc /\ t' = count_cold size (set_stats (g_tier_stats t) t') /\ ls' = ls
  end.

Lemma outside_frame p t t' :
  g_hot_slabs t' = g_hot_slabs t -> g_warm_pool t' = g_warm_pool t -> g_warm_size t' = g_warm_size t ->
  outside p t -> outside p t'.
Proof. unfold outside, in_warm. by intros -> -> ->. Qed.

Lemma alloc_cold_spec tier size calloc t ls :
  tier_wf t ls -> outside calloc t ->
  exists p t', alloc_cold size calloc t = (p, t') /\ tier_wf t' ls /\ placed tier size calloc t ls p t' ls.
Proof.
  intros Hwf Ho. eexists _, _. split; [reflexivity|]. assert (tier_wf (count_cold size t) ls) by by apply wf_stats.
  split; [done|]. unfold placed. rewrite (classify_cold _ ls); [by split_and!|done|].
  by eapply outside_frame.
Qed.

Lemma alloc_warm_spec tier size calloc t ls :
  tier <> BT_TIER_COLD -> tier_wf t ls -> outside calloc t -> 0 < size ->
  g_warm_offset t + size + 64 < 2 ^ 61 ->
  exists p t', alloc_warm size calloc t = (p, t') /\ tier_wf t' ls /\ placed tier size calloc t ls p t' ls.
Proof.
  intros Ht Hwf Ho Hsz Hroom. unfold alloc_warm.
  destruct (Z.eqb_spec (g_warm_pool t) 0) as [E|E]; cbn [negb]; [by apply alloc_cold_spec|].
  destruct (tw_warm _ _ Hwf) as [|(Hw & Hws & Hoff & Hfit & Hap)]; [done|].
  destruct (align_up_spec 6 size) as (q & Hq & Hr); [lia|lia|lia|].
  change (2 ^ 6) with 64 in *. rewrite Hq. rewrite (u64_small (g_warm_offset t + q * 64)) by (unfold is_u64; lia).
  assert (tier_wf (set_warm (g_warm_offset t + q * 64) t) ls) as Hwf1 by (apply wf_warm; [done|right; lia]).
  set (t1 := set_warm _ t) in *. change (g_warm_size t1) with (g_warm_size t).
  destruct (Z.leb_spec (g_warm_offset t + q * 64) (g_warm_size t)) as [Hfits|_].
  - change (g_warm_pool t1) with (g_warm_pool t). rewrite u64_small by (unfold is_u64; lia).
    eexists _, _. split; [reflexivity|]. assert (tier_wf (count_warm size t1) ls) as Hwf2 by by apply wf_stats.
    split; [done|]. unfold placed. rewrite (classify_warm _ ls); [|done|done|simpl; lia].
    split_and!; try done; simpl; lia.
  - destruct (alloc_cold_spec tier size calloc t1 ls Hwf1) as (p & t' & E' & Hwf' & Hpl);
      [by eapply outside_frame|].
    exists p, t'. split_and!; try done. unfold alloc_cold in E'. simplify_eq. unfold placed in *.
    rewrite (classify_cold _ ls) in *; try done; by eapply outside_frame.
Qed.

Lemma slab_base_alloc s h x st :
  bt_slab_alloc (s, h) = (x, st) ->
  sl_base (fst st) = sl_base s /\ slab_end (fst st) = slab_end s /\ snd st = h.
Proof. unfold bt_slab_alloc. repeat case_match; intros; simplify_eq; done. Qed.

Lemma alloc_hot_spec size calloc t ls :
  tier_wf t ls -> g_hot_next t < 2 ^ 31 - 1 -> outside calloc t -> 0 < size ->
  g_warm_offset t + size + 64 < 2 ^ 61 ->
  exists p t' ls', alloc_hot size calloc t = Some (p, t') /\ tier_wf t' ls' /\
    placed BT_TIER_HOT size calloc t ls p t' ls'.
Proof.
  intros Hwf Hnx Ho Hsz Hroom. pose proof Hwf as [[Hn Hn0] Hnext Hs Hap Hw]. unfold alloc_hot.
  rewrite (proj2 (Z.ltb_lt _ _)) by done. rewrite Z.rem_mod_nonneg by lia.
  pose proof (Z.mod_pos_bound (g_hot_next t) (g_num_hot t) Hn0) as Hidx.
  set (idx := g_hot_next t mod g_num_hot t) in *.
  rewrite (proj2 (Z.leb_le _ _)), (proj2 (Z.ltb_lt idx _)) by lia. cbn [andb].
  assert (i32 (g_hot_next t + 1) = g_hot_next t + 1) as ->.
  { unfold i32. rewrite Z.mod_small by lia. lia. }
  pose proof (arr_lookup (g_hot_slabs t) idx ltac:(lia)) as Hget. remember ((g_hot_slabs t).[idx]) as s eqn:Hseq. clear Hseq.
  destruct (Forall2_lookup_l _ _ _ _ _ Hs Hget) as (l & Hl & Hsl).
  destruct (bt_slab_alloc (s, t_heap t)) as [ptr [s' h']] eqn:Ea.
  destruct (slab_base_alloc _ _ _ _ Ea) as (Hb & He & Hh). simpl in Hb, He, Hh. subst h'.
  assert (forall l', slab_wf (s', t_heap t) l' ->
    tier_wf (set_hot (arr_set (g_hot_slabs t) idx s') (g_hot_next t + 1) (t_heap t) t)
      (<[Z.to_nat idx := l']> ls)) as Hrep by (intros l' Hl'; eapply wf_replace; try done; lia).
  destruct l as [|x l].
  - rewrite (alloc_nil _ Hsl) in Ea. injection Ea as <- <-. simpl. specialize (Hrep [] Hsl).
    rewrite (list_insert_id ls) in Hrep by done.
    assert (arr_set (g_hot_slabs t) idx s = g_hot_slabs t) as Hid by by apply list_insert_id.
    rewrite Hid in *. set (t1 := set_hot _ _ _ t) in *.
    destruct (alloc_warm_spec BT_TIER_HOT size calloc t1 ls) as (p & t' & E & Hwf' & Hpl); try done.
    exists p, t', ls. by rewrite E.
  - destruct (alloc_cons _ x l Hsl) as ([s2 h2] & E & Hwf2 & _). rewrite Ea in E. simplify_eq.
    pose proof (w_sub _ _ Hsl x ltac:(by left)) as Hin. pose proof (w_geo _ _ Hsl) as Hg. simpl in Hin, Hg.
    destruct (in_slab_block s x Hg Hin) as [_ Hx0]. rewrite (proj2 (Z.eqb_neq x 0)) by done. cbn [negb].
    eexists _, _, _. split; [reflexivity|]. specialize (Hrep l Hwf2).
    assert (tier_wf (count_hot size (set_hot (arr_set (g_hot_slabs t) idx s2) (g_hot_next t + 1) (t_heap t) t))
      (<[Z.to_nat idx := l]> ls)) as Hwf3 by by apply wf_stats.
    split; [exact Hwf3|]. unfold placed.
    rewrite (classify_hot _ _ s2 x Hwf3); [|simpl|done|].
    + split_and!; [done|done|]. by exists (Z.to_nat idx), l.
    + eapply list_elem_of_lookup_2. apply list_lookup_insert_eq. by eapply lookup_lt_Some.
    + rewrite Hb, He. apply elem_of_all_blocks in Hin as (k & Hk & ->); [|destruct Hg; lia].
      pose proof (block_bounds s k Hg Hk). unfold slab_end, block_at, sizeof_ptr in *. destruct Hg.
      unfold sizeof_ptr in *. nia.
Qed.

(** Linking the blocks of one slab leaves lists outside its region alone. *)
Lemma link_blocks_frame n i s h s' h' q l :
  geometry s -> 0 <= i -> i + Z.of_nat n <= sl_num_blocks s ->
  (forall x, x ∈ l -> ~ (sl_base s <= x < slab_end s)) ->
  link_blocks n i (s, h) = (s', h') -> chain h q l -> chain h' q l.
Proof.
  revert i s h. induction n as [|n IH]; intros i s h Hg Hi Hn Hout E Hc; cbn [link_blocks] in E; [by simplify_eq|].
  destruct (block_bounds s i Hg ltac:(lia)) as [Hpos Hend].
  eapply (IH (i + 1)); [by apply geometry_set_list|lia|simpl; lia|exact Hout|exact E|].
  apply chain_store; [|done]. intros Hx. apply Hout in Hx. apply Hx. clear IH E Hout Hc Hx.
  destruct Hg. unfold block_at, slab_end, sizeof_ptr in *.
  assert (0 <= i * sl_aligned_size s) by (apply Z.mul_nonneg_nonneg; lia).
  rewrite (u64_small (i * sl_aligned_size s)) by (unfold is_u64; lia).
  rewrite u64_small by (unfold is_u64; lia). lia.
Qed.

(** The regions the NUMA allocator returned: inside the address space, apart. *)
Definition regions_ok (mems : list Z) (per : Z) : Prop :=
  0 < per < 2 ^ 38 /\
  (forall i m, mems !! i = Some m -> 0 < m /\ m + per < 2 ^ 64) /\
  (forall i j m m', mems !! i = Some m -> mems !! j = Some m' -> (i < j)%nat -> m + per <= m' \/ m' + per <= m).

(** The slabs before index [i] are ready. *)
Definition ready (mems : list Z) (per i : Z) (slabs : list bt_slab) (h : heap) : Prop :=
  forall j m, mems !! j = Some m -> Z.of_nat j < i -> exists s, slabs !! j = Some s /\
    slab_wf (s, h) (all_blocks s) /\ sl_base s = m /\ slab_end s <= m + per.

Lemma slab_wf_heap s h h' l : chain h' (sl_free_list s) l -> slab_wf (s, h) l -> slab_wf (s, h') l.
Proof. intros Hc []. by split. Qed.

Lemma elem_all_blocks_range s x : geometry s -> x ∈ all_blocks s -> sl_base s <= x < slab_end s.
Proof.
  intros Hg Hx. apply elem_of_all_blocks in Hx as (k & Hk & ->); [|destruct Hg; lia].
  pose proof (block_bounds s k Hg Hk). destruct Hg. unfold slab_end, block_at, sizeof_ptr in *. nia.
Qed.

Lemma slab_init_rc (slab : option bt_slab) mem per bs h rc r : bt_slab_init slab mem per bs h = (rc, r) -> rc = 0 \/ rc = -1.
Proof. unfold bt_slab_init. intros. repeat case_match; simplify_eq; auto. Qed.

(** One slab. *)
Lemma init_slab_step s0 mem per h s h' :
  0 < mem -> 0 < per < 2 ^ 38 -> mem + per < 2 ^ 64 ->
  bt_slab_init (Some s0) mem per 64 h = (0, Some (s, h')) ->
  slab_wf (s, h') (all_blocks s) /\ sl_base s = mem /\ slab_end s <= mem + per /\
  (forall q l, (forall x, x ∈ l -> ~ (mem <= x < mem + per)) -> chain h q l -> chain h' q l).
Proof.
  intros Hm Hper Hfit E.
  destruct (slab_init_spec s0 mem per 64 h (s, h') Hm ltac:(lia) Hfit ltac:(lia) ltac:(lia) E)
    as (q & Hq & _ & Hb & Ha & Hn & Hwf). simpl in *. change (align_up 64 64) with (1 * 64) in Hq.
  assert (q = 1) as -> by lia. pose proof (Z.mul_div_le per (1 * 64) ltac:(lia)) as Hle.
  assert (slab_end s <= mem + per) as Hend by (unfold slab_end; rewrite Hb, Ha, Hn; lia).
  split_and!; try done. intros p l Hout Hc. pose proof (w_geo _ _ Hwf) as Hg. simpl in Hg.
  unfold bt_slab_init in E. change (align_up BT_CACHE_LINE_SIZE 64) with 64 in E.
  rewrite (proj2 (Z.eqb_neq mem 0)), (proj2 (Z.eqb_neq per 0)) in E by lia.
  cbn [orb Z.eqb Z.ltb Z.compare Pos.compare Pos.compare_cont sizeof_ptr] in E.
  destruct (Z.eqb_spec (per / 64) 0) as [|Hnz]; [done|].
  injection E as E. pose proof (Z.div_pos per 64 ltac:(lia) ltac:(lia)).
  apply (link_blocks_frame _ _ _ _ _ _ p l) in E; try done; simpl; try lia.
  - change (1 * 64) with 64 in *. split; simpl; unfold sizeof_ptr; lia.
  - intros x Hx. unfold slab_end. simpl. specialize (Hout x Hx). change (1 * 64) with 64 in *. lia.
Qed.

Lemma init_slabs_spec mems per n : forall i slabs h slabs' h',
  regions_ok mems per -> 0 <= i -> zlen mems = i + Z.of_nat n -> zlen slabs = zlen mems ->
  ready mems per i slabs h -> init_slabs n i mems per slabs h = (true, slabs', h') ->
  ready mems per (i + Z.of_nat n) slabs' h' /\ zlen slabs' = zlen mems.
Proof.
  induction n as [|n IH]; intros i slabs h slabs' h' Hok Hi Hlen Hsl Hr E; cbn [init_slabs] in E.
  { simplify_eq. by rewrite Z.add_0_r. }
  destruct (mems.[i] =? 0) eqn:E0; [done|].
  destruct (bt_slab_init _ _ _ _ _) as [rc [[s hs]|]] eqn:Ei; [|done].
  destruct (Z.ltb_spec rc 0) as [|Hrc]; [done|].
  assert (rc = 0) as -> by (apply slab_init_rc in Ei; lia).
  pose proof Hok as (Hper & Hreg & Hap). pose proof (arr_lookup mems i ltac:(lia)) as Hm.
  destruct (Hreg _ _ Hm) as [Hm0 Hmf].
  destruct (init_slab_step _ _ _ _ _ _ Hm0 Hper Hmf Ei) as (Hwf & Hb & He & Hfr).
  replace (i + Z.of_nat (S n)) with (i + 1 + Z.of_nat n) by lia.
  eapply IH; [done|lia|lia|by rewrite zlen_arr_set| |exact E].
  intros j m Hj Hji. destruct (decide (j = Z.to_nat i)) as [->|Hne].
  - assert (m = mems.[i]) as -> by congruence. exists s. split_and!; try done.
    apply list_lookup_insert_eq. unfold zlen in *. lia.
  - destruct (Hr j m Hj ltac:(lia)) as (sj & Hsj & Hwj & Hbj & Hej). exists sj. split_and!; try done.
    + unfold arr_set. by rewrite list_lookup_insert_ne.
    + eapply slab_wf_heap; [|exact Hwj]. apply Hfr; [|apply Hwj].
      intros x Hx. apply elem_all_blocks_range in Hx; [|apply Hwj].
      pose proof (Hap j (Z.to_nat i) m _ Hj Hm ltac:(lia)). lia.
Qed.

(** A successful initialisation over regions that are apart. *)
Lemma tier_init_wf calloc_ok mems warm_mem hot_mb warm_mb t0 t :
  let per := u64 (u64 (hot_mb * 1024) * 1024) / 8 in
  bt_tier_init calloc_ok mems warm_mem hot_mb warm_mb t0 = (0, t) ->
  zlen mems = 8 -> regions_ok mems per -> 0 <= g_hot_next t0 < 2 ^ 31 ->
  0 < warm_mem -> g_warm_size t < 2 ^ 61 -> warm_mem + g_warm_size t < 2 ^ 64 ->
  (forall m, m ∈ mems -> m + per <= warm_mem \/ warm_mem + g_warm_size t <= m) ->
  tier_wf t (all_blocks <$> g_hot_slabs t).
Proof.
  intros per E Hlen Hok Hnext Hw Hws Hwf Hwap. unfold bt_tier_init in E. fold per in E.
  destruct calloc_ok; cbn [negb] in E; [|done].
  destruct (init_slabs 8 0 mems per (replicate 8 zero_slab) (t_heap t0)) as [[ok slabs] h] eqn:Ei.
  destruct ok; cbn [negb] in E; [|done].
  rewrite (proj2 (Z.eqb_neq warm_mem 0)) in E by lia.
  destruct (init_slabs_spec mems per 8 0 (replicate 8 zero_slab) (t_heap t0) slabs h Hok
    ltac:(lia) ltac:(lia) ltac:(by rewrite Hlen)
    ltac:(intros j m Hj Hlt; lia) Ei) as [Hr Hl].
  injection E as <-. simpl in *.
  assert (forall j s, slabs !! j = Some s -> exists m, mems !! j = Some m /\
    slab_wf (s, h) (all_blocks s) /\ sl_base s = m /\ slab_end s <= m + per) as Hget.
  { intros j s Hj. pose proof (lookup_lt_Some _ _ _ Hj) as Hlt.
    destruct (lookup_lt_is_Some_2 mems j) as [m Hm]; [unfold zlen in *; lia|].
    destruct (Hr j m Hm ltac:(unfold zlen in *; lia)) as (s' & Hs' & ?). exists m.
    assert (s' = s) as -> by congruence. done. }
  split; simpl; try done; try lia.
  - apply Forall2_fmap_r, Forall_Forall2_diag, Forall_forall. intros s Hs. apply list_elem_of_lookup in Hs as [j Hj].
    by destruct (Hget j s Hj) as (m & _ & ? & _).
  - intros i j s s' Hi Hj Hij. destruct (Hget i s Hi) as (m & Hm & _ & -> & He).
    destruct (Hget j s' Hj) as (m' & Hm' & _ & -> & He'). destruct Hok as (_ & _ & Hap).
    destruct (Hap i j m m' Hm Hm' Hij); lia.
  - right. destruct (u64_range (u64 (warm_mb * 1024) * 1024)). split_and!; try done; try lia.
    intros s Hs. apply list_elem_of_lookup in Hs as [j Hj].
    destruct (Hget j s Hj) as (m & Hm & _ & -> & He). apply list_elem_of_lookup_2 in Hm.
    destruct (Hwap m Hm); lia.
Qed.

End tier_laws.

(** ** Properties *)

(** Every allocation is where its classification says. On well-formed
    tiers, an allocation leaves the tiers well formed and its block is either
    the first free block of a slab, for a HOT request only, or the next part
    of the warm pool with room for the size, for a HOT or WARM request only,
    or what the C library returned; [bt_tier_classify] tells these apart, the
    counters of that tier and no other are increased, and no other free list
    changes. *)
Theorem tier_alloc_placed (tier : bt_tier_t) (size calloc : Z) (t : tier_state) (ls : list (list Z)) :
  tier_wf t ls -> g_hot_next t < 2 ^ 31 - 1 -> outside calloc t -> 0 < size ->
  g_warm_offset t + size + 64 < 2 ^ 61 ->
  exists p t' ls', bt_tier_alloc tier size calloc t = Some (p, t') /\ tier_wf t' ls' /\
    placed tier size calloc t ls p t' ls'.
Proof.
  intros Hwf Hn Ho Hs Hr. destruct tier; simpl.
  - by apply alloc_hot_spec.
  - destruct (alloc_warm_spec BT_TIER_WARM size calloc t ls) as (p & t' & E & ? & ?); try done.
    exists p, t', ls. by rewrite E.
  - destruct (alloc_cold_spec BT_TIER_COLD size calloc t ls) as (p & t' & E & ? & ?); try done.
    exists p, t', ls. by rewrite E.
Qed.

(** The turn counter is a signed [int]: after 2^31 HOT requests it is
    negative and the next one indexes the array before its start. *)
Theorem hot_turn_overflows (size calloc : Z) (t : tier_state) :
  g_num_hot t = 8 -> g_hot_next t = 2 ^ 31 - 1 -> i32 (g_hot_next t + 1) = - 2 ^ 31 /\
  forall t', g_num_hot t' = 8 -> g_hot_next t' = - 2 ^ 31 + 1 -> alloc_hot size calloc t' = None.
Proof.
  intros Hn Hx. split; [by rewrite Hx|]. intros t' Hn' Hx'. unfold alloc_hot. by rewrite Hn', Hx'.
Qed.

(** Eight regions of 1 MB. *)
Definition mems_8 : list Z := (fun k => 1048576 * (k + 1)) <$> seqZ 0 8.

(** A HOT request gets a block of one cache line whatever its size: nine
    requests for 4096 bytes include two whose blocks start 64 bytes apart. *)
Definition tier_1mb : tier_state :=
  snd (bt_tier_init true mems_8 16777216 1 1 tier_start).

Definition hot_ptr (n : nat) : Z :=
  match Nat.iter n (fun t => match alloc_hot 4096 0 t with Some (_, t') => t' | None => t end) tier_1mb with
  | t => match alloc_hot 4096 0 t with Some (p, _) => p | None => 0 end
  end.

Theorem hot_blocks_too_small : hot_ptr 0 = hot_ptr 8 + 64.
Proof. vm_compute. reflexivity. Qed.

(** A HOT request that fell through to the C library is not given back when it
    is freed as HOT: nothing is freed. *)
Theorem fallback_never_freed (t : tier_state) (ls : list (list Z)) (p : Z) :
  tier_wf t ls -> outside p t -> bt_tier_free BT_TIER_HOT p t = (t, None).
Proof.
  intros Hwf (Hp & Hs & _). unfold bt_tier_free. rewrite (proj2 (Z.eqb_neq p 0)) by done.
  by rewrite (all_slabs _ _ Hwf), find_owner_out.
Qed.

(** ** Witnesses *)

Lemma regions_8 : regions_ok mems_8 131072.
Proof.
  assert (forall i m, mems_8 !! i = Some m -> m = 1048576 * (Z.of_nat i + 1) /\ (i < 8)%nat) as Hget.
  { intros i m Hi. unfold mems_8 in Hi. rewrite list_lookup_fmap in Hi.
    destruct (seqZ 0 8 !! i) as [k|] eqn:E; [|done]. apply lookup_seqZ in E. simpl in Hi. simplify_eq. lia. }
  split; [lia|]. split.
  - intros i m Hi. apply Hget in Hi. lia.
  - intros i j m m' Hi Hj Hij. apply Hget in Hi, Hj. lia.
Qed.

Lemma tier_1mb_init : bt_tier_init true mems_8 16777216 1 1 tier_start = (0, tier_1mb).
Proof.
  assert (fst (bt_tier_init true mems_8 16777216 1 1 tier_start) = 0) as Hrc by (vm_compute; reflexivity).
  unfold tier_1mb. rewrite <- Hrc. apply surjective_pairing.
Qed.

Lemma tier_1mb_warm :
  g_warm_size tier_1mb = 1048576 /\ g_hot_next tier_1mb = 0 /\ g_warm_offset tier_1mb = 0.
Proof. vm_compute. split_and!; reflexivity. Qed.

Lemma tier_1mb_outside : outside 99 tier_1mb.
Proof.
  split_and!; [done| |vm_compute; reflexivity].
  assert (forallb (fun s => negb (owns s 99)) (g_hot_slabs tier_1mb) = true) as Hf by (vm_compute; reflexivity).
  revert Hf. generalize (g_hot_slabs tier_1mb) as slabs. intros slabs Hf s Hs.
  rewrite forallb_forall in Hf. apply negb_true_iff, Hf. by apply list_elem_of_In.
Qed.

#[global] Opaque tier_1mb.

Lemma tier_1mb_wf : tier_wf tier_1mb (all_blocks <$> g_hot_slabs tier_1mb).
Proof.
  destruct tier_1mb_warm as (Hw & _ & _).
  apply (tier_init_wf true mems_8 16777216 1 1 tier_start tier_1mb); rewrite ?Hw.
  - exact tier_1mb_init.
  - reflexivity.
  - exact regions_8.
  - simpl. lia.
  - lia.
  - lia.
  - lia.
  - change (u64 (u64 (1 * 1024) * 1024) / 8) with 131072. intros m Hm.
    apply list_elem_of_fmap in Hm as (k & -> & Hk%elem_of_seqZ). lia.
Qed.

Lemma tier_alloc_placed_witness :
  exists p t' ls', bt_tier_alloc BT_TIER_WARM 100 99 tier_1mb = Some (p, t') /\ tier_wf t' ls'.
Proof.
  destruct tier_1mb_warm as (Hw & Hn & Ho).
  destruct (tier_alloc_placed BT_TIER_WARM 100 99 tier_1mb _ tier_1mb_wf) as (p & t' & ls' & E & Hwf & _).
  - rewrite Hn. lia.
  - exact tier_1mb_outside.
  - lia.
  - rewrite Ho. lia.
  - exists p, t', ls'. split; [exact E|exact Hwf].
Defined.
