(* ===== verification/Config.v ===== *)
(** * Run-time configuration

    Models [src/src/include/bt_config.h] and the first half of [main] in
    [src/src/main.c]: the default configuration, the command line, the
    validation, the assignment of threads to CPU cores and the table of
    threads handed to the scheduler. *)

From Stdlib Require Import Ascii String.
From stdpp Require Import strings.
From S2P Require Import Prelude CTypes GwParse.

Definition BT_CFG_MATCHING_THREADS : Z := 4.
Definition BT_CFG_RISK_THREADS : Z := 2.

Record bt_runtime_config := Cfg {
  matching_threads : Z;
  risk_threads : Z;
  io_threads : Z;
  md_threads : Z;
  journal_threads : Z;
  gateway_port : Z;
  max_connections : Z;
  rate_limit_rps : Z;
  mempool_size_mb : Z;
  journal_sync_ms : Z;
  journal_path : list Z;
  cpu_start_core : Z;
  cpu_io_cores : list Z;
  cpu_risk_cores : list Z;
  cpu_match_cores : list Z;
  log_level : Z;
  run_benchmark : Z;
  benchmark_orders : Z;
  benchmark_symbols : Z;
  use_isolated : Z;
  safe_mode : Z;
}.

(** The static object [g_cfg] before [main] runs. *)
Definition zero_config : bt_runtime_config :=
  Cfg 0 0 0 0 0 0 0 0 0 0 (replicate 256 0) 0 (replicate 4 0) (replicate 8 0) (replicate 8 0)
    0 0 0 0 0 0.

(** [snprintf (dst, n, "%s", s)] with room: the string, its terminator and
    what the buffer held beyond it. *)
Definition copy_path (s dst : list Z) : list Z :=
  let s := take 255 s ++ [0] in s ++ drop (List.length s) dst.

Definition bt_config_default (cfg : bt_runtime_config) : bt_runtime_config :=
  Cfg BT_CFG_MATCHING_THREADS BT_CFG_RISK_THREADS 2 1 1 9000 1024 10000 4096 1
    (copy_path (cstr "/tmp/bt_journal.log") (journal_path cfg))
    0
    (arr_set (arr_set (cpu_io_cores cfg) 0 2) 1 3)
    (arr_set (arr_set (cpu_risk_cores cfg) 0 4) 1 5)
    (arr_set (arr_set (arr_set (arr_set (cpu_match_cores cfg) 0 6) 1 7) 2 8) 3 9)
    2 1 100000 10 (use_isolated cfg) (safe_mode cfg).

(** ** The command line *)

(** [atoi]: [strtol] in base 10, saturated at 64 bits, converted to [int]. *)
Definition atoi (s : list Z) : Z :=
  let '(neg, l) := sign_of (skip_space s) in
  let '(v, n, _) := scan_digits 0 l in
  if n =? 0 then 0
  else i32 (if neg then Z.max (- v) (- 2 ^ 63) else Z.min v (2 ^ 63 - 1)).

Definition streq (a : list Z) (s : String.string) : bool := bool_decide (a = cstr s).

Definition set_matching (n : Z) (c : bt_runtime_config) : bt_runtime_config :=
  Cfg n (risk_threads c) (io_threads c) (md_threads c) (journal_threads c) (gateway_port c)
    (max_connections c) (rate_limit_rps c) (mempool_size_mb c) (journal_sync_ms c) (journal_path c)
    (cpu_start_core c) (cpu_io_cores c) (cpu_risk_cores c) (cpu_match_cores c) (log_level c)
    (run_benchmark c) (benchmark_orders c) (benchmark_symbols c) (use_isolated c) (safe_mode c).

Definition set_port (n : Z) (c : bt_runtime_config) : bt_runtime_config :=
  Cfg (matching_threads c) (risk_threads c) (io_threads c) (md_threads c) (journal_threads c) n
    (max_connections c) (rate_limit_rps c) (mempool_size_mb c) (journal_sync_ms c) (journal_path c)
    (cpu_start_core c) (cpu_io_cores c) (cpu_risk_cores c) (cpu_match_cores c) (log_level c)
    (run_benchmark c) (benchmark_orders c) (benchmark_symbols c) (use_isolated c) (safe_mode c).

Definition set_bench (run orders symbols : Z) (c : bt_runtime_config) : bt_runtime_config :=
  Cfg (matching_threads c) (risk_threads c) (io_threads c) (md_threads c) (journal_threads c)
    (gateway_port c) (max_connections c) (rate_limit_rps c) (mempool_size_mb c) (journal_sync_ms c)
    (journal_path c) (cpu_start_core c) (cpu_io_cores c) (cpu_risk_cores c) (cpu_match_cores c)
    (log_level c) run orders symbols (use_isolated c) (safe_mode c).

Definition set_modes (isolated safe : Z) (c : bt_runtime_config) : bt_runtime_config :=
  Cfg (matching_threads c) (risk_threads c) (io_threads c) (md_threads c) (journal_threads c)
    (gateway_port c) (max_connections c) (rate_limit_rps c) (mempool_size_mb c) (journal_sync_ms c)
    (journal_path c) (cpu_start_core c) (cpu_io_cores c) (cpu_risk_cores c) (cpu_match_cores c)
    (log_level c) (run_benchmark c) (benchmark_orders c) (benchmark_symbols c) isolated safe.

Definition set_cores (io risk mtch : list Z) (c : bt_runtime_config) : bt_runtime_config :=
  Cfg (matching_threads c) (risk_threads c) (io_threads c) (md_threads c) (journal_threads c)
    (gateway_port c) (max_connections c) (rate_limit_rps c) (mempool_size_mb c) (journal_sync_ms c)
    (journal_path c) (cpu_start_core c) io risk mtch (log_level c) (run_benchmark c)
    (benchmark_orders c) (benchmark_symbols c) (use_isolated c) (safe_mode c).

(** An option without an argument; anything else is ignored. *)
Definition parse_flag (a : list Z) (c : bt_runtime_config) : bt_runtime_config :=
  if streq a "--no-bench" then set_bench 0 (benchmark_orders c) (benchmark_symbols c) c
  else if streq a "--isolated" then set_modes 1 (safe_mode c) c
  else if streq a "--safe-mode" then set_modes (use_isolated c) 1 c
  else c.

(** An option that takes the argument [v]; [None] when [a] is not one. *)
Definition parse_valued (a v : list Z) (c : bt_runtime_config) : option bt_runtime_config :=
  if streq a "--bench" then Some (set_bench (run_benchmark c) (atoi v) (benchmark_symbols c) c)
  else if streq a "--symbols" then Some (set_bench (run_benchmark c) (benchmark_orders c) (atoi v) c)
  else if streq a "--port" then Some (set_port (atoi v) c)
  else if streq a "--matching-threads" then Some (set_matching (atoi v) c)
  else None.

(** The loop over [argv[1..]]. *)
Fixpoint parse_args (args : list (list Z)) (c : bt_runtime_config) : bt_runtime_config :=
  match args with
  | [] => c
  | a :: rest =>
      match rest with
      | v :: rest' =>
          match parse_valued a v c with
          | Some c' => parse_args rest' c'
          | None => parse_args rest (parse_flag a c)
          end
      | [] => parse_flag a c
      end
  end.

(** The three checks, in the order of the source. *)
Definition validate (c : bt_runtime_config) : bool :=
  if (matching_threads c <? 1) || (8 <? matching_threads c) then false
  else if (risk_threads c <? 1) || (8 <? risk_threads c) then false
  else if negb (Z.land (matching_threads c) (matching_threads c - 1) =? 0) then false
  else true.

(** ** Core assignment *)

(** [for (i = 0; i < n; i++) a[i] = base + i], from index [i] on. *)
Fixpoint fill_cores (n : nat) (i base : Z) (a : list Z) : list Z :=
  match n with
  | O => a
  | S n => fill_cores n (i + 1) base (arr_set a i (base + i))
  end.

Definition assign_cores (c : bt_runtime_config) : bt_runtime_config :=
  set_cores
    (arr_set (arr_set (cpu_io_cores c) 0 (cpu_start_core c + 2)) 1 (cpu_start_core c + 3))
    (fill_cores (Z.to_nat (risk_threads c)) 0 (cpu_start_core c + 4) (cpu_risk_cores c))
    (fill_cores (Z.to_nat (matching_threads c)) 0 (cpu_start_core c + 6) (cpu_match_cores c))
    c.

(** The configuration [main] works with. *)
Definition configured (args : list (list Z)) : bt_runtime_config :=
  parse_args args (bt_config_default zero_config).

(** ** The thread table *)

Inductive bt_thread_class_t := BT_THREAD_CLASS_HOT | BT_THREAD_CLASS_WARM | BT_THREAD_CLASS_COLD.

#[global] Instance bt_thread_class_eq : EqDecision bt_thread_class_t.
Proof. solve_decision. Defined.

(** The components that run threads of their own. *)
Inductive component :=
  | Gateway | OrderGate | Oms | Sequencer | MarketData | Clearing
  | Risk (i : Z) | Match (i : Z).

#[global] Instance component_eq : EqDecision component.
Proof. solve_decision. Defined.

(** One call of [bt_sched_register]. *)
Record registration := Reg {
  reg_thread : component;
  reg_class : bt_thread_class_t;
  reg_cpu : Z;
  reg_priority : Z;
  reg_budget_ns : Z;
}.

#[global] Instance registration_eq : EqDecision registration.
Proof. solve_decision. Defined.

(** The registrations of [main] after the core assignment, in order. *)
Definition thread_table (c : bt_runtime_config) : list registration :=
  [ Reg Gateway BT_THREAD_CLASS_WARM ((cpu_io_cores c).[0]) 60 200000;
    Reg OrderGate BT_THREAD_CLASS_WARM ((cpu_io_cores c).[1]) 55 100000;
    Reg Oms BT_THREAD_CLASS_WARM 10 70 200000;
    Reg Sequencer BT_THREAD_CLASS_HOT 11 85 5000;
    Reg MarketData BT_THREAD_CLASS_WARM ((cpu_match_cores c).[3] + 1) 50 100000;
    Reg Clearing BT_THREAD_CLASS_COLD 13 30 0 ] ++
  map (fun i => Reg (Risk i) BT_THREAD_CLASS_WARM ((cpu_risk_cores c).[i]) 80 50000)
    (seqZ 0 (risk_threads c)) ++
  map (fun i => Reg (Match i) BT_THREAD_CLASS_HOT ((cpu_match_cores c).[i]) 90 10000)
    (seqZ 0 (matching_threads c)).

(** ** What the command line can change *)

Section config_laws.
Implicit Types (c : bt_runtime_config) (args : list (list Z)).

(** The fields no option touches. *)
Definition fixed_fields c :=
  (risk_threads c, cpu_start_core c, cpu_io_cores c, cpu_risk_cores c, cpu_match_cores c,
   mempool_size_mb c, journal_path c, journal_sync_ms c, max_connections c).

Lemma parse_flag_fixed a c : fixed_fields (parse_flag a c) = fixed_fields c.
Proof. unfold parse_flag. by repeat case_match. Qed.

Lemma parse_valued_fixed a v c c' :
  parse_valued a v c = Some c' -> fixed_fields c' = fixed_fields c.
Proof. unfold parse_valued. intros. by repeat case_match; simplify_eq. Qed.

Lemma parse_args_fixed args c : fixed_fields (parse_args args c) = fixed_fields c.
Proof.
  revert c. induction args as [args IH] using (induction_ltof1 _ (@List.length _)).
  intros c. destruct args as [|a [|v rest]]; simpl; [done|apply parse_flag_fixed|].
  destruct (parse_valued a v c) as [c'|] eqn:E.
  - rewrite IH by (unfold ltof; simpl; lia). by eapply parse_valued_fixed.
  - change (fixed_fields (parse_args (v :: rest) (parse_flag a c)) = fixed_fields c).
    rewrite IH by (unfold ltof; simpl; lia). apply parse_flag_fixed.
Qed.

Lemma configured_fixed args :
  fixed_fields (configured args) = fixed_fields (bt_config_default zero_config).
Proof. apply parse_args_fixed. Qed.

(** The thread counts that pass the checks. *)
Lemma validate_counts args :
  validate (configured args) = true <->
  matching_threads (configured args) ∈ [1; 2; 4; 8].
Proof.
  pose proof (configured_fixed args) as Hf.
  assert (risk_threads (configured args) = 2) as Hr by (injection Hf; done).
  unfold validate. rewrite Hr. cbn [Z.ltb Z.compare orb].
  generalize (matching_threads (configured args)) as n. intros n.
  destruct (decide (1 <= n <= 8)) as [Hn|Hn].
  - assert (n = 1 \/ n = 2 \/ n = 3 \/ n = 4 \/ n = 5 \/ n = 6 \/ n = 7 \/ n = 8) as Hc by lia.
    rewrite !elem_of_cons, elem_of_nil.
    repeat destruct Hc as [->|Hc]; subst;
      (split; intros H; [first [discriminate H|lia]|first [reflexivity|lia]]).
  - assert ((n <? 1) || (8 <? n) = true) as ->.
    { apply orb_true_iff. rewrite !Z.ltb_lt. lia. }
    split; [done|]. rewrite !elem_of_cons, elem_of_nil. lia.
Qed.

End config_laws.
