(* ===== verification/Lifecycle.v ===== *)
(** * Start-up and shutdown of the platform

    Models [main] of [src/src/main.c] from the thread registration to its
    return, as the sequence of the calls it makes on the components. What the
    components answer (whether a constructor succeeds) and the readings of the
    clock are parameters; the pipeline components themselves are not in the
    repository, so their calls appear as actions. An access to one of the
    static per-thread arrays beyond its end stops the model, since C gives
    such a program no meaning. *)

From Stdlib Require Import Ascii String.
From stdpp Require Import sorting strings.
From S2P Require Import Prelude CTypes GwParse Config.

Inductive queue_name :=
  | g_gate_out_q | g_gate_oms_q | g_risk_in_q | g_seq_in_q | g_response_q
  | g_match_in_q (i : Z) | g_md_q (i : Z).

Inductive action :=
  | ARegister (r : registration)
  | AValidateSched
  | ASignals
  | ALogInit
  | ATimerCalibrate
  | AMempoolInit (bytes arenas : Z)
  | AJournalOpen (path : list Z) (sync_ms : Z)
  | ARecoveryReplay (path : list Z)
  | AEventBusCreate (capacity : Z)
  | AQueueInit (q : queue_name)
  | ARiskStateCreate
  | ASafeMode
  | AAssignArena
  | ACreate (c : component) (cpu : Z)
  | AStart (c : component)
  | ABenchmark (orders symbols : Z)
  | AHealth (now : Z)
  | ALogFlush
  | AStop (c : component)
  | AJournalFlush
  | AJournalClose
  | ADestroy (c : component)
  | AEventBusDestroy
  | ARiskStateDestroy
  | AMempoolDestroy.

(** What the calls answer: [true] where the source gets a usable result.
    [e_start]: whether the thread of a component comes to be when it is started;
    [main] does not look at it. *)
Record env := Env {
  e_mempool : bool;
  e_journal : bool;
  e_event_bus : bool;
  e_risk_state : bool;
  e_create : component -> bool;
  e_start : component -> bool;
  e_boot_ns : Z;
  e_nows : list Z;
}.

(** ** Computations that log their actions and may end the program *)

Inductive res (A : Type) := Go (x : A) | Exit (code : Z) | OutOfBounds.
Arguments Go {_} _.
Arguments Exit {_} _.
Arguments OutOfBounds {_}.

Definition M (A : Type) : Type := res A * list action.

Definition retM {A} (x : A) : M A := (Go x, []).
Definition bindM {A B} (m : M A) (f : A -> M B) : M B :=
  match m with
  | (Go x, t) => let '(r, t') := f x in (r, t ++ t')
  | (Exit c, t) => (Exit c, t)
  | (OutOfBounds, t) => (OutOfBounds, t)
  end.

Notation "m ;;; k" := (bindM m (fun _ => k)) (at level 100, right associativity) : broker_scope.

Definition act (a : action) : M unit := (Go tt, [a]).
Definition acts (l : list action) : M unit := (Go tt, l).
Definition when (b : bool) (a : action) : M unit := (Go tt, if b then [a] else []).
Definition exit {A} (code : Z) : M A := (Exit code, []).
Definition or_fatal (ok : bool) : M unit := if ok then retM tt else exit 1.

(** Access to element [i] of an array of [size] elements. *)
Definition slot (size i : Z) : M unit :=
  if (0 <=? i) && (i <? size) then retM tt else (OutOfBounds, []).

(** [for (int i = 0; i < n; i++)]. *)
Fixpoint each (l : list Z) (f : Z -> M unit) : M unit :=
  match l with
  | [] => retM tt
  | i :: l => f i ;;; each l f
  end.
Definition for_n (n : Z) (f : Z -> M unit) : M unit := each (seqZ 0 n) f.

(** ** The parts of [main] *)

Definition launch (e : env) (c : component) (cpu : Z) : M unit :=
  act (ACreate c cpu) ;;; when (e_create e c) (AStart c).

(** Registration, signals, memory pool, journal, recovery, event bus. *)
Definition boot (e : env) (cfg : bt_runtime_config) : M unit :=
  acts (map ARegister (thread_table cfg)) ;;;
  acts [AValidateSched; ASignals; ALogInit; ATimerCalibrate] ;;;
  act (AMempoolInit (u64 (mempool_size_mb cfg * 1024 * 1024))
         (matching_threads cfg + risk_threads cfg + 4)) ;;;
  or_fatal (e_mempool e) ;;;
  act (AJournalOpen (journal_path cfg) (journal_sync_ms cfg)) ;;;
  or_fatal (e_journal e) ;;;
  act (ARecoveryReplay (journal_path cfg)) ;;;
  act (AEventBusCreate 65536) ;;;
  or_fatal (e_event_bus e).

Definition init_queues (cfg : bt_runtime_config) : M unit :=
  acts (map AQueueInit [g_gate_out_q; g_gate_oms_q; g_risk_in_q; g_seq_in_q; g_response_q]) ;;;
  for_n (matching_threads cfg) (fun i =>
    slot BT_CFG_MATCHING_THREADS i ;;; acts [AQueueInit (g_match_in_q i); AQueueInit (g_md_q i)]).

Definition init_risk (e : env) (cfg : bt_runtime_config) : M unit :=
  act ARiskStateCreate ;;;
  or_fatal (e_risk_state e) ;;;
  when (negb (safe_mode cfg =? 0)) ASafeMode.

(** Consumers first, downstream to upstream. *)
Definition start_all (e : env) (cfg : bt_runtime_config) : M unit :=
  launch e Clearing 13 ;;;
  launch e MarketData ((cpu_match_cores cfg).[3] + 1) ;;;
  for_n (matching_threads cfg) (fun i =>
    act AAssignArena ;;; slot BT_CFG_MATCHING_THREADS i ;;;
    launch e (Match i) ((cpu_match_cores cfg).[i])) ;;;
  act (ACreate Sequencer 11) ;;;
  or_fatal (e_create e Sequencer) ;;;
  for_n (matching_threads cfg) (slot BT_CFG_MATCHING_THREADS) ;;;
  act (AStart Sequencer) ;;;
  for_n (risk_threads cfg) (fun i =>
    slot BT_CFG_RISK_THREADS i ;;; launch e (Risk i) ((cpu_risk_cores cfg).[i])) ;;;
  launch e Oms 10 ;;;
  launch e OrderGate 2 ;;;
  launch e Gateway ((cpu_io_cores cfg).[0]).

(** The wait loop: one reading of the clock per second until the signal; a
    health report when more than five seconds went by since the last one. *)
Fixpoint wait_loop (last_health : Z) (nows : list Z) : M unit :=
  match nows with
  | [] => retM tt
  | now :: nows =>
      if 5000000000 <? u64 (now - last_health) then
        acts [AHealth now; ALogFlush] ;;; wait_loop now nows
      else wait_loop last_health nows
  end.

(** The same calls on every component, upstream first. *)
Definition for_components (e : env) (cfg : bt_runtime_config) (f : component -> action) : M unit :=
  when (e_create e Gateway) (f Gateway) ;;;
  when (e_create e OrderGate) (f OrderGate) ;;;
  when (e_create e Oms) (f Oms) ;;;
  for_n (risk_threads cfg) (fun i =>
    slot BT_CFG_RISK_THREADS i ;;; when (e_create e (Risk i)) (f (Risk i))) ;;;
  when (e_create e Sequencer) (f Sequencer) ;;;
  for_n (matching_threads cfg) (fun i =>
    slot BT_CFG_MATCHING_THREADS i ;;; when (e_create e (Match i)) (f (Match i))) ;;;
  when (e_create e MarketData) (f MarketData) ;;;
  when (e_create e Clearing) (f Clearing).

Definition shutdown (e : env) (cfg : bt_runtime_config) : M unit :=
  act ALogFlush ;;;
  for_components e cfg AStop ;;;
  when (e_journal e) AJournalFlush ;;;
  when (e_journal e) AJournalClose ;;;
  for_components e cfg ADestroy ;;;
  when (e_event_bus e) AEventBusDestroy ;;;
  when (e_risk_state e) ARiskStateDestroy ;;;
  act AMempoolDestroy ;;;
  act ALogFlush.

Definition main (e : env) (args : list (list Z)) : M unit :=
  let cfg := configured args in
  or_fatal (validate cfg) ;;;
  let cfg := assign_cores cfg in
  boot e cfg ;;;
  init_queues cfg ;;;
  init_risk e cfg ;;;
  start_all e cfg ;;;
  when (negb (run_benchmark cfg =? 0)) (ABenchmark (benchmark_orders cfg) (benchmark_symbols cfg)) ;;;
  wait_loop (e_boot_ns e) (e_nows e) ;;;
  shutdown e cfg ;;;
  exit 0.

(** ** Reading a trace *)

Definition start_of (a : action) : option component :=
  match a with AStart c => Some c | _ => None end.
Definition stop_of (a : action) : option component :=
  match a with AStop c => Some c | _ => None end.
Definition destroy_of (a : action) : option component :=
  match a with ADestroy c => Some c | _ => None end.

Definition starts (t : list action) : list component := omap start_of t.
Definition stops (t : list action) : list component := omap stop_of t.
Definition destroys (t : list action) : list component := omap destroy_of t.

(** The position of a component in the pipeline, from the clients down. *)
Definition stage (c : component) : Z :=
  match c with
  | Gateway => 0 | OrderGate => 1 | Oms => 2 | Risk _ => 3
  | Sequencer => 4 | Match _ => 5 | MarketData => 6 | Clearing => 7
  end.

Definition downstream_first (c d : component) : Prop := stage d <= stage c.
Definition upstream_first (c d : component) : Prop := stage c <= stage d.

(** The components a configuration runs, from the clients down. *)
Definition components (cfg : bt_runtime_config) : list component :=
  [Gateway; OrderGate; Oms] ++ (Risk <$> seqZ 0 (risk_threads cfg)) ++ [Sequencer] ++
  (Match <$> seqZ 0 (matching_threads cfg)) ++ [MarketData; Clearing].

Section lifecycle.
Context (e : env).
Implicit Types (cfg : bt_runtime_config) (t : list action) (c : component).

Local Abbreviation created := (fun c => Is_true (e_create e c)).

Lemma go_then {A} t (k : M A) : bindM (Go tt, t) (fun _ => k) = (fst k, t ++ snd k).
Proof. simpl. by destruct k. Qed.

Lemma each_go (l : list Z) (f : Z -> M unit) (g : Z -> list action) :
  (forall i, i ∈ l -> f i = (Go tt, g i)) -> each l f = (Go tt, l ≫= g).
Proof.
  induction l as [|i l IH]; intros Hf; cbn [each]; [done|].
  rewrite Hf by by left. rewrite IH by (intros; apply Hf; by right). done.
Qed.

Lemma bind_nil {A B} (f : A -> list B) : [] ≫= f = [].
Proof using. done. Qed.

Lemma omap_bind_nil {A} (sel : action -> option component) (l : list A) (g : A -> list action) :
  (forall i, omap sel (g i) = []) -> omap sel (l ≫= g) = [].
Proof using.
  intros Hg. induction l as [|i l IH]; [done|]. by rewrite bind_cons, omap_app, IH, Hg.
Qed.

Lemma slot_ok size i : 0 <= i < size -> slot size i = retM tt.
Proof. intros Hi. unfold slot. rewrite (proj2 (Z.leb_le _ _)), (proj2 (Z.ltb_lt _ _)); [done|lia|lia]. Qed.

(** The calls a launch makes. *)
Definition launch_trace c cpu : list action :=
  ACreate c cpu :: (if e_create e c then [AStart c] else []).

Lemma launch_go c cpu : launch e c cpu = (Go tt, launch_trace c cpu).
Proof using. done. Qed.

Definition in_bounds cfg : Prop :=
  0 <= matching_threads cfg <= BT_CFG_MATCHING_THREADS /\ 0 <= risk_threads cfg <= BT_CFG_RISK_THREADS.

Definition visit (f : component -> action) c : list action := if e_create e c then [f c] else [].

Lemma omap_visit (sel : action -> option component) f l :
  (forall c, sel (f c) = Some c) -> omap sel (l ≫= visit f) = filter created l.
Proof using.
  intros Hs. induction l as [|c l IH]; [done|].
  rewrite bind_cons, omap_app, IH, filter_cons. unfold visit.
  destruct (e_create e c); simpl; [by rewrite Hs|done].
Qed.

Lemma for_components_go cfg f :
  in_bounds cfg -> for_components e cfg f = (Go tt, components cfg ≫= visit f).
Proof using.
  intros [Hm Hr]. unfold for_components, for_n.
  rewrite (each_go (seqZ 0 (risk_threads cfg)) _ (fun i => visit f (Risk i))).
  2:{ intros i Hi%elem_of_seqZ. rewrite slot_ok by lia. done. }
  rewrite (each_go (seqZ 0 (matching_threads cfg)) _ (fun i => visit f (Match i))).
  2:{ intros i Hi%elem_of_seqZ. rewrite slot_ok by lia. done. }
  unfold when. rewrite !go_then. unfold components. cbn [fst snd]. f_equal.
  rewrite !bind_app, !list_fmap_bind. unfold visit.
  rewrite !bind_cons, !bind_nil, ?app_nil_r, <- ?app_assoc. done.
Qed.

(** The order in which the components are started. *)
Definition start_order cfg : list component :=
  [Clearing; MarketData] ++ (Match <$> seqZ 0 (matching_threads cfg)) ++ [Sequencer] ++
  (Risk <$> seqZ 0 (risk_threads cfg)) ++ [Oms; OrderGate; Gateway].

Lemma starts_launch c cpu : starts (launch_trace c cpu) = filter created [c].
Proof using.
  unfold launch_trace, starts. rewrite filter_cons. by destruct (e_create e c).
Qed.

Lemma starts_app t1 t2 : starts (t1 ++ t2) = starts t1 ++ starts t2.
Proof using. apply omap_app. Qed.

Lemma launch_quiet c cpu :
  omap stop_of (launch_trace c cpu) = [] /\ omap destroy_of (launch_trace c cpu) = [].
Proof using. unfold launch_trace. by case_match. Qed.

Lemma starts_bind (l : list Z) (g : Z -> list action) (f : Z -> component) :
  (forall i, starts (g i) = filter created [f i]) -> starts (l ≫= g) = filter created (f <$> l).
Proof using.
  intros Hg. induction l as [|i l IH]; [done|].
  rewrite bind_cons. unfold starts in *. rewrite omap_app, IH, Hg, fmap_cons.
  change (f i :: (f <$> l)) with ([f i] ++ (f <$> l)). by rewrite filter_app.
Qed.

Lemma start_all_go cfg :
  in_bounds cfg -> e_create e Sequencer = true ->
  exists t, start_all e cfg = (Go tt, t) /\ starts t = filter created (start_order cfg) /\
    stops t = [] /\ destroys t = [].
Proof using.
  intros [Hm Hr] Hs. unfold start_all, for_n. rewrite Hs. unfold or_fatal.
  rewrite (each_go (seqZ 0 (matching_threads cfg)) _
    (fun i => AAssignArena :: launch_trace (Match i) ((cpu_match_cores cfg).[i]))).
  2:{ intros i Hi%elem_of_seqZ. rewrite slot_ok by lia. done. }
  rewrite (each_go (seqZ 0 (matching_threads cfg)) _ (fun _ => [])).
  2:{ intros i Hi%elem_of_seqZ. by rewrite slot_ok by lia. }
  rewrite (each_go (seqZ 0 (risk_threads cfg)) _
    (fun i => launch_trace (Risk i) ((cpu_risk_cores cfg).[i]))).
  2:{ intros i Hi%elem_of_seqZ. rewrite slot_ok by lia. done. }
  unfold acts, act, retM. rewrite !launch_go, !go_then. cbn [fst snd]. eexists. split; [done|].
  unfold stops, destroys. rewrite !starts_app, !omap_app.
  rewrite !(omap_bind_nil stop_of), !(omap_bind_nil destroy_of) 
    by (intros; unfold launch_trace; repeat case_match; done).
  assert (starts (seqZ 0 (matching_threads cfg) ≫= (fun _ => [])) = []) as ->.
  { by apply omap_bind_nil. }
  rewrite (starts_bind _ _ Match) by (intros i; exact (starts_launch (Match i) ((cpu_match_cores cfg).[i]))).
  rewrite (starts_bind _ _ Risk) by (intros i; exact (starts_launch (Risk i) ((cpu_risk_cores cfg).[i]))).
  rewrite !starts_launch.
  assert (starts [AStart Sequencer] = filter created [Sequencer]) as ->.
  { rewrite filter_cons, Hs. done. }
  pose proof launch_quiet as Hq. unfold start_order.
  split_and!; try (by rewrite !(proj1 (Hq _ _)) || by rewrite !(proj2 (Hq _ _))).
  change [Clearing; MarketData] with ([Clearing] ++ [MarketData]).
  change [Oms; OrderGate; Gateway] with ([Oms] ++ [OrderGate] ++ [Gateway]).
  rewrite !filter_app, <- !app_assoc. done.
Qed.

(** The actions that neither start, stop nor destroy a component. *)
Definition quiet t : Prop := starts t = [] /\ stops t = [] /\ destroys t = [].

Lemma quiet_app t1 t2 : quiet t1 -> quiet t2 -> quiet (t1 ++ t2).
Proof using.
  unfold quiet, starts, stops, destroys. rewrite !omap_app. intros (-> & -> & ->) (-> & -> & ->). done.
Qed.

Lemma quiet_bind {A} (l : list A) g : (forall i, quiet (g i)) -> quiet (l ≫= g).
Proof using. intros Hg. split_and!; apply omap_bind_nil; intros i; apply Hg. Qed.

Lemma wait_loop_go last nows : exists t, wait_loop last nows = (Go tt, t) /\ quiet t.
Proof using.
  revert last. induction nows as [|now nows IH]; intros last; cbn [wait_loop]; [by exists []|].
  case_match; [|apply IH]. destruct (IH now) as (t & -> & Hq). eexists. split; [done|].
  by apply (quiet_app [AHealth now; ALogFlush]).
Qed.

(** What the environment must grant for the start-up to get through. *)
Definition granted : Prop :=
  e_mempool e = true /\ e_journal e = true /\ e_event_bus e = true /\ e_risk_state e = true /\
  e_create e Sequencer = true.

Lemma boot_prefix cfg :
  e_mempool e = true -> e_journal e = true -> e_event_bus e = true ->
  exists t, boot e cfg = (Go tt, t) /\ quiet t.
Proof using.
  intros H1 H2 H3. unfold boot. rewrite H1, H2, H3. eexists. split; [done|].
  apply quiet_app; [|done]. generalize (thread_table cfg) as l. intros l.
  induction l as [|r l IH]; [done|]. exact IH.
Qed.

Lemma boot_go cfg : granted -> exists t, boot e cfg = (Go tt, t) /\ quiet t.
Proof using. intros (? & ? & ? & _). by apply boot_prefix. Qed.

Lemma init_queues_go cfg : in_bounds cfg -> exists t, init_queues cfg = (Go tt, t) /\ quiet t.
Proof using.
  intros [Hm _]. unfold init_queues, for_n.
  rewrite (each_go _ _ (fun i => [AQueueInit (g_match_in_q i); AQueueInit (g_md_q i)])).
  2:{ intros i Hi%elem_of_seqZ. rewrite slot_ok by lia. done. }
  eexists. split; [done|]. apply quiet_app; [done|]. by apply quiet_bind.
Qed.

Lemma init_risk_go cfg : granted -> exists t, init_risk e cfg = (Go tt, t) /\ quiet t.
Proof using.
  intros (_ & _ & _ & H4 & _). unfold init_risk. rewrite H4. eexists. split; [done|].
  simpl. by case_match.
Qed.

Lemma omap_visit_other (sel : action -> option component) f l :
  (forall c, sel (f c) = None) -> omap sel (l ≫= visit f) = [].
Proof using.
  intros Hs. apply omap_bind_nil. intros c. unfold visit. case_match; [|done]. simpl. by rewrite Hs.
Qed.

(** The whole run: start-up, wait and stops, the journal, and the release. *)
Lemma main_go (args : list (list Z)) :
  granted -> validate (configured args) = true ->
  let cfg := assign_cores (configured args) in
  in_bounds cfg ->
  exists t1 t2 t3,
    main e args = (Exit 0, t1 ++ t2 ++ [AJournalFlush; AJournalClose] ++ t3) /\
    starts t1 = filter created (start_order cfg) /\ stops t1 = [] /\ destroys t1 = [] /\
    stops t2 = filter created (components cfg) /\ starts t2 = [] /\ destroys t2 = [] /\
    destroys t3 = filter created (components cfg) /\ starts t3 = [] /\ stops t3 = [].
Proof using.
  intros Hg Hv cfg Hb. unfold main. rewrite Hv. fold cfg.
  destruct (boot_go cfg Hg) as (tb & -> & Hqb). destruct (init_queues_go cfg Hb) as (tq & -> & Hqq).
  destruct (init_risk_go cfg Hg) as (tr & -> & Hqr).
  destruct (start_all_go cfg Hb) as (ts & -> & Hs1 & Hs2 & Hs3); [apply Hg|].
  destruct (wait_loop_go (e_boot_ns e) (e_nows e)) as (tw & -> & Hqw).
  unfold shutdown, when, or_fatal, retM, act, exit. rewrite !for_components_go by done.
  destruct Hg as (_ & -> & -> & -> & _). rewrite !go_then. cbn [fst snd].
  exists (tb ++ tq ++ tr ++ ts),
    ((if negb (run_benchmark cfg =? 0) then [ABenchmark (benchmark_orders cfg) (benchmark_symbols cfg)] else [])
       ++ tw ++ [ALogFlush] ++ (components cfg ≫= visit AStop)),
    ((components cfg ≫= visit ADestroy) ++
       [AEventBusDestroy; ARiskStateDestroy; AMempoolDestroy; ALogFlush]).
  split.
  { f_equal. rewrite <- !app_assoc. simpl. by rewrite ?app_nil_r. }
  destruct Hqb as (B1 & B2 & B3), Hqq as (Q1 & Q2 & Q3), Hqr as (R1 & R2 & R3), Hqw as (W1 & W2 & W3).
  assert (quiet (if negb (run_benchmark cfg =? 0) then
    [ABenchmark (benchmark_orders cfg) (benchmark_symbols cfg)] else [])) as (P1 & P2 & P3) by by case_match.
  unfold starts, stops, destroys in *. rewrite !omap_app.
  rewrite ?B1, ?B2, ?B3, ?Q1, ?Q2, ?Q3, ?R1, ?R2, ?R3, ?W1, ?W2, ?W3, ?P1, ?P2, ?P3, ?Hs1, ?Hs2, ?Hs3.
  rewrite (omap_visit stop_of AStop), (omap_visit destroy_of ADestroy), !omap_visit_other by done.
  simpl. rewrite ?app_nil_r. by split_and!.
Qed.

End lifecycle.

Lemma sorted_filter {A} (R : A -> A -> Prop) (P : A -> Prop) `{!forall x, Decision (P x)} (l : list A) :
  StronglySorted R l -> StronglySorted R (filter P l).
Proof.
  induction 1 as [|x l Hl IH Hx]; [constructor|]. rewrite filter_cons. case_decide; [|done].
  constructor; [done|]. rewrite Forall_forall in *. intros y Hy%list_elem_of_filter.
  apply Hx, Hy.
Qed.

(** What the accepted configurations have in common. *)
Lemma assigned_risk args : risk_threads (assign_cores (configured args)) = 2.
Proof. pose proof (configured_fixed args) as Hf. by injection Hf. Qed.

Lemma assigned_matching args :
  matching_threads (assign_cores (configured args)) = matching_threads (configured args).
Proof. done. Qed.

(** The components of an accepted configuration that fits the arrays. *)
Lemma components_ok args :
  matching_threads (configured args) ∈ [1; 2; 4] ->
  let cfg := assign_cores (configured args) in
  in_bounds cfg /\ NoDup (components cfg) /\ start_order cfg ≡ₚ components cfg /\
  StronglySorted upstream_first (components cfg) /\ StronglySorted downstream_first (start_order cfg).
Proof.
  intros Hn cfg. unfold in_bounds, components, start_order, upstream_first, downstream_first.
  unfold cfg. rewrite assigned_risk, assigned_matching.
  rewrite !elem_of_cons, elem_of_nil in Hn.
  repeat destruct Hn as [->|Hn]; [| | |done];
    (split_and!; [done..|apply (bool_decide_unpack _); by vm_compute| |
       repeat constructor; done|repeat constructor; done]).
  all: apply (bool_decide_unpack _); by vm_compute.
Qed.

(** ** Computations that stay inside the arrays *)

Definition safe {A} (m : M A) : Prop := fst m <> OutOfBounds.

Lemma safe_go {A} (x : A) t : safe (Go x, t).
Proof. done. Qed.

Lemma safe_then {A} (m : M unit) (k : M A) : safe m -> safe k -> safe (m ;;; k).
Proof.
  destruct m as [[x|c|] t], k as [r t']; intros Hm Hk; [exact Hk|done|by destruct Hm].
Qed.

Lemma safe_or_fatal b : safe (or_fatal b).
Proof. by destruct b. Qed.

Lemma safe_for n f : (forall i, 0 <= i < n -> safe (f i)) -> safe (for_n n f).
Proof.
  unfold for_n. intros Hf.
  assert (forall i, i ∈ seqZ 0 n -> safe (f i)) as Hl.
  { intros i Hi%elem_of_seqZ. apply Hf. lia. }
  clear Hf. induction (seqZ 0 n) as [|i l IH]; cbn [each]; [done|].
  apply safe_then; [apply Hl; by left|]. apply IH. intros j Hj. apply Hl. by right.
Qed.

Lemma safe_slot size i : 0 <= i < size -> safe (slot size i).
Proof. intros Hi. by rewrite slot_ok. Qed.

Lemma safe_wait last nows : safe (wait_loop last nows).
Proof. destruct (wait_loop_go last nows) as (t & -> & _). done. Qed.

(** Follow the structure of a computation. *)
Ltac safe_run Hb :=
  repeat first
    [ done
    | apply safe_wait
    | apply safe_or_fatal
    | apply safe_then
    | apply safe_for; intros ? ?
    | apply safe_slot; destruct Hb; lia ].

Lemma safe_main e args :
  in_bounds (assign_cores (configured args)) -> safe (main e args).
Proof.
  intros Hb. unfold main. apply safe_then; [apply safe_or_fatal|].
  generalize dependent (assign_cores (configured args)). intros cfg Hb.
  unfold boot, init_queues, init_risk, start_all, shutdown, for_components, launch. safe_run Hb.
Qed.

(** ** Computations that release nothing *)

Definition keeps (a : action) : bool :=
  match a with
  | AStop _ | ADestroy _ | AJournalFlush | AJournalClose | AEventBusDestroy | ARiskStateDestroy
  | AMempoolDestroy => false
  | _ => true
  end.

Definition holds_on {A} (m : M A) : Prop := Forall (fun a => Is_true (keeps a)) (snd m).

Lemma holds_then {A} (m : M unit) (k : M A) : holds_on m -> holds_on k -> holds_on (m ;;; k).
Proof. destruct m as [[x|c|] t], k as [r t']; intros Hm Hk; [by apply Forall_app|done|done]. Qed.

Lemma holds_for n f : (forall i, holds_on (f i)) -> holds_on (for_n n f).
Proof.
  intros Hf. unfold for_n. induction (seqZ 0 n) as [|i l IH]; cbn [each]; [by apply Forall_nil|].
  by apply holds_then.
Qed.

Lemma holds_small b size i x : keeps x = true ->
  holds_on (or_fatal b) /\ holds_on (slot size i) /\ holds_on (act x) /\ holds_on (when b x).
Proof.
  intros Hx. unfold or_fatal, slot, act, when, holds_on, retM, exit.
  assert (Forall (fun a => Is_true (keeps a)) [x]) as H1 by (apply Forall_singleton, Is_true_true, Hx).
  split_and!; [destruct b; by apply Forall_nil|destruct (_ && _); by apply Forall_nil|done|].
  destruct b; [done|by apply Forall_nil].
Qed.

Lemma holds_acts l : forallb keeps l = true -> holds_on (acts l).
Proof. intros Hl. apply Forall_forall. intros x Hx%list_elem_of_In. rewrite forallb_forall in Hl. by apply Is_true_true, Hl. Qed.

Lemma holds_wait last nows : holds_on (wait_loop last nows).
Proof.
  revert last. induction nows as [|now nows IH]; intros last; cbn [wait_loop]; [by apply Forall_nil|].
  case_match; [|apply IH]. apply holds_then; [by apply holds_acts|apply IH].
Qed.

(** Follow the structure of a computation. *)
Ltac hold_on :=
  repeat first
    [ apply holds_wait
    | apply holds_then
    | apply holds_for; intros ?
    | (apply holds_acts; reflexivity)
    | (eapply (holds_small _ 0 0 ALogInit); reflexivity)
    | (eapply (holds_small true _ _ ALogInit); reflexivity)
    | (eapply (holds_small _ 0 0); reflexivity) ].

(** A run that fails stops, closes and destroys nothing. *)
Lemma failed_run_keeps e args :
  in_bounds (assign_cores (configured args)) -> fst (main e args) <> Exit 0 -> holds_on (main e args).
Proof.
  intros Hb. unfold main. destruct (validate (configured args)); [|intros _; by apply Forall_nil].
  change (or_fatal true) with (Go tt, @nil action). rewrite go_then.
  generalize dependent (assign_cores (configured args)). intros cfg Hb. cbn [fst snd app].
  assert (holds_on (acts (map ARegister (thread_table cfg)))) as Hreg.
  { apply holds_acts, forallb_forall. by intros a (r & <- & _)%in_map_iff. }
  assert (forall (m : M unit) (k : M unit), holds_on m -> (fst k <> Exit 0 -> holds_on k) ->
    fst (m ;;; k) <> Exit 0 -> holds_on (m ;;; k)) as Hpart.
  { intros m k Hm Hk Hne. destruct m as [[[]|c|] t]; [|exact Hm..].
    unfold holds_on. rewrite go_then in Hne |- *.
    apply Forall_app. split; [exact Hm|by apply Hk]. }
  apply Hpart; [unfold boot; apply holds_then; [exact Hreg|]; hold_on|].
  apply Hpart; [unfold init_queues; hold_on|]. apply Hpart; [unfold init_risk; hold_on|].
  apply Hpart; [unfold start_all, launch; hold_on|]. apply Hpart; [hold_on|]. apply Hpart; [hold_on|].
  unfold shutdown, when, act. rewrite !for_components_go by done. rewrite !go_then. by intros [].
Qed.

(** The codes with which a computation ends the program. *)
Definition ends_with (ok : Z -> Prop) {A} (m : M A) : Prop :=
  match fst m with Exit c => ok c | _ => True end.

Lemma exits_then {A} ok (m : M unit) (k : M A) : ends_with ok m -> ends_with ok k -> ends_with ok (m ;;; k).
Proof. by destruct m as [[x|c|] t], k as [r t']. Qed.

Lemma exits_for ok n f : (forall i, ends_with ok (f i)) -> ends_with ok (for_n n f).
Proof.
  intros Hf. unfold for_n. induction (seqZ 0 n) as [|i l IH]; cbn [each]; [done|]. by apply exits_then.
Qed.

Lemma main_exits e args : ends_with (fun c => c = 0 \/ c = 1) (main e args).
Proof.
  assert (forall b, ends_with (fun c => c = 0 \/ c = 1) (or_fatal b)) as Hf by (intros []; cbn; auto).
  assert (forall size i, ends_with (fun c => c = 0 \/ c = 1) (slot size i)) as Hs.
  { intros size i. unfold slot. by case_match. }
  assert (forall last nows, ends_with (fun c => c = 0 \/ c = 1) (wait_loop last nows)) as Hw.
  { intros last nows. by destruct (wait_loop_go last nows) as (t & -> & _). }
  unfold main, boot, init_queues, init_risk, start_all, shutdown, for_components, launch.
  repeat first [apply Hf|apply Hs|apply Hw|apply exits_then|apply exits_for; intros ?|exact I].
  by left.
Qed.

Lemma main_ends_program e args x : fst (main e args) <> Go x.
Proof.
  assert (forall (m k : M unit), (forall x, fst k <> Go x) -> forall x, fst (m ;;; k) <> Go x) as Ht.
  { intros [[y|c|] t] [r t'] Hk x0; [exact (Hk x0)|done|done]. }
  unfold main. revert x. by repeat (apply Ht).
Qed.

(** ** Properties *)

(** A run of the platform is orderly. With one, two or four matching
    threads and an environment that grants the mandatory resources, [main]
    returns 0; every component that could be created is started exactly once,
    consumers before their producers, then stopped exactly once, producers
    before their consumers, and destroyed exactly once; the journal is flushed
    and closed after the last stop and before the first release. *)
Theorem orderly_lifecycle (e : env) (args : list (list Z)) :
  granted e -> matching_threads (configured args) ∈ [1; 2; 4] ->
  exists t1 t2 t3,
    main e args = (Exit 0, t1 ++ t2 ++ [AJournalFlush; AJournalClose] ++ t3) /\
    NoDup (starts t1) /\
    (forall c, c ∈ starts t1 <->
       c ∈ components (assign_cores (configured args)) /\ e_create e c = true) /\
    StronglySorted downstream_first (starts t1) /\ StronglySorted upstream_first (stops t2) /\
    stops t2 ≡ₚ starts t1 /\ destroys t3 ≡ₚ starts t1 /\
    stops t1 = [] /\ destroys (t1 ++ t2) = [] /\ starts (t2 ++ t3) = [] /\ stops t3 = [].
Proof.
  intros Hg Hn. destruct (components_ok args Hn) as (Hb & Hnd & Hp & Hup & Hdown).
  destruct (main_go e args Hg) as
    (t1 & t2 & t3 & E & S1 & S2 & S3 & P1 & P2 & P3 & D1 & D2 & D3);
    [apply validate_counts; rewrite !elem_of_cons in *; tauto|done|].
  exists t1, t2, t3. split; [done|]. unfold starts, stops, destroys in *. rewrite !omap_app.
  rewrite S1, S2, S3, P1, P2, P3, D1, D2, D3. split_and!; try done.
  - apply NoDup_filter. by rewrite Hp.
  - intros c. rewrite list_elem_of_filter, Hp. destruct (e_create e c); simpl; intuition congruence.
  - by apply sorted_filter.
  - by apply sorted_filter.
  - by rewrite Hp.
  - by rewrite Hp.
Qed.

(** C29: The thread count decides between the three outcomes of the start-up.
    A count that is not a power of two up to 8 is refused before anything is
    done; with 1, 2 or 4 matching threads no array access is out of bounds,
    whatever fails; with 8, which the checks accept, the queue initialisation
    writes beyond the arrays of four before any component is started. *)
Theorem matching_thread_counts (e : env) (args : list (list Z)) :
  let n := matching_threads (configured args) in
  (~ n ∈ [1; 2; 4; 8] -> main e args = (Exit 1, [])) /\
  (n ∈ [1; 2; 4] -> fst (main e args) <> OutOfBounds) /\
  (n = 8 -> e_mempool e = true -> e_journal e = true -> e_event_bus e = true ->
   exists t, main e args = (OutOfBounds, t) /\ starts t = []).
Proof.
  intros n. split_and!.
  - intros Hn. unfold main. destruct (validate (configured args)) eqn:E; [|done].
    by apply validate_counts in E.
  - intros Hn. apply safe_main. by apply components_ok.
  - intros Hn Hm Hj Hbus. assert (validate (configured args) = true) as Hv.
    { apply validate_counts. fold n. rewrite Hn. by do 3 right; left. }
    unfold main. rewrite Hv. destruct (boot_prefix e (assign_cores (configured args)) Hm Hj Hbus)
      as (tb & -> & Hqb).
    assert (matching_threads (assign_cores (configured args)) = 8) as H8 by exact Hn.
    unfold init_queues, for_n. rewrite H8.
    unfold or_fatal, retM. rewrite !go_then. eexists. split; [reflexivity|].
    cbn [fst snd]. rewrite !starts_app, (proj1 Hqb). done.
Qed.

(** The market data thread is registered on the core of the order manager
    whatever the command line says, since its core follows the fourth matching
    core even when fewer matching threads run. *)
Theorem oms_and_market_data_share_a_core (args : list (list Z)) :
  validate (configured args) = true ->
  exists r s, r ∈ thread_table (assign_cores (configured args)) /\
    s ∈ thread_table (assign_cores (configured args)) /\
    reg_thread r = Oms /\ reg_thread s = MarketData /\ reg_cpu r = 10 /\ reg_cpu s = 10.
Proof.
  intros Hv%validate_counts. pose proof (configured_fixed args) as Hf.
  assert (cpu_match_cores (configured args) = [6; 7; 8; 9; 0; 0; 0; 0] /\
          cpu_start_core (configured args) = 0) as [Hc Hz] by by injection Hf.
  assert ((cpu_match_cores (assign_cores (configured args))).[3] = 9) as H9.
  { unfold assign_cores. cbn [cpu_match_cores set_cores]. rewrite Hc, Hz.
    rewrite !elem_of_cons, elem_of_nil in Hv. by repeat destruct Hv as [->|Hv]. }
  exists (Reg Oms BT_THREAD_CLASS_WARM 10 70 200000), (Reg MarketData BT_THREAD_CLASS_WARM 10 50 100000).
  unfold thread_table. rewrite H9. split_and!; try done; apply elem_of_app; left.
  - by do 2 right; left.
  - by do 4 right; left.
Qed.

(** When the sequencer cannot be created, [main] returns while the threads
    started before it run, and the journal is neither flushed nor closed. *)
Theorem fatal_exit_abandons_threads :
  let e := Env true true true true (fun c => negb (bool_decide (c = Sequencer))) (fun _ => true) 0 [] in
  fst (main e []) = Exit 1 /\
  starts (snd (main e [])) = [Clearing; MarketData; Match 0; Match 1; Match 2; Match 3] /\
  stops (snd (main e [])) = [] /\
  Forall (fun a => a <> AJournalFlush /\ a <> AJournalClose) (snd (main e [])).
Proof. split_and!; [reflexivity..|]. vm_compute. repeat constructor; discriminate. Qed.

(** ** Witnesses *)

Definition all_granted : env := Env true true true true (fun _ => true) (fun _ => true) 0 [1000000000; 6000000000].

Lemma orderly_lifecycle_witness :
  exists t1 t2 t3,
    main all_granted [] = (Exit 0, t1 ++ t2 ++ [AJournalFlush; AJournalClose] ++ t3) /\
    NoDup (starts t1) /\ stops t2 ≡ₚ starts t1.
Proof.
  destruct (orderly_lifecycle all_granted []) as (t1 & t2 & t3 & E & Hnd & _ & _ & _ & Hp & _);
    [done|by do 2 right; left|].
  by exists t1, t2, t3.
Defined.

Lemma matching_thread_counts_witness :
  main all_granted [cstr "--matching-threads"; cstr "3"] = (Exit 1, []) /\
  fst (main all_granted [cstr "--matching-threads"; cstr "2"]) <> OutOfBounds /\
  exists t, main all_granted [cstr "--matching-threads"; cstr "8"] = (OutOfBounds, t).
Proof.
  split_and!.
  - apply (matching_thread_counts all_granted [cstr "--matching-threads"; cstr "3"]).
    apply (bool_decide_unpack _). reflexivity.
  - apply (matching_thread_counts all_granted [cstr "--matching-threads"; cstr "2"]).
    by right; left.
  - destruct (matching_thread_counts all_granted [cstr "--matching-threads"; cstr "8"])
      as (_ & _ & H8). destruct H8 as (t & E & _); [reflexivity..|]. by exists t.
Defined.
