(* ===== verification/Resources.v ===== *)
(** * Resources and wiring of the platform

    [main] of [src/src/main.c] owns the memory pool, the journal, the event bus,
    the risk state and the queues, and hands pointers to them to the components
    it creates. This file says which component holds which pointer, as the
    arguments of the calls in [main] do, and replays the trace of [Lifecycle]
    on a table of what is initialised, created and running. A replay gets stuck
    at a use before initialisation, a second initialisation, a use after
    release, a release under a running thread, a second start or a stop of what
    does not run. *)

From stdpp Require Import sorting.
From S2P Require Import Prelude CTypes GwParse Config Lifecycle.

Inductive resource := Mempool | JournalFile | EventBus | RiskState | QueueOf (q : queue_name).

#[global] Instance queue_name_eq : EqDecision queue_name.
Proof. solve_decision. Defined.
#[global] Instance resource_eq : EqDecision resource.
Proof. solve_decision. Defined.

#[global] Instance component_countable : Countable component.
Proof.
  refine (inj_countable'
    (fun c => match c with
     | Gateway => (0, 0) | OrderGate => (1, 0) | Oms => (2, 0) | Sequencer => (3, 0)
     | MarketData => (4, 0) | Clearing => (5, 0) | Risk i => (6, i) | Match i => (7, i) end)
    (fun p => match p with
     | (0, _) => Gateway | (1, _) => OrderGate | (2, _) => Oms | (3, _) => Sequencer
     | (4, _) => MarketData | (5, _) => Clearing | (6, i) => Risk i | (_, i) => Match i end) _).
  by intros [].
Defined.

#[global] Instance queue_name_countable : Countable queue_name.
Proof.
  refine (inj_countable'
    (fun q => match q with
     | g_gate_out_q => (0, 0) | g_gate_oms_q => (1, 0) | g_risk_in_q => (2, 0) | g_seq_in_q => (3, 0)
     | g_response_q => (4, 0) | g_match_in_q i => (5, i) | g_md_q i => (6, i) end)
    (fun p => match p with
     | (0, _) => g_gate_out_q | (1, _) => g_gate_oms_q | (2, _) => g_risk_in_q | (3, _) => g_seq_in_q
     | (4, _) => g_response_q | (5, i) => g_match_in_q i | (_, i) => g_md_q i end) _).
  by intros [].
Defined.

#[global] Instance resource_countable : Countable resource.
Proof.
  refine (inj_countable'
    (fun r => match r with
     | Mempool => inl 0 | JournalFile => inl 1 | EventBus => inl 2 | RiskState => inl 3
     | QueueOf q => inr q end)
    (fun p => match p with
     | inl 0 => Mempool | inl 1 => JournalFile | inl 2 => EventBus | inl _ => RiskState
     | inr q => QueueOf q end) _).
  by intros [].
Defined.

(** ** Wiring *)

(** The queues [main] hands a component to take messages from, and those it
    hands it to put messages in, with [n] matching shards: the arguments of the
    call that creates or starts it, whose parameters say in the headers which is
    which. *)
Definition reads (c : component) : list queue_name :=
  match c with
  | Gateway => [g_response_q]
  | OrderGate => [g_gate_out_q]
  | Oms => [g_gate_oms_q]
  | Risk _ => [g_risk_in_q]
  | Sequencer => [g_seq_in_q]
  | Match i => [g_match_in_q i]
  | MarketData => [g_md_q 0]
  | Clearing => []
  end.

Definition writes (n : Z) (c : component) : list queue_name :=
  match c with
  | Gateway => [g_gate_out_q]
  | OrderGate => [g_gate_oms_q]
  | Oms => [g_risk_in_q]
  | Risk _ => [g_seq_in_q]
  | Sequencer => g_match_in_q <$> seqZ 0 n
  | Match i => [g_md_q i; g_response_q]
  | MarketData | Clearing => []
  end.

(** A component takes from a queue, or fills it, when it was handed the queue and
    exists: [main] goes on without most of those it could not create. *)
Definition takes (e : env) (q : queue_name) (c : component) : Prop :=
  e_create e c = true /\ q ∈ reads c.
Definition fills (e : env) (n : Z) (q : queue_name) (p : component) : Prop :=
  e_create e p = true /\ q ∈ writes n p.

(** The other objects it is handed. *)
Definition holds (c : component) : list resource :=
  match c with
  | Clearing => [EventBus]
  | Match _ => [Mempool; JournalFile; EventBus]
  | Sequencer => [JournalFile]
  | Risk _ => [RiskState]
  | _ => []
  end.

Definition uses (n : Z) (c : component) : gset resource :=
  list_to_set (holds c ++ (QueueOf <$> reads c ++ writes n c)).

(** ** The table *)

Record rstate := RState {
  live : gset resource;        (* initialised and not released *)
  alive : gset component;      (* created and not destroyed *)
  running : gset component;    (* started and not stopped *)
}.

Definition rstart : rstate := RState ∅ ∅ ∅.

Section replay.
Context (e : env) (n : Z).

Definition permit (b : bool) (st : rstate) : option rstate := if b then Some st else None.

Definition init (r : resource) (st : rstate) : rstate :=
  RState ({[r]} ∪ live st) (alive st) (running st).

(** A call that may fail makes the resource, which must not exist already. *)
Definition acquire (granted : bool) (r : resource) (st : rstate) : option rstate :=
  permit (bool_decide (r ∉ live st)) (if granted then init r st else st).

(** No running thread holds the resource. *)
Definition unused (r : resource) (st : rstate) : bool :=
  bool_decide (set_Forall (fun c => r ∉ uses n c) (running st)).

Definition release (r : resource) (st : rstate) : option rstate :=
  permit (bool_decide (r ∈ live st) && unused r st)
        (RState (live st ∖ {[r]}) (alive st) (running st)).

Definition needs (r : resource) (st : rstate) : option rstate := permit (bool_decide (r ∈ live st)) st.

Definition rstep (st : rstate) (a : action) : option rstate :=
  match a with
  | ARegister _ | AValidateSched | ASignals | ALogInit | ATimerCalibrate | ARecoveryReplay _
  | ALogFlush => Some st
  | AMempoolInit _ _ => acquire (e_mempool e) Mempool st
  | AJournalOpen _ _ => acquire (e_journal e) JournalFile st
  | AEventBusCreate _ => acquire (e_event_bus e) EventBus st
  | ARiskStateCreate => acquire (e_risk_state e) RiskState st
  | AQueueInit q => permit (unused (QueueOf q) st) (init (QueueOf q) st)
  | ASafeMode => needs RiskState st
  | AAssignArena => needs Mempool st
  | ACreate c _ =>
      permit (bool_decide (c ∉ alive st) && bool_decide (uses n c ⊆ live st))
            (if e_create e c then RState (live st) ({[c]} ∪ alive st) (running st) else st)
  | AStart c =>
      permit (bool_decide (c ∈ alive st) && bool_decide (c ∉ running st) &&
             bool_decide (uses n c ⊆ live st))
            (if e_start e c then RState (live st) (alive st) ({[c]} ∪ running st) else st)
  | ABenchmark _ _ => needs (QueueOf g_gate_out_q) st
  | AHealth _ =>
      permit (implb (e_journal e) (bool_decide (JournalFile ∈ live st)) &&
             implb (e_create e Sequencer) (bool_decide (Sequencer ∈ alive st)) &&
             implb (e_event_bus e) (bool_decide (EventBus ∈ live st)) &&
             implb (e_create e Clearing) (bool_decide (Clearing ∈ alive st)) &&
             implb (e_create e OrderGate) (bool_decide (OrderGate ∈ alive st))) st
  | AStop c =>
      permit (bool_decide (c ∈ running st)) (RState (live st) (alive st) (running st ∖ {[c]}))
  | ADestroy c =>
      permit (bool_decide (c ∈ alive st) && bool_decide (c ∉ running st))
            (RState (live st) (alive st ∖ {[c]}) (running st))
  | AJournalFlush => needs JournalFile st
  | AJournalClose => release JournalFile st
  | AEventBusDestroy => release EventBus st
  | ARiskStateDestroy => release RiskState st
  | AMempoolDestroy => release Mempool st
  end.

Fixpoint replay (st : rstate) (t : list action) : option rstate :=
  match t with
  | [] => Some st
  | a :: t => match rstep st a with Some st => replay st t | None => None end
  end.

Lemma replay_app st t1 t2 :
  replay st (t1 ++ t2) = match replay st t1 with Some st => replay st t2 | None => None end.
Proof. revert st. induction t1 as [|a t1 IH]; intros st; [done|]. cbn. case_match; [apply IH|done]. Qed.

(** ** Triples

    [ok P m Q]: from a table with [P] the trace of [m] replays to its end; if the
    computation goes on the table has [Q], and if it ends the program it does
    so with an error. *)
Definition ok {A} (P : rstate -> Prop) (m : M A) (Q : rstate -> Prop) : Prop :=
  forall st, P st -> exists st', replay st (snd m) = Some st' /\
    match fst m with Go _ => Q st' | Exit c => c = 1 | OutOfBounds => True end.

Lemma ok_bind {A B} P Q R (m : M A) (f : A -> M B) :
  ok P m Q -> (forall x, ok Q (f x) R) -> ok P (bindM m f) R.
Proof.
  intros Hm Hf st Hst. destruct (Hm st Hst) as (st1 & E1 & H1).
  destruct m as [[x|c|] t]; cbn [bindM fst snd] in *; [|by exists st1..].
  destruct (Hf x st1 H1) as (st2 & E2 & H2). destruct (f x) as [r t']. cbn [fst snd] in *.
  exists st2. by rewrite replay_app, E1.
Qed.

Lemma ok_weaken {A} (P P' Q Q' : rstate -> Prop) (m : M A) :
  ok P m Q -> (forall st, P' st -> P st) -> (forall st, Q st -> Q' st) -> ok P' m Q'.
Proof.
  intros Hm HP HQ st Hst. destruct (Hm st (HP st Hst)) as (st' & E & H).
  exists st'. split; [done|]. destruct (fst m); [by apply HQ|done..].
Qed.

Lemma ok_ret P : ok P (retM tt) P.
Proof. intros st Hst. by exists st. Qed.

(** A fact about the environment that the table carries along. *)
Lemma ok_pure {A} (F : Prop) P Q (m : M A) : (F -> ok P m Q) -> ok (fun st => F /\ P st) m Q.
Proof. intros H st [HF HP]. by apply H. Qed.

(** A single action, and one that is made when [b] holds. *)
Lemma ok_act P Q a : (forall st, P st -> exists st', rstep st a = Some st' /\ Q st') -> ok P (act a) Q.
Proof. intros H st Hst. destruct (H st Hst) as (st' & E & HQ). exists st'. cbn. by rewrite E. Qed.

Lemma ok_when P Q (b : bool) a :
  (b = true -> ok P (act a) Q) -> (b = false -> forall st, P st -> Q st) -> ok P (when b a) Q.
Proof. intros Ht Hf. destruct b; [by apply Ht|]. intros st Hst. exists st. split; [done|by apply Hf]. Qed.

Lemma ok_or_fatal (P Q : rstate -> Prop) (b : bool) :
  (b = true -> forall st, P st -> Q st) -> ok P (or_fatal b) Q.
Proof. intros H st Hst. exists st. destruct b; cbn; [split; [done|by apply H]|done]. Qed.

Lemma ok_slot P size i : 0 <= i < size -> ok P (slot size i) P.
Proof. intros Hi. rewrite slot_ok by done. apply ok_ret. Qed.

Lemma ok_acts P l : (forall a st, a ∈ l -> P st -> exists st', rstep st a = Some st' /\ P st') -> ok P (acts l) P.
Proof.
  intros H st Hst. unfold acts. cbn [fst snd]. revert st Hst. induction l as [|a l IH]; intros st Hst; [by exists st|].
  destruct (H a st ltac:(left) Hst) as (st1 & E & H1). cbn. rewrite E. apply IH; [|done].
  intros a' st' Ha. apply H. by right.
Qed.

(** A loop with an invariant on the indices done. *)
Lemma ok_for (I : Z -> rstate -> Prop) k f :
  0 <= k -> (forall i, 0 <= i < k -> ok (I i) (f i) (I (i + 1))) -> ok (I 0) (for_n k f) (I k).
Proof.
  intros Hk Hf. unfold for_n. replace k with (0 + Z.of_nat (Z.to_nat k)) at 2 by lia.
  replace (seqZ 0 k) with (seqZ 0 (Z.of_nat (Z.to_nat k))) by (f_equal; lia).
  assert (forall j, 0 <= j -> j + Z.of_nat (Z.to_nat k) <= k -> 
    ok (I j) (each (seqZ j (Z.of_nat (Z.to_nat k))) f) (I (j + Z.of_nat (Z.to_nat k)))) as H; [|apply H; lia].
  induction (Z.to_nat k) as [|m IH]; intros j Hj Hle.
  { rewrite Z.add_0_r. apply ok_ret. }
  rewrite seqZ_cons by lia. cbn [each]. eapply ok_bind; [apply Hf; lia|]. intros _.
  replace (Z.pred (Z.of_nat (S m))) with (Z.of_nat m) by lia.
  replace (j + Z.of_nat (S m)) with (Z.succ j + Z.of_nat m) by lia.
  replace (j + 1) with (Z.succ j) by lia. apply IH; lia.
Qed.

Lemma ok_for_same P k f : 0 <= k -> (forall i, 0 <= i < k -> ok P (f i) P) -> ok P (for_n k f) P.
Proof. apply (ok_for (fun _ => P)). Qed.

End replay.

(** ** The parts of [main] *)

Section parts.
Context (e : env) (cfg : bt_runtime_config) (Hb : in_bounds cfg).
Local Abbreviation n := (matching_threads cfg).
Local Abbreviation created := (fun c => Is_true (e_create e c)).

Definition static_queues : list queue_name :=
  [g_gate_out_q; g_gate_oms_q; g_risk_in_q; g_seq_in_q; g_response_q].

Definition queues (k : Z) : gset resource :=
  list_to_set (QueueOf <$> static_queues ++ (seqZ 0 k ≫= fun i => [g_match_in_q i; g_md_q i])).

(** Everything [main] initialises. *)
Definition equipment (k : Z) : gset resource :=
  {[RiskState]} ∪ (({[EventBus]} ∪ ({[JournalFile]} ∪ ({[Mempool]} ∪ ∅))) ∪ queues k).

(** The components of a list that could be created. *)
Definition made (cs : list component) : gset component := list_to_set (filter created cs).

Lemma elem_of_made c cs : c ∈ made cs <-> c ∈ cs /\ e_create e c = true.
Proof.
  unfold made. rewrite elem_of_list_to_set, list_elem_of_filter.
  destruct (e_create e c); cbn; naive_solver.
Qed.

(** The resources [L] are live and the components made of [cs] run. *)
Definition up (L : gset resource) (cs : list component) (st : rstate) : Prop :=
  st = RState L (made cs) (made cs).

(** Resources alone. *)
Definition idle (L : gset resource) (st : rstate) : Prop := st = RState L ∅ ∅.

Lemma unused_idle r st : running st = ∅ -> unused n r st = true.
Proof. intros H. unfold unused. rewrite H. apply bool_decide_eq_true. apply set_Forall_empty. Qed.

(** A call that may fail, and the exit that follows its failure. *)
Lemma ok_acquire (b : bool) r L a :
  r ∉ L -> (forall st, rstep e n st a = acquire b r st) ->
  ok e n (idle L) (act a) (fun st => b = true -> idle ({[r]} ∪ L) st).
Proof.
  intros Hr Ha. apply ok_act. intros st ->. rewrite Ha. unfold acquire. cbn [live].
  rewrite bool_decide_true by done. eexists. split; [done|]. by intros ->.
Qed.

Lemma ok_granted (b : bool) (P : rstate -> Prop) :
  ok e n (fun st => b = true -> P st) (or_fatal b) (fun st => b = true /\ P st).
Proof. apply ok_or_fatal. intros Hb' st Hst. split; [done|exact (Hst Hb')]. Qed.

(** Actions that leave the table alone. *)
Lemma ok_quiet P l : (forall a st, a ∈ l -> rstep e n st a = Some st) -> ok e n P (acts l) P.
Proof. intros H. apply ok_acts. intros a st Ha Hst. exists st. split; [by apply H|done]. Qed.

Lemma boot_ok :
  ok e n (idle ∅) (boot e cfg) (fun st => (e_journal e = true /\ e_event_bus e = true) /\
    idle ({[EventBus]} ∪ ({[JournalFile]} ∪ ({[Mempool]} ∪ ∅))) st).
Proof using.
  clear Hb. unfold boot.
  eapply ok_bind; [apply ok_quiet|intros _]. { by intros a st [r [-> _]]%list_elem_of_fmap. }
  eapply ok_bind; [apply ok_quiet|intros _].
  { intros a st Ha. repeat (apply elem_of_cons in Ha as [->|Ha]; [done|]). by apply elem_of_nil in Ha. }
  eapply ok_bind; [by apply (ok_acquire (e_mempool e) Mempool); [set_solver|]|intros _].
  eapply ok_bind; [apply ok_granted|intros _; apply ok_pure; intros _].
  eapply ok_bind; [by apply (ok_acquire (e_journal e) JournalFile); [set_solver|]|intros _].
  eapply ok_bind; [apply ok_granted|intros _; apply ok_pure; intros Hj].
  eapply ok_bind; [apply (ok_quiet _ [ARecoveryReplay _]); by intros a st ->%list_elem_of_singleton|intros _].
  eapply ok_bind; [by apply (ok_acquire (e_event_bus e) EventBus); [set_solver|]|intros _].
  eapply ok_weaken; [apply ok_granted|intros st Hst; exact Hst|naive_solver].
Qed.

(** Initialising queues while nothing runs. *)
Lemma queues_replay L qs :
  replay e n (RState L ∅ ∅) (map AQueueInit qs) = Some (RState (L ∪ list_to_set (QueueOf <$> qs)) ∅ ∅).
Proof using.
  clear Hb.
  revert L. induction qs as [|q qs IH]; intros L; cbn [map replay fmap list_fmap].
  { do 2 f_equal. set_solver. }
  cbn [rstep]. rewrite unused_idle by done. unfold permit, init. cbn [live alive running].
  rewrite IH. do 2 f_equal. set_solver.
Qed.

Lemma init_queues_ok L : ok e n (idle L) (init_queues cfg) (idle (L ∪ queues n)).
Proof using Hb.
  destruct Hb as [Hm _]. unfold init_queues, for_n.
  rewrite (each_go _ _ (fun i => [AQueueInit (g_match_in_q i); AQueueInit (g_md_q i)])).
  2:{ intros i Hi%elem_of_seqZ. rewrite slot_ok by lia. done. }
  intros st ->. unfold acts. rewrite go_then. cbn [fst snd].
  replace (map AQueueInit static_queues ++ (seqZ 0 n ≫= fun i => [AQueueInit (g_match_in_q i); AQueueInit (g_md_q i)]))
    with (map AQueueInit (static_queues ++ (seqZ 0 n ≫= fun i => [g_match_in_q i; g_md_q i]))).
  - fold static_queues. rewrite queues_replay. by eexists.
  - rewrite map_app. f_equal. generalize (seqZ 0 n) as l. induction l as [|i l IH]; [done|].
    cbn. do 2 f_equal. exact IH.
Qed.

Lemma init_risk_ok L :
  RiskState ∉ L -> ok e n (idle L) (init_risk e cfg) (fun st => e_risk_state e = true /\ idle ({[RiskState]} ∪ L) st).
Proof using.
  clear Hb.
  intros HL. unfold init_risk. eapply ok_bind; [by apply (ok_acquire (e_risk_state e) RiskState)|intros _].
  eapply ok_bind; [apply ok_granted|].
  intros _. apply ok_pure. intros Hrs. apply ok_when; [|by intros _ st Hst]. intros _. apply ok_act.
  intros st ->. eexists. split; [|by split]. cbn. unfold needs. cbn [live].
  by rewrite bool_decide_true by set_solver.
Qed.

(** ** Starting and stopping *)

Lemma member c : (exists i, 0 <= i < risk_threads cfg /\ c = Risk i) \/
  (exists i, 0 <= i < n /\ c = Match i) \/
  c ∈ [Gateway; OrderGate; Oms; Sequencer; MarketData; Clearing] -> c ∈ components cfg.
Proof using.
  clear Hb.
  unfold components. rewrite !elem_of_app, !list_elem_of_fmap. setoid_rewrite elem_of_seqZ.
  intros [(i & ? & ->)|[(i & ? & ->)|H]].
  - right; left. exists i. split; [done|lia].
  - do 3 right; left. exists i. split; [done|lia].
  - set_solver.
Qed.

Context (L : gset resource) (Huse : forall c, c ∈ components cfg -> uses n c ⊆ L)
  (Hmem : Mempool ∈ L) (Hstart : forall c, e_create e c = true -> e_start e c = true).

Lemma made_snoc cs c : made (cs ++ [c]) = if e_create e c then {[c]} ∪ made cs else made cs.
Proof using.
  clear Hb Huse Hmem Hstart.
  apply set_eq. intros d. rewrite elem_of_made, elem_of_app, list_elem_of_singleton.
  destruct (e_create e c) eqn:E; rewrite ?elem_of_union, ?elem_of_singleton, elem_of_made;
    naive_solver congruence.
Qed.

Lemma made_cons c cs : made (c :: cs) = if e_create e c then {[c]} ∪ made cs else made cs.
Proof using.
  clear Hb Huse Hmem Hstart.
  change (c :: cs) with ([c] ++ cs). rewrite <- made_snoc.
  apply set_eq. intros d. rewrite !elem_of_made, !elem_of_app. naive_solver.
Qed.

Lemma not_made c cs : c ∉ cs -> c ∉ made cs.
Proof using. intros Hc [Hin _]%elem_of_made. done. Qed.

Lemma launch_ok cs c cpu :
  c ∈ components cfg -> c ∉ cs -> ok e n (up L cs) (launch e c cpu) (up L (cs ++ [c])).
Proof using Huse Hstart.
  clear Hb Hmem. intros Hc Hn st ->. pose proof (not_made c cs Hn) as Hnm. unfold launch, act, when. rewrite go_then.
  cbn [fst snd app replay rstep alive live running].
  rewrite !(bool_decide_true (_ ∉ _)), bool_decide_true by (done || by apply Huse).
  unfold up. rewrite made_snoc. cbn [andb permit].
  destruct (e_create e c) eqn:E; cbn [replay rstep alive live running]; [|by eexists].
  rewrite (bool_decide_true (_ ∈ _)), (bool_decide_true (_ ∉ _)), (bool_decide_true (_ ⊆ _)), (Hstart c E)
    by (set_solver || done || by apply Huse).
  by eexists.
Qed.

(** A component per index. *)
Lemma up_for (f : Z -> component) (body : Z -> M unit) k cs :
  0 <= k -> (forall i, 0 <= i < k ->
    ok e n (up L (cs ++ (f <$> seqZ 0 i))) (body i) (up L ((cs ++ (f <$> seqZ 0 i)) ++ [f i]))) ->
  ok e n (up L cs) (for_n k body) (up L (cs ++ (f <$> seqZ 0 k))).
Proof using.
  intros Hk Hbody.
  assert (ok e n (up L (cs ++ (f <$> seqZ 0 0))) (for_n k body) (up L (cs ++ (f <$> seqZ 0 k)))) as H.
  { apply (ok_for e n (fun i => up L (cs ++ (f <$> seqZ 0 i)))); [done|].
    intros i Hi. rewrite (seqZ_app 0 i 1), fmap_app, app_assoc by lia. by apply Hbody. }
  eapply ok_weaken; [exact H| |done]. intros st Hst. by rewrite app_nil_r.
Qed.

(** A component that is not in a list of others. *)
Ltac not_listed := rewrite ?not_elem_of_app, ?not_elem_of_cons, ?list_elem_of_fmap; repeat split;
  try done; try apply not_elem_of_nil; intros (? & ? & ?%elem_of_seqZ); simplify_eq; lia.

(** The sequencer is created and started in two steps. *)
Definition sequencer_made cs (st : rstate) : Prop :=
  e_create e Sequencer = true /\ st = RState L ({[Sequencer]} ∪ made cs) (made cs).

Lemma create_sequencer cs : Sequencer ∉ cs ->
  ok e n (up L cs) (act (ACreate Sequencer 11)) (fun st => e_create e Sequencer = true -> sequencer_made cs st).
Proof using Huse.
  clear Hb Hmem Hstart. intros Hn. apply ok_act. intros st ->. cbn [rstep alive live].
  rewrite (bool_decide_true (_ ∉ _)), (bool_decide_true (_ ⊆ _))
    by ((by apply not_made) || (apply Huse, member; set_solver)).
  eexists. split; [done|]. intros Hs. by rewrite Hs.
Qed.

Lemma start_sequencer cs : Sequencer ∉ cs ->
  ok e n (sequencer_made cs) (act (AStart Sequencer)) (up L (cs ++ [Sequencer])).
Proof using Huse Hstart.
  clear Hb Hmem. intros Hn. apply ok_act. intros st [Hs ->]. cbn [rstep alive live running].
  rewrite (bool_decide_true (_ ∈ _)), (bool_decide_true (_ ∉ _)), (bool_decide_true (_ ⊆ _))
    by (set_solver || (by apply not_made) || (apply Huse, member; set_solver)).
  eexists. split; [done|]. unfold up. by rewrite made_snoc, Hs, (Hstart _ Hs).
Qed.

Lemma needs_ok cs r a :
  r ∈ L -> (forall st, rstep e n st a = needs r st) -> ok e n (up L cs) (act a) (up L cs).
Proof using.
  intros Hr Ha. apply ok_act. intros st ->. eexists. split; [|done].
  rewrite Ha. unfold needs. cbn. by rewrite bool_decide_true.
Qed.

Lemma start_all_ok : ok e n (up L []) (start_all e cfg) (up L (start_order cfg)).
Proof using Hb Huse Hmem Hstart.
  destruct Hb as [Hm Hr]. unfold start_all.
  eapply ok_bind; [apply launch_ok; [apply member; set_solver|not_listed]|intros _].
  eapply ok_bind; [apply launch_ok; [apply member; set_solver|not_listed]|intros _].
  eapply ok_bind; [apply (up_for Match); [lia|intros i Hi]|intros _].
  { eapply ok_bind; [by apply (needs_ok _ Mempool)|intros _]. eapply ok_bind; [apply ok_slot; lia|intros _].
    apply launch_ok; [apply member; right; left; by exists i|not_listed]. }
  eapply ok_bind; [apply create_sequencer; not_listed|intros _].
  eapply ok_bind; [apply ok_granted|intros _; apply ok_pure; intros _].
  eapply ok_bind; [apply ok_for_same; [lia|intros i Hi; apply ok_slot; lia]|intros _].
  eapply ok_bind; [apply start_sequencer; not_listed|intros _].
  eapply ok_bind; [apply (up_for Risk); [lia|intros i Hi]|intros _].
  { eapply ok_bind; [apply ok_slot; lia|intros _].
    apply launch_ok; [apply member; left; by exists i|not_listed]. }
  eapply ok_bind; [apply launch_ok; [apply member; set_solver|not_listed]|intros _].
  eapply ok_bind; [apply launch_ok; [apply member; set_solver|not_listed]|intros _].
  match goal with |- ok _ _ (up L ?cs) _ _ =>
    replace (start_order cfg) with (cs ++ [Gateway]) by (unfold start_order; by rewrite <- !app_assoc)
  end.
  apply launch_ok; [apply member; set_solver|not_listed].
Qed.

(** The wait loop reads the statistics of what is up. *)
Lemma wait_loop_ok cs last nows :
  (forall c, c ∈ [Sequencer; Clearing; OrderGate] -> c ∈ cs) -> JournalFile ∈ L -> EventBus ∈ L ->
  ok e n (up L cs) (wait_loop last nows) (up L cs).
Proof using.
  clear Hb Huse Hmem Hstart.
  intros Hcs Hj Hbus. revert last. induction nows as [|now nows IH]; intros last; cbn [wait_loop]; [apply ok_ret|].
  case_match; [|apply IH]. eapply ok_bind; [|intros _; apply IH].
  apply ok_acts. intros a st Ha ->. eexists. split; [|done].
  apply elem_of_cons in Ha as [->| ->%list_elem_of_singleton]; [|done]. cbn [rstep live alive].
  assert (forall c, c ∈ [Sequencer; Clearing; OrderGate] ->
    implb (e_create e c) (bool_decide (c ∈ made cs)) = true) as Hc.
  { intros c Hc. destruct (e_create e c) eqn:E; [|done]. cbn.
    apply bool_decide_eq_true, elem_of_made. split; [by apply Hcs|done]. }
  rewrite !Hc, !(bool_decide_true (_ ∈ L)) by (done || set_solver). by destruct (e_journal e), (e_event_bus e).
Qed.

(** A call on every component that was created takes them out of a set. *)
Lemma visits_replay (f : component -> action) (table : gset component -> rstate) cs S :
  (forall S c, c ∈ S -> rstep e n (table S) (f c) = Some (table (S ∖ {[c]}))) ->
  NoDup cs -> made cs ⊆ S ->
  replay e n (table S) (cs ≫= visit e f) = Some (table (S ∖ made cs)).
Proof using.
  clear Hb Huse Hmem Hstart.
  intros Hf Hnd. revert S. induction Hnd as [|c cs Hc _ IH]; intros S Hsub.
  { cbn. do 2 f_equal. unfold made. set_solver. }
  rewrite bind_cons, replay_app. unfold visit. pose proof (not_made c cs Hc) as Hcm.
  rewrite made_cons in *. destruct (e_create e c); cbn [replay].
  - rewrite Hf, IH by set_solver. do 2 f_equal. set_solver.
  - rewrite IH by set_solver. done.
Qed.

Lemma stops_replay cs A R :
  NoDup cs -> made cs ⊆ R ->
  replay e n (RState L A R) (cs ≫= visit e AStop) = Some (RState L A (R ∖ made cs)).
Proof using. apply (visits_replay AStop (RState L A)). intros S c Hc. cbn. by rewrite bool_decide_true. Qed.

Lemma destroys_replay L' cs A :
  NoDup cs -> made cs ⊆ A ->
  replay e n (RState L' A ∅) (cs ≫= visit e ADestroy) = Some (RState L' (A ∖ made cs) ∅).
Proof using.
  clear Hb Huse Hmem Hstart.
  apply (visits_replay ADestroy (fun A => RState L' A ∅)). intros S c Hc. cbn.
  by rewrite (bool_decide_true (_ ∈ _)), (bool_decide_true (_ ∉ _)) by set_solver.
Qed.

Lemma release_idle r K A : r ∈ K -> release n r (RState K A ∅) = Some (RState (K ∖ {[r]}) A ∅).
Proof using. intros Hr. unfold release. by rewrite unused_idle, bool_decide_true by done. Qed.

Lemma shutdown_ok cs :
  e_journal e = true -> e_event_bus e = true -> e_risk_state e = true ->
  NoDup (components cfg) -> cs ≡ₚ components cfg ->
  JournalFile ∈ L -> EventBus ∈ L -> RiskState ∈ L ->
  ok e n (up L cs) (shutdown e cfg)
     (idle (L ∖ {[JournalFile]} ∖ {[EventBus]} ∖ {[RiskState]} ∖ {[Mempool]})).
Proof using Hb Hmem.
  clear Huse Hstart. intros Hej Hee Her Hnd Hp Hj Hbus Hrs st ->.
  assert (made cs = made (components cfg)) as ->.
  { apply set_eq. intros c. by rewrite !elem_of_made, Hp. }
  unfold shutdown, when, act. rewrite !for_components_go, Hej, Hee, Her by done. rewrite !go_then.
  cbn [fst snd]. eexists. split; [|done].
  cbn [app replay rstep]. rewrite replay_app, stops_replay, difference_diag_L by done.
  cbn [app replay rstep]. unfold needs. cbn [live]. rewrite bool_decide_true by done. cbn [permit].
  rewrite release_idle, replay_app, destroys_replay, difference_diag_L by done.
  cbn [app replay rstep]. by rewrite !release_idle by set_solver.
Qed.

End parts.

(** ** The whole of [main] *)

(** [ends P m Q]: the trace of a computation that ends the program replays, and
    the table has [Q] when the program reports success. *)
Definition ends {A} (e : env) (n : Z) (P : rstate -> Prop) (m : M A) (Q : rstate -> Prop) : Prop :=
  forall st, P st -> exists st', replay e n st (snd m) = Some st' /\ (fst m = Exit 0 -> Q st').

Lemma ends_bind {A B} e n P Q R (m : M A) (f : A -> M B) :
  ok e n P m Q -> (forall x, ends e n Q (f x) R) -> ends e n P (bindM m f) R.
Proof.
  intros Hm Hf st Hst. destruct (Hm st Hst) as (st1 & E1 & H1).
  destruct m as [[x|c|] t]; cbn [bindM fst snd] in *; [|by exists st1; simplify_eq..].
  destruct (Hf x st1 H1) as (st2 & E2 & H2). destruct (f x) as [r t']. cbn [fst snd] in *.
  exists st2. by rewrite replay_app, E1.
Qed.

Lemma ends_pure {A} e n (F : Prop) P Q (m : M A) :
  (F -> ends e n P m Q) -> ends e n (fun st => F /\ P st) m Q.
Proof. intros H st [HF HP]. by apply H. Qed.

Lemma ends_exit {A} e n P code : ends e n P (@exit A code) P.
Proof. intros st Hst. by exists st. Qed.

Lemma elem_of_queues r k : r ∈ queues k -> exists q, r = QueueOf q.
Proof. unfold queues. intros (q & -> & _)%elem_of_list_to_set%list_elem_of_fmap. by exists q. Qed.

(** What is left when the four objects are released. *)
Lemma equipment_released k :
  equipment k ∖ {[JournalFile]} ∖ {[EventBus]} ∖ {[RiskState]} ∖ {[Mempool]} = queues k.
Proof.
  apply set_eq. intros r. unfold equipment. split; [set_solver|]. intros Hr.
  pose proof (elem_of_queues r k Hr) as [q ->]. set_solver.
Qed.

(** Every pointer [main] hands out refers to something it initialises. *)
Lemma uses_equipment args :
  matching_threads (configured args) ∈ [1; 2; 4] ->
  let cfg := assign_cores (configured args) in
  forall c, c ∈ components cfg -> uses (matching_threads cfg) c ⊆ equipment (matching_threads cfg).
Proof.
  intros Hn cfg. apply Forall_forall. unfold cfg, components. rewrite assigned_risk, assigned_matching.
  rewrite !elem_of_cons, elem_of_nil in Hn.
  repeat destruct Hn as [->|Hn]; [| | |done]; apply (bool_decide_unpack _); vm_compute; exact I.
Qed.

Lemma risk_state_new k : RiskState ∉ {[EventBus]} ∪ ({[JournalFile]} ∪ ({[Mempool]} ∪ ∅)) ∪ queues k.
Proof. intros H. assert (RiskState ∈ queues k) as [q E]%elem_of_queues by set_solver. done. Qed.

Lemma main_ends e args :
  matching_threads (configured args) ∈ [1; 2; 4] ->
  (forall c, e_create e c = true -> e_start e c = true) ->
  let n := matching_threads (configured args) in
  ends e n (idle ∅) (main e args) (idle (queues n)).
Proof.
  intros Hn Hst0 n. destruct (components_ok args Hn) as (Hb & Hnd & Hp & _).
  pose proof (uses_equipment args Hn) as Huse. unfold main.
  change n with (matching_threads (assign_cores (configured args))).
  generalize dependent (assign_cores (configured args)). intros cfg Hb Hnd Hp Huse.
  assert (forall r, r ∈ [RiskState; EventBus; JournalFile; Mempool] -> r ∈ equipment (matching_threads cfg)) as Heq.
  { unfold equipment. set_solver. }
  assert (QueueOf g_gate_out_q ∈ equipment (matching_threads cfg)) as Hout.
  { unfold equipment, queues, static_queues. set_solver. }
  eapply ends_bind; [apply ok_or_fatal; intros _ st Hst; exact Hst|intros _].
  eapply ends_bind; [apply boot_ok|intros _; apply ends_pure; intros [Hj Hbus]].
  eapply ends_bind; [by apply init_queues_ok|intros _].
  eapply ends_bind; [apply init_risk_ok, risk_state_new|intros _; apply ends_pure; intros Hrs]. fold (equipment (matching_threads cfg)).
  eapply (ends_bind _ _ _ _ _ (start_all e cfg)); [|intros _].
  { eapply ok_weaken; [apply (start_all_ok e cfg Hb (equipment _) Huse); [|exact Hst0]|by intros st ->|by intros st Hst].
    apply Heq. set_solver. }
  eapply ends_bind; [apply ok_when; [intros _; by apply (needs_ok _ _ _ _ (QueueOf g_gate_out_q))|by intros _ st Hst]|intros _].
  eapply ends_bind; [apply wait_loop_ok; [|apply Heq; set_solver..]|intros _].
  { intros c Hc. unfold start_order. set_solver. }
  eapply ends_bind; [apply shutdown_ok; try done; apply Heq; set_solver|intros _].
  rewrite equipment_released. apply ends_exit.
Qed.

(** ** The order of producers and consumers *)

Definition before {A} (x y : A) (l : list A) : Prop := exists l1 l2 l3, l = l1 ++ x :: l2 ++ y :: l3.

Lemma sorted_before {A} (R : A -> A -> Prop) (x y : A) l :
  StronglySorted R l -> x ∈ l -> y ∈ l -> ~ R y x -> x <> y -> before x y l.
Proof.
  intros Hl Hx Hy Hn Hne. induction Hl as [|a l Hl IH Ha]; [by apply elem_of_nil in Hx|].
  apply elem_of_cons in Hx as [->|Hx].
  - apply elem_of_cons in Hy as [->|Hy]; [done|].
    apply list_elem_of_split in Hy as (l2 & l3 & ->). by exists [], l2, l3.
  - apply elem_of_cons in Hy as [->|Hy].
    + rewrite Forall_forall in Ha. by destruct Hn; apply Ha.
    + destruct (IH Hx Hy) as (l1 & l2 & l3 & ->). by exists (a :: l1), l2, l3.
Qed.

(** A queue other than the responses leads down the pipeline. *)
Lemma wired_downstream n q p c :
  q ∈ writes n p -> q ∈ reads c -> q <> g_response_q -> stage p < stage c.
Proof.
  intros Hw Hr Hq. destruct c; cbn in Hr; try (apply elem_of_nil in Hr; done);
    apply list_elem_of_singleton in Hr as ->; try done; destruct p; cbn in Hw |- *; try lia;
    exfalso; try (apply list_elem_of_fmap in Hw as (? & ? & _); done); set_solver.
Qed.

(** Every queue that is written has a reader, except the tick queues of the
    shards other than the first. *)
Lemma written_is_read args n q p :
  let cfg := assign_cores (configured args) in
  n = matching_threads cfg -> 1 <= n -> p ∈ components cfg -> q ∈ writes n p ->
  (exists c, c ∈ components cfg /\ q ∈ reads c) \/ exists i, 1 <= i < n /\ q = g_md_q i.
Proof.
  intros cfg Hcfg Hn Hp Hw.
  assert (forall i, 0 <= i < n -> Match i ∈ components cfg) as Hm.
  { intros i Hi. apply member. right; left. exists i. by subst n. }
  assert (forall c, c ∈ [Gateway; OrderGate; Oms; Sequencer; MarketData; Clearing] -> c ∈ components cfg) as Ho.
  { intros c Hc. apply member. by do 2 right. }
  assert (Risk 0 ∈ components cfg) as Hr.
  { apply member. left. exists 0. split; [|done]. unfold cfg. rewrite assigned_risk. lia. }
  destruct p; cbn in Hw.
  - left. exists OrderGate. split; [apply Ho; set_solver|done].
  - left. exists Oms. split; [apply Ho; set_solver|done].
  - left. exists (Risk 0). split; [done|done].
  - apply list_elem_of_fmap in Hw as (i & -> & Hi%elem_of_seqZ). left. exists (Match i).
    split; [apply Hm; lia|by left].
  - by apply elem_of_nil in Hw.
  - by apply elem_of_nil in Hw.
  - left. exists Sequencer. split; [apply Ho; set_solver|done].
  - apply elem_of_cons in Hw as [->| ->%list_elem_of_singleton].
    + unfold components in Hp. rewrite !elem_of_app, !list_elem_of_fmap in Hp.
      assert (0 <= i < n) as Hi.
      { destruct Hp as [Hp|[(? & ? & _)|[Hp|[(j & ? & Hj%elem_of_seqZ)|Hp]]]]; simplify_eq;
          [set_solver| set_solver|lia|set_solver]. }
      destruct (decide (i = 0)) as [->|]; [left|right; exists i; split; [lia|done]].
      exists MarketData. split; [apply Ho; set_solver|by left].
    + left. exists Gateway. split; [apply Ho; set_solver|by left].
Qed.

(** ** Properties *)

(** C27: [main] keeps the discipline of its resources: for every command line
    except those that ask for eight matching threads, and whatever constructors
    fail, as long as each component that was created can also be started, the
    trace of its calls never makes the memory pool, the journal, the event bus or
    the risk state twice, never uses one of them, a queue or a component before it
    is initialised or after it is released, never releases one that a running
    thread holds, and starts and stops each thread in turn. When it reports
    success no thread is left running, no component undestroyed and nothing
    but the static queues is left initialised; when it fails it has stopped,
    closed and released nothing. *)
Theorem main_resource_discipline (e : env) (args : list (list Z)) :
  let n := matching_threads (configured args) in
  n <> 8 -> (forall c, e_create e c = true -> e_start e c = true) ->
  exists st, replay e n rstart (snd (main e args)) = Some st /\
    (fst (main e args) = Exit 0 -> st = RState (queues n) ∅ ∅) /\
    (fst (main e args) <> Exit 0 ->
     fst (main e args) = Exit 1 /\ Forall (fun a => Is_true (keeps a)) (snd (main e args))).
Proof.
  intros n Hn Hs. destruct (validate (configured args)) eqn:Hv.
  - apply validate_counts in Hv. assert (n ∈ [1; 2; 4]) as H4 by (fold n in Hv; set_solver).
    destruct (main_ends e args H4 Hs rstart eq_refl) as (st & E & H0). exists st. split_and!; [done|done|].
    intros Hne. split; [|apply failed_run_keeps; [by apply components_ok|done]].
    pose proof (main_exits e args) as Hx. unfold ends_with in Hx.
    pose proof (safe_main e args (proj1 (components_ok args H4))) as Hsafe. unfold safe in Hsafe.
    pose proof (main_ends_program e args) as Hgo.
    destruct (fst (main e args)) as [x|c|]; [by destruct (Hgo x)| |done]. by destruct Hx as [->| ->].
  - exists rstart. unfold main. rewrite Hv. split_and!; [done|done|]. intros _. split; [done|by apply Forall_nil].
Qed.

(** C28: The pipeline is started and stopped against its flow: when the mandatory
    resources are granted and one, two or four matching threads run, and a
    component that was created puts messages in a queue from which another one
    that was created takes them, the taker is started before it and stopped
    after it, for every queue but the one of the responses. *)
Theorem pipeline_order (e : env) (args : list (list Z)) (q : queue_name) (p c : component) :
  let cfg := assign_cores (configured args) in
  let n := matching_threads cfg in
  granted e -> n ∈ [1; 2; 4] -> p ∈ components cfg -> c ∈ components cfg ->
  fills e n q p -> takes e q c -> q <> g_response_q ->
  before c p (starts (snd (main e args))) /\ before p c (stops (snd (main e args))).
Proof.
  intros cfg n Hg Hn Hp Hc [Ep Hw] [Ec Hr] Hq. destruct (components_ok args Hn) as (Hb & Hnd & Hperm & Hup & Hdown).
  pose proof (wired_downstream n q p c Hw Hr Hq) as Hst.
  destruct (main_go e args Hg) as
    (t1 & t2 & t3 & E & S1 & S2 & S3 & P1 & P2 & P3 & D1 & D2 & D3);
    [apply validate_counts; rewrite !elem_of_cons in *; tauto|done|].
  rewrite E. cbn [snd]. unfold starts, stops in *. rewrite !omap_app, S1, S2, P1, P2, D2, D3.
  cbn [omap list_omap start_of stop_of app]. rewrite ?app_nil_r.
  assert (p <> c) as Hne by (intros ->; lia).
  split.
  - apply (sorted_before downstream_first); [by apply sorted_filter| | |unfold downstream_first; lia|done];
      rewrite list_elem_of_filter, Hperm; split; [by rewrite Ec|done|by rewrite Ep|done].
  - apply (sorted_before upstream_first); [by apply sorted_filter| | |unfold upstream_first; lia|done];
      rewrite list_elem_of_filter; split; [by rewrite Ep|done|by rewrite Ec|done].
Qed.

(** [main] goes on when a component other than the sequencer could not be
    created: without the order gate the gateway runs and fills a queue from which
    nobody takes. *)
Definition without_gate : env :=
  Env true true true true (fun c => negb (bool_decide (c = OrderGate))) (fun _ => true) 0 [].

Lemma missing_taker :
  fst (main without_gate []) = Exit 0 /\ Gateway ∈ starts (snd (main without_gate [])) /\
  fills without_gate 4 g_gate_out_q Gateway /\ forall c, ~ takes without_gate g_gate_out_q c.
Proof.
  split_and!; [reflexivity| |split; [done|by left]|].
  - apply list_elem_of_In. vm_compute. tauto.
  - intros c [Hc Hr]. destruct c; cbn in *; try done; set_solver.
Qed.

(** Nor does it look at the result of a start: a gateway whose thread did not
    come to be is joined all the same when the platform is stopped. *)
Definition without_thread : env :=
  Env true true true true (fun _ => true) (fun c => negb (bool_decide (c = Gateway))) 0 [].

Lemma failed_start_is_joined :
  AStop Gateway ∈ snd (main without_thread []) /\
  forall st st', Gateway ∉ running st -> rstep without_thread 4 st (AStart Gateway) = Some st' ->
    Gateway ∉ running st' /\ rstep without_thread 4 st' (AStop Gateway) = None.
Proof.
  split; [apply list_elem_of_In; vm_compute; tauto|].
  intros st st' Hr H. assert (st' = st) as ->.
  { cbn in H. unfold permit in H. case_match; by simplify_eq. }
  split; [done|]. cbn. by rewrite bool_decide_false.
Qed.

(** The ticks of every shard but the first go to a queue that nobody reads. *)
Lemma md_queue_unread n i : 1 <= i -> g_md_q i ∈ writes n (Match i) /\ forall c, g_md_q i ∉ reads c.
Proof. intros Hi. split; [by left|]. intros []; cbn; set_solver by lia. Qed.

(** The response queue is the exception: the gateway, which reads it, is the
    first to stop. *)
Lemma responses_outlive_gateway :
  before Gateway (Match 0) (stops (snd (main all_granted []))) /\
  g_response_q ∈ writes 4 (Match 0) /\ g_response_q ∈ reads Gateway.
Proof.
  split; [|by split; [right; left|left]].
  eexists [], [OrderGate; Oms; Risk 0; Risk 1; Sequencer], _. vm_compute. reflexivity.
Qed.

(** ** Witnesses *)

Lemma main_resource_discipline_witness :
  replay all_granted 4 rstart (snd (main all_granted [])) = Some (RState (queues 4) ∅ ∅).
Proof.
  destruct (main_resource_discipline all_granted [] ltac:(done) ltac:(done)) as (st & E & H & _).
  rewrite (H eq_refl) in E. exact E.
Defined.

Lemma pipeline_order_witness :
  before Oms OrderGate (starts (snd (main all_granted []))) /\
  before OrderGate Oms (stops (snd (main all_granted []))).
Proof.
  apply (pipeline_order all_granted [] g_gate_oms_q OrderGate Oms);
    try reflexivity; try discriminate.
  - by split_and!.
  - by do 2 right; left.
  - by right; left.
  - by do 2 right; left.
  - split; [done|by left].
  - split; [done|by left].
Defined.
