(* ===== verification/JournalWriters.v ===== *)
(** * The journal with the writers the platform gives it

    [bt_journal_append] of [src/src/persistence/journal.c] pushes into a ring
    for a single producer, and [main] hands the journal to the sequencer and to
    every matching shard ([Resources.holds]); nothing in the sources keeps
    their appends apart. Here any number of writers run [BT_SPSC_PUSH] on one
    ring, access by access, beside the journal's thread, each with its own view
    of the two indices.

    [journal_writers_in_bounds]: no access leaves the ring.
    [journal_writers_lose]: two appends that overlap can lose an entry whose
    append returned 0. *)

From S2P Require Import Prelude Queue SpscConc CTypes Journal Config Lifecycle Resources.

(** ** Several producers on one ring *)

Section writers.
Context {A : Type} `{!Inhabited A} {I : Type} `{Countable I}.

(** The shared words; the indices as the histories of the values stored. *)
Record shared := Shared {
  r_heads : list Z;
  r_tails : list Z;
  r_buffer : list A;
  r_mask : Z;
}.

(** A thread inside [BT_SPSC_PUSH], and the newest value of either index that it
    has read or stored. *)
Record writer := Writer { wr_pc : ppc A; wr_hview : nat; wr_tview : nat }.

(** The next access of a writer; the items of the pushes that return 1 with it.
    A load gives any value that is not older than one the thread has seen. *)
Inductive push_step : writer -> shared -> writer -> shared -> list A -> Prop :=
| push_load_head hv tv hs ts b m item i h :
    (hv <= i)%nat -> hs !! i = Some h ->
    push_step (Writer PIdle hv tv) (Shared hs ts b m) (Writer (PLoadTail item h) i tv) (Shared hs ts b m) []
| push_load_tail hv tv hs ts b m item h i t :
    (tv <= i)%nat -> ts !! i = Some t ->
    push_step (Writer (PLoadTail item h) hv tv) (Shared hs ts b m) (Writer (PTest item h t) hv i) (Shared hs ts b m) []
| push_full hv tv hs ts b m item h t :
    q_next m t = h ->
    push_step (Writer (PTest item h t) hv tv) (Shared hs ts b m) (Writer PIdle hv tv) (Shared hs ts b m) []
| push_write hv tv hs ts b m item h t :
    q_next m t <> h ->
    push_step (Writer (PTest item h t) hv tv) (Shared hs ts b m)
      (Writer (PStoreTail item (q_next m t)) hv tv) (Shared hs ts (b.[t <- item]) m) []
| push_store_tail hv tv hs ts b m item next :
    push_step (Writer (PStoreTail item next) hv tv) (Shared hs ts b m)
      (Writer PIdle hv (length ts)) (Shared hs (ts ++ [next]) b m) [item].

(** The next access of the reader, [BT_SPSC_POP]. *)
Inductive pop_step : cpc A -> nat -> shared -> cpc A -> nat -> shared -> list A -> Prop :=
| pop_load_head hs ts b m cv h :
    last hs = Some h -> pop_step CIdle cv (Shared hs ts b m) (CLoadTail h) cv (Shared hs ts b m) []
| pop_load_tail hs ts b m cv h i t :
    (cv <= i)%nat -> ts !! i = Some t ->
    pop_step (CLoadTail h) cv (Shared hs ts b m) (CTest h t) i (Shared hs ts b m) []
| pop_empty hs ts b m cv h t :
    h = t -> pop_step (CTest h t) cv (Shared hs ts b m) CIdle cv (Shared hs ts b m) []
| pop_read hs ts b m cv h t :
    h <> t ->
    pop_step (CTest h t) cv (Shared hs ts b m) (CStoreHead (b.[h]) (q_next m h)) cv (Shared hs ts b m) []
| pop_store_head hs ts b m cv v next :
    pop_step (CStoreHead v next) cv (Shared hs ts b m) CIdle cv (Shared (hs ++ [next]) ts b m) [v].

Record writers := Writers {
  w_writers : gmap I writer;
  w_reader : cpc A;
  w_cview : nat;
  w_ring : shared;
  w_pushed : list A;      (* items of the pushes that returned 1, in the order of their returns *)
  w_popped : list A;
}.

(** One access of the writer [i] or of the reader. *)
Inductive wstep : writers -> writers -> Prop :=
| writer_step ws c cv r pu po i w w' r' out :
    ws !! i = Some w -> push_step w r w' r' out ->
    wstep (Writers ws c cv r pu po) (Writers (<[i := w']> ws) c cv r' (pu ++ out) po)
| reader_step ws c cv r pu po c' cv' r' out :
    pop_step c cv r c' cv' r' out ->
    wstep (Writers ws c cv r pu po) (Writers ws c' cv' r' pu (po ++ out)).

Definition idle_writer : writer := Writer PIdle 0 0.

Definition writers_start (ids : list I) (buf : list A) : writers :=
  Writers (list_to_map ((fun i => (i, idle_writer)) <$> ids)) CIdle 0
    (Shared [0] [0] buf (u64 (zlen buf - 1))) [] [].

(** The ring when every thread has seen the newest indices. *)
Definition as_queue (r : shared) : queue A :=
  Queue (default 0 (last (r_heads r))) (default 0 (last (r_tails r))) (r_buffer r) (r_mask r).

(** ** No access leaves the ring *)

Section bounds.
Context (k : Z) (Hk : 1 <= k < 64).

Definition in_ring (i : Z) : Prop := 0 <= i < 2 ^ k.

Definition writer_ok (w : writer) : Prop :=
  match wr_pc w with
  | PIdle | PLoadTail _ _ => True
  | PTest _ _ t => in_ring t
  | PStoreTail _ next => in_ring next
  end.

Definition reader_ok (c : cpc A) : Prop :=
  match c with
  | CIdle => True
  | CLoadTail h | CTest h _ => in_ring h
  | CStoreHead _ next => in_ring next
  end.

Record shared_ok (r : shared) : Prop := {
  ro_mask : r_mask r = 2 ^ k - 1;
  ro_buffer : zlen (r_buffer r) = 2 ^ k;
  ro_heads : Forall in_ring (r_heads r) /\ r_heads r <> [];
  ro_tails : Forall in_ring (r_tails r) /\ r_tails r <> [];
}.

Lemma next_in_ring m t : m = 2 ^ k - 1 -> in_ring (q_next m t).
Proof using Hk. intros ->. rewrite q_next_pow2 by lia. apply Z.mod_pos_bound, pow2_pos. lia. Qed.

Lemma in_ring_snoc l i : Forall in_ring l -> in_ring i -> Forall in_ring (l ++ [i]) /\ l ++ [i] <> [].
Proof using Type. intros Hl Hi. split; [|by destruct l]. apply Forall_app. split; [done|by apply Forall_singleton]. Qed.

Lemma push_step_ok w r w' r' out :
  writer_ok w -> shared_ok r -> push_step w r w' r' out -> writer_ok w' /\ shared_ok r'.
Proof using Hk.
  intros Hw [Hm Hb Hh Ht] Hs. destruct Hs; cbn in *; (split; [|split]); cbn; try done.
  - eapply Forall_lookup_1; [exact (proj1 Ht)|done].
  - by apply next_in_ring.
  - by rewrite zlen_arr_set.
  - apply in_ring_snoc; [apply Ht|done].
Qed.

Lemma pop_step_ok c cv r c' cv' r' out :
  reader_ok c -> shared_ok r -> pop_step c cv r c' cv' r' out -> reader_ok c' /\ shared_ok r'.
Proof using Hk.
  intros Hc [Hm Hb Hh Ht] Hs. destruct Hs; cbn in *; (split; [|split]); cbn; try done.
  - rewrite last_lookup in *. eapply Forall_lookup_1; [exact (proj1 Hh)|done].
  - by apply next_in_ring.
  - apply in_ring_snoc; [apply Hh|done].
Qed.

Record writers_ok (w : writers) : Prop := {
  wo_writers : map_Forall (fun _ w => writer_ok w) (w_writers w);
  wo_reader : reader_ok (w_reader w);
  wo_ring : shared_ok (w_ring w);
}.

Lemma wstep_ok w w' : writers_ok w -> wstep w w' -> writers_ok w'.
Proof using Hk.
  intros [Hw Hc Hr] Hs. destruct Hs as [ws c cv r pu po i wr wr' r' out Hi Hs|ws c cv r pu po c' cv' r' out Hs];
    cbn in *.
  - destruct (push_step_ok _ _ _ _ _ (Hw i wr Hi) Hr Hs). split; cbn; try done. by apply map_Forall_insert_2.
  - destruct (pop_step_ok _ _ _ _ _ _ _ Hc Hr Hs). by split.
Qed.

Lemma writers_start_ok ids (buf : list A) : zlen buf = 2 ^ k -> writers_ok (writers_start ids buf).
Proof using Hk.
  intros Hl. pose proof (pow2_le_64 k ltac:(lia)). pose proof (pow2_pos k ltac:(lia)).
  assert (Forall in_ring [0]) as Hzero by (apply Forall_singleton; unfold in_ring; lia).
  split; cbn; [|done|split; cbn; try done].
  - intros i w Hi%elem_of_list_to_map_2. apply list_elem_of_fmap in Hi as (? & [= _ ->] & _). done.
  - rewrite Hl. apply u64_small. unfold is_u64. lia.
Qed.

Lemma wsteps_ok w w' : writers_ok w -> rtc wstep w w' -> writers_ok w'.
Proof using Hk. intros Hw Hs. induction Hs as [|w w1 w' H1 _ IH]; [done|]. by eapply IH, wstep_ok. Qed.

Lemma last_in_ring l : Forall in_ring l -> l <> [] -> in_ring (default 0 (last l)).
Proof using Type.
  intros Hl Hne. destruct (last l) as [i|] eqn:E; [|by apply last_None in E].
  rewrite last_lookup in E. exact (Forall_lookup_1 _ _ _ _ Hl E).
Qed.

Lemma as_queue_wf r : shared_ok r -> queue_wf (as_queue r).
Proof using Hk.
  intros [Hm Hb [Hh Hh'] [Ht Ht']]. exists k. split_and!; try done; try lia; by apply last_in_ring.
Qed.

End bounds.

(** ** Writers that overlap *)

(** The next access of the writer [i]. *)
Ltac move_writer i tac :=
  eapply rtc_l; [eapply (writer_step _ _ _ _ _ _ i); [by simplify_map_eq|tac]|]; cbn [app].

(** Two idle writers load the same tail, write the same slot and store the same
    tail: both pushes return 1, and the ring is as after the second alone. *)
Lemma overlapping_pushes i j ws c cv buf m x y q :
  i <> j -> ws !! i = Some idle_writer -> ws !! j = Some idle_writer ->
  SPSC_PUSH y (Queue 0 0 buf m) = (true, q) ->
  exists w, rtc wstep (Writers ws c cv (Shared [0] [0] buf m) [] []) w /\
    w_pushed w = [x; y] /\ w_popped w = [] /\ as_queue (w_ring w) = q.
Proof.
  intros Hij Hi Hj Hp. unfold SPSC_PUSH in Hp. cbn in Hp.
  destruct (Z.eqb_spec (q_next m 0) 0) as [|Hne]; [done|]. cbn in Hp. injection Hp as <-.
  eexists. split; [|shelve].
  move_writer i ltac:(by apply (push_load_head _ _ _ _ _ _ x 0 0)).
  move_writer j ltac:(by apply (push_load_head _ _ _ _ _ _ y 0 0)).
  move_writer i ltac:(by apply (push_load_tail _ _ _ _ _ _ _ _ 0 0)).
  move_writer j ltac:(by apply (push_load_tail _ _ _ _ _ _ _ _ 0 0)).
  move_writer i ltac:(by apply push_write).
  move_writer j ltac:(by apply push_write).
  move_writer i ltac:(by apply push_store_tail).
  move_writer j ltac:(by apply push_store_tail).
  apply rtc_refl.
  Unshelve. cbn. split_and!; [done|done|].
  unfold as_queue. cbn. unfold arr_set. by rewrite list_insert_insert_eq.
Qed.

End writers.
Arguments writer : clear implicits.
Arguments shared : clear implicits.
Arguments writers _ _ {_ _}.

(** ** The writers of the platform *)

Definition journal_writers (n : Z) : list component := Sequencer :: (Match <$> seqZ 0 n).

(** They are the components that [main] hands the journal to. *)
Lemma journal_writers_hold n c :
  c ∈ journal_writers n <-> JournalFile ∈ uses n c /\ (forall i, c = Match i -> 0 <= i < n).
Proof.
  unfold journal_writers, uses. rewrite elem_of_cons, list_elem_of_fmap, elem_of_list_to_set.
  setoid_rewrite elem_of_seqZ. split.
  - intros [->|(i & -> & Hi)]; (split; [set_solver|]); intros ? ?; simplify_eq; lia.
  - intros [Hc Hi]. destruct c; cbn in Hc; try (set_solver + Hc).
    right. eexists. split; [done|]. specialize (Hi _ eq_refl). lia.
Qed.

(** The ring [bt_journal_open] makes. *)
Definition journal_ring_start (n : Z) : writers bt_journal_entry_t component :=
  writers_start (journal_writers n) calloc_ring.

(** ** Properties *)

(** C17: However the appends of the sequencer and of the shards overlap each
    other and the journal's thread, the slot that a writer is about to write
    and the slot that the thread is about to read lie in the ring, and so do
    the indices they leave behind. *)
Theorem journal_writers_in_bounds (n : Z) (w : writers bt_journal_entry_t component) :
  rtc wstep (journal_ring_start n) w ->
  zlen (r_buffer (w_ring w)) = JOURNAL_RING_SIZE /\
  (forall c x h t hv tv, w_writers w !! c = Some (Writer (PTest x h t) hv tv) -> 0 <= t < JOURNAL_RING_SIZE) /\
  (forall h t, w_reader w = CTest h t -> 0 <= h < JOURNAL_RING_SIZE) /\
  queue_wf (as_queue (w_ring w)).
Proof.
  intros Hs. destruct (wsteps_ok 18 ltac:(lia) (journal_ring_start n) w) as [Hw Hc Hr];
    [by apply (writers_start_ok 18 ltac:(lia)), zlen_calloc_ring|done|].
  split_and!; [apply (ro_buffer _ _ Hr)| | |by apply (as_queue_wf 18 ltac:(lia))].
  - intros c x h t hv tv Hi. exact (Hw c _ Hi).
  - intros h t E. rewrite E in Hc. exact Hc.
Qed.

(** C16: Appends that overlap can lose an entry: the sequencer and a matching
    shard that append at the same time can both get 0 while the ring holds the
    shard's entry alone, with room for both and nothing counted as dropped. *)
Theorem journal_writers_lose (n : Z) (x y : bt_journal_entry_t) :
  1 <= n ->
  exists w, rtc wstep (journal_ring_start n) w /\
    w_pushed w = [x; y] /\ w_popped w = [] /\ contents (as_queue (w_ring w)) = [y].
Proof.
  intros Hn. destruct calloc_ring_wf as (Hwf & Hm & Hc).
  destruct (spsc_push_ok (QUEUE_INIT calloc_ring) y Hwf) as (q & E & _ & Hq & _).
  { rewrite <- length_contents, Hc, Hm. done. }
  assert (forall c, c ∈ journal_writers n -> w_writers (journal_ring_start n) !! c = Some idle_writer) as Hidle.
  { intros c Hin. apply elem_of_list_to_map_1'; [|apply (list_elem_of_fmap_2 (fun i => (i, idle_writer)) _ _ Hin)].
    intros p (? & ? & _)%list_elem_of_fmap. congruence. }
  destruct (overlapping_pushes Sequencer (Match 0) (w_writers (journal_ring_start n)) CIdle 0
    calloc_ring (u64 (zlen calloc_ring - 1)) x y q) as (w & Hr & Hpu & Hpo & Hw); [done| | |exact E|].
  - apply Hidle. left.
  - apply Hidle. right. apply list_elem_of_fmap_2, elem_of_seqZ. lia.
  - exists w. split_and!; [exact Hr|exact Hpu|exact Hpo|]. by rewrite Hw, Hq, Hc.
Qed.

(** ** Witnesses *)

(** After the overlap of the sequencer and a shard. *)
Lemma journal_writers_in_bounds_witness :
  exists w : writers bt_journal_entry_t component,
    w_pushed w = [sample_entry 1; sample_entry 2] /\ queue_wf (as_queue (w_ring w)).
Proof.
  destruct calloc_ring_wf as (Hwf & Hm & Hc).
  destruct (spsc_push_ok (QUEUE_INIT calloc_ring) (sample_entry 2) Hwf) as (q & E & _).
  { rewrite <- length_contents, Hc, Hm. done. }
  destruct (overlapping_pushes Sequencer (Match 0) (w_writers (journal_ring_start 1)) CIdle 0
    calloc_ring (u64 (zlen calloc_ring - 1)) (sample_entry 1) (sample_entry 2) q) as (w & Hr & Hpu & _);
    [done|reflexivity|reflexivity|exact E|].
  exists w. split; [exact Hpu|]. apply (journal_writers_in_bounds 1 w Hr).
Defined.

Lemma journal_writers_lose_witness :
  exists w, rtc wstep (journal_ring_start 4) w /\
    w_pushed w = [sample_entry 1; sample_entry 2] /\ w_popped w = [] /\
    contents (as_queue (w_ring w)) = [sample_entry 2].
Proof. apply (journal_writers_lose 4 (sample_entry 1) (sample_entry 2)). lia. Defined.
