(* ===== verification/Platform.v ===== *)
(** * The platform: [main] with the components that have code

    Composes the trace of [Lifecycle] (the calls of [main] in
    [src/src/main.c]) with the models of the objects it owns: the journal and
    its worker ([Journal]), the gateway and its thread ([GatewayThread]), the
    memory pool ([MemoryPool]), the two queues of the gateway ([Queue]), and
    the table of [Resources]. [main] makes one call at a time; between its
    calls the journal's worker, the gateway's thread and the components
    without source move. What those do is limited to what they are handed: a
    component that holds the journal may change its ring as overlapping
    appends can ([JournalWriters]), and the two queues may change as long as
    they stay well formed.

    [main] waits in two calls: the close of the journal for its worker, and the
    stop of a component for its thread. A thread is left to be asked, to end,
    and to be joined. That of the gateway ends when it finds [running] cleared
    at the top of its loop, or when [epoll_wait] fails; that of a component
    without source may end once its stop was called, which is all its header
    promises.

    The environment of [Lifecycle] says which constructors succeed; here an
    execution continues only when the models of the constructors answer the
    same. The properties are in [PlatformSafe]. *)

From S2P Require Import Prelude Queue CTypes Journal JournalClose Gateway GatewayOps GatewayThread.
From S2P Require Import MemoryPool Config Lifecycle Resources.

(** ** State *)

(** The globals of [main.c] behind these objects, and the threads. A gateway
    works on the two queues in place, so while there is one they are those of
    its context. *)
Record platform := Platform {
  p_table : rstate;
  p_pool : bt_mempool;                       (* [g_mempool] *)
  p_shards : list Z;                         (* the arenas given to the shards, in order *)
  p_journal : option jstate;                 (* [g_journal] *)
  p_gateway : option gw_ctx_t;               (* [g_gateway] *)
  p_out : queue bt_gw_oms_msg_t;             (* [g_gate_out_q] *)
  p_resp : queue bt_order_response_t;        (* [g_response_q] *)
  p_file : list Z;                           (* the journal file when it was opened *)
  p_asked : gset component;                  (* whose stop has begun *)
  p_ended : gset component;                  (* whose thread has returned *)
}.

Definition set_table (tbl : rstate) (p : platform) : platform :=
  Platform tbl (p_pool p) (p_shards p) (p_journal p) (p_gateway p) (p_out p) (p_resp p)
    (p_file p) (p_asked p) (p_ended p).
Definition set_pool (pool : bt_mempool) (shards : list Z) (p : platform) : platform :=
  Platform (p_table p) pool shards (p_journal p) (p_gateway p) (p_out p) (p_resp p)
    (p_file p) (p_asked p) (p_ended p).
Definition set_journal (j : option jstate) (p : platform) : platform :=
  Platform (p_table p) (p_pool p) (p_shards p) j (p_gateway p) (p_out p) (p_resp p)
    (p_file p) (p_asked p) (p_ended p).
Definition set_file (file : list Z) (p : platform) : platform :=
  Platform (p_table p) (p_pool p) (p_shards p) (p_journal p) (p_gateway p) (p_out p) (p_resp p)
    file (p_asked p) (p_ended p).
Definition set_gateway (x : option gw_ctx_t) (p : platform) : platform :=
  Platform (p_table p) (p_pool p) (p_shards p) (p_journal p) x (p_out p) (p_resp p)
    (p_file p) (p_asked p) (p_ended p).
Definition set_statics (out : queue bt_gw_oms_msg_t) (resp : queue bt_order_response_t) (p : platform) : platform :=
  Platform (p_table p) (p_pool p) (p_shards p) (p_journal p) (p_gateway p) out resp
    (p_file p) (p_asked p) (p_ended p).
Definition set_threads (asked ended : gset component) (p : platform) : platform :=
  Platform (p_table p) (p_pool p) (p_shards p) (p_journal p) (p_gateway p) (p_out p) (p_resp p)
    (p_file p) asked ended.

Definition out_q (p : platform) : queue bt_gw_oms_msg_t :=
  match p_gateway p with Some x => x_out_queue x | None => p_out p end.
Definition resp_q (p : platform) : queue bt_order_response_t :=
  match p_gateway p with Some x => x_response_queue x | None => p_resp p end.

Definition put_queues (out : queue bt_gw_oms_msg_t) (resp : queue bt_order_response_t) (p : platform) : platform :=
  match p_gateway p with
  | Some x => set_gateway (Some (set_queues out resp x)) p
  | None => set_statics out resp p
  end.

(** [BT_MPSC_QUEUE_INIT] on a static queue. *)
Definition init_queue (q : queue_name) (p : platform) : platform :=
  match q with
  | g_gate_out_q => put_queues (QUEUE_INIT (q_buffer (out_q p))) (resp_q p) p
  | g_response_q => put_queues (out_q p) (QUEUE_INIT (q_buffer (resp_q p))) p
  | _ => p
  end.

(** ** The calls of [main] *)

(** What the kernel and the C library answer to a call. *)
Record answers := Answers {
  a_mem : Z;                                     (* the address of the slab *)
  a_calloc : bool; a_open : bool; a_ring : bool; a_thread : bool;   (* [bt_journal_open] *)
  a_file : jfile;
  a_sync : bool;                                 (* [fdatasync] *)
  a_ctx : bool; a_conns : bool; a_listen : listen_env; a_epoll : Z; (* [bt_gateway_create] *)
  a_sched : Z;                                   (* the gateway's entry in the scheduler *)
}.

(** A new object, whose thread is still to come. *)
Definition new_thread (c : component) (p : platform) : platform :=
  set_threads (p_asked p ∖ {[c]}) (p_ended p ∖ {[c]}) p.

(** The effect of one call on the objects; [None] when it does not return, or
    answers otherwise than the environment says. A stop returns when the thread
    has ended, a close of the journal when its worker has. *)
Definition effect (e : env) (cfg : bt_runtime_config) (an : answers) (a : action) (p : platform)
  : option platform :=
  match a with
  | AMempoolInit bytes arenas =>
      match bt_mempool_init (Some (p_pool p)) (a_mem an) bytes arenas true with
      | (rc, Some (pool, _)) =>
          if eqb (e_mempool e) (0 <=? rc) then Some (set_pool pool [] p) else None
      | (_, None) => None
      end
  | AAssignArena =>
      let '(i, pool) := bt_mempool_assign_arena (p_pool p) in Some (set_pool pool (p_shards p ++ [i]) p)
  | AMempoolDestroy => Some (set_pool (bt_mempool_destroy (p_pool p)) (p_shards p) p)
  | AJournalOpen path ms =>
      match bt_journal_open (a_calloc an) (a_open an) (a_ring an) (a_thread an) (a_file an) path ms with
      | Some j =>
          if e_journal e then Some (set_file (f_bytes (a_file an)) (set_journal (Some j) p)) else None
      | None => if e_journal e then None else Some (set_journal None p)
      end
  | AJournalFlush =>
      match p_journal p with
      | Some j => '(_, j) ← jstep (EvFlush (a_sync an)) j; Some (set_journal (Some j) p)
      | None => None
      end
  | AJournalClose =>
      match p_journal p with
      | Some j => '(_, j) ← jstep EvCloseJoin j; Some (set_journal (Some j) p)
      | None => None
      end
  | AQueueInit q => Some (init_queue q p)
  | ACreate Gateway cpu =>
      match bt_gateway_create (a_ctx an) (a_conns an) (a_listen an) (a_epoll an) 0 cpu (gateway_port cfg)
              (max_connections cfg) (a_sched an) (out_q p) (resp_q p) with
      | Some x => if e_create e Gateway then Some (set_gateway (Some x) (new_thread Gateway p)) else None
      | None => if e_create e Gateway then None else Some (set_gateway None p)
      end
  | ACreate c _ => Some (new_thread c p)
  | AStop c =>
      if bool_decide (c ∈ p_ended p) then
        match c with
        | Gateway => x ← p_gateway p; Some (set_gateway (Some (fst (bt_gateway_stop x))) p)
        | _ => Some p
        end
      else None
  | ADestroy Gateway =>
      x ← p_gateway p; Some (set_gateway None (set_statics (x_out_queue x) (x_response_queue x) p))
  | _ => Some p
  end.

(** ** Executions *)

Inductive pevent :=
| PMain (an : answers)                           (* [main]'s next call, whole *)
| PCloseRequest                                  (* [bt_journal_close] up to its wait *)
| PStopRequest                                   (* the stop of a component up to its wait *)
| PEnd (c : component)                           (* a thread that was asked to stop returns *)
| PWorker (malloc_ok : bool) (outs : list write_out) (sync_ok : bool) (now : Z)
| PAppend (c : component) (ring : queue bt_journal_entry_t) (dropped : Z)
    (* accesses of [c]'s appends: the ring they leave, and the refusals they count *)
| PRound (w : wait_out)                          (* a round of the gateway's thread *)
| PQueues (out : queue bt_gw_oms_msg_t) (resp : queue bt_order_response_t).

(** The calls [main] has still to make, and the objects. *)
Definition pstate : Type := list action * platform.

(** The thread of [c] has been started and has not returned. *)
Definition in_loop (c : component) (p : platform) : Prop :=
  c ∈ running (p_table p) /\ c ∉ p_ended p.

#[global] Instance in_loop_dec c p : Decision (in_loop c p).
Proof. unfold in_loop. apply _. Defined.

(** The stop of [c] up to [pthread_join]; [bt_gateway_stop] clears [running]. *)
Definition stop_request (c : component) (p : platform) : option platform :=
  let p := set_threads ({[c]} ∪ p_asked p) (p_ended p) p in
  match c with
  | Gateway => x ← p_gateway p; Some (set_gateway (Some (set_running false x)) p)
  | _ => Some p
  end.

(** The thread of [c] can leave its loop. *)
Definition can_end (c : component) (p : platform) : bool :=
  match c with
  | Gateway => match p_gateway p with Some x => negb (x_running x) | None => false end
  | _ => bool_decide (c ∈ p_asked p)
  end.

Definition thread_ends (c : component) (p : platform) : platform :=
  set_threads (p_asked p) ({[c]} ∪ p_ended p) p.

Section executions.
Context (e : env) (cfg : bt_runtime_config).
Local Abbreviation n := (matching_threads cfg).

Definition journal_call (ev : jevent) (p : platform) : option (option Z * platform) :=
  j ← p_journal p; '(r, j) ← jstep ev j; Some (r, set_journal (Some j) p).

Definition pnext (ev : pevent) (s : pstate) : option pstate :=
  let '(t, p) := s in
  match ev with
  | PMain an =>
      match t with
      | [] => None
      | a :: t =>
          tbl ← rstep e n (p_table p) a; p ← effect e cfg an a p; Some (t, set_table tbl p)
      end
  | PCloseRequest =>
      match t with
      | AJournalClose :: _ => '(_, p) ← journal_call EvCloseRequest p; Some (t, p)
      | _ => None
      end
  | PStopRequest =>
      match t with
      | AStop c :: _ => p ← stop_request c p; Some (t, p)
      | _ => None
      end
  | PEnd c =>
      if bool_decide (in_loop c p) && can_end c p then Some (t, thread_ends c p) else None
  | PWorker m outs ok now => '(_, p) ← journal_call (EvWorker m outs ok now) p; Some (t, p)
  | PAppend c ring dropped =>
      if bool_decide (in_loop c p /\ JournalFile ∈ uses n c) then
        j ← p_journal p;
        if js_closed j then None
        else Some (t, set_journal (Some (set_j (Journal.set_ring ring (add_dropped dropped (js_j j))) j)) p)
      else None
  | PRound w =>
      if bool_decide (in_loop Gateway p) then
        x ← p_gateway p;
        if x_running x then
          '(x, goes_on) ← gw_iteration w x;
          let p := set_gateway (Some x) p in
          Some (t, if goes_on : bool then p else thread_ends Gateway p)
        else None
      else None
  | PQueues out resp => Some (t, put_queues out resp p)
  end.

(** What appends can leave of a ring, however they overlap: they write slots
    and the tail, within their ranges ([journal_writers_in_bounds]); what the
    slots hold is a list of entries. *)
Definition appends_leave (ring ring' : queue bt_journal_entry_t) : Prop :=
  queue_wf ring' /\ q_head ring' = q_head ring /\ q_mask ring' = q_mask ring /\
  Forall journal_entry_wf (contents ring').

(** What the kernel reports to the gateway, and how the others leave the
    objects they share. *)
Definition pev_ok (ev : pevent) (s : pstate) : Prop :=
  match ev with
  | PRound (WaitEvents evs _) =>
      forall x, p_gateway s.2 = Some x -> evs_ok evs (gw_drain_responses x)
  | PAppend _ ring _ =>
      forall j, p_journal s.2 = Some j -> appends_leave (j_ring (js_j j)) ring
  | PQueues out resp =>
      queue_wf out /\ queue_wf resp /\ Forall order_response_wf (contents resp)
  | _ => True
  end.

Definition platform_step (s s' : pstate) : Prop := exists ev, pev_ok ev s /\ pnext ev s = Some s'.

End executions.

(** The statics before [main] runs; the storage of the queues is zeroed. *)
Definition platform_start (out : queue bt_gw_oms_msg_t) (resp : queue bt_order_response_t) : platform :=
  Platform rstart zero_pool [] None None out resp [] ∅ ∅.
