(* ===== verification/PlatformSafe.v ===== *)
(** * What the platform keeps to

    The invariants of the executions of [Platform]: each object of [main] keeps
    its own invariant while all of them work together, because the table of
    [Resources] says that nobody reaches an object outside its lifetime.

    They assume that a thread comes to be when it is started: [main] ignores
    the result, and what follows from a failure is in [Resources].

    [platform_safe] is the result for [main] at any moment, [platform_progress]
    says that it always gets on, and [platform_returns] what holds when it has
    returned 0. *)

From S2P Require Import Prelude Queue CTypes Journal JournalClose Gateway GatewayOps GatewayThread.
From S2P Require Import MemoryPool Config Lifecycle Resources Platform.

(** ** The table *)

Section table.
Context (e : env) (n : Z).
Implicit Types (tbl : rstate) (a : action).

(** Whoever runs was created, and what it holds is initialised. *)
Definition table_ok tbl : Prop :=
  forall c, c ∈ running tbl -> c ∈ alive tbl /\ uses n c ⊆ live tbl.

(** The cases of a step: the guard in front of the new table. *)
Ltac step_table H :=
  unfold acquire, release, needs, permit, init in H; repeat case_match; simplify_eq/=;
  rewrite ?andb_true_iff, ?bool_decide_eq_true in *; destruct_and?.

Lemma table_ok_grow L A R L' A' :
  table_ok (RState L A R) -> L ⊆ L' -> A ⊆ A' -> table_ok (RState L' A' R).
Proof.
  intros Ht HL HA c Hc. destruct (Ht c Hc) as [Ha Hu]. split; [by apply HA|]. cbn in *. by etrans.
Qed.

Lemma release_ok r tbl tbl' : table_ok tbl -> release n r tbl = Some tbl' -> table_ok tbl'.
Proof.
  intros Ht H. unfold release, permit in H. case_match; simplify_eq. apply andb_true_iff in H0 as [_ Hu].
  apply bool_decide_eq_true in Hu. intros c Hc. destruct (Ht c Hc) as [Ha Hsub].
  split; [done|]. cbn. pose proof (Hu c Hc) as Hn. cbn in Hn. set_solver.
Qed.

Lemma acquire_ok b r tbl tbl' : table_ok tbl -> acquire b r tbl = Some tbl' -> table_ok tbl'.
Proof.
  intros Ht H. destruct tbl as [L A R]. unfold acquire, permit, init in H.
  repeat case_match; simplify_eq; [|done]. eapply table_ok_grow; [exact Ht|cbn; set_solver|done].
Qed.

Lemma table_ok_step tbl tbl' a : table_ok tbl -> rstep e n tbl a = Some tbl' -> table_ok tbl'.
Proof.
  intros Ht H. destruct a; cbn in H; try (by eapply acquire_ok); try (by eapply release_ok);
    destruct tbl as [L A R]; step_table H; try done.
  - eapply table_ok_grow; [exact Ht|set_solver|done].
  - eapply table_ok_grow; [exact Ht|done|set_solver].
  - intros c' [->%elem_of_singleton|Hc]%elem_of_union; [done|by apply Ht].
  - intros c' [Hc _]%elem_of_difference. by apply Ht.
  - intros c' Hc. destruct (Ht c' Hc) as [Ha Hu]. split; [|done]. cbn in *. set_solver.
Qed.

Lemma journal_live tbl tbl' a :
  rstep e n tbl a = Some tbl' ->
  match a with
  | AJournalOpen _ _ => JournalFile ∉ live tbl /\ (JournalFile ∈ live tbl' <-> e_journal e = true)
  | AJournalClose => JournalFile ∈ live tbl /\ JournalFile ∉ live tbl'
  | AJournalFlush => JournalFile ∈ live tbl /\ JournalFile ∈ live tbl'
  | _ => JournalFile ∈ live tbl' <-> JournalFile ∈ live tbl
  end.
Proof.
  intros H. destruct tbl as [L A R], a; cbn in H; step_table H; try done; set_solver.
Qed.

Lemma gateway_alive tbl tbl' a :
  rstep e n tbl a = Some tbl' ->
  match a with
  | ACreate Gateway _ =>
      Gateway ∉ alive tbl /\ uses n Gateway ⊆ live tbl /\ (Gateway ∈ alive tbl' <-> e_create e Gateway = true)
  | ADestroy Gateway => Gateway ∈ alive tbl /\ Gateway ∉ alive tbl'
  | _ => Gateway ∈ alive tbl' <-> Gateway ∈ alive tbl
  end.
Proof.
  intros H. destruct tbl as [L A R], a as [| | | | | | | | | | | | |c cpu|c| | | |c| | |c| | |];
    cbn in H; try destruct c; step_table H; try done; set_solver.
Qed.

Lemma queue_live q tbl tbl' a :
  rstep e n tbl a = Some tbl' -> QueueOf q ∈ live tbl' <-> QueueOf q ∈ live tbl \/ a = AQueueInit q.
Proof.
  intros H. destruct tbl as [L A R], a; cbn in H; step_table H; set_solver.
Qed.

Lemma mempool_live tbl tbl' a :
  rstep e n tbl a = Some tbl' ->
  match a with
  | AMempoolInit _ _ => Mempool ∈ live tbl' -> e_mempool e = true
  | AAssignArena => Mempool ∈ live tbl
  | AMempoolDestroy => Mempool ∉ live tbl'
  | _ => Mempool ∈ live tbl' <-> Mempool ∈ live tbl
  end.
Proof.
  intros H. destruct tbl as [L A R], a; cbn in H; step_table H; try done; set_solver.
Qed.

End table.

(** ** The journal *)

(** What holds of the journal in use however its appends overlap: its ring is
    well formed, and the file with the buffer is what the file held at the open
    followed by entries taken from the ring, unless the buffer was overrun. *)
Definition journal_keeps (file0 : list Z) (j : jstate) : Prop :=
  (exists acc refused, jinv file0 acc refused j /\ Forall journal_entry_wf acc) /\
  file0 `prefix_of` f_bytes (j_fd (js_j j)).

Lemma longer_prefix (l l' k k' : list Z) :
  l' ++ k' = l ++ k -> (zlen k' <= zlen k) -> l `prefix_of` l'.
Proof.
  intros E Hl. pose proof (f_equal zlen E) as Hz. rewrite !zlen_app in Hz. unfold zlen in *.
  apply (f_equal (take (length l))) in E. rewrite take_app_length, take_app_le in E by lia.
  rewrite <- E. apply prefix_take.
Qed.

Lemma flush_extends outs ok d j buf j' buf' :
  journal_do_flush outs ok d j buf = Some (j', buf') -> f_bytes (j_fd j) `prefix_of` f_bytes (j_fd j').
Proof. intros H. apply do_flush_conserves in H as (E & Hl & _). by eapply longer_prefix. Qed.

(** No step of the journal shortens its file. *)
Lemma step_extends ev j r j' :
  jstep ev j = Some (r, j') -> f_bytes (j_fd (js_j j)) `prefix_of` f_bytes (j_fd (js_j j')).
Proof.
  intros H. unfold jstep in H. destruct (js_closed j); [done|].
  destruct ev as [x|ok| | |m outs ok now].
  - unfold bt_journal_append in H. repeat case_match; by simplify_eq/=.
  - unfold bt_journal_flush in H. repeat case_match; simplify_eq/=; by destruct ok.
  - by simplify_eq/=.
  - unfold bt_journal_close_join in H. repeat (case_match; try done). by simplify_eq/=.
  - destruct (bt_journal_thread_core m outs ok now j) as [j1|] eqn:E; simplify_eq/=.
    unfold bt_journal_thread_core, drain_round, idle_round in E.
    repeat case_match; simplify_eq/=; try done;
      match goal with F : journal_do_flush _ _ _ _ _ = Some _ |- _ => exact (flush_extends _ _ _ _ _ _ _ F) end.
Qed.

Lemma keeps_opened f path ms : journal_keeps (f_bytes f) (opened f path ms).
Proof. split; [|done]. exists [], 0. split; [apply opened_inv|by constructor]. Qed.

Lemma keeps_step file0 ev r j j' :
  journal_keeps file0 j -> (forall x, ev <> EvAppend x) -> jstep ev j = Some (r, j') -> journal_keeps file0 j'.
Proof.
  intros [(acc & refused & Hi & Hw) Hp] Hev E. split.
  - exists acc, refused. split; [|done]. by eapply jinv_other.
  - etrans; [exact Hp|by eapply step_extends].
Qed.

(** Accesses of appends, whatever they leave of the ring. *)
Lemma keeps_ring file0 ring d j :
  journal_keeps file0 j -> appends_leave (j_ring (js_j j)) ring ->
  journal_keeps file0 (set_j (Journal.set_ring ring (add_dropped d (js_j j))) j).
Proof.
  intros [(acc & refused & [] & Hw) Hp] (Hr & _ & Hm & Hc). split; [|done].
  destruct (decide (js_pc j = PcOverrun)) as [Ho|Ho].
  - exists [], (refused + d). split; [|by constructor]. split; cbn; try done; [congruence|].
    rewrite i_dropped. apply Zplus_mod_idemp_l.
  - destruct (i_data Ho) as (taken & -> & Hb). apply Forall_app in Hw as [Ht Hw0].
    exists (taken ++ contents ring), (refused + d). split; [|by apply Forall_app].
    split; cbn; try done; [congruence| |intros _; by exists taken|intros _ _; apply i_buf; [done|by apply Forall_app]].
    rewrite i_dropped. apply Zplus_mod_idemp_l.
Qed.

Definition journal_ok (tbl : rstate) (p : platform) : Prop :=
  (JournalFile ∈ live tbl -> exists j, p_journal p = Some j /\ js_closed j = false) /\
  forall j, p_journal p = Some j ->
    (JournalFile ∉ live tbl -> js_closed j = true /\ js_pc j = PcDone) /\ journal_keeps (p_file p) j.

(** A change that is not the journal's. *)
Definition same_journal (p p' : platform) : Prop :=
  p_journal p' = p_journal p /\ p_file p' = p_file p.

Lemma journal_ok_same tbl tbl' p p' :
  same_journal p p' -> (JournalFile ∈ live tbl' <-> JournalFile ∈ live tbl) ->
  journal_ok tbl p -> journal_ok tbl' p'.
Proof. unfold journal_ok. intros (-> & ->) Hl. by setoid_rewrite Hl. Qed.

Lemma put_queues_journal out resp p : same_journal p (put_queues out resp p).
Proof. unfold put_queues. by case_match. Qed.

Lemma init_queue_journal q p : same_journal p (init_queue q p).
Proof. destruct q; try apply put_queues_journal; done. Qed.

(** A change of the open journal that leaves it open. *)
Lemma journal_ok_open tbl p j j' :
  journal_ok tbl p -> p_journal p = Some j -> js_closed j = false -> js_closed j' = false ->
  (journal_keeps (p_file p) j -> journal_keeps (p_file p) j') -> journal_ok tbl (set_journal (Some j') p).
Proof.
  intros [Hl Hj] Ej Hopen Hopen' Hk. destruct (Hj j Ej) as [Hdead Hkeep]. split; cbn.
  - intros _. by exists j'.
  - intros j1 [= <-]. split; [intros Hn; destruct (Hdead Hn); congruence|by apply Hk].
Qed.

Lemma journal_ok_call ev r tbl p j j' :
  journal_ok tbl p -> p_journal p = Some j -> (forall x, ev <> EvAppend x) -> ev <> EvCloseJoin ->
  jstep ev j = Some (r, j') -> journal_ok tbl (set_journal (Some j') p).
Proof.
  intros Hok Ej Ha Hc E. destruct (step_closed _ _ _ _ E) as [Hopen Hopen'].
  eapply journal_ok_open; [exact Hok|exact Ej|done|by apply Hopen'|]. intros Hk. by eapply keeps_step.
Qed.

(** What the calls of [main] on other objects leave alone. *)
Lemma effect_journal e cfg an a p p' :
  effect e cfg an a p = Some p' ->
  match a with AJournalOpen _ _ | AJournalFlush | AJournalClose => True | _ => same_journal p p' end.
Proof.
  intros He. destruct a as [r| | | | |bytes arenas|path ms|path|cap|q| | | |c cpu|c|o s|now| |c| | |c| | |];
    try done; cbn in He; try (destruct c); repeat (case_match; try done); simplify_eq; try done;
    try (destruct (p_gateway p); by simplify_eq/=).
  apply init_queue_journal.
Qed.

Lemma journal_ok_effect e n cfg an a tbl tbl' p p' :
  journal_ok tbl p -> rstep e n tbl a = Some tbl' -> effect e cfg an a p = Some p' -> journal_ok tbl' p'.
Proof.
  intros Hj Ht%journal_live He. pose proof (effect_journal _ _ _ _ _ _ He) as Hs.
  destruct a; try (by eapply journal_ok_same; [exact Hs|exact Ht|exact Hj]); clear Hs; cbn in He.
  - destruct Ht as [Hn Hl]. rewrite open_spec in He. destruct (_ && _) in He.
    + destruct (e_journal e); simplify_eq. split; cbn; [by eexists|].
      intros j [= <-]. split; [intros Hn'; by destruct Hn'; apply Hl|apply keeps_opened].
    + destruct (e_journal e); simplify_eq. split; cbn; [by intros Hin%Hl|done].
  - destruct Ht as [Hl Hl']. destruct (p_journal p) as [j|] eqn:Ej; [|done].
    destruct (jstep _ j) as [[r j']|] eqn:E; [|done]; cbn in He; injection He as <-.
    assert (journal_ok tbl (set_journal (Some j') p)) as [H1 H2] by
      (by eapply (journal_ok_call (EvFlush (a_sync an)))).
    split; [by intros _; apply H1|]. intros j1 E1. destruct (H2 j1 E1) as [Hd Hr].
    by split.
  - destruct Ht as [Hl Hl']. destruct (p_journal p) as [j|] eqn:Ej; [|done].
    destruct (jstep _ j) as [[r j']|] eqn:E; [|done]; cbn in He; injection He as <-. destruct Hj as [_ Hj].
    destruct (Hj j Ej) as [_ Hk]. pose proof (join_closes _ _ _ E) as (_ & Hc & _ & _ & Hpc).
    split; cbn; [done|]. intros j1 [= <-]. split; [done|]. by eapply (keeps_step _ EvCloseJoin).
Qed.

(** ** The gateway and its queues *)

Definition storage_ok {A} (q : queue A) : Prop := exists k, 1 <= k < 64 /\ zlen (q_buffer q) = 2 ^ k.

Lemma wf_storage {A} (q : queue A) : queue_wf q -> storage_ok q.
Proof. intros (k & Hk & _ & Hl & _). by exists k. Qed.

Definition resp_ok (q : queue bt_order_response_t) : Prop :=
  queue_wf q /\ Forall order_response_wf (contents q).

Lemma storage_init {A} `{!Inhabited A} (q : queue A) :
  storage_ok q -> queue_wf (QUEUE_INIT (q_buffer q)) /\ contents (QUEUE_INIT (q_buffer q)) = [].
Proof. intros (k & Hk & Hl). split; [by apply (queue_init_wf _ k)|done]. Qed.

Record gateway_ok (tbl : rstate) (p : platform) : Prop := {
  gk_alive : Gateway ∈ alive tbl <-> is_Some (p_gateway p);
  gk_ctx : forall x, p_gateway p = Some x -> ctx_ok x;
  gk_out : storage_ok (out_q p);
  gk_resp : storage_ok (resp_q p);
  gk_out_wf : QueueOf g_gate_out_q ∈ live tbl -> queue_wf (out_q p);
  gk_resp_wf : QueueOf g_response_q ∈ live tbl -> resp_ok (resp_q p);
}.

Lemma put_queues_out out resp p : out_q (put_queues out resp p) = out /\ resp_q (put_queues out resp p) = resp.
Proof. unfold put_queues, out_q, resp_q. by destruct (p_gateway p) eqn:E; cbn; rewrite ?E. Qed.

Lemma put_queues_gateway out resp p :
  is_Some (p_gateway (put_queues out resp p)) <-> is_Some (p_gateway p).
Proof. unfold put_queues. destruct (p_gateway p) eqn:E; cbn; rewrite ?E; split; intros [? ?]; by eexists. Qed.

Lemma gateway_ok_put tbl tbl' p out resp :
  gateway_ok tbl p -> (Gateway ∈ alive tbl' <-> Gateway ∈ alive tbl) ->
  storage_ok out -> storage_ok resp ->
  (is_Some (p_gateway p) \/ QueueOf g_gate_out_q ∈ live tbl' -> queue_wf out) ->
  (is_Some (p_gateway p) \/ QueueOf g_response_q ∈ live tbl' -> resp_ok resp) ->
  gateway_ok tbl' (put_queues out resp p).
Proof.
  intros [Ha Hc _ _ _ _] Hg Ho Hr How Hrw. destruct (put_queues_out out resp p) as [Eo Er].
  split; rewrite ?Eo, ?Er; try done; try tauto.
  - by rewrite put_queues_gateway, Hg.
  - intros x Hx. unfold put_queues in Hx. destruct (p_gateway p) as [y|] eqn:E; cbn in Hx; [|congruence].
    injection Hx as <-. destruct Hrw as [? ?]; [by left; eexists|].
    apply set_queues_ok; [by apply Hc|apply How; left; by eexists|done|done].
Qed.

(** A change of the context that keeps its invariant. *)
Lemma gateway_ok_ctx tbl p x x' :
  gateway_ok tbl p -> p_gateway p = Some x -> ctx_ok x' -> gateway_ok tbl (set_gateway (Some x') p).
Proof.
  intros [Ha Hc _ _ _ _] Ex Hx. pose proof (k_out _ Hx) as [Hout _]. pose proof (k_resp _ Hx).
  split; cbn; try done.
  - rewrite Ha, Ex. split; intros _; by eexists.
  - intros y [= <-]. done.
  - by apply wf_storage.
  - by apply wf_storage.
  - intros _. split; [done|]. by apply k_resps.
Qed.

Lemma ctx_running b x : ctx_ok x -> ctx_ok (set_running b x).
Proof. intros [? ? ? [? ?] ? ?]. by split. Qed.

(** The same context, or none, on a table in which only other things changed. *)
Lemma gateway_ok_same tbl tbl' p p' :
  gateway_ok tbl p -> p_gateway p' = p_gateway p -> p_out p' = p_out p -> p_resp p' = p_resp p ->
  (Gateway ∈ alive tbl' <-> Gateway ∈ alive tbl) ->
  (forall q, q = g_gate_out_q \/ q = g_response_q -> QueueOf q ∈ live tbl' -> QueueOf q ∈ live tbl) ->
  gateway_ok tbl' p'.
Proof.
  intros [Ha Hc Ho Hr How Hrw] Eg Eo Er Hg Hq. unfold out_q, resp_q in *.
  split; unfold out_q, resp_q; rewrite ?Eg, ?Eo, ?Er; try done; try tauto; auto.
Qed.

(** What the calls of [main] on other objects leave alone. *)
Definition same_gateway (p p' : platform) : Prop :=
  p_gateway p' = p_gateway p /\ p_out p' = p_out p /\ p_resp p' = p_resp p.

Lemma effect_gateway e cfg an a p p' :
  effect e cfg an a p = Some p' ->
  match a with
  | AQueueInit _ | ACreate Gateway _ | AStop Gateway | ADestroy Gateway => True
  | _ => same_gateway p p'
  end.
Proof.
  intros He. destruct a as [r| | | | |bytes arenas|path ms|path|cap|q| | | |c cpu|c|o s|now| |c| | |c| | |];
    try done; try (destruct c); try done; cbn in He; repeat (case_match; try done); simplify_eq; try done.
  - destruct (jstep _ _) as [[? ?]|]; by simplify_eq/=.
  - destruct (jstep _ _) as [[? ?]|]; by simplify_eq/=.
Qed.

Lemma gateway_ok_init tbl tbl' p q :
  gateway_ok tbl p -> (Gateway ∈ alive tbl' <-> Gateway ∈ alive tbl) ->
  (forall q', QueueOf q' ∈ live tbl' <-> QueueOf q' ∈ live tbl \/ AQueueInit q = AQueueInit q') ->
  gateway_ok tbl' (init_queue q p).
Proof.
  intros Hok Hg Hq. pose proof Hok as [Ha Hc Ho Hr How Hrw].
  destruct (storage_init _ Ho) as [Hwo _]. destruct (storage_init _ Hr) as [Hwr Er].
  assert (forall x, p_gateway p = Some x -> queue_wf (out_q p) /\ resp_ok (resp_q p)) as Hctx.
  { intros x Ex. unfold out_q, resp_q. rewrite Ex. destruct (Hc x Ex) as [_ _ _ [? _] ? ?]. by split. }
  assert (forall q', q' = g_gate_out_q \/ q' = g_response_q -> q <> g_gate_out_q -> q <> g_response_q ->
    QueueOf q' ∈ live tbl' -> QueueOf q' ∈ live tbl) as Hother.
  { intros q' Hor H1 H2 [?|?]%Hq; [done|]. simplify_eq. by destruct Hor. }
  destruct q; cbn; try (by eapply gateway_ok_same; [exact Hok|..|intros q' Hor; by apply Hother]).
  - apply (gateway_ok_put tbl); [done|done|by apply wf_storage|done|done|].
    intros [[x Ex]|Hl]; [by apply (Hctx x)|]. apply Hq in Hl as [?|?]; [by apply Hrw|done].
  - apply (gateway_ok_put tbl); [done|done|done|by apply wf_storage|..].
    + intros [[x Ex]|Hl]; [by apply (Hctx x)|]. apply Hq in Hl as [?|?]; [by apply How|done].
    + intros _. split; [done|by rewrite Er].
Qed.

(** A new context. *)
Lemma gateway_ok_new tbl' p x :
  (Gateway ∈ alive tbl' <-> true = true) -> ctx_ok x -> gateway_ok tbl' (set_gateway (Some x) p).
Proof.
  intros Hg Hx. pose proof (k_out _ Hx) as [Hout _]. pose proof (k_resp _ Hx).
  split; cbn; [|by intros y [= <-]|by apply wf_storage|by apply wf_storage|done|].
  - rewrite Hg. split; [by eexists|done].
  - intros _. split; [done|by apply k_resps].
Qed.

Lemma gateway_ok_effect e cfg an a tbl tbl' p p' :
  0 <= max_connections cfg -> gateway_ok tbl p -> rstep e (matching_threads cfg) tbl a = Some tbl' ->
  effect e cfg an a p = Some p' -> gateway_ok tbl' p'.
Proof.
  intros Hmax Hok Ht He. pose proof (gateway_alive _ _ _ _ _ Ht) as Hg.
  pose proof (fun q => queue_live _ _ q _ _ _ Ht) as Hq. pose proof (effect_gateway _ _ _ _ _ _ He) as Hs.
  assert (match a with AQueueInit _ => True | _ => forall q, QueueOf q ∈ live tbl' -> QueueOf q ∈ live tbl end) as Hl.
  { destruct a; try done; intros q' [?|?]%Hq; done. }
  destruct a as [r| | | | |bytes arenas|path ms|path|cap|q| | | |c cpu|c|o s|now| |c| | |c| | |]; try destruct c;
    try (destruct Hs as (Eg & Eo & Er); eapply gateway_ok_same;
         [exact Hok|exact Eg|exact Eo|exact Er|exact Hg|intros q' _; apply Hl]);
    clear Hs; cbn in He.
  - injection He as <-. by apply (gateway_ok_init tbl).
  - destruct Hg as (Hna & Hu & Hg).
    assert (p_gateway p = None) as En.
    { destruct (p_gateway p) eqn:E; [|done]. destruct Hna. apply (gk_alive _ _ Hok). rewrite E. by eexists. }
    destruct (bt_gateway_create _ _ _ _ _ _ _ _ _ _ _) as [x|] eqn:Ex; destruct (e_create e Gateway);
      simplify_eq.
    + apply gateway_ok_new; [exact Hg|]. eapply create_ok; [exact Hmax|..|exact Ex].
      * apply (gk_out_wf _ _ Hok), Hu. set_solver.
      * apply (gk_resp_wf _ _ Hok), Hu. set_solver.
      * apply (gk_resp_wf _ _ Hok), Hu. set_solver.
    + eapply gateway_ok_same; [exact Hok|done..| |intros q' _; apply Hl]. rewrite Hg. split; [done|tauto].
  - case_match; [|done]. destruct (p_gateway p) as [x|] eqn:Ex; [|done]. injection He as <-.
    eapply gateway_ok_same; [eapply (gateway_ok_ctx tbl p x); [exact Hok|exact Ex|]
      |done..|exact Hg|intros q' _; apply Hl]. by apply ctx_running, (gk_ctx _ _ Hok).
  - destruct (p_gateway p) as [x|] eqn:Ex; [|done]. injection He as <-. destruct Hg as [_ Hg].
    destruct (gk_ctx _ _ Hok x Ex) as [_ _ _ [Hout _] Hresp Hrs].
    split; cbn; [|done|by apply wf_storage|by apply wf_storage|done|done]. split; [done|by intros [? ?]].
Qed.

(** ** The arenas of the shards *)

Definition is_assign (a : action) : bool := match a with AAssignArena => true | _ => false end.

(** The assignments a trace has. *)
Definition assigns (t : list action) : Z := zlen (List.filter is_assign t).

Lemma assigns_app t t' : assigns (t ++ t') = assigns t + assigns t'.
Proof. unfold assigns. by rewrite List.filter_app, zlen_app. Qed.

Lemma assigns_cons a t : assigns (a :: t) = (if is_assign a then 1 else 0) + assigns t.
Proof. unfold assigns. cbn. destruct (is_assign a); [by rewrite zlen_cons|lia]. Qed.

Lemma assigns_nonneg t : 0 <= assigns t.
Proof. apply zlen_nonneg. Qed.

(** With [k] arenas, of which [t] assigns not more than there are left. *)
Record shards_ok (k : Z) (t : list action) (tbl : rstate) (p : platform) : Prop := {
  sk_shards : p_shards p = seqZ 0 (zlen (p_shards p));
  sk_room : zlen (p_shards p) + assigns t <= k;
  sk_size : forall bytes arenas, AMempoolInit bytes arenas ∈ t -> bytes <> 0 /\ arenas = k;
  sk_pool : Mempool ∈ live tbl -> mp_num_arenas (p_pool p) = k /\ mp_arena_counter (p_pool p) = zlen (p_shards p);
}.

Lemma effect_shards e cfg an a p p' :
  effect e cfg an a p = Some p' ->
  match a with
  | AMempoolInit _ _ | AAssignArena | AMempoolDestroy => True
  | _ => p_pool p' = p_pool p /\ p_shards p' = p_shards p
  end.
Proof.
  intros He. destruct a as [r| | | | |bytes arenas|path ms|path|cap|q| | | |c cpu|c|o s|now| |c| | |c| | |];
    try done; cbn in He; try (destruct c); repeat (case_match; try done); simplify_eq; try done.
  - destruct q; cbn; try done; unfold put_queues; by case_match.
  - destruct (p_gateway p); by simplify_eq/=.
  - destruct (jstep _ _) as [[? ?]|]; by simplify_eq/=.
  - destruct (jstep _ _) as [[? ?]|]; by simplify_eq/=.
  - destruct (p_gateway p); by simplify_eq/=.
Qed.

Lemma pool_init_spec pool mem bytes arenas rc pool' l :
  bt_mempool_init (Some pool) mem bytes arenas true = (rc, Some (pool', l)) -> 0 <= rc ->
  mp_num_arenas pool' = arenas /\ mp_arena_counter pool' = 0.
Proof. unfold bt_mempool_init. intros H Hrc. repeat case_match; by simplify_eq/=. Qed.

Lemma shards_ok_effect e n cfg an k a t tbl tbl' p p' :
  k < 2 ^ 32 -> shards_ok k (a :: t) tbl p -> rstep e n tbl a = Some tbl' -> effect e cfg an a p = Some p' ->
  shards_ok k t tbl' p'.
Proof.
  intros Hk [Hs Hroom Hsize Hpool] Ht%mempool_live He. pose proof (effect_shards _ _ _ _ _ _ He) as Hsame.
  rewrite assigns_cons in Hroom. pose proof (zlen_nonneg (p_shards p)). pose proof (assigns_nonneg t).
  assert (forall bytes arenas, AMempoolInit bytes arenas ∈ t -> bytes <> 0 /\ arenas = k) as Hsize'.
  { intros b ar Hin. apply (Hsize b). by right. }
  destruct a; cbn [is_assign] in Hroom;
    try (destruct Hsame as [Ep Es]; split; rewrite ?Es, ?Ep; [done|lia|exact Hsize'|rewrite Ht; exact Hpool]);
    clear Hsame; cbn [effect] in He.
  - destruct (bt_mempool_init _ _ _ _ _) as [rc [[pool' l]|]] eqn:Ei; [|done].
    destruct (eqb _ _) eqn:Eb; simplify_eq. apply eqb_prop in Eb.
    split; cbn; [done|unfold zlen; cbn; lia|exact Hsize'|]. intros Hl. specialize (Ht Hl).
    rewrite Ht in Eb. destruct (pool_init_spec _ _ _ _ _ _ _ Ei) as [-> ->]; [lia|].
    split; [|done]. apply (Hsize bytes). by left.
  - injection He as <-. destruct (Hpool Ht) as [En Ec]. split; cbn.
    + rewrite zlen_app. change (zlen [_]) with 1. rewrite seqZ_app by lia. f_equal; [done|].
      rewrite En, Ec, Z.add_0_l, Z.mod_small, u32_small by lia. by rewrite seqZ_cons by lia.
    + rewrite zlen_app. change (zlen [_]) with 1. lia.
    + exact Hsize'.
    + intros _. split; [done|]. rewrite Ec, zlen_app. apply u64_small. unfold is_u64. change (zlen [_]) with 1. lia.
  - injection He as <-. split; cbn; [done|lia|exact Hsize'|done].
Qed.

(** ** What the trace of [main] has *)

(** At most [k] assignments, and a pool of [arenas] arenas that is not empty. *)
Definition within {A} (arenas k : Z) (m : M A) : Prop :=
  assigns (snd m) <= k /\ Forall (fun a => forall b n, a = AMempoolInit b n -> b <> 0 /\ n = arenas) (snd m).

Section within.
Context (arenas : Z).

Lemma within_bind {A B} k k' (m : M A) (f : A -> M B) :
  0 <= k' -> within arenas k m -> (forall x, within arenas k' (f x)) -> within arenas (k + k') (bindM m f).
Proof.
  intros Hk [Hm HF] Hf. destruct m as [[x|c|] t]; cbn [bindM]; [|by split; cbn in *; [lia|]..].
  destruct (Hf x) as [Hx HF']. destruct (f x) as [r t']. cbn [snd] in *. split; cbn [snd].
  - rewrite assigns_app. lia.
  - by apply Forall_app.
Qed.

Lemma within_then {A} k (m : M unit) (m' : M A) :
  0 <= k -> within arenas 0 m -> within arenas k m' -> within arenas k (m ;;; m').
Proof. intros Hk Hm Hm'. rewrite <- (Z.add_0_l k). by apply within_bind. Qed.

(** A list of actions of which none assigns an arena or makes a pool. *)
Definition plain (a : action) : bool :=
  match a with AAssignArena | AMempoolInit _ _ => false | _ => true end.

Lemma within_plain {A} (r : res A) l : Forall (fun a => plain a = true) l -> within arenas 0 (r, l).
Proof.
  intros Hl. split; cbn.
  - induction Hl as [|a l Ha _ IH]; [done|]. rewrite assigns_cons. by destruct a.
  - eapply Forall_impl; [exact Hl|]. by intros a Ha b n ->.
Qed.

Lemma within_each k l f :
  0 <= k -> (forall i, within arenas k (f i)) -> within arenas (k * zlen l) (each l f).
Proof.
  intros Hk Hf. induction l as [|i l IH]; cbn [each].
  - rewrite Z.mul_0_r. by apply within_plain.
  - rewrite zlen_cons, Z.mul_add_distr_l, Z.mul_1_r. pose proof (zlen_nonneg l).
    apply within_bind; [nia|apply Hf|done].
Qed.

Lemma within_for k n f :
  0 <= k -> 0 <= n -> (forall i, within arenas k (f i)) -> within arenas (k * n) (for_n n f).
Proof.
  intros Hk Hn Hf. unfold for_n. pose proof (within_each k (seqZ 0 n) f Hk Hf) as H.
  replace (zlen (seqZ 0 n)) with n in H; [done|]. unfold zlen. rewrite length_seqZ. lia.
Qed.

Lemma within_for0 n f : 0 <= n -> (forall i, within arenas 0 (f i)) -> within arenas 0 (for_n n f).
Proof. intros Hn Hf. rewrite <- (Z.mul_0_l n). by apply within_for. Qed.

Lemma within_slot size i : within arenas 0 (slot size i).
Proof. unfold slot. by case_match; apply within_plain. Qed.

Lemma within_fatal b : within arenas 0 (or_fatal b).
Proof. by destruct b; apply within_plain. Qed.

Lemma within_when b a : plain a = true -> within arenas 0 (when b a).
Proof. intros Ha. apply within_plain. destruct b; repeat constructor; done. Qed.

Lemma within_act a : plain a = true -> within arenas 0 (act a).
Proof. intros Ha. apply within_plain. by repeat constructor. Qed.

Lemma within_launch e c cpu : within arenas 0 (launch e c cpu).
Proof. apply within_plain. cbn. destruct (e_create e c); by repeat constructor. Qed.

End within.

Create HintDb within.
#[local] Hint Resolve within_slot within_fatal within_when within_act within_launch within_plain : within.

Ltac within_seq := repeat (apply within_then; [lia|solve [eauto with within]|]).

Section main_trace.
Context (e : env) (cfg : bt_runtime_config) (Hb : in_bounds cfg).
Context (Hsize : u64 (mempool_size_mb cfg * 1024 * 1024) <> 0).
Local Abbreviation k := (matching_threads cfg + risk_threads cfg + 4).

Lemma boot_within : within k 0 (boot e cfg).
Proof using Hsize.
  unfold boot. apply within_then; [lia|apply within_plain, Forall_fmap, Forall_true; done|].
  apply within_then; [lia|apply within_plain; by repeat constructor|].
  apply within_then; [lia|split; [done|apply Forall_singleton; by intros b n' [= <- <-]]|].
  within_seq. apply within_fatal.
Qed.

Lemma init_queues_within : within k 0 (init_queues cfg).
Proof using Hb.
  destruct Hb as [Hm _]. unfold init_queues. apply within_then; [lia|apply within_plain; by repeat constructor|].
  apply within_for0; [lia|]. intros i. apply within_then; [lia|apply within_slot|]. apply within_plain. by repeat constructor.
Qed.

Lemma for_components_within f : (forall c, plain (f c) = true) -> within k 0 (for_components e cfg f).
Proof using Hb.
  destruct Hb as [Hm Hr]. intros Hf. unfold for_components.
  assert (forall b c, within k 0 (when b (f c))) as Hw by (intros; by apply within_when).
  repeat (apply within_then; [lia|first [apply Hw|apply within_for0; [lia|]; intros i;
    apply within_then; [lia|apply within_slot|apply Hw]]|]). apply Hw.
Qed.

Lemma start_all_within : within k (matching_threads cfg) (start_all e cfg).
Proof using Hb.
  destruct Hb as [Hm Hr]. unfold start_all.
  apply within_then; [lia|apply within_launch|]. apply within_then; [lia|apply within_launch|].
  rewrite <- (Z.add_0_r (matching_threads cfg)) at 2. apply within_bind; [lia| |].
  - rewrite <- (Z.mul_1_l (matching_threads cfg)) at 2. apply within_for; [lia|lia|]. intros i.
    rewrite <- (Z.add_0_r 1). apply within_bind; [lia|split; [done|by repeat constructor]|]. intros _.
    apply within_then; [lia|apply within_slot|apply within_launch].
  - intros _. within_seq. apply within_then; [lia|apply within_for0; [lia|]; intros i; apply within_slot|].
    within_seq. apply within_then; [lia|apply within_for0; [lia|]; intros i;
      apply within_then; [lia|apply within_slot|apply within_launch]|].
    within_seq. by apply within_when.
Qed.

Lemma wait_loop_within last nows : within k 0 (wait_loop last nows).
Proof using Type.
  revert last. induction nows as [|now nows IH]; intros last; cbn [wait_loop]; [by apply within_plain|].
  case_match; [|apply IH]. apply within_then; [lia|apply within_plain; by repeat constructor|apply IH].
Qed.

End main_trace.

Lemma main_within e args :
  let cfg := assign_cores (configured args) in
  in_bounds cfg -> u64 (mempool_size_mb cfg * 1024 * 1024) <> 0 ->
  within (matching_threads cfg + risk_threads cfg + 4) (matching_threads cfg) (main e args).
Proof.
  intros cfg Hb Hsize. pose proof Hb as [Hm Hr]. unfold main. fold cfg.
  apply within_then; [lia|apply within_fatal|]. apply within_then; [lia|by apply boot_within|].
  apply within_then; [lia|by apply init_queues_within|].
  apply within_then; [lia|unfold init_risk; within_seq; by apply within_when|].
  rewrite <- (Z.add_0_r (matching_threads cfg)) at 2.
  apply within_bind; [lia|by apply start_all_within|intros _].
  apply within_then; [lia|by apply within_when|]. apply within_then; [lia|apply wait_loop_within|].
  apply within_then; [lia| |by apply within_plain].
  unfold shutdown. within_seq. apply within_then; [lia|by apply for_components_within|].
  within_seq. apply within_then; [lia|by apply for_components_within|]. within_seq. by apply within_act.
Qed.

(** A run that reports success opened its journal. *)
Lemma boot_opens e cfg :
  fst (boot e cfg) <> Exit 0 /\
  (fst (boot e cfg) = Go tt -> e_journal e = true /\ exists path ms, AJournalOpen path ms ∈ snd (boot e cfg)).
Proof.
  unfold boot. generalize (map ARegister (thread_table cfg)) as l. intros l.
  destruct (e_mempool e); [|done]. destruct (e_journal e); [|done]. destruct (e_event_bus e); cbn;
    (split; [done|]; intros Hgo; split; [done|]); [|done].
  exists (journal_path cfg), (journal_sync_ms cfg). apply elem_of_app. right. set_solver.
Qed.

Lemma main_opens e args :
  fst (main e args) = Exit 0 ->
  e_journal e = true /\ exists path ms, AJournalOpen path ms ∈ snd (main e args).
Proof.
  unfold main. destruct (validate (configured args)); [|done].
  change (or_fatal true) with (Go tt, @nil action). rewrite go_then. cbn [fst snd app].
  pose proof (boot_opens e (assign_cores (configured args))) as [Hne Hopen].
  destruct (boot e (assign_cores (configured args))) as [[[]|c|] tb]; cbn [fst snd] in *.
  - intros _. destruct (Hopen eq_refl) as (Hj & path & ms & Hin). split; [done|]. exists path, ms.
    rewrite go_then. cbn [snd]. apply elem_of_app. by left.
  - cbn [bindM fst]. congruence.
  - done.
Qed.

(** ** The invariant of the platform *)

Section platform_inv.
Context (e : env) (args : list (list Z)) (Hn : matching_threads (configured args) ∈ [1; 2; 4]).
Context (Hstart : forall c, e_create e c = true -> e_start e c = true).
Local Abbreviation cfg := (assign_cores (configured args)).
Local Abbreviation n := (matching_threads cfg).
Local Abbreviation arenas := (matching_threads cfg + risk_threads cfg + 4).

Record pinv (s : pstate) : Prop := {
  pv_table : table_ok n (p_table s.2);
  pv_replay : exists st, replay e n (p_table s.2) s.1 = Some st /\
    (fst (main e args) = Exit 0 -> st = RState (queues n) ∅ ∅);
  pv_journal : journal_ok (p_table s.2) s.2;
  pv_gateway : gateway_ok (p_table s.2) s.2;
  pv_shards : shards_ok arenas s.1 (p_table s.2) s.2;
  pv_opened : fst (main e args) = Exit 0 -> p_journal s.2 = None ->
    exists path ms, AJournalOpen path ms ∈ s.1;
  pv_asked : forall x, Gateway ∈ p_asked s.2 -> p_gateway s.2 = Some x -> x_running x = false;
}.

Lemma few_arenas : 0 < n /\ arenas < 2 ^ 32.
Proof using Hn.
  rewrite assigned_risk, assigned_matching. rewrite !elem_of_cons, elem_of_nil in Hn.
  repeat destruct Hn as [->|Hn']; lia.
Qed.

Lemma some_connections : 0 <= max_connections cfg.
Proof using Type. pose proof (configured_fixed args) as Hf. injection Hf as E1 E2 E3 E4 E5. cbn. lia. Qed.

Lemma pool_not_empty : u64 (mempool_size_mb cfg * 1024 * 1024) <> 0.
Proof using Type.
  pose proof (configured_fixed args) as Hf. injection Hf as E1 E2 E3 E4 E5 E6.
  change (mempool_size_mb cfg) with (mempool_size_mb (configured args)). by rewrite E6.
Qed.

Lemma pinv_start out resp :
  storage_ok out -> storage_ok resp -> pinv (snd (main e args), platform_start out resp).
Proof using Hn Hstart.
  intros Ho Hr. destruct (main_ends e args Hn Hstart rstart eq_refl) as (st & Hrep & Hend).
  destruct (components_ok args Hn) as (Hb & _). destruct (main_within e args Hb pool_not_empty) as [Ha Hi].
  pose proof (main_opens e args) as Hopen. split; cbn [fst snd].
  - intros c Hc. cbn in Hc. set_solver.
  - exists st. split; [exact Hrep|exact Hend].
  - split; cbn [p_table p_journal platform_start live rstart]; [set_solver|done].
  - split; [|done|exact Ho|exact Hr|cbn; set_solver|cbn; set_solver].
    cbn. split; [set_solver|]. intros [x Hx]. discriminate Hx.
  - split; cbn [p_table p_shards platform_start live rstart]; [done| | |set_solver].
    + change (zlen []) with 0. pose proof few_arenas. destruct Hb as [Hm Hrk]. lia.
    + intros b k Hin. rewrite Forall_forall in Hi. by eapply Hi.
  - intros H _. by apply Hopen.
  - done.
Qed.

(** Only the call that opens the journal makes or loses one. *)
Lemma effect_opened an a p p' :
  effect e cfg an a p = Some p' -> p_journal p' = None ->
  (p_journal p = None /\ forall path ms, a <> AJournalOpen path ms) \/ e_journal e = false.
Proof using Type.
  intros He Hn'. pose proof (effect_journal _ _ _ _ _ _ He) as Hs.
  destruct a; try (destruct Hs as (E & _); left; split; [congruence|done]); clear Hs; cbn [effect] in He.
  - destruct (bt_journal_open _ _ _ _ _ _ _); destruct (e_journal e); simplify_eq; by right.
  - destruct (p_journal p) as [j|]; [|done]. destruct (jstep _ j) as [[r j']|]; by simplify_eq/=.
  - destruct (p_journal p) as [j|]; [|done]. destruct (jstep _ j) as [[r j']|]; by simplify_eq/=.
Qed.

(** A move of another thread: the table stays, and the calls of [main] too. *)
Lemma pinv_threads t p p' :
  pinv (t, p) -> p_table p' = p_table p -> p_pool p' = p_pool p -> p_shards p' = p_shards p ->
  journal_ok (p_table p) p' -> gateway_ok (p_table p) p' -> (p_journal p' = None -> p_journal p = None) ->
  (forall x, Gateway ∈ p_asked p' -> p_gateway p' = Some x -> x_running x = false) ->
  pinv (t, p').
Proof using Type.
  intros [Ht Hr _ _ [Hs1 Hs2 Hs3 Hs4] Ho _] Et Ep Es Hj Hg Hn' Has. cbn [fst snd] in *.
  split; cbn [fst snd]; rewrite ?Et; [done..| | |exact Has].
  - split; rewrite ?Ep, ?Es; done.
  - intros H0 H1. by apply Ho, Hn'.
Qed.

(** The journal changes, and nothing else. *)
Lemma pinv_journal t p j j' :
  pinv (t, p) -> p_journal p = Some j -> journal_ok (p_table p) (set_journal (Some j') p) ->
  pinv (t, set_journal (Some j') p).
Proof using Type.
  intros Hp Ej Hj. apply (pinv_threads t p); try done; [|by intros x; apply (pv_asked _ Hp)].
  by eapply gateway_ok_same; [apply Hp|done..|intros q _].
Qed.

(** The context of the gateway changes, and nothing else but the threads. *)
Lemma pinv_context t p x x' asked ended :
  pinv (t, p) -> p_gateway p = Some x -> ctx_ok x' -> (Gateway ∈ asked -> x_running x' = false) ->
  pinv (t, set_threads asked ended (set_gateway (Some x') p)).
Proof using Type.
  intros Hp Ex Hx Ha. apply (pinv_threads t p); try done.
  - by eapply journal_ok_same; [|done|apply Hp].
  - eapply gateway_ok_same; [by eapply (gateway_ok_ctx (p_table p) p x x'); [apply Hp|..]|done..].
  - by intros y Hy [= <-]; apply Ha.
Qed.

(** A call on the journal. *)
Lemma call_inv ev t p r p' :
  pinv (t, p) -> (forall x, ev <> EvAppend x) -> ev <> EvCloseJoin ->
  journal_call ev p = Some (r, p') -> pinv (t, p').
Proof using Type.
  intros Hp Ha Hc E. unfold journal_call in E. destruct (p_journal p) as [j|] eqn:Ej; [|done]. cbn in E.
  destruct (jstep ev j) as [[r' j']|] eqn:Es; [|done]. cbn in E. injection E as <- <-.
  eapply pinv_journal; [exact Hp|exact Ej|]. by eapply (journal_ok_call ev r'); [apply Hp|..].
Qed.

Lemma append_inv t p j ring d :
  pinv (t, p) -> p_journal p = Some j -> js_closed j = false -> appends_leave (j_ring (js_j j)) ring ->
  pinv (t, set_journal (Some (set_j (Journal.set_ring ring (add_dropped d (js_j j))) j)) p).
Proof using Type.
  intros Hp Ej Hc Hl. eapply pinv_journal; [exact Hp|exact Ej|].
  eapply journal_ok_open; [apply Hp|exact Ej|done|done|]. intros Hk. by apply keeps_ring.
Qed.

(** The stop of a component, up to the wait. *)
Lemma request_inv t p c p' : pinv (t, p) -> stop_request c p = Some p' -> pinv (t, p').
Proof using Type.
  clear Hn Hstart. intros Hp E. assert (c = Gateway \/ c <> Gateway) as [->|Hc] by (clear; destruct c; naive_solver).
  - cbn in E. destruct (p_gateway p) as [x|] eqn:Ex; [|done]. injection E as <-.
    apply (pinv_context t p x (set_running false x)); [done|done| |done].
    eapply ctx_running, gk_ctx; [apply Hp|done].
  - assert (p' = set_threads ({[c]} ∪ p_asked p) (p_ended p) p) as ->.
    { destruct c; simplify_eq/=; done. }
    apply (pinv_threads t p); try done.
    + by eapply journal_ok_same; [|done|apply Hp].
    + by eapply gateway_ok_same; [apply Hp|done..|intros q _].
    + intros x Ha. apply (pv_asked _ Hp). cbn in *. set_solver.
Qed.

(** The calls of [main] on the gateway and what they do to the requests. *)
Lemma effect_asked an a p p' :
  effect e cfg an a p = Some p' ->
  (forall x, Gateway ∈ p_asked p -> p_gateway p = Some x -> x_running x = false) ->
  forall x, Gateway ∈ p_asked p' -> p_gateway p' = Some x -> x_running x = false.
Proof using Type.
  clear Hn Hstart. intros He Has x Ha Ex.
  destruct a as [r| | | | |bytes ars|path ms|path|cap|q| | | |c cpu|c|o s|now| |c| | |c| | |];
    cbn [effect] in He; try (injection He as <-; by eapply Has).
  - repeat case_match; simplify_eq/=; by eapply Has.
  - repeat case_match; simplify_eq/=; by eapply Has.
  - injection He as <-. unfold init_queue, put_queues in *.
    destruct q, (p_gateway p) as [y|] eqn:Ey; cbn in *; simplify_eq/=;
      try (by eapply Has); by apply (Has y).
  - destruct c; try (injection He as <-; cbn in *; apply Has; [set_solver|done]).
    repeat case_match; simplify_eq/=; set_solver.
  - case_match; [|done]. destruct c; try (injection He as <-; by eapply Has).
    destruct (p_gateway p) as [y|]; simplify_eq/=. done.
  - destruct (p_journal p) as [j|]; [|done]. destruct (jstep _ j) as [[r j']|]; simplify_eq/=; by eapply Has.
  - destruct (p_journal p) as [j|]; [|done]. destruct (jstep _ j) as [[r j']|]; simplify_eq/=; by eapply Has.
  - destruct c; try (injection He as <-; by eapply Has). destruct (p_gateway p) as [y|]; simplify_eq/=.
Qed.

Lemma main_inv an a t p p' tbl :
  pinv (a :: t, p) -> rstep e n (p_table p) a = Some tbl -> effect e cfg an a p = Some p' ->
  pinv (t, set_table tbl p').
Proof using Hn.
  intros [Ht (st & Hr & Hend) Hj Hg Hs Ho Has] Et Ef. cbn [fst snd] in *. split; cbn [fst snd p_table set_table].
  - by eapply table_ok_step.
  - exists st. split; [|done]. cbn [replay] in Hr. by rewrite Et in Hr.
  - exact (journal_ok_effect _ _ _ _ _ _ _ _ _ Hj Et Ef).
  - eapply gateway_ok_same; [exact (gateway_ok_effect _ _ _ _ _ _ _ _ some_connections Hg Et Ef)|done..].
  - destruct (shards_ok_effect _ _ _ _ _ _ _ _ _ _ _ (proj2 few_arenas) Hs Et Ef). by split.
  - intros H0 H1. destruct (effect_opened _ _ _ _ Ef H1) as [[H2 H3]|H2].
    + destruct (Ho H0 H2) as (path & ms & [E|Hin]%elem_of_cons); [by destruct (H3 path ms)|by exists path, ms].
    + apply main_opens in H0 as [H0 _]. congruence.
  - exact (effect_asked _ _ _ _ Ef Has).
Qed.

Lemma round_inv w t p x x' b :
  pinv (t, p) -> p_gateway p = Some x -> x_running x = true -> pev_ok (PRound w) (t, p) ->
  gw_iteration w x = Some (x', b) ->
  pinv (t, if b then set_gateway (Some x') p else thread_ends Gateway (set_gateway (Some x') p)).
Proof using Type.
  intros Hp Ex Hrun Hok Ew.
  assert (ctx_ok x') as Hx'.
  { eapply (gw_iteration_ok w x); [by eapply gk_ctx; [apply Hp|]| |exact Ew]. destruct w; [by apply Hok|done..]. }
  assert (Gateway ∈ p_asked p -> x_running x' = false) as Ha.
  { intros Ha. pose proof (pv_asked _ Hp x Ha Ex). congruence. }
  destruct b.
  - by apply (pinv_context t p x x' (p_asked p) (p_ended p)).
  - by apply (pinv_context t p x x' (p_asked p) ({[Gateway]} ∪ p_ended p)).
Qed.

Lemma queues_inv t p out resp : pinv (t, p) -> pev_ok (PQueues out resp) (t, p) -> pinv (t, put_queues out resp p).
Proof using Type.
  intros Hp (Hwo & Hwr & Hrs). pose proof (put_queues_journal out resp p) as Hs.
  assert (p_table (put_queues out resp p) = p_table p /\ p_pool (put_queues out resp p) = p_pool p /\
    p_shards (put_queues out resp p) = p_shards p) as (Et & Ep & Esh) by (unfold put_queues; by case_match).
  apply (pinv_threads t p); try done.
  - eapply journal_ok_same; [exact Hs|done|apply Hp].
  - apply (gateway_ok_put (p_table p)); [apply Hp|done|by apply wf_storage|by apply wf_storage|done|done].
  - destruct Hs as (E & _). congruence.
  - intros x. unfold put_queues. destruct (p_gateway p) as [y|] eqn:Ey; cbn; [|congruence].
    intros Ha [= <-]. by apply (pv_asked _ Hp y).
Qed.

Lemma platform_step_inv s s' : pinv s -> platform_step e cfg s s' -> pinv s'.
Proof using Hn.
  destruct s as [t p]. intros Hp (ev & Hok & E).
  destruct ev as [an| | |c|m outs ok now|c ring d|w|out resp]; cbn [pnext] in E.
  - destruct t as [|a t]; [done|]. destruct (rstep e n (p_table p) a) as [tbl|] eqn:Et; [|done].
    cbn [mbind option_bind] in E. destruct (effect e cfg an a p) as [p1|] eqn:Ef; [|done].
    cbn [mbind option_bind] in E. injection E as <-. by eapply main_inv.
  - destruct t as [|[] t]; try done. destruct (journal_call _ p) as [[r p1]|] eqn:Ej; [|done].
    cbn in E. injection E as <-. by eapply (call_inv EvCloseRequest).
  - destruct t as [|[] t]; try done. destruct (stop_request c p) as [p1|] eqn:Er; [|done].
    cbn in E. injection E as <-. by eapply request_inv.
  - case_match; [|done]. injection E as <-. apply (pinv_threads t p); try done.
    + by eapply journal_ok_same; [|done|apply Hp].
    + by eapply gateway_ok_same; [apply Hp|done..|intros q _].
    + intros x. apply (pv_asked _ Hp).
  - destruct (journal_call _ p) as [[r p1]|] eqn:Ej; [|done].
    cbn in E. injection E as <-. by eapply (call_inv (EvWorker m outs ok now)).
  - case_bool_decide; [|done]. destruct (p_journal p) as [j|] eqn:Ej; [|done]. cbn [mbind option_bind] in E.
    destruct (js_closed j) eqn:Hc; [done|]. injection E as <-. apply append_inv; [done..|by apply Hok].
  - case_bool_decide; [|done]. destruct (p_gateway p) as [x|] eqn:Ex; [|done]. cbn [mbind option_bind] in E.
    destruct (x_running x) eqn:Hrun; [|done]. destruct (gw_iteration w x) as [[x' b]|] eqn:Ew; [|done].
    cbn in E. injection E as <-. by apply (round_inv w t p x).
  - injection E as <-. by apply queues_inv.
Qed.

Lemma pinv_rtc s s' : pinv s -> rtc (platform_step e cfg) s s' -> pinv s'.
Proof using Hn. intros Hp H. induction H as [|s s1 s' Hs _ IH]; [done|]. by eapply IH, platform_step_inv. Qed.

Lemma platform_reach_inv out resp s :
  storage_ok out -> storage_ok resp ->
  rtc (platform_step e cfg) (snd (main e args), platform_start out resp) s -> pinv s.
Proof using Hn Hstart.
  intros Ho Hr. by eapply pinv_rtc, pinv_start.
Qed.

(** What is in the buffer and the file. *)
Lemma pinv_data t p j :
  pinv (t, p) -> p_journal p = Some j ->
  p_file p `prefix_of` f_bytes (j_fd (js_j j)) /\
  (js_pc j <> PcOverrun -> exists taken, Forall journal_entry_wf taken /\
    f_bytes (j_fd (js_j j)) ++ js_buf j = p_file p ++ images taken).
Proof using Type.
  intros Hp Ej. destruct (pv_journal _ Hp) as [_ Hj]. cbn [snd] in Hj.
  destruct (Hj j Ej) as [_ [(acc & refused & Hi & Hw) Hpre]]. split; [done|]. intros Hpc.
  destruct (i_data _ _ _ _ Hi Hpc) as (taken & -> & Hb). apply Forall_app in Hw as [Hw _]. by exists taken.
Qed.

(** A component that runs and holds the journal finds it open. *)
Lemma pinv_holds t p c :
  pinv (t, p) -> in_loop c p -> JournalFile ∈ uses n c ->
  exists j, p_journal p = Some j /\ js_closed j = false.
Proof using Type.
  intros Hp [Hc _] Hu. destruct (pv_table _ Hp c Hc) as [_ Hsub]. destruct (pv_journal _ Hp) as [Hl _].
  by apply Hl, Hsub.
Qed.

(** Answers that agree with the environment. *)
Definition agreeing : answers :=
  Answers (if e_mempool e then 1 else 0) (e_journal e) true true true empty_file true
    (e_create e Gateway) true (ListenEnv 0 true true) 0 0.

(** Stopping the gateway asks for a running one. *)
Lemma stop_runs tbl tbl' c : rstep e n tbl (AStop c) = Some tbl' -> c ∈ running tbl.
Proof using Type. cbn. unfold permit. case_match; [|done]. intros _. case_bool_decide; naive_solver. Qed.

(** Apart from the waits for threads, every call returns. *)
Lemma effect_returns a t p tbl :
  pinv (a :: t, p) -> rstep e n (p_table p) a = Some tbl -> a <> AJournalClose ->
  (forall c, a = AStop c -> c ∈ p_ended p) -> is_Some (effect e cfg agreeing a p).
Proof using Hn.
  intros [Ht _ [Hl _] Hg [_ _ Hsize _] _ _] Hr Ha Hend. cbn [fst snd] in *.
  pose proof (journal_live _ _ _ _ _ Hr) as Hj. pose proof (gateway_alive _ _ _ _ _ Hr) as Hgw.
  destruct a as [r| | | | |bytes arenas|path ms|path|cap|q| | | |c cpu|c|o s|now| |c| | |c| | |];
    try done; try by eexists.
  - destruct (Hsize bytes arenas) as [Hb ->]; [by left|]. pose proof few_arenas as [Hm _].
    assert (arenas <? 1 = false) as Hk by (rewrite assigned_risk; lia).
    unfold effect, bt_mempool_init. rewrite (proj2 (Z.eqb_neq _ _) Hb), Hk. cbn [agreeing a_mem orb].
    destruct (e_mempool e); by eexists.
  - cbn. rewrite open_spec. destruct (e_journal e); by eexists.
  - destruct c; try by eexists. cbn. unfold bt_gateway_create. destruct (e_create e Gateway); by eexists.
  - apply stop_runs, Ht in Hr as [Hr _]. cbn [effect]. rewrite bool_decide_true by (by apply Hend).
    destruct c; try by eexists. apply (gk_alive _ _ Hg) in Hr as [x ->]. by eexists.
  - destruct Hj as [Hj _]. destruct (Hl Hj) as (j & Ej & Hc). cbn [effect]. rewrite Ej.
    unfold jstep, bt_journal_flush. rewrite Hc. destruct (0 <? _); by eexists.
  - destruct c; try by eexists. destruct Hgw as [Hgw _]. apply (gk_alive _ _ Hg) in Hgw as [x Hx].
    cbn. rewrite Hx. by eexists.
Qed.

(** The wait of a stop: the request is still to come, or the thread can return,
    and that of the gateway makes no round more. *)
Definition stop_waits (c : component) (t : list action) (p : platform) : Prop :=
  c ∉ p_ended p /\
  ((c ∉ p_asked p /\ is_Some (pnext e cfg PStopRequest (AStop c :: t, p))) \/
   (c ∈ p_asked p /\ is_Some (pnext e cfg (PEnd c) (AStop c :: t, p)) /\
    (c = Gateway -> forall w, pnext e cfg (PRound w) (AStop c :: t, p) = None))).

Lemma asked_can_end t p c :
  pinv (t, p) -> c ∈ running (p_table p) -> c ∈ p_asked p -> can_end c p = true.
Proof using Type.
  intros Hp Hr Ha. unfold can_end. destruct c; try by apply bool_decide_true.
  destruct (pv_table _ Hp _ Hr) as [Hal _]. apply (gk_alive _ _ (pv_gateway _ Hp)) in Hal as [x Hx].
  cbn [snd] in Hx. by rewrite Hx, (pv_asked _ Hp x Ha Hx).
Qed.

Lemma end_next t p c :
  pinv (t, p) -> in_loop c p -> c ∈ p_asked p -> pnext e cfg (PEnd c) (t, p) = Some (t, thread_ends c p).
Proof using Type.
  intros Hp Hl Ha. cbn [pnext]. by rewrite bool_decide_true, (asked_can_end t p c Hp (proj1 Hl) Ha) by done.
Qed.

Lemma request_next t p c :
  pinv (AStop c :: t, p) -> c ∈ running (p_table p) ->
  exists p', pnext e cfg PStopRequest (AStop c :: t, p) = Some (AStop c :: t, p') /\
    p_table p' = p_table p /\ p_journal p' = p_journal p /\ c ∈ p_asked p' /\ p_ended p' = p_ended p.
Proof using Type.
  clear Hn Hstart. intros Hp Hr. destruct (pv_table _ Hp _ Hr) as [Hal _]. pose proof (gk_alive _ _ (pv_gateway _ Hp)) as Hg.
  cbn [pnext snd] in *. destruct c; cbn [stop_request];
    try (eexists; split_and!; [done..|cbn; by apply elem_of_union_l, elem_of_singleton|done]).
  apply Hg in Hal as [x Hx]. cbn. rewrite Hx.
  eexists; split_and!; [done..|cbn; by apply elem_of_union_l, elem_of_singleton|done].
Qed.

Lemma stop_goes_on c t p :
  pinv (AStop c :: t, p) -> c ∈ running (p_table p) -> c ∈ p_ended p \/ stop_waits c t p.
Proof using Type.
  intros Hp Hr. destruct (decide (c ∈ p_ended p)) as [He|He]; [by left|right]. split; [done|].
  destruct (decide (c ∈ p_asked p)) as [Ha|Ha]; [right|left].
  - split_and!; [done|by rewrite end_next|]. intros -> w. cbn [pnext].
    destruct (bool_decide _); [|done]. destruct (p_gateway p) as [x|] eqn:Ex; [|done]. cbn [mbind option_bind].
    by rewrite (pv_asked _ Hp x Ha Ex).
  - split; [done|]. destruct (request_next t p c Hp Hr) as (p' & -> & _). by eexists.
Qed.

(** The wait of the close: the request is still to come, or the worker moves. *)
Definition close_waits (t : list action) (p : platform) : Prop :=
  exists j, p_journal p = Some j /\
    ((j_running (js_j j) = true /\ is_Some (pnext e cfg PCloseRequest (AJournalClose :: t, p))) \/
     js_pc j = PcOverrun \/
     (j_running (js_j j) = false /\ js_pc j <> PcDone /\
      forall m outs ok now, (length (js_buf j) <= length (List.filter answered outs))%nat ->
        is_Some (pnext e cfg (PWorker m outs ok now) (AJournalClose :: t, p)))).

Lemma close_goes_on t p tbl :
  pinv (AJournalClose :: t, p) -> rstep e n (p_table p) AJournalClose = Some tbl ->
  is_Some (pnext e cfg (PMain agreeing) (AJournalClose :: t, p)) \/ close_waits t p.
Proof using Type.
  intros Hp Hr. destruct (pv_journal _ Hp) as [Hl _]. cbn [fst snd] in Hl.
  destruct (Hl (proj1 (journal_live _ _ _ _ _ Hr))) as (j & Ej & Hc). unfold close_waits, pnext, journal_call.
  rewrite Ej, Hr. cbn [mbind option_bind effect]. rewrite Ej. destruct (j_running (js_j j)) eqn:Hrun.
  - right. exists j. split; [done|]. left. split; [done|]. unfold jstep. rewrite Hc. by eexists.
  - destruct (decide (js_pc j = PcDone)) as [Hd|Hd].
    + left. unfold jstep, bt_journal_close_join. rewrite Hc, Hd, Hrun. by eexists.
    + right. exists j. split; [done|]. destruct (stands j Hc Hrun) as [Ho|[[? _]|Hw]]; [by right; left|done|].
      do 2 right. split_and!; [done..|]. intros m outs ok now Hlen. destruct (Hw m outs ok now Hlen) as [[r j'] ->]. by eexists.
Qed.

Lemma call_next a t p tbl :
  rstep e n (p_table p) a = Some tbl -> is_Some (effect e cfg agreeing a p) ->
  is_Some (pnext e cfg (PMain agreeing) (a :: t, p)).
Proof using Type. intros Et [p' Ee]. cbn [pnext]. rewrite Et. cbn [mbind option_bind]. rewrite Ee. by eexists. Qed.

Lemma pinv_progress a t p :
  pinv (a :: t, p) ->
  is_Some (pnext e cfg (PMain agreeing) (a :: t, p)) \/ (a = AJournalClose /\ close_waits t p) \/
  exists c, a = AStop c /\ c ∈ running (p_table p) /\ stop_waits c t p.
Proof using Hn.
  intros Hp. destruct (pv_replay _ Hp) as (st & Hr & _). cbn [fst snd replay] in Hr.
  destruct (rstep e n (p_table p) a) as [tbl|] eqn:Et; [|done].
  assert (a = AJournalClose \/ (exists c, a = AStop c) \/ (a <> AJournalClose /\ forall c, a <> AStop c))
    as [->|[[c ->]|[Ha Hs]]] by (clear; destruct a; naive_solver).
  - destruct (close_goes_on t p tbl Hp Et) as [?|?]; [by left|by right; left].
  - pose proof (stop_runs _ _ _ Et) as Hrun. destruct (stop_goes_on c t p Hp Hrun) as [He|Hw].
    + left. eapply call_next, effect_returns; [exact Et|exact Hp|exact Et|done|by intros c' [= <-]].
    + right; right. by exists c.
  - left. eapply call_next, effect_returns; [exact Et|exact Hp|exact Et|done|by intros c Hc%Hs].
Qed.

(** Where the arenas of the shards are. *)
Lemma pinv_shards t p :
  pinv (t, p) -> NoDup (p_shards p) /\ forall i, i ∈ p_shards p -> 0 <= i < arenas.
Proof using Type.
  intros Hp. destruct (pv_shards _ Hp) as [Hs Hroom _ _]. cbn [fst snd] in *. pose proof (assigns_nonneg t).
  rewrite Hs. split; [apply NoDup_seqZ|]. intros i Hi%elem_of_seqZ. lia.
Qed.

(** Whoever is running finds the gateway in place. *)
Lemma pinv_gateway t p : pinv (t, p) -> Gateway ∈ running (p_table p) -> exists x, p_gateway p = Some x /\ ctx_ok x.
Proof using Type.
  intros Hp Hr. destruct (pv_table _ Hp _ Hr) as [Ha _]. pose proof (pv_gateway _ Hp) as Hg. cbn [snd] in *.
  apply (gk_alive _ _ Hg) in Ha as [x Hx]. exists x. split; [done|]. by apply (gk_ctx _ _ Hg).
Qed.

(** When [main] has returned 0. *)
Lemma pinv_end p :
  pinv ([], p) -> fst (main e args) = Exit 0 ->
  p_table p = RState (queues n) ∅ ∅ /\ p_gateway p = None /\
  exists j, p_journal p = Some j /\ js_closed j = true /\ js_pc j = PcDone.
Proof using Hn.
  clear Hstart. intros Hp H0. destruct (pv_replay _ Hp) as (st & Hr & Hend). cbn [fst snd replay] in *. injection Hr as Et.
  rewrite (Hend H0) in Et. pose proof (pv_gateway _ Hp) as Hg. destruct (pv_journal _ Hp) as [_ Hj].
  pose proof (pv_opened _ Hp H0) as Ho. cbn [fst snd] in *. split; [done|]. split.
  - destruct (p_gateway p) eqn:Ex; [|done]. assert (Gateway ∈ alive (p_table p)) as Ha.
    { apply (gk_alive _ _ Hg). rewrite Ex. by eexists. } rewrite Et in Ha. cbn in Ha. set_solver.
  - destruct (p_journal p) as [j|] eqn:Ej.
    + exists j. split; [done|]. apply (Hj j eq_refl). rewrite Et. by intros (q & [=])%elem_of_queues.
    + destruct Ho as (path & ms & Hin); [done|]. by apply elem_of_nil in Hin.
Qed.

(** ** The end is always in reach *)

Definition overrun (s : pstate) : Prop := exists j, p_journal s.2 = Some j /\ js_pc j = PcOverrun.

Lemma call_step an s s' : pnext e cfg (PMain an) s = Some s' -> platform_step e cfg s s'.
Proof using Type. intros E. by exists (PMain an). Qed.

Lemma worker_step m outs ok now t p j j' :
  p_journal p = Some j -> js_closed j = false -> bt_journal_thread_core m outs ok now j = Some j' ->
  platform_step e cfg (t, p) (t, set_journal (Some j') p).
Proof using Type.
  intros Ej Hc E. exists (PWorker m outs ok now). split; [done|]. cbn [pnext]. unfold journal_call.
  rewrite Ej. cbn [mbind option_bind]. unfold jstep. by rewrite Hc, E.
Qed.

Lemma request_step t p j :
  p_journal p = Some j -> js_closed j = false ->
  platform_step e cfg (AJournalClose :: t, p)
    (AJournalClose :: t, set_journal (Some (bt_journal_close_request j)) p).
Proof using Type.
  intros Ej Hc. exists PCloseRequest. split; [done|]. cbn [pnext]. unfold journal_call.
  rewrite Ej. cbn [mbind option_bind]. unfold jstep. by rewrite Hc.
Qed.

(** Once the request is made the worker comes to its end. *)
Lemma worker_ends k t p j :
  p_journal p = Some j -> js_closed j = false -> j_running (js_j j) = false -> js_pc j <> PcOverrun ->
  (pc_rank (js_pc j) <= k)%nat ->
  exists j', rtc (platform_step e cfg) (t, p) (t, set_journal (Some j') p) /\
    js_closed j' = false /\ j_running (js_j j') = false /\ js_pc j' = PcDone.
Proof using Type.
  revert p j. induction k as [|k IH]; intros p j Ej Hc Hrun Ho Hk; (destruct (decide (js_pc j = PcDone)) as [Hd|Hd];
    [exists j; split; [|done]; destruct p; cbn in *; by subst|]);
    destruct (worker_writes true true 0 j Hd Ho) as (j1 & Ew & Ho1);
    pose proof (worker_rank _ _ _ _ _ _ Hrun Ew) as Hlt; [lia|].
  destruct (worker_keeps _ _ _ _ _ _ Ew) as [Hr1 Hc1].
  destruct (IH (set_journal (Some j1) p) j1) as (j' & Hrtc & H'); [done|congruence|congruence|done|lia|].
  exists j'. split; [|done]. eapply rtc_l; [by eapply worker_step|exact Hrtc].
Qed.

(** [main] makes its next call, after the wait if there is one. *)
Definition goes_on a t p : Prop :=
  exists p' s', rtc (platform_step e cfg) (a :: t, p) (a :: t, p') /\ p_table p' = p_table p /\
    ~ overrun (a :: t, p') /\ ((forall c, a <> AStop c) -> p_ended p' = p_ended p) /\
    pnext e cfg (PMain agreeing) (a :: t, p') = Some s'.

Lemma close_ends t p tbl :
  pinv (AJournalClose :: t, p) -> ~ overrun (AJournalClose :: t, p) ->
  rstep e n (p_table p) AJournalClose = Some tbl -> goes_on AJournalClose t p.
Proof using Type.
  intros Hp Ho Et. destruct (pv_journal _ Hp) as [Hl _].
  destruct (Hl (proj1 (journal_live _ _ _ _ _ Et))) as (j & Ej & Hc).
  destruct (worker_ends (pc_rank (js_pc j)) (AJournalClose :: t)
    (set_journal (Some (bt_journal_close_request j)) p) (bt_journal_close_request j))
    as (j' & Hrtc & Hc' & Hr' & Hd'); try done.
  { intros Hov. apply Ho. by exists j. }
  exists (set_journal (Some j') p). eexists. split_and!; [| |by intros (? & [= <-] & ?); congruence|done|].
  - eapply rtc_l; [by apply request_step|exact Hrtc].
  - done.
  - cbn [pnext p_table set_journal]. rewrite Et. cbn [mbind option_bind effect p_journal set_journal].
    unfold jstep, bt_journal_close_join. rewrite Hc', Hd', Hr'. reflexivity.
Qed.

(** A stop asks if it has not, and the thread returns. *)
Lemma stop_ends c t p :
  pinv (AStop c :: t, p) -> c ∈ running (p_table p) ->
  exists p', rtc (platform_step e cfg) (AStop c :: t, p) (AStop c :: t, p') /\
    p_table p' = p_table p /\ p_journal p' = p_journal p /\ c ∈ p_ended p'.
Proof using Hn.
  intros Hp Hr. destruct (decide (c ∈ p_ended p)) as [He|He]; [by exists p|].
  destruct (request_next t p c Hp Hr) as (p1 & E1 & Et & Ej & Ha & Ee).
  assert (platform_step e cfg (AStop c :: t, p) (AStop c :: t, p1)) as H1 by by exists PStopRequest.
  assert (pinv (AStop c :: t, p1)) as Hp1 by by eapply platform_step_inv.
  exists (thread_ends c p1). split_and!; [|done..|cbn; by apply elem_of_union_l, elem_of_singleton].
  eapply rtc_l; [exact H1|]. apply rtc_once. exists (PEnd c). split; [done|].
  apply end_next; [done| |done]. split; [by rewrite Et|by rewrite Ee].
Qed.

Lemma main_goes_on a t p :
  pinv (a :: t, p) -> ~ overrun (a :: t, p) -> goes_on a t p.
Proof using Hn.
  intros Hp Ho. destruct (pv_replay _ Hp) as (st & Hr & _). cbn [fst snd replay] in Hr.
  destruct (rstep e n (p_table p) a) as [tbl|] eqn:Et; [|done].
  destruct (pinv_progress _ _ _ Hp) as [[s' Hgo]|[[-> _]|(c & -> & Hrun & _)]].
  - by exists p, s'.
  - by eapply close_ends.
  - destruct (stop_ends c t p Hp Hrun) as (p' & Hrtc & Etbl & Ej & He).
    destruct (call_next (AStop c) t p' tbl) as [s' Hs']; [by rewrite Etbl| |].
    + eapply (effect_returns _ t _ tbl); [by eapply pinv_rtc|by rewrite Etbl|done|by intros c' [= <-]].
    + exists p', s'. split_and!; [done..| |by intros Hs; destruct (Hs c)|done].
      intros (j & Ej' & Hj). apply Ho. exists j. cbn in *. by rewrite <- Ej.
Qed.

Lemma effect_overrun an a p p' t t' :
  effect e cfg an a p = Some p' -> ~ overrun (t, p) -> ~ overrun (t', p').
Proof using Type.
  intros He Ho (j & Ej & Hj). cbn [snd] in Ej. pose proof (effect_journal _ _ _ _ _ _ He) as Hs.
  destruct a; try (destruct Hs as (E & _); apply Ho; exists j; split; [cbn; congruence|done]); clear Hs; cbn [effect] in He.
  - rewrite open_spec in He. destruct (_ && _) in He; destruct (e_journal e); by simplify_eq/=.
  - destruct (p_journal p) as [j0|] eqn:E0; [|done]. destruct (jstep _ j0) as [[r j1]|] eqn:E; [|done].
    cbn in He. injection He as <-. injection Ej as <-. apply Ho. exists j0. split; [done|].
    by destruct (other_step (EvFlush (a_sync an)) _ _ _ eq_refl E) as [<- _].
  - destruct (p_journal p) as [j0|] eqn:E0; [|done]. destruct (jstep _ j0) as [[r j1]|] eqn:E; [|done].
    cbn in He. injection He as <-. injection Ej as <-. apply join_closes in E as (_ & _ & _ & _ & ?). congruence.
Qed.

(** No call of [main] ends a thread. *)
Lemma effect_ended an a p p' : effect e cfg an a p = Some p' -> p_ended p' ⊆ p_ended p.
Proof using Type.
  clear Hn Hstart. intros He.
  destruct a as [r| | | | |bytes ars|path ms|path|cap|q| | | |c cpu|c|o s|now| |c| | |c| | |];
    unfold bt_mempool_assign_arena, effect in He; try (by injection He as <-).
  - repeat case_match; by simplify_eq/=.
  - repeat case_match; by simplify_eq/=.
  - injection He as <-. unfold init_queue, put_queues. destruct q, (p_gateway p); done.
  - destruct c; try (injection He as <-; cbn; set_solver). repeat case_match; simplify_eq/=; set_solver.
  - case_match; [|done]. destruct c; try (by injection He as <-). by destruct (p_gateway p); simplify_eq/=.
  - destruct (p_journal p) as [j|]; [|done]. by destruct (jstep _ j) as [[r j']|]; simplify_eq/=.
  - destruct (p_journal p) as [j|]; [|done]. by destruct (jstep _ j) as [[r j']|]; simplify_eq/=.
  - destruct c; try (by injection He as <-). by destruct (p_gateway p); simplify_eq/=.
Qed.

(** Every point of the trace of [main] can be reached, and before its stops with
    no more threads ended. *)
Lemma main_reaches t1 t2 p :
  pinv (t1 ++ t2, p) -> ~ overrun (t1 ++ t2, p) ->
  exists p', rtc (platform_step e cfg) (t1 ++ t2, p) (t2, p') /\ replay e n (p_table p) t1 = Some (p_table p') /\
    (Forall (fun a => forall c, a <> AStop c) t1 -> p_ended p' ⊆ p_ended p).
Proof using Hn.
  revert p. induction t1 as [|a t1 IH]; intros p Hp Ho; [by exists p|]. rewrite <- app_comm_cons in *.
  destruct (main_goes_on a (t1 ++ t2) p Hp Ho) as (p1 & s2 & H1 & Etbl & Ho1 & Hend & E). pose proof E as Hstep.
  apply call_step in Hstep. cbn [pnext] in E. rewrite Etbl in E. cbn [replay].
  destruct (rstep e n (p_table p) a) as [tbl|]; [|done]. cbn [mbind option_bind] in E.
  destruct (effect e cfg agreeing a p1) as [p2|] eqn:Ee; [|done]. cbn [mbind option_bind] in E. injection E as <-.
  destruct (IH (set_table tbl p2)) as (p' & H2 & Hrep & Hsub).
  - eapply platform_step_inv; [|exact Hstep]. by eapply pinv_rtc.
  - exact (effect_overrun agreeing a p1 p2 (a :: t1 ++ t2) (t1 ++ t2) Ee Ho1).
  - exists p'. split_and!; [|exact Hrep|].
    + etrans; [exact H1|]. by eapply rtc_l.
    + intros HF. inversion HF as [|? ? Ha Ht]; subst. rewrite <- (Hend Ha).
      etrans; [by apply Hsub|]. exact (effect_ended _ _ _ _ Ee).
Qed.

End platform_inv.

(** ** Properties *)

(** The states of the executions of [main]. *)
Definition preachable (e : env) (args : list (list Z)) (s : pstate) : Prop :=
  exists out resp, storage_ok out /\ storage_ok resp /\
    rtc (platform_step e (assign_cores (configured args))) (snd (main e args), platform_start out resp) s.

(** A component whose constructor succeeded gets its thread. *)
Definition starts (e : env) : Prop := forall c, e_create e c = true -> e_start e c = true.

Lemma preachable_inv e args s :
  matching_threads (configured args) ∈ [1; 2; 4] -> starts e -> preachable e args s -> pinv e args s.
Proof. intros Hn Hst (out & resp & Ho & Hr & Hs). by eapply platform_reach_inv. Qed.

(** C3: The objects of [main] work together within their lifetimes, with 1, 2
    or 4 matching threads and when every [bt_*_start] gets its thread. At every
    moment of an execution, whatever the constructors answer and however the
    calls of [main], the journal's worker, the gateway's thread, the appends
    (overlapping as they may) and the components without source move in
    between: [main] can make the rest of its calls without leaving the
    discipline of its resources; a component whose thread has not returned and
    that holds the journal finds it open; while the gateway's thread has not
    returned there is its context, well formed; the journal file still begins
    with what it held at the open, and unless the worker overran its buffer the
    file and the buffer hold that followed by images of entries; and the shards
    have got different arenas of the pool. That an accepted entry reaches the
    file is not part of it: overlapping appends lose some
    ([journal_writers_lose]). *)
Theorem platform_safe (e : env) (args : list (list Z)) (t : list action) (p : platform) :
  let cfg := assign_cores (configured args) in
  let n := matching_threads cfg in
  matching_threads (configured args) ∈ [1; 2; 4] -> starts e -> preachable e args (t, p) ->
  (exists st, replay e n (p_table p) t = Some st) /\
  (forall c, in_loop c p -> JournalFile ∈ uses n c ->
     exists j, p_journal p = Some j /\ js_closed j = false) /\
  (in_loop Gateway p -> exists x, p_gateway p = Some x /\ ctx_ok x) /\
  (forall j, p_journal p = Some j ->
     p_file p `prefix_of` f_bytes (j_fd (js_j j)) /\
     (js_pc j <> PcOverrun -> exists taken, Forall journal_entry_wf taken /\
       f_bytes (j_fd (js_j j)) ++ js_buf j = p_file p ++ images taken)) /\
  NoDup (p_shards p) /\
  (forall i, i ∈ p_shards p -> 0 <= i < matching_threads cfg + risk_threads cfg + 4).
Proof.
  intros cfg n Hn Hst Hr. apply preachable_inv in Hr as Hp; [|done..]. split_and!.
  - destruct (pv_replay _ _ _ Hp) as (st & E & _). by exists st.
  - intros c. by apply (pinv_holds e args t).
  - intros [Hg _]. by eapply pinv_gateway.
  - intros j. by eapply pinv_data.
  - by eapply pinv_shards.
  - by eapply pinv_shards.
Qed.

(** C4: [main] always gets on, with 1, 2 or 4 matching threads and when every
    [bt_*_start] gets its thread. In every state of an execution in which it has
    a call to make, it can make it; or the call closes the journal and waits for
    the worker, which can move as soon as [write] answers unless it overran its
    buffer; or the call stops a component and waits for its thread: the request
    is still to be made, or the thread can return, that of the gateway because
    it finds [running] cleared and makes no round more, one without source
    because it may return once it was asked. And from every state in which the
    worker has not overrun its buffer, the execution can go on until [main] has
    made all its calls. *)
Theorem platform_progress (e : env) (args : list (list Z)) (t : list action) (p : platform) :
  matching_threads (configured args) ∈ [1; 2; 4] -> starts e -> preachable e args (t, p) ->
  (forall a t', t = a :: t' ->
     is_Some (pnext e (assign_cores (configured args)) (PMain (agreeing e)) (t, p)) \/
     (a = AJournalClose /\ close_waits e args t' p) \/
     (exists c, a = AStop c /\ c ∈ running (p_table p) /\ stop_waits e args c t' p)) /\
  (~ overrun (t, p) ->
   exists p', rtc (platform_step e (assign_cores (configured args))) (t, p) ([], p')).
Proof.
  intros Hn Hst Hr%preachable_inv; [|done..]. split; [intros a t' ->; by apply (pinv_progress e args Hn)|].
  intros Ho. destruct (main_reaches e args Hn t [] p) as (p' & H & _ & _); rewrite ?app_nil_r in *; [done|done|].
  by exists p'.
Qed.

(** C5: When [main] has returned 0, with 1, 2 or 4 matching threads and every
    start successful, no thread is left, no component and no context of the
    gateway, and the journal is closed: its worker had returned, and the file
    holds what it held at the open followed by images of entries, the last one
    perhaps cut short. What the ring and the buffer still held is lost with
    them. *)
Theorem platform_returns (e : env) (args : list (list Z)) (p : platform) :
  let n := matching_threads (configured args) in
  n ∈ [1; 2; 4] -> starts e -> fst (main e args) = Exit 0 -> preachable e args ([], p) ->
  p_table p = RState (queues n) ∅ ∅ /\ p_gateway p = None /\
  exists j taken, p_journal p = Some j /\ js_closed j = true /\ js_pc j = PcDone /\
    Forall journal_entry_wf taken /\ p_file p `prefix_of` f_bytes (j_fd (js_j j)) /\
    f_bytes (j_fd (js_j j)) `prefix_of` p_file p ++ images taken.
Proof.
  intros n Hn Hst H0 Hr%preachable_inv; [|done..]. destruct (pinv_end e args Hn p Hr H0) as (Et & Eg & j & Ej & Hc & Hd).
  destruct (pinv_data _ _ _ _ _ Hr Ej) as (Hpre & Hb). destruct Hb as (taken & Hw & E); [congruence|].
  split_and!; [by rewrite Et|done|]. exists j, taken. split_and!; try done. rewrite <- E. by apply prefix_app_r.
Qed.

(** ** Witnesses *)

(** The default configuration, all constructors granted and small queues. *)
Definition default_start : platform :=
  platform_start (QUEUE_INIT (replicate 4 inhabitant)) (QUEUE_INIT (replicate 4 inhabitant)).

Lemma default_count : matching_threads (configured []) ∈ [1; 2; 4].
Proof. by right; right; left. Qed.

Lemma all_start : starts all_granted.
Proof. done. Qed.

Lemma small_storage {A} `{!Inhabited A} : storage_ok (QUEUE_INIT (replicate 4 (inhabitant : A))).
Proof. by exists 2. Qed.

(** Every point of its trace is reached. *)
Lemma default_reaches t1 t2 :
  snd (main all_granted []) = t1 ++ t2 ->
  exists p, preachable all_granted [] (t2, p) /\ replay all_granted 4 rstart t1 = Some (p_table p) /\
    (Forall (fun a => forall c, a <> AStop c) t1 -> p_ended p ⊆ ∅).
Proof.
  intros E. assert (pinv all_granted [] (t1 ++ t2, default_start)) as Hp.
  { rewrite <- E. apply pinv_start; [apply default_count|done|apply small_storage..]. }
  destruct (main_reaches all_granted [] default_count t1 t2 default_start Hp) as (p & Hr & Ht & He).
  { by intros (j & [=] & _). }
  exists p. split_and!; [|exact Ht|exact He]. eexists _, _. split_and!; [apply small_storage..|]. rewrite E. exact Hr.
Qed.

Lemma start_runs e n st t c st' :
  e_start e c = true -> replay e n st (t ++ [AStart c]) = Some st' -> c ∈ running st'.
Proof.
  intros Hs. rewrite replay_app. destruct (replay e n st t) as [st1|]; [|discriminate]. cbn [replay rstep].
  rewrite Hs. unfold permit. destruct (_ && _); [|discriminate]. intros [= <-]. cbn [running].
  by apply elem_of_union_l, elem_of_singleton.
Qed.

(** Just after the shard is started it runs and holds the journal. *)
Lemma shard_starts : exists (t : list action) p, preachable all_granted [] (t, p) /\ in_loop (Match 0) p.
Proof.
  set (t := snd (main all_granted [])).
  destruct (default_reaches (take 40 t ++ [AStart (Match 0)]) (drop 41 t)) as (p & Hr & Ht & He); [reflexivity|].
  exists (drop 41 t), p. split; [exact Hr|]. split.
  - exact (start_runs all_granted 4 rstart (take 40 t) (Match 0) _ eq_refl Ht).
  - assert (forallb (fun a => match a with AStop _ => false | _ => true end)
      (take 40 t ++ [AStart (Match 0)]) = true) as Hf by reflexivity.
    intros Hin%He; [set_solver|]. apply List.Forall_forall. intros a Ha c ->.
    rewrite forallb_forall in Hf. by apply Hf in Ha.
Qed.

Lemma platform_safe_witness :
  exists (t : list action) p, in_loop (Match 0) p /\ NoDup (p_shards p) /\
    exists j, p_journal p = Some j /\ js_closed j = false.
Proof.
  destruct shard_starts as (t & p & Hr & Hc). exists t, p.
  destruct (platform_safe all_granted [] t p default_count all_start Hr) as (_ & Happ & _ & _ & Hnd & _).
  split_and!; [done|done|]. apply (Happ (Match 0)); [done|]. apply elem_of_list_to_set. by right; left.
Defined.

Lemma platform_progress_witness :
  exists p, preachable all_granted [] (snd (main all_granted []), p) /\
    exists p', rtc (platform_step all_granted (assign_cores (configured []))) (snd (main all_granted []), p) ([], p').
Proof.
  exists default_start. assert (preachable all_granted [] (snd (main all_granted []), default_start)) as H0.
  { eexists _, _. split_and!; [apply small_storage..|apply rtc_refl]. }
  split; [exact H0|]. apply (platform_progress all_granted [] _ default_start default_count all_start H0).
  by intros (j & [=] & _).
Defined.

Lemma platform_returns_witness :
  exists p, preachable all_granted [] ([], p) /\ p_gateway p = None /\
    exists j, p_journal p = Some j /\ js_closed j = true.
Proof.
  destruct (default_reaches (snd (main all_granted [])) []) as (p & Hr & _); [by rewrite app_nil_r|].
  exists p. destruct (platform_returns all_granted [] p default_count all_start eq_refl Hr) as
    (_ & Hg & j & taken & Ej & Hc & _).
  split_and!; [exact Hr|exact Hg|]. by exists j.
Defined.
