(* ===== verification/Logger.v ===== *)
(** * The ring-buffer logger

    Models [src/src/utils/logger.c]: messages are formatted into a ring of
    4096 slots, the oldest is dropped when the ring is full, and a flush
    writes what is pending to the log file. The three accesses of [bt_log] to
    the shared indices are separate definitions, so that two calls can be
    interleaved. The text that [vsnprintf] produces from the caller's format
    is an argument; it ends at its first NUL. *)

From Stdlib Require Import Ascii String.
From stdpp Require Import strings.
From S2P Require Import Prelude CTypes GwParse.

Definition LOG_RING_SIZE : Z := 4096.
Definition LOG_MSG_SIZE : Z := 256.

(** A slot; [msg] holds the string without its terminator. *)
Record log_entry := LogEntry { msg : list Z; level : Z }.

#[global] Instance log_entry_inhabited : Inhabited log_entry := populate (LogEntry [] 0).

Inductive sink := Stderr | LogFile (path : list Z).

#[global] Instance sink_eq : EqDecision sink.
Proof. solve_decision. Defined.

(** The static state of the file, and what has been written so far. *)
Record logger := Logger {
  log_ring : list log_entry;
  log_head : Z;
  log_tail : Z;
  log_level : Z;
  log_file : option sink;
  written : list (sink * list Z);
}.

Definition logger_start : logger :=
  Logger (replicate (Z.to_nat LOG_RING_SIZE) (LogEntry [] 0)) 0 0 2 None [].

Definition set_ring (ring : list log_entry) (head tail : Z) (l : logger) : logger :=
  Logger ring head tail (log_level l) (log_file l) (written l).

Definition bt_log_set_level (level : Z) (l : logger) : logger :=
  Logger (log_ring l) (log_head l) (log_tail l) level (log_file l) (written l).

(** [opened]: whether [fopen] succeeds. *)
Definition bt_log_set_file (path : list Z) (opened : bool) (l : logger) : logger :=
  Logger (log_ring l) (log_head l) (log_tail l) (log_level l)
    (Some (if opened then LogFile path else Stderr)) (written l).

Definition bt_log_init (l : logger) : logger :=
  Logger (log_ring l) (log_head l) (log_tail l) (log_level l) (Some Stderr) (written l).

(** ** Formatting *)

Fixpoint digits (fuel : nat) (n : Z) (acc : list Z) : list Z :=
  match fuel with
  | O => acc
  | S fuel =>
      let acc := (48 + n mod 10) :: acc in
      if n / 10 =? 0 then acc else digits fuel (n / 10) acc
  end.

(** [%d], and [%0wd] for values that are not negative. *)
Definition fmt_d (n : Z) : list Z :=
  if n <? 0 then #"-" :: digits 20 (- n) [] else digits 20 n [].
Definition fmt_0d (w : nat) (n : Z) : list Z :=
  let d := fmt_d n in replicate (w - List.length d) (#"0") ++ d.

(** The reading of the clock, in local time. *)
Record clock := Clock { tm_hour : Z; tm_min : Z; tm_sec : Z; tv_nsec : Z }.

Definition prefix (t : clock) (lvl : Z) : list Z :=
  fmt_0d 2 (tm_hour t) ++ [ #":" ] ++ fmt_0d 2 (tm_min t) ++ [ #":" ] ++ fmt_0d 2 (tm_sec t) ++
  [ #"." ] ++ fmt_0d 3 (tv_nsec t / 1000000) ++ [ #" "; #"[" ] ++ fmt_d lvl ++ [ #"]"; #" " ].

(** The slot's content: the prefix and as much of the text as fits. *)
Definition make_entry (t : clock) (lvl : Z) (text : list Z) : log_entry :=
  let p := prefix t lvl in
  LogEntry (p ++ take (Z.to_nat (LOG_MSG_SIZE - zlen p - 1)) text) lvl.

(** ** Logging *)

(** The reads of the indices; a full ring drops its oldest message. *)
Definition log_claim (l : logger) : Z * logger :=
  let tail := log_tail l in
  let next := (tail + 1) mod LOG_RING_SIZE in
  (tail,
   if next =? log_head l
   then set_ring (log_ring l) ((log_head l + 1) mod LOG_RING_SIZE) tail l
   else l).

Definition log_fill (tail : Z) (e : log_entry) (l : logger) : logger :=
  set_ring (arr_set (log_ring l) tail e) (log_head l) (log_tail l) l.

Definition log_publish (tail : Z) (l : logger) : logger :=
  set_ring (log_ring l) (log_head l) ((tail + 1) mod LOG_RING_SIZE) l.

Definition bt_log (lvl : Z) (t : clock) (text : list Z) (l : logger) : logger :=
  if log_level l <? lvl then l
  else
    let '(tail, l) := log_claim l in
    log_publish tail (log_fill tail (make_entry t lvl text) l).

(** The output loop; it visits each slot at most once. *)
Fixpoint flush_loop (fuel : nat) (ring : list log_entry) (head tail : Z) : list (list Z) * Z :=
  match fuel with
  | O => ([], head)
  | S fuel =>
      if head =? tail then ([], head)
      else
        let '(lines, h) := flush_loop fuel ring ((head + 1) mod LOG_RING_SIZE) tail in
        ((msg (ring.[head]) ++ [10]) :: lines, h)
  end.

Definition bt_log_flush (l : logger) : logger :=
  let out := default Stderr (log_file l) in
  let '(lines, h) := flush_loop (Z.to_nat LOG_RING_SIZE) (log_ring l) (log_head l) (log_tail l) in
  Logger (log_ring l) h (log_tail l) (log_level l) (log_file l)
    (written l ++ map (fun line => (out, line)) lines).

(** ** The reference: the latest 4095 messages *)

Record log_spec := LogSpec {
  s_pending : list log_entry;
  s_level : Z;
  s_file : option sink;
  s_written : list (sink * list Z);
}.

(** The last [n] elements of a list. *)
Definition last_n {A} (n : nat) (l : list A) : list A := drop (List.length l - n) l.

Definition log_room : nat := Z.to_nat (LOG_RING_SIZE - 1).

Inductive log_op :=
  | OpLog (lvl : Z) (t : clock) (text : list Z)
  | OpFlush
  | OpLevel (lvl : Z)
  | OpFile (path : list Z) (opened : bool).

Definition log_step (op : log_op) (l : logger) : logger :=
  match op with
  | OpLog lvl t text => bt_log lvl t text l
  | OpFlush => bt_log_flush l
  | OpLevel lvl => bt_log_set_level lvl l
  | OpFile path opened => bt_log_set_file path opened l
  end.

Definition spec_step (op : log_op) (s : log_spec) : log_spec :=
  match op with
  | OpLog lvl t text =>
      if s_level s <? lvl then s
      else LogSpec (last_n log_room (s_pending s ++ [make_entry t lvl text])) (s_level s) (s_file s)
             (s_written s)
  | OpFlush =>
      LogSpec [] (s_level s) (s_file s)
        (s_written s ++ map (fun e => (default Stderr (s_file s), msg e ++ [10])) (s_pending s))
  | OpLevel lvl => LogSpec (s_pending s) lvl (s_file s) (s_written s)
  | OpFile path opened =>
      LogSpec (s_pending s) (s_level s) (Some (if opened then LogFile path else Stderr)) (s_written s)
  end.

(** ** Refinement *)

Definition logger_wf (l : logger) : Prop :=
  zlen (log_ring l) = LOG_RING_SIZE /\
  0 <= log_head l < LOG_RING_SIZE /\ 0 <= log_tail l < LOG_RING_SIZE.

Definition pending_len (l : logger) : nat :=
  Z.to_nat ((log_tail l - log_head l) mod LOG_RING_SIZE).

Definition pending (l : logger) : list log_entry :=
  ring_slice (log_ring l) LOG_RING_SIZE (log_head l) (pending_len l).

Definition spec_of (l : logger) : log_spec :=
  LogSpec (pending l) (log_level l) (log_file l) (written l).

#[global] Opaque LOG_RING_SIZE.

Section logger_laws.
Implicit Types (l : logger) (e : log_entry).

Lemma ring_size : LOG_RING_SIZE = 4096.
Proof. reflexivity. Qed.

Lemma pending_bound l : 0 <= (log_tail l - log_head l) mod LOG_RING_SIZE < LOG_RING_SIZE.
Proof. apply Z.mod_pos_bound. by rewrite ring_size. Qed.

(** The tail is the head advanced by the number of pending messages. *)
Lemma tail_eq l :
  logger_wf l -> (log_head l + Z.of_nat (pending_len l)) mod LOG_RING_SIZE = log_tail l.
Proof.
  intros (_ & Hh & Ht). unfold pending_len. pose proof (pending_bound l).
  rewrite Z2Nat.id by lia. rewrite Zplus_mod_idemp_r.
  replace (log_head l + (log_tail l - log_head l)) with (log_tail l) by lia. by apply Z.mod_small.
Qed.

(** The number of pending messages after a window of [n] from [h]. *)
Lemma window_len h n :
  0 <= n < LOG_RING_SIZE -> ((h + n) mod LOG_RING_SIZE - h) mod LOG_RING_SIZE = n.
Proof.
  intros Hn. rewrite Zminus_mod_idemp_l. replace (h + n - h) with n by lia. by apply Z.mod_small.
Qed.

Lemma full_test l :
  logger_wf l ->
  ((log_tail l + 1) mod LOG_RING_SIZE =? log_head l) = (Z.of_nat (pending_len l) =? LOG_RING_SIZE - 1).
Proof.
  intros Hwf. pose proof (tail_eq l Hwf) as Ht. destruct Hwf as (_ & Hh & _).
  pose proof (pending_bound l) as Hb. assert (Z.of_nat (pending_len l) < LOG_RING_SIZE) as Hn.
  { unfold pending_len. lia. }
  rewrite <- Ht, Zplus_mod_idemp_l.
  apply Bool.eq_iff_eq_true. rewrite !Z.eqb_eq. split.
  - intros Heq.
    assert ((log_head l + Z.of_nat (pending_len l) + 1) mod LOG_RING_SIZE = log_head l mod LOG_RING_SIZE)
      as Heq' by (rewrite (Z.mod_small (log_head l)); lia).
    destruct (decide (Z.of_nat (pending_len l) + 1 = LOG_RING_SIZE)); [lia|exfalso].
    apply mod_window in Heq'; lia.
  - intros ->. replace (log_head l + (LOG_RING_SIZE - 1) + 1) with (log_head l + 1 * LOG_RING_SIZE) by lia.
    rewrite Z.mod_add by lia. by apply Z.mod_small.
Qed.

(** Appending behind a window that has room. *)
Lemma append_window l e :
  logger_wf l -> Z.of_nat (pending_len l) < LOG_RING_SIZE - 1 ->
  let l' := log_publish (log_tail l) (log_fill (log_tail l) e l) in
  logger_wf l' /\ pending l' = pending l ++ [e].
Proof.
  intros Hwf Hroom l'. pose proof (tail_eq l Hwf) as Ht. pose proof Hwf as (Hlen & Hh & Htl).
  assert (0 < LOG_RING_SIZE) as Hpos by (rewrite ring_size; lia).
  assert (pending_len l' = S (pending_len l)) as Hn.
  { unfold l', pending_len at 1. simpl. rewrite <- Ht, Zplus_mod_idemp_l.
    rewrite <- Z.add_assoc, window_len by lia. lia. }
  split.
  - unfold l', logger_wf; simpl. rewrite zlen_arr_set.
    pose proof (Z.mod_pos_bound (log_tail l + 1) LOG_RING_SIZE Hpos). lia.
  - unfold pending. rewrite Hn.
    change (ring_slice (arr_set (log_ring l) (log_tail l) e) LOG_RING_SIZE (log_head l) (S (pending_len l))
            = ring_slice (log_ring l) LOG_RING_SIZE (log_head l) (pending_len l) ++ [e]).
    rewrite <- Ht. apply ring_slice_push; lia.
Qed.

(** Dropping the oldest of a full window. *)
Lemma drop_window l :
  logger_wf l -> (0 < pending_len l)%nat ->
  let l' := set_ring (log_ring l) ((log_head l + 1) mod LOG_RING_SIZE) (log_tail l) l in
  logger_wf l' /\ pending l' = drop 1 (pending l) /\ pending_len l' = pred (pending_len l).
Proof.
  intros Hwf Hn l'. pose proof (tail_eq l Hwf) as Ht. pose proof Hwf as (Hlen & Hh & Htl).
  assert (0 < LOG_RING_SIZE) as Hpos by (rewrite ring_size; lia).
  pose proof (pending_bound l) as Hb.
  assert (pending_len l' = pred (pending_len l)) as Hp.
  { unfold l', pending_len at 1. simpl. rewrite Zminus_mod_idemp_r, <- Ht.
    rewrite Zminus_mod_idemp_l. rewrite Z.mod_small; [lia|]. unfold pending_len in *. lia. }
  split; [|split; [|done]].
  - unfold l', logger_wf; simpl.
    pose proof (Z.mod_pos_bound (log_head l + 1) LOG_RING_SIZE Hpos). lia.
  - unfold pending. rewrite Hp. unfold l'; simpl. rewrite ring_slice_mod.
    by destruct (pending_len l).
Qed.

Lemma flush_loop_spec ring h n :
  Z.of_nat n < LOG_RING_SIZE -> forall fuel, (n < fuel)%nat -> 0 <= h < LOG_RING_SIZE ->
  flush_loop fuel ring h ((h + Z.of_nat n) mod LOG_RING_SIZE) =
  (map (fun e => msg e ++ [10]) (ring_slice ring LOG_RING_SIZE h n),
   (h + Z.of_nat n) mod LOG_RING_SIZE).
Proof.
  intros Hn fuel. revert h n Hn. induction fuel as [|fuel IH]; intros h n Hn Hf Hh; [lia|].
  cbn [flush_loop]. destruct n as [|n].
  - rewrite Z.add_0_r, (Z.mod_small h) by lia. by rewrite Z.eqb_refl.
  - destruct (Z.eqb_spec h ((h + Z.of_nat (S n)) mod LOG_RING_SIZE)) as [Heq|Hne].
    { assert ((h + Z.of_nat (S n)) mod LOG_RING_SIZE = h mod LOG_RING_SIZE) as Heq'
        by (rewrite (Z.mod_small h); lia).
      apply mod_window in Heq'; lia. }
    assert ((h + Z.of_nat (S n)) mod LOG_RING_SIZE =
            ((h + 1) mod LOG_RING_SIZE + Z.of_nat n) mod LOG_RING_SIZE) as ->.
    { rewrite Zplus_mod_idemp_l. f_equal. lia. }
    rewrite IH; [|lia|lia|apply Z.mod_pos_bound; lia].
    cbn [ring_slice map]. rewrite ring_slice_mod, (Z.mod_small h) by lia. done.
Qed.

Lemma log_wf_step op l : logger_wf l -> logger_wf (log_step op l) /\
  spec_of (log_step op l) = spec_step op (spec_of l).
Proof.
  intros Hwf. destruct op as [lvl t text| |lvl|path opened]; try done.
  - simpl. unfold bt_log. destruct (Z.ltb_spec (log_level l) lvl); [done|].
    unfold log_claim. rewrite full_test by done. pose proof (pending_bound l).
    assert (List.length (pending l) = pending_len l) as Hl by apply length_ring_slice.
    assert (1 < LOG_RING_SIZE) by by rewrite ring_size.
    destruct (Z.eqb_spec (Z.of_nat (pending_len l)) (LOG_RING_SIZE - 1)) as [Hfull|Hroom].
    + destruct (drop_window l Hwf) as (Hwf' & Hp & Hn); [unfold pending_len in *; lia|].
      set (l1 := set_ring _ _ _ l) in *.
      destruct (append_window l1 (make_entry t lvl text) Hwf') as [Hwf2 Hp2]; [lia|].
      split; [exact Hwf2|]. unfold spec_of. f_equal. etransitivity; [exact Hp2|]. rewrite Hp.
      unfold last_n, log_room. rewrite length_app, Hl. simpl.
      replace (pending_len l + 1 - Z.to_nat (LOG_RING_SIZE - 1))%nat with 1%nat by lia.
      rewrite drop_app_le by lia. done.
    + assert (Z.of_nat (pending_len l) < LOG_RING_SIZE - 1) by (unfold pending_len in *; lia).
      destruct (append_window l (make_entry t lvl text) Hwf) as [Hwf2 Hp2]; [lia|].
      split; [exact Hwf2|]. unfold spec_of. f_equal. etransitivity; [exact Hp2|].
      unfold last_n, log_room. rewrite length_app, Hl. simpl.
      by replace (pending_len l + 1 - Z.to_nat (LOG_RING_SIZE - 1))%nat with 0%nat by lia.
  - simpl. pose proof (tail_eq l Hwf) as Ht. pose proof (pending_bound l). destruct Hwf as (Hlen & Hh & Htl).
    unfold bt_log_flush. rewrite <- Ht at 1 2.
    rewrite flush_loop_spec; [|unfold pending_len; lia|unfold pending_len; lia|lia].
    rewrite Ht. split; [done|]. unfold spec_of; simpl. f_equal.
    + unfold pending, pending_len. simpl. by rewrite Z.sub_diag.
    + by rewrite map_map.
Qed.

Lemma run_refines ops l :
  logger_wf l ->
  logger_wf (foldl (fun l op => log_step op l) l ops) /\
  spec_of (foldl (fun l op => log_step op l) l ops)
  = foldl (fun s op => spec_step op s) (spec_of l) ops.
Proof.
  revert l. induction ops as [|op ops IH]; intros l Hwf; [done|]. simpl.
  destruct (log_wf_step op l Hwf) as [Hwf' Hs]. rewrite <- Hs. by apply IH.
Qed.

Lemma start_wf : logger_wf (bt_log_init logger_start).
Proof. unfold logger_wf. simpl. unfold zlen. rewrite length_replicate, ring_size. lia. Qed.

Lemma length_last_n {A} n (l : list A) : (List.length (last_n n l) <= n)%nat.
Proof. unfold last_n. rewrite length_drop. lia. Qed.

End logger_laws.

(** ** Properties *)

(** C34: From its initialisation on, the logger is the bounded list of the
    latest 4095 accepted messages: for every sequence of log calls, flushes,
    level and file changes, the pending messages, the level, the output file
    and everything written so far are those of the reference, in which a log
    call appends to the list and keeps its last 4095 elements, and a flush
    writes the list in order to the current file and empties it. *)
Theorem logger_keeps_latest (ops : list log_op) :
  spec_of (foldl (fun l op => log_step op l) (bt_log_init logger_start) ops) =
  foldl (fun s op => spec_step op s) (LogSpec [] 2 (Some Stderr) []) ops.
Proof. apply (run_refines ops (bt_log_init logger_start) start_wf). Qed.

(** Two overlapping calls of [bt_log] on different threads can claim the same
    slot: the message of the first is overwritten, and only one is pending. *)
Theorem concurrent_log_loses_message (a b : log_entry) :
  let l0 := bt_log_init logger_start in
  let '(t1, l1) := log_claim l0 in
  let '(t2, l2) := log_claim l1 in
  let l3 := log_fill t1 a l2 in
  let l4 := log_fill t2 b l3 in
  pending (log_publish t2 (log_publish t1 l4)) = [b].
Proof.
  assert (log_claim (bt_log_init logger_start) = (0, bt_log_init logger_start)) as E by reflexivity.
  cbv zeta. rewrite E. cbv iota. rewrite E. cbv iota beta. vm_compute. reflexivity.
Qed.

(** A message never overruns its slot: prefix and text are cut so that the
    string and its terminator fit. *)
Lemma make_entry_fits t lvl text :
  zlen (prefix t lvl) < LOG_MSG_SIZE -> zlen (msg (make_entry t lvl text)) < LOG_MSG_SIZE.
Proof.
  intros Hp. unfold make_entry. simpl. rewrite zlen_app. unfold zlen at 2. rewrite length_take.
  unfold LOG_MSG_SIZE in *. pose proof (zlen_nonneg (prefix t lvl)). lia.
Qed.
