(* ===== verification/LoggerConc.v ===== *)
(** * The logger with its callers interleaved

    The functions of [src/src/utils/logger.c] split at their accesses to the
    shared indices, to the bytes of the slots and to the mutex, for any number
    of threads, with sequentially consistent memory. [bt_log] takes no lock: its
    [snprintf] stores the prefix into the slot and its [vsnprintf] the text,
    byte by byte and each call in any order, while other calls and the flushes
    go on. Of the two functions only this is used: they store the characters of
    the string they format, cut to their limit, and a NUL behind them. The
    [fputs] of a flush looks for the end of the string and then copies it, each
    byte by a read of its own.

    Overlapping calls can lose messages ([Logger.concurrent_log_loses_message]),
    move the tail back, after which a flush repeats the whole ring
    ([stale_tail_replays]), and make a flush print what nobody logged
    ([torn_line]). [logger_conc_safe] is what remains true: no access leaves the
    ring or its slot, the flushes exclude each other, each ends after at most
    4095 lines, and a line has at most 255 bytes. *)

From S2P Require Import Prelude CTypes GwParse Logger.

(** ** State *)

(** The static variables, the slots as bytes; [sl_written] is the output. *)
Record slog := SLog {
  sl_ring : list (list Z);
  sl_levels : list Z;
  sl_head : Z;
  sl_tail : Z;
  sl_level : Z;
  sl_file : option sink;
  sl_written : list (sink * list Z);
}.

(** What a call of [bt_log] formats: the level, the reading of the clock, and
    the text that the caller's format gives. *)
Record lmsg := LMsg { m_level : Z; m_clock : clock; m_text : list Z }.

(** The access that comes next in [bt_log] and in [bt_log_flush]; a formatting
    function has a list of byte stores left. *)
Inductive lpc :=
| LLoadTail (m : lmsg)
| LLoadHead (m : lmsg) (tail : Z)                    (* compare [next] with [log_head] *)
| LReloadHead (m : lmsg) (tail : Z)                  (* full: load [log_head] again *)
| LStoreHead (m : lmsg) (tail head : Z)
| LPrefix (m : lmsg) (tail : Z) (rest : list (Z * Z))    (* [snprintf] *)
| LText (m : lmsg) (tail : Z) (rest : list (Z * Z))      (* [vsnprintf] *)
| LLevel (m : lmsg) (tail : Z)
| LStoreTail (tail : Z)
| FLoadTail (head : Z)
| FLock (head tail : Z)
| FOut (out : sink) (head tail : Z) (lines : Z)      (* [lines] written so far *)
| FScan (out : sink) (head tail : Z) (lines : Z) (k : Z)
| FCopy (out : sink) (head tail : Z) (lines : Z) (len : Z) (line : list Z)
| FStoreHead (head : Z)
| FUnlock.

(** The calls a thread can make. *)
Inductive lcall :=
| CLog (m : lmsg)
| CFlush
| CLevel (lvl : Z)
| CFile (path : list Z) (opened : bool).

Record lstate := LState {
  ls_log : slog;
  ls_mutex : option nat;           (* the thread that holds [log_mutex] *)
  ls_pcs : gmap nat lpc;           (* the calls in progress, by thread *)
}.

(** After [bt_log_init]. *)
Definition lstart : lstate :=
  LState (SLog (replicate (Z.to_nat LOG_RING_SIZE) (replicate (Z.to_nat LOG_MSG_SIZE) 0))
            (replicate (Z.to_nat LOG_RING_SIZE) 0) 0 0 2 (Some Stderr) []) None ∅.

Definition put_ring (ring : list (list Z)) (l : slog) : slog :=
  SLog ring (sl_levels l) (sl_head l) (sl_tail l) (sl_level l) (sl_file l) (sl_written l).
Definition put_level (tail lvl : Z) (l : slog) : slog :=
  SLog (sl_ring l) (arr_set (sl_levels l) tail lvl) (sl_head l) (sl_tail l) (sl_level l) (sl_file l) (sl_written l).
Definition store_head (head : Z) (l : slog) : slog :=
  SLog (sl_ring l) (sl_levels l) head (sl_tail l) (sl_level l) (sl_file l) (sl_written l).
Definition store_tail (tail : Z) (l : slog) : slog :=
  SLog (sl_ring l) (sl_levels l) (sl_head l) tail (sl_level l) (sl_file l) (sl_written l).
Definition put_line (out : sink) (line : list Z) (l : slog) : slog :=
  SLog (sl_ring l) (sl_levels l) (sl_head l) (sl_tail l) (sl_level l) (sl_file l) (sl_written l ++ [(out, line)]).

(** ** Formatting into a slot *)

(** The stores of a string and its terminator from [off] on. *)
Definition stores_at (off : Z) (str : list Z) : list (Z * Z) :=
  zip (seqZ off (zlen str + 1)) (str ++ [0]).

(** A formatting function with room for [size] bytes. *)
Definition snprintf_stores (off size : Z) (str : list Z) : list (Z * Z) :=
  stores_at off (take (Z.to_nat (size - 1)) str).

Definition prefix_stores (m : lmsg) : list (Z * Z) :=
  snprintf_stores 0 LOG_MSG_SIZE (prefix (m_clock m) (m_level m)).

(** At [prefix_len], the length of the whole prefix. *)
Definition text_stores (m : lmsg) : list (Z * Z) :=
  let prefix_len := zlen (prefix (m_clock m) (m_level m)) in
  snprintf_stores prefix_len (LOG_MSG_SIZE - prefix_len) (m_text m).

Definition store_byte (st : Z * Z) (slot : list Z) : list Z := arr_set slot st.1 st.2.

(** ** Accesses *)

(** The first access of a call; [None] when it has to wait for the mutex. The
    change of the file holds the mutex from its beginning to its end. *)
Definition call_starts (c : lcall) (l : slog) (mutex : option nat) : option (option lpc * slog) :=
  match c with
  | CLog m => Some (if sl_level l <? m_level m then None else Some (LLoadTail m), l)
  | CFlush => Some (Some (FLoadTail (sl_head l)), l)
  | CLevel lvl =>
      Some (None, SLog (sl_ring l) (sl_levels l) (sl_head l) (sl_tail l) lvl (sl_file l) (sl_written l))
  | CFile path opened =>
      match mutex with
      | None =>
          Some (None, SLog (sl_ring l) (sl_levels l) (sl_head l) (sl_tail l) (sl_level l)
                        (Some (if opened then LogFile path else Stderr)) (sl_written l))
      | Some _ => None
      end
  end.

(** The store number [k] of those that are left, to the slot [tail]. *)
Definition store_one (k : nat) (rest : list (Z * Z)) (tail : Z) (l : slog) : option (list (Z * Z) * slog) :=
  st ← rest !! k;
  Some (delete k rest, put_ring (arr_set (sl_ring l) tail (store_byte st ((sl_ring l).[tail]))) l).

(** The next access of a call of thread [i], with the [k]-th store if it is
    formatting: the call's state after it, the shared state and the mutex. *)
Definition call_goes_on (i k : nat) (pc : lpc) (l : slog) (mutex : option nat)
  : option (option lpc * slog * option nat) :=
  match pc with
  | LLoadTail m => Some (Some (LLoadHead m (sl_tail l)), l, mutex)
  | LLoadHead m tail =>
      let full := (tail + 1) mod LOG_RING_SIZE =? sl_head l in
      Some (Some (if full then LReloadHead m tail else LPrefix m tail (prefix_stores m)), l, mutex)
  | LReloadHead m tail => Some (Some (LStoreHead m tail (sl_head l)), l, mutex)
  | LStoreHead m tail head =>
      Some (Some (LPrefix m tail (prefix_stores m)), store_head ((head + 1) mod LOG_RING_SIZE) l, mutex)
  | LPrefix m tail rest =>
      '(rest, l) ← store_one k rest tail l;
      Some (Some (match rest with [] => LText m tail (text_stores m) | _ => LPrefix m tail rest end), l, mutex)
  | LText m tail rest =>
      '(rest, l) ← store_one k rest tail l;
      Some (Some (match rest with [] => LLevel m tail | _ => LText m tail rest end), l, mutex)
  | LLevel m tail => Some (Some (LStoreTail tail), put_level tail (m_level m) l, mutex)
  | LStoreTail tail => Some (None, store_tail ((tail + 1) mod LOG_RING_SIZE) l, mutex)
  | FLoadTail head => Some (Some (FLock head (sl_tail l)), l, mutex)
  | FLock head tail =>
      match mutex with
      | None => Some (Some (FOut (default Stderr (sl_file l)) head tail 0), l, Some i)
      | Some _ => None
      end
  | FOut out head tail n =>
      Some (Some (if head =? tail then FStoreHead head else FScan out head tail n 0), l, mutex)
  | FScan out head tail n k =>
      Some (Some (if ((sl_ring l).[head]).[k] =? 0 then FCopy out head tail n k []
                  else FScan out head tail n (k + 1)), l, mutex)
  | FCopy out head tail n len line =>
      if zlen line <? len then
        Some (Some (FCopy out head tail n len (line ++ [((sl_ring l).[head]).[zlen line]])), l, mutex)
      else
        Some (Some (FOut out ((head + 1) mod LOG_RING_SIZE) tail (n + 1)), put_line out (line ++ [10]) l, mutex)
  | FStoreHead head => Some (Some FUnlock, store_head head l, mutex)
  | FUnlock => Some (None, l, None)
  end.

Definition set_pc (i : nat) (pc : option lpc) (pcs : gmap nat lpc) : gmap nat lpc :=
  match pc with Some pc => <[i := pc]> pcs | None => delete i pcs end.

(** One access of thread [i]; [c] is the call it makes if it has none in
    progress. *)
Definition lnext (i : nat) (c : lcall) (k : nat) (s : lstate) : option lstate :=
  let '(LState l mutex pcs) := s in
  match pcs !! i with
  | None => '(pc, l) ← call_starts c l mutex; Some (LState l mutex (set_pc i pc pcs))
  | Some pc => '(pc, l, mutex) ← call_goes_on i k pc l mutex; Some (LState l mutex (set_pc i pc pcs))
  end.

Definition logger_step (s s' : lstate) : Prop := exists i c k, lnext i c k s = Some s'.

(** ** The invariant *)

Definition slot_ok (i : Z) : Prop := 0 <= i < LOG_RING_SIZE.

(** A slot whose last byte is NUL, and a store that keeps it. *)
Definition slot_fits (slot : list Z) : Prop := zlen slot = LOG_MSG_SIZE /\ slot.[LOG_MSG_SIZE - 1] = 0.
Definition store_fits (st : Z * Z) : Prop :=
  0 <= st.1 < LOG_MSG_SIZE /\ (st.1 = LOG_MSG_SIZE - 1 -> st.2 = 0).

Definition slog_wf (l : slog) : Prop :=
  zlen (sl_ring l) = LOG_RING_SIZE /\ zlen (sl_levels l) = LOG_RING_SIZE /\
  Forall slot_fits (sl_ring l) /\ slot_ok (sl_head l) /\ slot_ok (sl_tail l).

(** A flush that has the lines from [head] to [tail] left. *)
Definition lines_left (head tail n : Z) : Prop :=
  slot_ok head /\ slot_ok tail /\ 0 <= n /\ n + (tail - head) mod LOG_RING_SIZE < LOG_RING_SIZE.

(** The slots and the bytes a call in progress will access. *)
Definition pc_ok (pc : lpc) : Prop :=
  match pc with
  | LLoadHead _ tail | LReloadHead _ tail | LLevel _ tail | LStoreTail tail => slot_ok tail
  | LStoreHead _ tail head => slot_ok tail /\ slot_ok head
  | LPrefix _ tail rest | LText _ tail rest => slot_ok tail /\ Forall store_fits rest /\ rest <> []
  | FLoadTail head | FStoreHead head => slot_ok head
  | FLock head tail => slot_ok head /\ slot_ok tail
  | FOut _ head tail n => lines_left head tail n
  | FScan _ head tail n k => lines_left head tail n /\ head <> tail /\ 0 <= k < LOG_MSG_SIZE
  | FCopy _ head tail n len line => lines_left head tail n /\ head <> tail /\ zlen line <= len < LOG_MSG_SIZE
  | LLoadTail _ | FUnlock => True
  end.

(** Between [pthread_mutex_lock] and [pthread_mutex_unlock]. *)
Definition locked (pc : lpc) : bool :=
  match pc with
  | FOut _ _ _ _ | FScan _ _ _ _ _ | FCopy _ _ _ _ _ _ | FStoreHead _ | FUnlock => true
  | _ => false
  end.

(** A line of the output. *)
Definition line_ok (o : sink * list Z) : Prop :=
  exists line, o.2 = line ++ [10] /\ zlen line < LOG_MSG_SIZE.

Record linv (s : lstate) : Prop := {
  li_wf : slog_wf (ls_log s);
  li_written : Forall line_ok (sl_written (ls_log s));
  li_pcs : map_Forall (fun _ pc => pc_ok pc) (ls_pcs s);
  li_mutex : forall i, ls_mutex s = Some i <-> exists pc, ls_pcs s !! i = Some pc /\ locked pc = true;
}.

(** ** Formatting stays in the slot *)

Lemma length_digits fuel n acc : (List.length (digits fuel n acc) <= fuel + List.length acc)%nat.
Proof.
  revert n acc. induction fuel as [|fuel IH]; intros n acc; cbn [digits]; [lia|].
  case_match; cbn [List.length]; [lia|]. etrans; [apply IH|]. cbn [List.length]. lia.
Qed.

Lemma length_fmt_d n : (List.length (fmt_d n) <= 21)%nat.
Proof.
  unfold fmt_d. pose proof (length_digits 20 n []). pose proof (length_digits 20 (- n) []).
  case_match; cbn [List.length] in *; lia.
Qed.

Lemma length_fmt_0d w n : (w <= 21)%nat -> (List.length (fmt_0d w n) <= 21)%nat.
Proof. intros Hw. unfold fmt_0d. rewrite length_app, length_replicate. pose proof (length_fmt_d n). lia. Qed.

(** The prefix leaves room for a text. *)
Lemma prefix_short t lvl : 0 <= zlen (prefix t lvl) <= 112.
Proof.
  unfold prefix, zlen. rewrite !length_app. cbn [List.length].
  pose proof (length_fmt_0d 2 (tm_hour t)). pose proof (length_fmt_0d 2 (tm_min t)).
  pose proof (length_fmt_0d 2 (tm_sec t)). pose proof (length_fmt_0d 3 (tv_nsec t / 1000000)).
  pose proof (length_fmt_d lvl). lia.
Qed.

Lemma snprintf_fits off size str :
  0 <= off -> 1 <= size -> off + size <= LOG_MSG_SIZE ->
  Forall store_fits (snprintf_stores off size str) /\ snprintf_stores off size str <> [].
Proof.
  intros Ho Hs Hsize. unfold snprintf_stores, stores_at.
  set (cut := take _ str). assert (0 <= zlen cut <= size - 1) as Hc by (unfold zlen, cut; rewrite length_take; lia).
  split.
  - apply Forall_lookup. intros i [p b] Hl. apply lookup_zip_with_Some in Hl as (p' & b' & [= <- <-] & Hp & Hb).
    apply lookup_seqZ in Hp as [-> Hi]. split; cbn [fst snd]; [lia|]. intros Hlast.
    apply lookup_app_Some in Hb as [Hb|[_ Hb]].
    + apply lookup_lt_Some in Hb. unfold zlen in *. lia.
    + by apply list_lookup_singleton_Some in Hb as [_ <-].
  - rewrite seqZ_cons by lia. by destruct cut.
Qed.

Lemma prefix_fits m : Forall store_fits (prefix_stores m) /\ prefix_stores m <> [].
Proof. by apply snprintf_fits. Qed.

Lemma text_fits m : Forall store_fits (text_stores m) /\ text_stores m <> [].
Proof.
  pose proof (prefix_short (m_clock m) (m_level m)). unfold LOG_MSG_SIZE.
  apply snprintf_fits; unfold LOG_MSG_SIZE; lia.
Qed.

Lemma store_byte_fits st slot : store_fits st -> slot_fits slot -> slot_fits (store_byte st slot).
Proof.
  intros [Hp Hb] [Hl H0]. unfold store_byte. split; [by rewrite zlen_arr_set|].
  destruct (decide (st.1 = LOG_MSG_SIZE - 1)) as [E|E].
  - rewrite E, arr_get_set_eq by (rewrite Hl; done). by apply Hb.
  - rewrite arr_get_set_ne by (done || lia). done.
Qed.

(** ** Preservation *)

Section invariant.
Implicit Types (l : slog) (s : lstate).

Lemma slot_next i : slot_ok ((i + 1) mod LOG_RING_SIZE).
Proof. apply Z.mod_pos_bound. by rewrite ring_size. Qed.

Lemma ring_slot l i : slog_wf l -> slot_ok i -> slot_fits ((sl_ring l).[i]).
Proof.
  intros (Hl & _ & Hf & _) Hi. eapply Forall_lookup_1; [exact Hf|]. apply arr_lookup. by rewrite Hl.
Qed.

Lemma store_one_ok k rest tail l rest' l' :
  slog_wf l -> slot_ok tail -> Forall store_fits rest -> store_one k rest tail l = Some (rest', l') ->
  slog_wf l' /\ Forall store_fits rest' /\ sl_written l' = sl_written l.
Proof.
  intros Hwf Ht Hr E. unfold store_one in E. destruct (rest !! k) as [st|] eqn:Ek; [|done].
  cbn [mbind option_bind] in E. injection E as <- <-. split_and!; [|by apply Forall_delete|done].
  pose proof (ring_slot l tail Hwf Ht) as Hs. destruct Hwf as (Hl & Hv & Hf & Hh & Htl).
  split_and!; cbn [put_ring sl_ring sl_levels sl_head sl_tail]; [by rewrite zlen_arr_set|done| |done|done].
  apply Forall_insert; [done|]. apply store_byte_fits; [|done]. by eapply Forall_lookup_1.
Qed.

Lemma store_one_next k rest tail l :
  rest <> [] -> k = 0%nat -> is_Some (store_one k rest tail l).
Proof. intros Hr ->. destruct rest; [done|]. by eexists. Qed.

Lemma starts_ok c l mutex pc l' :
  slog_wf l -> call_starts c l mutex = Some (pc, l') ->
  slog_wf l' /\ sl_written l' = sl_written l /\
  (forall p, pc = Some p -> pc_ok p /\ locked p = false).
Proof.
  intros Hwf E. pose proof Hwf as (_ & _ & _ & Hh & Ht).
  destruct c as [m| |lvl|path opened]; cbn [call_starts] in E; repeat case_match; simplify_eq;
    (split_and!; [done|done|]); intros p Hp; simplify_eq; split; first [exact Hh|done].
Qed.

(** A flush that has not reached the tail writes one of the lines it has left. *)
Lemma flush_left head tail n :
  lines_left head tail n -> head <> tail -> lines_left ((head + 1) mod LOG_RING_SIZE) tail (n + 1).
Proof.
  intros (Hh & Ht & H0 & Hn) Hne. split_and!; [apply slot_next|done|lia|].
  unfold slot_ok in *. rewrite ring_size, Zminus_mod_idemp_r in *.
  replace (tail - (head + 1)) with (tail - head - 1) by lia.
  assert (((tail - head) mod 4096 - 1) mod 4096 = (tail - head) mod 4096 - 1) as E.
  { apply Z.mod_small. pose proof (Z.mod_pos_bound (tail - head) 4096 ltac:(lia)).
    enough ((tail - head) mod 4096 <> 0) by lia.
    intros [q Hq]%Z.mod_divide; lia. }
  rewrite Zminus_mod_idemp_l in E. lia.
Qed.

Lemma flush_start head tail : slot_ok head -> slot_ok tail -> lines_left head tail 0.
Proof.
  intros Hh Ht. split_and!; [done|done|lia|]. pose proof (Z.mod_pos_bound (tail - head) LOG_RING_SIZE).
  unfold slot_ok in *. lia.
Qed.

(** The search for the end of a string stops at the last byte of its slot. *)
Lemma scan_next slot k :
  slot_fits slot -> 0 <= k < LOG_MSG_SIZE -> slot.[k] <> 0 -> 0 <= k + 1 < LOG_MSG_SIZE.
Proof.
  intros [_ H0] Hk Hb. assert (k <> LOG_MSG_SIZE - 1) by (intros ->; done). lia.
Qed.

Lemma goes_on_pc i k pc l mutex pc' l' mutex' :
  slog_wf l -> pc_ok pc -> call_goes_on i k pc l mutex = Some (Some pc', l', mutex') -> pc_ok pc'.
Proof.
  intros Hwf Hpc E. pose proof Hwf as (_ & _ & _ & Hh & Ht).
  destruct pc as [m|m tail|m tail|m tail head|m tail rest|m tail rest|m tail|tail|head|head tail|out head tail n
    |out head tail n j|out head tail n len line|head|]; cbn [call_goes_on pc_ok] in E, Hpc.
  - by injection E as <- <- <-.
  - injection E as <- <- <-. case_match; [done|]. split; [done|apply prefix_fits].
  - injection E as <- <- <-. by split.
  - injection E as <- <- <-. destruct Hpc. split; [done|apply prefix_fits].
  - destruct Hpc as (Hs & Hf & _). destruct (store_one k rest tail l) as [[rest' l1]|] eqn:Es; [|done].
    destruct (store_one_ok _ _ _ _ _ _ Hwf Hs Hf Es) as (_ & Hf' & _). cbn [mbind option_bind] in E.
    injection E as <- <- <-. destruct rest'; (split; [done|]); [apply text_fits|done].
  - destruct Hpc as (Hs & Hf & _). destruct (store_one k rest tail l) as [[rest' l1]|] eqn:Es; [|done].
    destruct (store_one_ok _ _ _ _ _ _ Hwf Hs Hf Es) as (_ & Hf' & _). cbn [mbind option_bind] in E.
    injection E as <- <- <-. by destruct rest'.
  - by injection E as <- <- <-.
  - done.
  - injection E as <- <- <-. by split.
  - destruct mutex; [done|]. injection E as <- <- <-. apply flush_start; apply Hpc.
  - injection E as <- <- <-. case_match eqn:Eq; [by destruct Hpc|]. apply Z.eqb_neq in Eq. split_and!; [exact Hpc|done|done|done].
  - injection E as <- <- <-. destruct Hpc as (Hl & Hne & Hj). case_match eqn:Eq; (split_and!; [done|done|..]).
    + change (zlen []) with 0. lia.
    + lia.
    + apply Z.eqb_neq in Eq. apply (scan_next ((sl_ring l).[head])); [|done|done]. by apply ring_slot, Hl.
    + apply Z.eqb_neq in Eq. apply (scan_next ((sl_ring l).[head])); [|done|done]. by apply ring_slot, Hl.
  - destruct Hpc as (Hl & Hne & Hlen). destruct (Z.ltb_spec (zlen line) len) as [Hlt|Hge];
      injection E as <- <- <-; [|by apply flush_left].
    split_and!; [done|done| |lia]. rewrite zlen_app. change (zlen [_]) with 1. lia.
  - by injection E as <- <- <-.
  - done.
Qed.

Lemma goes_on_log i k pc l mutex pc' l' mutex' :
  slog_wf l -> pc_ok pc -> call_goes_on i k pc l mutex = Some (pc', l', mutex') ->
  Forall line_ok (sl_written l) -> slog_wf l' /\ Forall line_ok (sl_written l').
Proof.
  intros Hwf Hpc E Hw. pose proof Hwf as (Hl & Hv & Hf & Hh & Ht).
  destruct pc as [m|m tail|m tail|m tail head|m tail rest|m tail rest|m tail|tail|head|head tail|out head tail n
    |out head tail n j|out head tail n len line|head|]; cbn [call_goes_on pc_ok] in E, Hpc;
    try (by injection E as <- <- <-).
  - injection E as <- <- <-. split; [split_and!; try done; apply slot_next|done].
  - destruct Hpc as (Hs & Hr & _). destruct (store_one k rest tail l) as [[rest' l1]|] eqn:Es; [|done].
    cbn [mbind option_bind] in E. injection E as <- <- <-.
    destruct (store_one_ok _ _ _ _ _ _ Hwf Hs Hr Es) as (? & _ & ->). done.
  - destruct Hpc as (Hs & Hr & _). destruct (store_one k rest tail l) as [[rest' l1]|] eqn:Es; [|done].
    cbn [mbind option_bind] in E. injection E as <- <- <-.
    destruct (store_one_ok _ _ _ _ _ _ Hwf Hs Hr Es) as (? & _ & ->). done.
  - injection E as <- <- <-. split; [split_and!; try done; cbn; by rewrite zlen_arr_set|done].
  - injection E as <- <- <-. split; [split_and!; try done; apply slot_next|done].
  - destruct mutex; [done|]. by injection E as <- <- <-.
  - destruct Hpc as (_ & _ & Hlen). destruct (zlen line <? len); injection E as <- <- <-; [done|].
    split; [done|]. cbn [put_line sl_written]. apply Forall_app. split; [done|]. apply Forall_singleton.
    exists line. split; [done|lia].
Qed.

(** Only the thread that moves changes its hold of the mutex. *)
Lemma goes_on_mutex i k pc l mutex pc' l' mutex' :
  call_goes_on i k pc l mutex = Some (pc', l', mutex') -> (mutex = Some i <-> locked pc = true) ->
  (mutex' = Some i <-> exists p, pc' = Some p /\ locked p = true) /\
  (forall j, j <> i -> mutex' = Some j <-> mutex = Some j).
Proof.
  intros E Hm. destruct pc; cbn in E, Hm; try (destruct (store_one _ _ _ _) as [[? ?]|]; cbn in E);
    repeat case_match; simplify_eq; (split; [|done || naive_solver]); rewrite ?Hm; naive_solver.
Qed.

Lemma set_pc_lookup i pc pcs j :
  set_pc i pc pcs !! j = if decide (i = j) then pc else pcs !! j.
Proof.
  destruct pc; cbn; destruct (decide (i = j)) as [<-|Hij]; by simplify_map_eq.
Qed.

Lemma set_pc_all (P : lpc -> Prop) i pc pcs :
  map_Forall (fun _ p => P p) pcs -> (forall p, pc = Some p -> P p) ->
  map_Forall (fun _ p => P p) (set_pc i pc pcs).
Proof.
  intros Ha Hp j p Hj. rewrite set_pc_lookup in Hj. case_decide; [by apply Hp|by apply (Ha j)].
Qed.

Lemma lstart_inv : linv lstart.
Proof.
  split; [|done|done|].
  - split_and!; cbn [lstart ls_log sl_ring sl_levels sl_head sl_tail];
      [unfold zlen; rewrite length_replicate, ring_size; lia..| | |].
    + by apply Forall_replicate.
    + unfold slot_ok. rewrite ring_size. lia.
    + unfold slot_ok. rewrite ring_size. lia.
  - intros i. split; [done|]. by intros (pc & Hpc & _).
Qed.

Lemma lnext_inv i c k s s' : linv s -> lnext i c k s = Some s' -> linv s'.
Proof.
  intros [Hwf Hw Hp Hm] E. destruct s as [l m pcs]. cbn [lnext ls_log ls_mutex ls_pcs] in *.
  destruct (pcs !! i) as [pc|] eqn:Ei.
  - destruct (call_goes_on i k pc l m) as [[[pc' l'] m']|] eqn:Ec; [|done].
    cbn [mbind option_bind] in E. injection E as <-. pose proof (Hp i pc Ei) as Hpc. cbn beta in Hpc.
    destruct (goes_on_log _ _ _ _ _ _ _ _ Hwf Hpc Ec Hw) as (Hwf' & Hw').
    split; cbn [ls_log ls_mutex ls_pcs]; [done|done|apply set_pc_all; [done|]|].
    + intros p ->. eapply goes_on_pc; [exact Hwf|exact Hpc|exact Ec].
    + destruct (goes_on_mutex _ _ _ _ _ _ _ _ Ec) as [Hi Hj]; [rewrite Hm, Ei; naive_solver|].
      intros j. setoid_rewrite set_pc_lookup. case_decide as Hij; [subst j; exact Hi|].
      by rewrite Hj, Hm.
  - destruct (call_starts c l m) as [[pc' l']|] eqn:Ec; [|done].
    cbn [mbind option_bind] in E. injection E as <-.
    destruct (starts_ok _ _ _ _ _ Hwf Ec) as (Hwf' & Hw' & Hpc).
    split; cbn [ls_log ls_mutex ls_pcs]; [done|by rewrite Hw'|apply set_pc_all; [done|naive_solver]|].
    intros j. setoid_rewrite set_pc_lookup. rewrite Hm. case_decide as Hij; [subst j|done].
    rewrite Ei. split; [naive_solver|]. intros (p & -> & Hl). destruct (Hpc p eq_refl). congruence.
Qed.

Lemma reachable_linv s : rtc logger_step lstart s -> linv s.
Proof.
  apply (rtc_ind_r linv); [apply lstart_inv|].
  intros s1 s2 _ (i & c & k & E) H. by eapply lnext_inv.
Qed.

(** Only a flush waits, for the one that holds the mutex. *)
Lemma call_goes i c s pc :
  linv s -> ls_pcs s !! i = Some pc ->
  is_Some (lnext i c 0 s) \/ exists head tail j, pc = FLock head tail /\ ls_mutex s = Some j.
Proof.
  intros [_ _ Hp _] Hi. pose proof (Hp i pc Hi) as Hpc. cbn beta in Hpc. destruct s as [l m pcs].
  cbn [lnext ls_pcs ls_mutex] in *. rewrite Hi.
  destruct pc as [ms|ms tail|ms tail|ms tail head|ms tail rest|ms tail rest|ms tail|tail|head|head tail|out head tail n
    |out head tail n j|out head tail n len line|head|]; cbn [call_goes_on pc_ok] in *;
    try (left; by eexists).
  - left. destruct (store_one_next 0 rest tail l) as [[rest' l'] ->]; [apply Hpc|done|by eexists].
  - left. destruct (store_one_next 0 rest tail l) as [[rest' l'] ->]; [apply Hpc|done|by eexists].
  - destruct m as [j|]; [right; by exists head, tail, j|left; by eexists].
  - left. destruct (zlen line <? len); by eexists.
Qed.

End invariant.

(** ** An undisturbed call *)

(** The bytes of a string up to its NUL. *)
Fixpoint cstr (bytes : list Z) : list Z :=
  match bytes with [] => [] | b :: bytes => if b =? 0 then [] else b :: cstr bytes end.

Definition stored (stores : list (Z * Z)) (slot : list Z) : list Z :=
  foldl (fun slot st => store_byte st slot) slot stores.

Section undisturbed.

Lemma stores_cons off b str : stores_at off (b :: str) = (off, b) :: stores_at (off + 1) str.
Proof.
  unfold stores_at. rewrite zlen_cons, seqZ_cons by (pose proof (zlen_nonneg str); lia).
  unfold Z.succ. by replace (Z.pred (1 + zlen str + 1)) with (zlen str + 1) by lia.
Qed.

Lemma stored_string str off slot :
  0 <= off -> off + zlen str + 1 <= zlen slot ->
  stored (stores_at off str) slot =
    take (Z.to_nat off) slot ++ str ++ 0 :: drop (Z.to_nat (off + zlen str + 1)) slot.
Proof.
  revert off slot. induction str as [|b str IH]; intros off slot Ho Hl.
  - change (stores_at off []) with (zip (seqZ off 1) [0]). rewrite seqZ_cons by lia.
    change (zlen []) with 0 in *. rewrite Z.add_0_r in *. cbn [seqZ zip stored foldl].
    unfold stored. cbn. unfold store_byte, arr_set. cbn [fst snd]. unfold zlen in *.
    rewrite insert_take_drop by lia. by replace (Z.to_nat (off + 1)) with (S (Z.to_nat off)) by lia.
  - rewrite stores_cons, zlen_cons in *. pose proof (zlen_nonneg str).
    change (stored ((off, b) :: stores_at (off + 1) str) slot)
      with (stored (stores_at (off + 1) str) (arr_set slot off b)).
    rewrite IH by (rewrite ?zlen_arr_set; lia). unfold arr_set, zlen in *.
    replace (Z.to_nat (off + 1)) with (S (Z.to_nat off)) by lia.
    rewrite drop_insert_lt by lia. rewrite (take_S_r _ _ b) by (apply list_lookup_insert_eq; lia).
    rewrite take_insert_ge by lia. rewrite <- app_assoc. cbn [app]. do 4 f_equal. f_equal. lia.
Qed.

Lemma cstr_app str rest : 0 ∉ str -> cstr (str ++ 0 :: rest) = str.
Proof.
  induction str as [|b str IH]; intros Hn; [done|]. apply not_elem_of_cons in Hn as [Hb Hn].
  cbn. rewrite (proj2 (Z.eqb_neq b 0)) by done. by rewrite IH.
Qed.

(** When nothing comes in between, the stores of a call, each formatting
    function's in the order of the string, leave the entry of [Logger]. *)
Lemma undisturbed_entry m slot :
  slot_fits slot -> 0 ∉ prefix (m_clock m) (m_level m) -> 0 ∉ m_text m ->
  cstr (stored (prefix_stores m ++ text_stores m) slot) =
    msg (make_entry (m_clock m) (m_level m) (m_text m)).
Proof.
  intros [Hl _] Hp Ht. pose proof (prefix_short (m_clock m) (m_level m)) as Hs.
  unfold stored. rewrite foldl_app. unfold prefix_stores, text_stores, snprintf_stores, make_entry.
  set (p := prefix _ _) in *. change LOG_MSG_SIZE with 256 in *. cbn [msg].
  rewrite (take_ge p) by (unfold zlen in *; lia).
  set (text := take _ (m_text m)).
  assert (zlen text <= 256 - zlen p - 1) as Htl by (unfold text, zlen in *; rewrite length_take; lia).
  fold (stored (stores_at 0 p) slot). rewrite (stored_string p 0 slot) by lia.
  set (slot1 := take _ slot ++ _).
  assert (zlen slot1 = 256) as Hl1.
  { unfold slot1, zlen in *. rewrite !length_app. cbn [List.length]. rewrite length_take, length_drop. lia. }
  fold (stored (stores_at (zlen p) text) slot1). rewrite stored_string by lia.
  assert (take (Z.to_nat (zlen p)) slot1 = p) as ->.
  { unfold slot1, zlen. rewrite Nat2Z.id. change (Z.to_nat 0) with 0%nat. exact (take_app_length p _). }
  rewrite app_assoc. apply cstr_app. rewrite not_elem_of_app. split; [done|].
  intros Hin. apply Ht. unfold text in Hin. apply elem_of_take in Hin as (j & Hj & _).
  by eapply list_elem_of_lookup_2.
Qed.

End undisturbed.

(** ** Properties *)

(** C35: Logging from any number of threads is safe for the memory and for the
    mutex. In every interleaving of the accesses of log calls, flushes and
    changes of level and file, where a call stores the bytes of its message one
    at a time and a flush reads them one at a time: the indices, the slots and
    the bytes the calls are about to access lie in the ring and in their slot,
    whose last byte stays NUL; one thread at most is between lock and unlock;
    a call can always go on, but for a flush that waits for another one; a
    flush writes at most 4095 lines, and a line has at most 255 bytes. What a
    line says is not part of it ([torn_line]). *)
Theorem logger_conc_safe (s : lstate) :
  rtc logger_step lstart s ->
  slog_wf (ls_log s) /\ map_Forall (fun _ pc => pc_ok pc) (ls_pcs s) /\
  (forall i j p q, ls_pcs s !! i = Some p -> ls_pcs s !! j = Some q ->
     locked p = true -> locked q = true -> i = j) /\
  (forall i p c, ls_pcs s !! i = Some p ->
     is_Some (lnext i c 0 s) \/
     exists head tail j q, p = FLock head tail /\ ls_pcs s !! j = Some q /\ locked q = true) /\
  (forall i out head tail n, ls_pcs s !! i = Some (FOut out head tail n) -> 0 <= n <= 4095) /\
  Forall (fun o => exists line, o.2 = line ++ [10] /\ zlen line <= 255) (sl_written (ls_log s)).
Proof.
  intros Hinv%reachable_linv. pose proof Hinv as [Hwf Hw Hp Hm]. split_and!; [done|done|..].
  - intros i j p q Hi Hj Hli Hlj. assert (ls_mutex s = Some i) as E by (apply Hm; eauto).
    assert (ls_mutex s = Some j) by (apply Hm; eauto). congruence.
  - intros i p c Hi. destruct (call_goes i c s p Hinv Hi) as [?|(head & tail & j & -> & Hj)]; [by left|right].
    apply Hm in Hj as (q & Hq & Hl). by exists head, tail, j, q.
  - intros i out head tail n Hi. apply Hp in Hi as (_ & _ & H0 & Hn). rewrite ring_size in Hn.
    pose proof (Z.mod_pos_bound (tail - head) 4096 ltac:(lia)). lia.
  - eapply Forall_impl; [exact Hw|]. intros o (line & -> & Hl). exists line. unfold LOG_MSG_SIZE in Hl. split; [done|lia].
Qed.

(** ** Executions *)

(** A whole schedule; the stores are taken in order. *)
Fixpoint lrun (sched : list (nat * lcall)) (s : lstate) : option lstate :=
  match sched with
  | [] => Some s
  | (i, c) :: sched => s ← lnext i c 0 s; lrun sched s
  end.

(** Thread [i] alone, until its call has returned. *)
Fixpoint call_whole (fuel : nat) (i : nat) (c : lcall) (s : lstate) : option lstate :=
  match fuel with
  | O => None
  | S fuel =>
      s ← lnext i c 0 s;
      match ls_pcs s !! i with None => Some s | Some _ => call_whole fuel i c s end
  end.

Definition noon : clock := Clock 12 0 0 0.

Definition hello (n : Z) : lcall := CLog (LMsg 2 noon [48 + n]).

(** [n] accesses of a thread. *)
Definition turns (n : nat) (i : nat) (c : lcall) : list (nat * lcall) := replicate n (i, c).

(** Thread 0 has loaded the tail of an empty ring. *)
Definition tail_loaded : option lstate := lrun (turns 2 0 (hello 0)) lstart.

(** Thread 1 logs three messages and flushes them; thread 0 goes on and sets the
    tail back to 1; thread 2 flushes. *)
Definition stale_tail : option lstate :=
  s ← tail_loaded;
  s ← call_whole 100 1 (hello 1) s; s ← call_whole 100 1 (hello 1) s; s ← call_whole 100 1 (hello 1) s;
  s ← call_whole 1000 1 CFlush s; s ← call_whole 100 0 (hello 0) s; call_whole 20000 2 CFlush s.

(** The last flush writes 4094 lines for the one message that was pending: the
    4093 slots that never held one, and it. *)
Theorem stale_tail_replays :
  (fun s => (zlen (sl_written (ls_log s)), zlen (filter (fun o => o.2 = [10]) (sl_written (ls_log s))),
             size (ls_pcs s))) <$> stale_tail = Some (3 + 4094, 4093, 0%nat).
Proof. by vm_compute. Qed.

(** Thread 1 logs into the slot that thread 0 has chosen; thread 0 stores its
    prefix; thread 2 flushes. *)
Definition torn : option lstate :=
  s ← tail_loaded; s ← call_whole 100 1 (hello 1) s; s ← lrun (turns 19 0 (hello 0)) s;
  call_whole 1000 2 CFlush s.

(** The line that is written is neither message: it stops behind the prefix, for
    thread 0 has stored the NUL of its prefix over the text of thread 1. *)
Theorem torn_line :
  (fun s => (snd <$> sl_written (ls_log s), ls_pcs s !! 0%nat)) <$> torn =
    Some ([prefix noon 2 ++ [10]], Some (LText (LMsg 2 noon [48]) 0 (text_stores (LMsg 2 noon [48])))) /\
  forall n, prefix noon 2 <> msg (make_entry noon 2 [n]).
Proof. split; [by vm_compute|]. intros n E. apply (f_equal List.length) in E. by vm_compute in E. Qed.

Lemma lrun_steps sched s s' : lrun sched s = Some s' -> rtc logger_step s s'.
Proof.
  revert s. induction sched as [|[i c] sched IH]; intros s E; cbn [lrun] in E.
  { simplify_eq. apply rtc_refl. }
  destruct (lnext i c 0 s) as [s1|] eqn:E1; [|done]. eapply rtc_l; [by exists i, c, 0%nat|by apply IH].
Qed.

(** Two messages have been logged and a third call stores its text, while a
    flush reads its first line. *)
Definition overlapping : list (nat * lcall) :=
  turns 25 0 (hello 0) ++ turns 25 1 (hello 1) ++ turns 22 0 (hello 2) ++ turns 9 2 CFlush.

Lemma logger_conc_safe_witness :
  exists s, ls_pcs s !! 0%nat = Some (LText (LMsg 2 noon [50]) 2 [(18, 0)]) /\
    ls_pcs s !! 2%nat = Some (FScan Stderr 0 2 0 5) /\
    pc_ok (FScan Stderr 0 2 0 5) /\ slog_wf (ls_log s) /\ is_Some (lnext 2 CFlush 0 s).
Proof.
  assert ((fun s => (ls_pcs s !! 0%nat, ls_pcs s !! 2%nat)) <$> lrun overlapping lstart =
    Some (Some (LText (LMsg 2 noon [50]) 2 [(18, 0)]), Some (FScan Stderr 0 2 0 5))) as E
    by (vm_compute; reflexivity).
  destruct (lrun overlapping lstart) as [s|] eqn:Er; [|discriminate E].
  cbn [fmap option_fmap option_map] in E. injection E as E0 E2.
  pose proof (logger_conc_safe s (lrun_steps _ _ _ Er)) as (Hwf & Hp & _ & Hgo & _).
  exists s. split_and!; [exact E0|exact E2|exact (Hp _ _ E2)|exact Hwf|].
  destruct (Hgo 2%nat _ CFlush E2) as [?|(? & ? & ? & ? & [=] & _)]. done.
Defined.
