(* ===== verification/Timer.v ===== *)
(** * Latency statistics

    Models the latency statistics of [src/src/utils/timer.c] and
    [src/src/include/bt_timer.h]: the accumulator with its histogram of
    powers of two, and the percentiles of a sorted array, with the [double]
    arithmetic that computes their indices. The calibration of the time stamp
    counter is in [Calibration]. *)

From Stdlib Require Import Ascii String.
From stdpp Require Import strings.
From S2P Require Import Prelude CTypes GwParse.

(** ** Clock readings *)

(** [bt_timer_now_ns] from the reading of the monotonic clock. *)
Definition bt_timer_now_ns (tv_sec tv_nsec : Z) : Z :=
  u64 (u64 (u64 tv_sec * 1000000000) + u64 tv_nsec).
Definition bt_timer_now_us (tv_sec tv_nsec : Z) : Z := bt_timer_now_ns tv_sec tv_nsec / 1000.

(** The two halves of the time stamp counter. *)
Definition bt_rdtsc (lo hi : Z) : Z := Z.lor (Z.shiftl hi 32) lo.

(** ** The accumulator *)

Record bt_latency_stats := Stats {
  min_ns : Z;
  max_ns : Z;
  sum_ns : Z;
  count : Z;
  histogram : list Z;
}.

Definition UINT64_MAX : Z := 2 ^ 64 - 1.

Definition bt_latency_stats_init : bt_latency_stats := Stats UINT64_MAX 0 0 0 (replicate 16 0).

(** [while (us >>= 1) bin++], for a 64-bit value. *)
Fixpoint bin_loop (fuel : nat) (us bin : Z) : Z :=
  match fuel with
  | O => bin
  | S fuel => let us := Z.shiftr us 1 in if us =? 0 then bin else bin_loop fuel us (bin + 1)
  end.

Definition latency_bin (latency_ns : Z) : Z :=
  let us := latency_ns / 1000 in
  if 0 <? us then bin_loop 64 us 0 else 0.

Definition bt_latency_stats_record (s : bt_latency_stats) (latency_ns : Z) : bt_latency_stats :=
  let bin := latency_bin latency_ns in
  Stats (if latency_ns <? min_ns s then latency_ns else min_ns s)
    (if max_ns s <? latency_ns then latency_ns else max_ns s)
    (u64 (sum_ns s + latency_ns))
    (u64 (count s + 1))
    (if bin <? 16 then arr_set (histogram s) bin (u64 ((histogram s).[bin] + 1)) else histogram s).

(** The labels the report prints for the sixteen bins. *)
Definition bin_labels : list String.string :=
  ["0-1"; "1-2"; "2-4"; "4-8"; "8-16"; "16-32"; "32-64"; "64-128"; "128-256"; "256-512"; "512-1k";
   "1k-2k"; "2k-4k"; "4k-8k"; "8k-16k"; "16k+"]%string.

(** What [bt_latency_stats_print] shows: nothing without samples, otherwise
    the figures, the average as the pair of its operands, and the bins that
    are not empty. *)
Record report := Report {
  rep_samples : Z;
  rep_min : Z;
  rep_avg : Z * Z;
  rep_max : Z;
  rep_bins : list (String.string * Z);
}.

Definition bt_latency_stats_print (s : bt_latency_stats) : option report :=
  if count s =? 0 then None
  else Some (Report (count s) (min_ns s) (sum_ns s, count s) (max_ns s)
    (filter (fun b => 0 < snd b) (zip bin_labels (histogram s)))).

(** ** Percentiles *)

(** The product of two doubles that are not negative. *)
Definition double_mul (a b : double_val) : double_val :=
  match a, b with
  | DFin _ m1 e1, DFin _ m2 e2 =>
      round_double false (m1 * m2 * 2 ^ (Z.max (e1 + e2) 0)) (2 ^ (Z.max (- (e1 + e2)) 0))
  | _, _ => DNaN
  end.

(** [(size_t)] of a double below 2^63. *)
Definition cast_size (d : double_val) : Z := u64 (cast_i64 d).

(** [(size_t)((double)(n) * (p))] for the literal [p = pn / pd]. *)
Definition percentile_index (n pn pd : Z) : Z :=
  cast_size (double_mul (round_double false n 1) (round_double false pn pd)).

(** [None] stands for a read beyond the array. *)
Definition percentile (sorted : list Z) (pn pd : Z) : option double_val :=
  match sorted !! Z.to_nat (percentile_index (zlen sorted) pn pd) with
  | Some v => Some (round_double false v 1)
  | None => None
  end.

(** The four results; the caller passes four pointers. *)
Definition bt_latency_percentiles (sorted : list Z) : option (list double_val) :=
  if zlen sorted =? 0 then Some (replicate 4 (DFin false 0 0))
  else mapM (fun p => percentile sorted (fst p) (snd p)) [(50, 100); (95, 100); (99, 100); (999, 1000)].

(** ** What the accumulator holds after a list of samples *)

Section stats.
Implicit Types (x : Z) (l : list Z).

Lemma bin_loop_log2 fuel us bin :
  0 < us < 2 ^ Z.of_nat fuel -> bin_loop fuel us bin = bin + Z.log2 us.
Proof.
  revert us bin. induction fuel as [|fuel IH]; intros us bin Hus; [lia|].
  cbn [bin_loop]. rewrite Z.shiftr_div_pow2 by lia. change (2 ^ 1) with 2.
  pose proof (Z.div_mod us 2). pose proof (Z.mod_pos_bound us 2).
  destruct (Z.eqb_spec (us / 2) 0) as [E|E].
  - assert (us = 1) as -> by lia. change (Z.log2 1) with 0. lia.
  - rewrite IH by (rewrite Nat2Z.inj_succ, Z.pow_succ_r in Hus by lia; lia).
    pose proof (Z.log2_shiftr us 1 ltac:(lia)) as Hl.
    rewrite Z.shiftr_div_pow2 in Hl by lia. change (2 ^ 1) with 2 in Hl.
    assert (1 <= Z.log2 us) by (apply Z.log2_le_pow2; [lia|]; change (2 ^ 1) with 2; lia). lia.
Qed.

(** The bin of a sample: the position of the highest bit of its microseconds,
    0 below two microseconds. *)
Lemma latency_bin_log2 x : is_u64 x -> latency_bin x = Z.log2 (x / 1000).
Proof.
  intros [Hx Hx']. unfold latency_bin. pose proof (Z.div_mod x 1000). pose proof (Z.mod_pos_bound x 1000).
  destruct (Z.ltb_spec 0 (x / 1000)) as [H1|H1].
  - rewrite bin_loop_log2; [lia|]. split; [done|]. change (Z.of_nat 64) with 64. lia.
  - by rewrite Z.log2_nonpos.
Qed.

(** The samples that belong to bin [i] by their microseconds. *)
Definition in_bin (i x : Z) : Prop := Z.log2 (x / 1000) = i.
#[global] Instance in_bin_dec i x : Decision (in_bin i x).
Proof. unfold in_bin. apply _. Defined.

Definition sum (l : list Z) : Z := foldr Z.add 0 l.

Record stats_ok (l : list Z) (s : bt_latency_stats) : Prop := {
  ok_min : min_ns s = foldr Z.min UINT64_MAX l;
  ok_max : max_ns s = foldr Z.max 0 l;
  ok_sum : sum_ns s = sum l mod 2 ^ 64;
  ok_count : count s = zlen l mod 2 ^ 64;
  ok_len : length (histogram s) = 16%nat;
  ok_bins : forall i, 0 <= i < 16 -> (histogram s).[i] = zlen (filter (in_bin i) l) mod 2 ^ 64;
}.

Lemma record_ok l s x :
  is_u64 x -> stats_ok l s -> stats_ok (x :: l) (bt_latency_stats_record s x).
Proof.
  intros Hx [Hmin Hmax Hsum Hcount Hlen Hb]. unfold bt_latency_stats_record.
  rewrite latency_bin_log2 by done. split; simpl.
  - rewrite Hmin. destruct (Z.ltb_spec x (foldr Z.min UINT64_MAX l)); lia.
  - rewrite Hmax. destruct (Z.ltb_spec (foldr Z.max 0 l) x); lia.
  - rewrite Hsum. unfold u64. rewrite Zplus_mod_idemp_l. unfold sum. simpl. f_equal. lia.
  - rewrite Hcount. unfold u64. rewrite Zplus_mod_idemp_l, zlen_cons. f_equal. lia.
  - case_match; [|done]. unfold arr_set. by rewrite length_insert.
  - intros i Hi. rewrite filter_cons. pose proof (Z.log2_nonneg (x / 1000)).
    destruct (decide (in_bin i x)) as [<-|Hne].
    + rewrite (proj2 (Z.ltb_lt _ _)) by lia. rewrite arr_get_set_eq by (unfold zlen; lia).
      rewrite Hb by lia. unfold u64. rewrite Zplus_mod_idemp_l, zlen_cons. f_equal. lia.
    + destruct (Z.ltb_spec (Z.log2 (x / 1000)) 16); [|by apply Hb].
      rewrite arr_get_set_ne by (done || lia). by apply Hb.
Qed.

Lemma init_ok : stats_ok [] bt_latency_stats_init.
Proof.
  split; try reflexivity. intros i Hi.
  change (histogram bt_latency_stats_init) with (replicate 16 0). unfold arr_get.
  by rewrite lookup_total_replicate_2 by lia.
Qed.

Lemma records_ok l s l0 :
  Forall is_u64 l -> stats_ok l0 s -> stats_ok (reverse l ++ l0) (foldl bt_latency_stats_record s l).
Proof.
  intros Hl. revert s l0. induction Hl as [|x l Hx Hl IH]; intros s l0 Hs; [done|].
  rewrite reverse_cons, <- app_assoc. simpl. by apply IH, record_ok.
Qed.

Lemma foldr_min_le z l x : x ∈ l -> foldr Z.min z l <= x.
Proof. induction 1 as [|x y l _ IH]; simpl; lia. Qed.

Lemma foldr_max_le z l x : x ∈ l -> x <= foldr Z.max z l.
Proof. induction 1 as [|x y l _ IH]; simpl; lia. Qed.

Lemma foldr_min_in z l : foldr Z.min z l = z \/ foldr Z.min z l ∈ l.
Proof.
  induction l as [|x l IH]; simpl; [by left|].
  destruct (Z.min_spec x (foldr Z.min z l)) as [[_ ->]|[_ ->]]; [right; by left|].
  destruct IH; [by left|right; by right].
Qed.

Lemma foldr_max_in z l : foldr Z.max z l = z \/ foldr Z.max z l ∈ l.
Proof.
  induction l as [|x l IH]; simpl; [by left|].
  destruct (Z.max_spec x (foldr Z.max z l)) as [[_ ->]|[_ ->]]; [|right; by left].
  destruct IH; [by left|right; by right].
Qed.

Lemma sum_perm l l' : l ≡ₚ l' -> sum l = sum l'.
Proof. unfold sum. induction 1; simpl; lia. Qed.

End stats.

(** ** The index of a percentile *)

Section percentile.

(** Rounding a quotient below [1023/1024 * n] stays below [n]. *)
Lemma round_below num den n :
  0 < num -> 0 < den -> 0 < n < 2 ^ 53 -> 1024 * num <= 1023 * n * den ->
  0 <= cast_i64 (round_double false num den) < n.
Proof.
  intros Hnum Hden Hn Hle. unfold round_double.
  rewrite (proj2 (Z.eqb_neq num 0)) by lia. set (L := rat_log2 num den).
  assert (L <= Z.log2 n) as HL.
  { pose proof (rat_log2_le num den Hnum Hden) as H. fold L in H.
    destruct (Z.le_gt_cases L 0); [pose proof (Z.log2_nonneg n); lia|].
    rewrite Z.max_l, Z.max_r, Z.pow_0_r, Z.mul_1_r in H by lia.
    apply Z.log2_le_pow2; [lia|]. nia. }
  assert (Z.log2 n <= 52) as H52 by (apply Z.lt_succ_r, Z.log2_lt_pow2; lia).
  set (e := Z.max (L - 52) (-1074)). assert (e <= 0) as He by lia.
  rewrite (Z.max_l (- e)), (Z.max_r e), Z.pow_0_r, Z.mul_1_r by lia.
  set (P := 2 ^ (- e)). assert (2 ^ 52 <= n * P) as HP.
  { destruct (Z.log2_spec n ltac:(lia)) as [H1 _].
    pose proof (Z.log2_nonneg n).
    assert (2 ^ (52 - Z.log2 n) <= P) as H2 by (apply Z.pow_le_mono_r; lia).
    replace (2 ^ 52) with (2 ^ Z.log2 n * 2 ^ (52 - Z.log2 n))
      by (rewrite <- Z.pow_add_r by (pose proof (Z.log2_nonneg n); lia); f_equal; lia).
    pose proof (pow2_pos (52 - Z.log2 n) ltac:(lia)). pose proof (pow2_pos (Z.log2 n) (Z.log2_nonneg n)).
    nia. }
  assert (0 < P) by (apply pow2_pos; lia).
  set (m := round_half_even (num * P) den).
  pose proof (round_half_even_bound (num * P) den Hden) as Hm. fold m in Hm.
  assert (m < n * P) as Hlt by nia.
  assert (0 <= m) as Hm0 by (apply round_half_even_nonneg; nia).
  assert (((0 <=? e) && (2 ^ 1024 <=? m * 2 ^ e)) = false) as ->.
  { destruct (Z.leb_spec 0 e); [|done]. assert (e = 0) as E by lia. unfold P in Hlt. rewrite E in *.
    simpl. rewrite Z.pow_0_r, Z.mul_1_r in *. apply Z.leb_gt.
    apply Z.lt_trans with (2 ^ 53); [lia|]. by apply Z.pow_lt_mono_r. }
  unfold cast_i64. rewrite (Z.max_r e), (Z.max_l (- e)), Z.pow_0_r, Z.mul_1_r by lia. fold P.
  pose proof (Z.div_pos m P Hm0 ltac:(lia)).
  assert (m / P < n) by (apply Z.div_lt_upper_bound; lia).
  rewrite (proj2 (Z.leb_le _ _)), (proj2 (Z.ltb_lt _ _)) by lia. simpl. lia.
Qed.

(** The index stays inside an array of [n] elements. *)
Lemma percentile_index_bound n pn pd m2 e2 :
  0 < n < 2 ^ 53 -> round_double false pn pd = DFin false m2 e2 ->
  0 < m2 -> e2 <= 0 -> 1024 * m2 <= 1023 * 2 ^ (- e2) ->
  0 <= percentile_index n pn pd < n.
Proof.
  intros Hn Hp Hm2 He2 Hle. unfold percentile_index, cast_size. rewrite Hp.
  destruct (round_double_int n ltac:(lia)) as (e & He & ->). unfold double_mul.
  rewrite Z.max_r, Z.max_l, Z.pow_0_r, Z.mul_1_r by lia.
  pose proof (pow2_pos (- e) ltac:(lia)). pose proof (pow2_pos (- e2) ltac:(lia)).
  assert (0 <= cast_i64 (round_double false (n * 2 ^ (- e) * m2) (2 ^ (- (e + e2)))) < n) as Hb.
  { apply round_below; [nia|apply pow2_pos; lia|done|].
    replace (- (e + e2)) with (- e + - e2) by lia. rewrite Z.pow_add_r by lia. nia. }
  rewrite u64_small by (unfold is_u64; lia). done.
Qed.

Lemma percentile_defined (sorted : list Z) pn pd m2 e2 :
  0 < zlen sorted < 2 ^ 53 -> round_double false pn pd = DFin false m2 e2 ->
  0 < m2 -> e2 <= 0 -> 1024 * m2 <= 1023 * 2 ^ (- e2) ->
  exists v, v ∈ sorted /\ percentile sorted pn pd = Some (round_double false v 1).
Proof.
  intros Hn Hp Hm He Hle. pose proof (percentile_index_bound _ _ _ _ _ Hn Hp Hm He Hle) as Hi.
  unfold percentile. destruct (sorted !! _) as [v|] eqn:E.
  - exists v. split; [by eapply list_elem_of_lookup_2|done].
  - apply lookup_ge_None in E. unfold zlen in *. lia.
Qed.

End percentile.

(** The four results of a nonempty array. *)
Lemma percentiles_read (sorted : list Z) :
  0 < zlen sorted < 2 ^ 53 ->
  exists ds, bt_latency_percentiles sorted = Some ds /\ length ds = 4%nat /\
    Forall (fun d => exists v, v ∈ sorted /\ d = round_double false v 1) ds.
Proof.
  intros Hn. unfold bt_latency_percentiles. rewrite (proj2 (Z.eqb_neq _ 0)) by lia.
  assert (forall p, p ∈ [(50, 100); (95, 100); (99, 100); (999, 1000)] ->
    exists v, v ∈ sorted /\ percentile sorted (fst p) (snd p) = Some (round_double false v 1)) as Hp.
  { intros p Hin. rewrite !elem_of_cons, elem_of_nil in Hin.
    repeat destruct Hin as [->|Hin]; [..|done];
      (eapply percentile_defined; [done|vm_compute; reflexivity|lia|lia|lia]). }
  destruct (mapM (fun p => percentile sorted (fst p) (snd p)) _) as [ds|] eqn:E.
  - exists ds. split; [done|]. apply mapM_Some in E. split; [by apply Forall2_length in E|].
    rewrite Forall_forall. intros d Hd. apply list_elem_of_lookup in Hd as [i Hi].
    destruct (Forall2_lookup_r _ _ _ _ _ E Hi) as (p & Hin%list_elem_of_lookup_2 & Heq).
    destruct (Hp p Hin) as (v & Hv & Hpv). exists v. split; [done|]. congruence.
  - apply mapM_None in E. apply Exists_exists in E as (p & Hin & Heq).
    destruct (Hp p Hin) as (v & Hv & Hpv). congruence.
Qed.

(** ** Properties *)

(** C36: The accumulator is exact: after any list of 64-bit samples the count
    and the sum are those of the list, modulo 2^64, the minimum and the
    maximum are attained by samples and bound them all, and bin [i] counts the
    samples whose whole microseconds have their highest bit at position [i]. *)
Theorem latency_stats_exact (l : list Z) :
  Forall is_u64 l -> l <> [] ->
  let s := foldl bt_latency_stats_record bt_latency_stats_init l in
  count s = zlen l mod 2 ^ 64 /\ sum_ns s = sum l mod 2 ^ 64 /\
  min_ns s ∈ l /\ max_ns s ∈ l /\ Forall (fun x => min_ns s <= x <= max_ns s) l /\
  (forall i, 0 <= i < 16 -> (histogram s).[i] = zlen (filter (in_bin i) l) mod 2 ^ 64).
Proof.
  intros Hl Hne s. destruct (records_ok l _ [] Hl init_ok) as [Hmin Hmax Hsum Hcount _ Hb].
  fold s in Hmin, Hmax, Hsum, Hcount, Hb. rewrite app_nil_r in *.
  pose proof (reverse_Permutation l) as Hp.
  rewrite (sum_perm _ _ Hp) in Hsum. rewrite Forall_forall in Hl.
  assert (forall x, x ∈ l -> min_ns s <= x <= max_ns s) as Hall.
  { intros x Hx. rewrite <- Hp in Hx. rewrite Hmin, Hmax.
    split; [by apply foldr_min_le|by apply foldr_max_le]. }
  destruct l as [|y l]; [done|].
  assert (y ∈ y :: l) as Hy by by left. pose proof (Hl y Hy) as Hy64. pose proof (Hall y Hy) as Hyb.
  split_and!; try done.
  - rewrite Hcount. unfold zlen. by rewrite Hp.
  - destruct (foldr_min_in UINT64_MAX (reverse (y :: l))) as [E|E]; rewrite <- Hmin in E.
    + assert (y = min_ns s) as <- by (unfold is_u64, UINT64_MAX in *; lia). done.
    + by rewrite Hp in E.
  - destruct (foldr_max_in 0 (reverse (y :: l))) as [E|E]; rewrite <- Hmax in E.
    + assert (y = max_ns s) as <- by (unfold is_u64 in *; lia). done.
    + by rewrite Hp in E.
  - by apply Forall_forall.
  - intros i Hi. rewrite Hb by done. unfold zlen. by rewrite Hp.
Qed.

(** The percentiles of a nonempty array of fewer than 2^53 samples never
    read beyond it: the four indices, computed in floating point, are inside,
    and each result is the [double] of a sample. *)
Theorem percentiles_in_bounds (sorted : list Z) :
  0 < zlen sorted < 2 ^ 53 ->
  exists ds, bt_latency_percentiles sorted = Some ds /\ length ds = 4%nat /\
    Forall (fun d => exists v, v ∈ sorted /\ d = round_double false v 1) ds.
Proof. apply percentiles_read. Qed.

(** Samples of 65.5 milliseconds and more are in no bin, though the last
    label reads "16k+". *)
Theorem slow_samples_in_no_bin :
  histogram (bt_latency_stats_record bt_latency_stats_init 65536000) = replicate 16 0 /\
  last bin_labels = Some "16k+"%string.
Proof. done. Qed.

(** A sample of 3 microseconds is reported under the label "1-2". *)
Theorem labels_off_by_one :
  (rep_bins <$> bt_latency_stats_print (bt_latency_stats_record bt_latency_stats_init 3000))
  = Some [("1-2"%string, 1)].
Proof. reflexivity. Qed.

(** ** Witnesses *)

Lemma latency_stats_exact_witness :
  let s := foldl bt_latency_stats_record bt_latency_stats_init [1500; 3000; 900] in
  count s = 3 /\ min_ns s ∈ [1500; 3000; 900].
Proof.
  destruct (latency_stats_exact [1500; 3000; 900]) as (Hc & _ & Hm & _); [|done|].
  - repeat constructor; done.
  - split; [exact Hc|exact Hm].
Defined.

Lemma percentiles_in_bounds_witness :
  exists ds, bt_latency_percentiles [10; 20; 30; 40] = Some ds /\ length ds = 4%nat.
Proof.
  destruct (percentiles_in_bounds [10; 20; 30; 40]) as (ds & E & Hl & _); [done|].
  exists ds. split; [exact E|exact Hl].
Defined.
