(* ===== verification/Shmem.v ===== *)
(** * Shared-memory segments

    Models [src/src/ipc/shmem.c]: creating, attaching, detaching and
    destroying a named segment. The operating system's side is a table of
    names, open descriptors, mappings and heap blocks; whether each call
    succeeds, and the descriptor and address it then returns, are parameters.
    A name is the list of its bytes without the terminator. *)

From S2P Require Import Prelude.

Definition SHMEM_MAGIC : Z := 0x4254494D.
Definition SHMEM_VERSION : Z := 1.
Definition SHMEM_RING_SIZE : Z := 65536.
Definition sizeof_shmem_header : Z := 144.

Record bt_shmem_header := Header {
  magic : Z;
  version : Z;
  segment_size : Z;
  hname : list Z;
  order_head : Z;
  order_tail : Z;
  order_mask : Z;
  trade_head : Z;
  trade_tail : Z;
  trade_mask : Z;
  create_time : Z;
  update_time : Z;
}.

(** A segment as [ftruncate] leaves it: all bytes zero. *)
Definition zero_header : bt_shmem_header := Header 0 0 0 [] 0 0 0 0 0 0 0 0.

(** The handle; the header pointer is the base of the mapping. *)
Record bt_shmem := Shm { sh_base : Z; sh_size : Z; sh_fd : Z; sh_owner : bool }.

(** ** The operating system *)

(** A segment: its size and what its header holds. *)
Record segment := Segment { seg_size : Z; seg_header : bt_shmem_header }.

Record os := Os {
  names : gmap (list Z) nat;
  segments : gmap nat segment;
  next_segment : nat;
  fds : gmap Z nat;
  maps : gmap Z (nat * Z);
  blocks : Z;
}.

(** What a process or the system could leak. *)
Definition resources (o : os) := (names o, fds o, maps o, blocks o).

Definition set_names n (o : os) : os := Os n (segments o) (next_segment o) (fds o) (maps o) (blocks o).
Definition set_segments s next (o : os) : os := Os (names o) s next (fds o) (maps o) (blocks o).
Definition set_fds f (o : os) : os := Os (names o) (segments o) (next_segment o) f (maps o) (blocks o).
Definition set_maps m (o : os) : os := Os (names o) (segments o) (next_segment o) (fds o) m (blocks o).
Definition set_blocks b (o : os) : os := Os (names o) (segments o) (next_segment o) (fds o) (maps o) b.

(** The answers to the calls of one operation. *)
Record env := Env {
  e_open : option Z;
  e_ftruncate : bool;
  e_fstat : bool;
  e_mmap : option Z;
  e_calloc : bool;
  e_time : Z;
}.

(** [shm_open] with [O_CREAT | O_EXCL]: fails on a name in use. *)
Definition shm_create (e : env) (name : list Z) (o : os) : option (Z * os) :=
  match names o !! name, e_open e with
  | None, Some fd =>
      let id := next_segment o in
      Some (fd, set_fds (<[fd := id]> (fds o))
                  (set_names (<[name := id]> (names o))
                     (set_segments (<[id := Segment 0 zero_header]> (segments o)) (S id) o)))
  | _, _ => None
  end.

(** [shm_open] of an existing name. *)
Definition shm_open (e : env) (name : list Z) (o : os) : option (Z * os) :=
  match names o !! name, e_open e with
  | Some id, Some fd => Some (fd, set_fds (<[fd := id]> (fds o)) o)
  | _, _ => None
  end.

Definition segment_of (fd : Z) (o : os) : option (nat * segment) :=
  match fds o !! fd with
  | Some id => match segments o !! id with Some s => Some (id, s) | None => None end
  | None => None
  end.

Definition ftruncate (e : env) (fd size : Z) (o : os) : option os :=
  match segment_of fd o with
  | Some (id, s) =>
      if e_ftruncate e
      then Some (set_segments (<[id := Segment size (seg_header s)]> (segments o)) (next_segment o) o)
      else None
  | None => None
  end.

(** A mapping of length 0 is refused. *)
Definition mmap (e : env) (fd len : Z) (o : os) : option (Z * os) :=
  match fds o !! fd, e_mmap e with
  | Some id, Some base =>
      if len =? 0 then None else Some (base, set_maps (<[base := (id, len)]> (maps o)) o)
  | _, _ => None
  end.

Definition munmap (base : Z) (o : os) : os := set_maps (delete base (maps o)) o.
Definition close (fd : Z) (o : os) : os := set_fds (delete fd (fds o)) o.
Definition shm_unlink (name : list Z) (o : os) : os := set_names (delete name (names o)) o.

(** The header behind a mapping. *)
Definition header_at (base : Z) (o : os) : bt_shmem_header :=
  match maps o !! base with
  | Some (id, _) => match segments o !! id with Some s => seg_header s | None => zero_header end
  | None => zero_header
  end.

Definition write_header (base : Z) (h : bt_shmem_header) (o : os) : os :=
  match maps o !! base with
  | Some (id, _) =>
      match segments o !! id with
      | Some s => set_segments (<[id := Segment (seg_size s) h]> (segments o)) (next_segment o) o
      | None => o
      end
  | None => o
  end.

(** ** The operations *)

(** [strncpy (dst, src, n)] into a zeroed buffer of [n + 1] bytes. *)
Definition copy_name (name : list Z) : list Z := take 63 name.

Definition init_header (name : list Z) (total now : Z) : bt_shmem_header :=
  Header SHMEM_MAGIC SHMEM_VERSION total (copy_name name) 0 0 (SHMEM_RING_SIZE - 1)
    0 0 (SHMEM_RING_SIZE - 1) now 0.

Definition segment_total (size : Z) : Z := u64 (align_up 4096 size + sizeof_shmem_header).

Definition bt_shmem_create (e : env) (name : list Z) (size : Z) (o : os) : option bt_shmem * os :=
  let total := segment_total size in
  match shm_create e name o with
  | None => (None, o)
  | Some (fd, o) =>
      match ftruncate e fd total o with
      | None => (None, shm_unlink name (close fd o))
      | Some o =>
          match mmap e fd total o with
          | None => (None, shm_unlink name (close fd o))
          | Some (base, o) =>
              if negb (e_calloc e) then (None, shm_unlink name (close fd (munmap base o)))
              else
                (Some (Shm base total fd true),
                 write_header base (init_header name total (e_time e)) (set_blocks (blocks o + 1) o))
          end
      end
  end.

Definition bt_shmem_attach (e : env) (name : list Z) (o : os) : option bt_shmem * os :=
  match shm_open e name o with
  | None => (None, o)
  | Some (fd, o) =>
      match (if e_fstat e then segment_of fd o else None) with
      | None => (None, close fd o)
      | Some (_, s) =>
          let st_size := seg_size s in
          match mmap e fd st_size o with
          | None => (None, close fd o)
          | Some (base, o) =>
              if negb (magic (header_at base o) =? SHMEM_MAGIC) then (None, close fd (munmap base o))
              else if negb (e_calloc e) then (None, close fd (munmap base o))
              else (Some (Shm base st_size fd false), set_blocks (blocks o + 1) o)
          end
      end
  end.

Definition bt_shmem_detach (shm : option bt_shmem) (o : os) : os :=
  match shm with
  | None => o
  | Some s => let o := close (sh_fd s) (munmap (sh_base s) o) in set_blocks (blocks o - 1) o
  end.

Definition bt_shmem_destroy (shm : option bt_shmem) (o : os) : os :=
  match shm with
  | None => o
  | Some s =>
      let name := take 63 (hname (header_at (sh_base s) o)) in
      let o := close (sh_fd s) (munmap (sh_base s) o) in
      let o := if sh_owner s then shm_unlink name o else o in
      set_blocks (blocks o - 1) o
  end.

(** ** Laws *)

(** The descriptors and addresses the system hands out are not in use. *)
Definition fresh (e : env) (o : os) : Prop :=
  (forall fd, e_open e = Some fd -> fds o !! fd = None) /\
  (forall base, e_mmap e = Some base -> maps o !! base = None).

Section laws.
Implicit Types (o : os) (e : env).

Lemma resources_write base h o : resources (write_header base h o) = resources o.
Proof. unfold write_header. by repeat case_match. Qed.

Lemma header_write base h o id s len :
  maps o !! base = Some (id, len) -> segments o !! id = Some s ->
  header_at base (write_header base h o) = h.
Proof.
  intros Hm Hs. unfold header_at, write_header. rewrite Hm, Hs. simpl. by rewrite Hm, lookup_insert_eq.
Qed.

Lemma delete_fresh {K A} `{Countable K} (m : gmap K A) k x :
  m !! k = None -> delete k (<[k := x]> m) = m.
Proof. intros Hk. by rewrite delete_insert_eq, delete_id. Qed.

(** The state after the three calls that set a new segment up. *)
Lemma create_some e name size o s o' :
  bt_shmem_create e name size o = (Some s, o') ->
  names o !! name = None /\
  e_open e = Some (sh_fd s) /\ e_mmap e = Some (sh_base s) /\ sh_owner s = true /\
  sh_size s = segment_total size /\ segment_total size <> 0 /\
  o' = Os (<[name := next_segment o]> (names o))
         (<[next_segment o := Segment (segment_total size)
              (init_header name (segment_total size) (e_time e))]> (segments o))
         (S (next_segment o)) (<[sh_fd s := next_segment o]> (fds o))
         (<[sh_base s := (next_segment o, segment_total size)]> (maps o)) (blocks o + 1).
Proof.
  unfold bt_shmem_create, shm_create, ftruncate, segment_of, mmap.
  destruct (names o !! name); [done|]. destruct (e_open e) as [fd|]; [|done].
  simpl. rewrite !lookup_insert_eq. destruct (e_ftruncate e); [|done]. simpl. rewrite lookup_insert_eq.
  destruct (e_mmap e) as [base|]; [|done]. destruct (Z.eqb_spec (segment_total size) 0); [done|].
  destruct (e_calloc e); [|done]. simpl. unfold write_header. simpl. rewrite !lookup_insert_eq.
  intros. simplify_eq. split_and!; try done. unfold set_segments, set_names, set_fds, set_maps, set_blocks.
  simpl. by rewrite !insert_insert_eq.
Qed.

Lemma create_none e name size o o' :
  fresh e o -> bt_shmem_create e name size o = (None, o') -> resources o' = resources o.
Proof.
  intros [Hfd Hb]. unfold bt_shmem_create, shm_create, ftruncate, segment_of, mmap.
  destruct (names o !! name) eqn:Hn; [by intros; simplify_eq|].
  destruct (e_open e) as [fd|]; [|by intros; simplify_eq]. specialize (Hfd fd eq_refl).
  simpl. rewrite !lookup_insert_eq.
  destruct (e_ftruncate e); simpl; rewrite ?lookup_insert_eq.
  2:{ cbn. intros. simplify_eq. unfold resources. simpl. by rewrite !delete_fresh. }
  destruct (e_mmap e) as [base|].
  2:{ cbn. intros. simplify_eq. unfold resources. simpl. by rewrite !delete_fresh. }
  specialize (Hb base eq_refl). destruct (segment_total size =? 0).
  { cbn. intros. simplify_eq. unfold resources. simpl. by rewrite !delete_fresh. }
  destruct (e_calloc e); [done|]. cbn. intros. simplify_eq. unfold resources. simpl. by rewrite !delete_fresh.
Qed.

Lemma attach_none e name o o' :
  fresh e o -> bt_shmem_attach e name o = (None, o') -> resources o' = resources o.
Proof.
  intros [Hfd Hb]. unfold bt_shmem_attach, shm_open, mmap, segment_of.
  destruct (names o !! name) as [id|] eqn:Hn; [|by intros; simplify_eq].
  destruct (e_open e) as [fd|]; [|by intros; simplify_eq]. specialize (Hfd fd eq_refl).
  simpl. rewrite !lookup_insert_eq.
  assert (resources (close fd (set_fds (<[fd := id]> (fds o)) o)) = resources o) as Hc.
  { unfold resources. simpl. by rewrite delete_fresh. }
  destruct (segments o !! id) as [seg|] eqn:Hseg, (e_fstat e); try (intros [= <-]; exact Hc).
  simpl. destruct (e_mmap e) as [base|]; [|intros [= <-]; exact Hc].
  specialize (Hb base eq_refl). destruct (seg_size seg =? 0); [intros [= <-]; exact Hc|].
  destruct (negb (magic _ =? SHMEM_MAGIC)); [|destruct (e_calloc e); [done|]];
    intros [= <-]; unfold resources; simpl; by rewrite !delete_fresh.
Qed.

Lemma attach_some e name o s o' :
  bt_shmem_attach e name o = (Some s, o') ->
  exists id seg, names o !! name = Some id /\ segments o !! id = Some seg /\
    e_open e = Some (sh_fd s) /\ e_mmap e = Some (sh_base s) /\ sh_owner s = false /\
    sh_size s = seg_size seg /\ magic (seg_header seg) = SHMEM_MAGIC /\
    o' = Os (names o) (segments o) (next_segment o) (<[sh_fd s := id]> (fds o))
           (<[sh_base s := (id, seg_size seg)]> (maps o)) (blocks o + 1).
Proof.
  unfold bt_shmem_attach, shm_open, mmap, segment_of.
  destruct (names o !! name) as [id|]; [|done]. destruct (e_open e) as [fd|]; [|done].
  simpl. rewrite !lookup_insert_eq. destruct (segments o !! id) as [seg|] eqn:Hseg, (e_fstat e); try done.
  simpl. destruct (e_mmap e) as [base|]; [|done].
  destruct (seg_size seg =? 0); [done|]. unfold header_at. simpl. rewrite lookup_insert_eq, Hseg.
  destruct (Z.eqb_spec (magic (seg_header seg)) SHMEM_MAGIC); [|done].
  destruct (e_calloc e); [|done]. simpl. intros. simplify_eq. by exists id, seg.
Qed.

End laws.

(** ** Properties *)

(** The segment operations release what they take. When the system hands
    out descriptors and addresses that are not in use, a creation or an
    attachment that fails at any step leaves the names, descriptors, mappings
    and heap blocks as they were; so do an attachment followed by a detach,
    and, for a name of at most 63 bytes, a creation followed by a destroy. *)
Theorem shmem_releases (e : env) (name : list Z) (size : Z) (o : os) :
  fresh e o ->
  (forall o', bt_shmem_create e name size o = (None, o') -> resources o' = resources o) /\
  (forall o', bt_shmem_attach e name o = (None, o') -> resources o' = resources o) /\
  (forall s o', bt_shmem_attach e name o = (Some s, o') ->
     resources (bt_shmem_detach (Some s) o') = resources o) /\
  (forall s o', bt_shmem_create e name size o = (Some s, o') -> (length name <= 63)%nat ->
     resources (bt_shmem_destroy (Some s) o') = resources o).
Proof.
  intros Hf. split_and!.
  - intros o'. by apply create_none.
  - intros o'. by apply attach_none.
  - intros s o' E. destruct (attach_some _ _ _ _ _ E) as (id & seg & _ & _ & Hfd & Hb & _ & _ & _ & ->).
    destruct Hf as [Hf1 Hf2]. unfold resources. simpl. rewrite !delete_fresh by auto. repeat f_equal. lia.
  - intros s o' E Hlen. destruct (create_some _ _ _ _ _ _ E) as (Hn & Hfd & Hb & Ho & _ & _ & ->).
    destruct Hf as [Hf1 Hf2]. unfold bt_shmem_destroy. rewrite Ho. unfold header_at. simpl.
    rewrite !lookup_insert_eq. simpl. unfold copy_name. rewrite !(take_ge name) by lia.
    unfold resources. simpl. rewrite !delete_fresh by auto. repeat f_equal. lia.
Qed.

(** What one process creates, another attaches: once a segment has been
    created, an attachment by its name that the system grants succeeds, maps
    the whole segment, and finds the header the creator wrote. *)
Theorem shmem_create_attach (e e' : env) (name : list Z) (size fd base : Z) (o o1 : os) (s : bt_shmem) :
  bt_shmem_create e name size o = (Some s, o1) ->
  e_open e' = Some fd -> e_mmap e' = Some base -> e_fstat e' = true -> e_calloc e' = true ->
  exists s' o2, bt_shmem_attach e' name o1 = (Some s', o2) /\
    sh_size s' = sh_size s /\ sh_owner s' = false /\
    header_at (sh_base s') o2 = init_header name (sh_size s) (e_time e).
Proof.
  intros E Hfd Hb Hst Hc. destruct (create_some _ _ _ _ _ _ E) as (_ & _ & _ & _ & -> & Hnz & ->).
  unfold bt_shmem_attach, shm_open, mmap, segment_of. simpl.
  rewrite lookup_insert_eq, Hfd, Hst. simpl. rewrite !lookup_insert_eq, Hb. simpl.
  rewrite (proj2 (Z.eqb_neq _ 0)) by done. unfold header_at at 1. simpl. rewrite !lookup_insert_eq. simpl.
  rewrite Hc. simpl. eexists _, _. split; [reflexivity|]. split_and!; try done.
  unfold header_at. simpl. by rewrite !lookup_insert_eq.
Qed.

(** The header keeps 63 bytes of the name: destroying a segment with a longer
    name removes another name and leaves the segment's own. *)
Theorem long_name_not_unlinked :
  let name := replicate 64 97 in
  let e := Env (Some 3) true true (Some 4096) true 0 in
  let o := Os {[ replicate 63 97 := 7%nat ]} {[ 7%nat := Segment 4096 zero_header ]} 8 ∅ ∅ 0 in
  let '(s, o1) := bt_shmem_create e name 4096 o in
  let o2 := bt_shmem_destroy s o1 in
  names o2 !! name = Some 8%nat /\ names o2 !! replicate 63 97 = None.
Proof. vm_compute. split; reflexivity. Qed.

(** The two rings are announced with 65536 slots each whatever the size. *)
Theorem rings_not_in_segment :
  let e := Env (Some 3) true true (Some 4096) true 0 in
  let '(s, o1) := bt_shmem_create e [97] 4096 (Os ∅ ∅ 0 ∅ ∅ 0) in
  (sh_size <$> s) = Some 4240 /\ order_mask (header_at 4096 o1) + 1 = 65536.
Proof. vm_compute. split; reflexivity. Qed.

(** ** Witnesses *)

Definition os_empty : os := Os ∅ ∅ 0 ∅ ∅ 0.
Definition env_ok : env := Env (Some 3) true true (Some 4096) true 77.

Lemma shmem_releases_witness :
  resources (bt_shmem_destroy (Some (Shm 4096 4240 3 true))
    (snd (bt_shmem_create env_ok [97; 98] 100 os_empty))) = resources os_empty.
Proof.
  apply (shmem_releases env_ok [97; 98] 100 os_empty); [done|reflexivity|simpl; lia].
Defined.

Lemma shmem_create_attach_witness :
  exists s' o2, bt_shmem_attach (Env (Some 4) true true (Some 8192) true 0) [97; 98]
      (snd (bt_shmem_create env_ok [97; 98] 100 os_empty)) = (Some s', o2) /\ sh_size s' = 4240.
Proof.
  destruct (shmem_create_attach env_ok (Env (Some 4) true true (Some 8192) true 0) [97; 98] 100 4 8192
    os_empty (snd (bt_shmem_create env_ok [97; 98] 100 os_empty)) (Shm 4096 4240 3 true))
    as (s' & o2 & E & Hs & _); [reflexivity..|].
  exists s', o2. split; [exact E|exact Hs].
Defined.
