(* ===== verification/Benchmark.v ===== *)
(** * The benchmark harness

    Models [bench/benchmark.c]: the pseudo-random generator, the generation of
    synthetic orders, the loop that pushes them into the order queue, and the
    final report. The readings of the clock, how many messages the consumer
    takes between two pushes, and the bytes the local message object holds
    before it is filled are parameters. *)

From Stdlib Require Import Ascii String.
From stdpp Require Import strings sorting.
From S2P Require Import Prelude Queue CTypes GwParse Gateway Price Timer Logger.

(** ** The generator *)

Definition xorshift64 (state : Z) : Z :=
  let x := state in
  let x := Z.lxor x (u64 (Z.shiftl x 13)) in
  let x := Z.lxor x (Z.shiftr x 7) in
  Z.lxor x (u64 (Z.shiftl x 17)).

Definition xorshift64_seed : Z := 123456789.

(** The comparison [qsort] uses. *)
Definition cmp_u64 (a b : Z) : Z := Z.b2z (b <? a) - Z.b2z (a <? b).

(** ** Symbols and base prices *)

Definition symbol_count (num_symbols : Z) : Z :=
  if num_symbols <? 1 then 1 else if 256 <? num_symbols then 256 else num_symbols.

(** [snprintf (s, 16, "SYM%04d", i)], zero-padded to the array it is copied to. *)
Definition symbol_name (i : Z) : list Z :=
  let s := cstr "SYM" ++ fmt_0d 4 i in s ++ replicate (16 - List.length s) 0.

(** [n / 100.0] as a double. *)
Definition cents (n : Z) : double_val := ddiv (double_of_Z n) (double_of_Z 100).

Definition base_price (contract : bool) (r : Z) : Z :=
  BT_PRICE_FROM_DOUBLE contract (dadd (double_of_Z 100) (cents (r mod 90000))).

(** The loop that fills the price table, one draw per symbol. *)
Fixpoint base_prices (contract : bool) (n : nat) (rng : Z) : list Z * Z :=
  match n with
  | O => ([], rng)
  | S n =>
      let rng := xorshift64 rng in
      let '(ps, rng') := base_prices contract n rng in (base_price contract rng :: ps, rng')
  end.

(** ** One order *)

Definition BT_PRICE_ZERO : Z := 0.

(** The price offset of a draw in [0, 2w]: from [-w] to [w] cents. *)
Definition price_delta (contract : bool) (draw w : Z) : Z :=
  BT_PRICE_FROM_DOUBLE contract (cents (draw - w)).

(** Type, price and the updated price of the symbol, from the draw [r] and the
    generator behind it. *)
Definition gen_price (contract : bool) (r base rng : Z) : Z * Z * Z * Z :=
  if r <? 60 then
    let rng := xorshift64 rng in
    let price := base + price_delta contract (rng mod 201) 100 in
    let price := if price <=? BT_PRICE_ZERO then base else price in
    (BT_TYPE_LIMIT, price, price, rng)
  else if r <? 80 then (BT_TYPE_MARKET, BT_PRICE_ZERO, base, rng)
  else
    let rng := xorshift64 rng in
    let price := base + price_delta contract (rng mod 51) 25 in
    (if r <? 90 then BT_TYPE_IOC else BT_TYPE_FOK, price, base, rng).

(** The request, the price table and the generator after one order. *)
Definition gen_order (contract : bool) (now : Z) (prices : list Z) (rng : Z)
  : bt_order_request_t * list Z * Z :=
  let r1 := xorshift64 rng in
  let sym_idx := r1 mod zlen prices in
  let r2 := xorshift64 r1 in
  let r3 := xorshift64 r2 in
  let r4 := xorshift64 r3 in
  let '(ty, price, base, r5) := gen_price contract (r4 mod 100) (prices.[sym_idx]) r4 in
  let r6 := xorshift64 r5 in
  let side := if r6 mod 2 =? 0 then BT_SIDE_BUY else BT_SIDE_SELL in
  (OrderRequest 0 (r2 mod 1000 + 1) (symbol_name sym_idx) price (r3 mod 1000 + 1) side ty now,
   arr_set prices sym_idx base, r6).

(** ** The run *)

(** What a round sees: what the consumer took before the push, the send time,
    and the bytes of the message object the loop body does not write. *)
Record round := RoundEnv {
  r_taken : nat;
  r_send_ts : Z;
  r_msg_type : Z;
  r_cancel : bt_cancel_request_t;
}.

Record bench := Bench {
  b_rng : Z;
  b_prices : list Z;
  b_queue : queue bt_gw_oms_msg_t;
  b_sent : Z;
  b_dropped : Z;
  b_intervals : list Z;
  b_last_push : Z;
  b_stats : bt_latency_stats;
}.

(** The consumer removes up to [n] messages. *)
Fixpoint take_msgs (n : nat) (q : queue bt_gw_oms_msg_t) : queue bt_gw_oms_msg_t :=
  match n with
  | O => q
  | S n => take_msgs n (snd (MPSC_POP q))
  end.

Definition bench_round (contract : bool) (e : round) (b : bench) : bench :=
  let q := take_msgs (r_taken e) (b_queue b) in
  let '(req, prices, rng) := gen_order contract (r_send_ts e) (b_prices b) (b_rng b) in
  let msg := GwOmsMsg (r_msg_type e) req (r_cancel e) 0 in
  match MPSC_PUSH msg q with
  | (true, q) =>
      let interval := u64 (r_send_ts e - b_last_push b) in
      Bench rng prices q (b_sent b + 1) (b_dropped b) (b_intervals b ++ [interval]) (r_send_ts e)
        (bt_latency_stats_record (b_stats b) interval)
  | (false, q) =>
      Bench rng prices q (b_sent b) (b_dropped b + 1) (b_intervals b) (b_last_push b) (b_stats b)
  end.

(** The percentiles of the report; [None] when a read would leave the array. *)
Definition bench_report (b : bench) : option (list double_val) :=
  if 1 <? zlen (b_intervals b)
  then bt_latency_percentiles (merge_sort Z.le (b_intervals b))
  else Some [].

(** The state before the loop. *)
Definition bench_start (contract : bool) (num_symbols start_ns rng : Z) (q : queue bt_gw_oms_msg_t) : bench :=
  let '(prices, rng) := base_prices contract (Z.to_nat (symbol_count num_symbols)) rng in
  Bench rng prices q 0 0 [] start_ns bt_latency_stats_init.

(** [bt_benchmark_run]: [None] for the early returns, with [allocs] telling
    whether the first two and the third allocation succeed. *)
Definition bt_benchmark_run (contract : bool) (allocs : bool * bool) (num_symbols start_ns rng : Z)
    (rounds : list round) (q : queue bt_gw_oms_msg_t) : option (bench * option (list double_val)) :=
  if zlen rounds <=? 0 then None
  else if negb (fst allocs) then None
  else if negb (snd allocs) then None
  else
    let b := foldl (fun b e => bench_round contract e b) (bench_start contract num_symbols start_ns rng q) rounds in
    Some (b, bench_report b).

(** ** What the harness sends *)

(** The synthetic orders are orders the platform accepts. *)
Definition valid_order (symbols : Z) (r : bt_order_request_t) : Prop :=
  1 <= rq_user_id r <= 1000 /\ 1 <= rq_quantity r <= 1000 /\
  (exists i, 0 <= i < symbols /\ rq_symbol r = symbol_name i) /\
  (rq_side r = BT_SIDE_BUY \/ rq_side r = BT_SIDE_SELL) /\
  0 <= rq_type r <= BT_TYPE_FOK /\
  (rq_type r = BT_TYPE_LIMIT -> 0 < rq_price r) /\
  (rq_type r = BT_TYPE_MARKET -> rq_price r = 0).

Section bench_laws.
Context (contract : bool).

(** A number of cents below 2000 dollars as a double. *)
Lemma cents_value k :
  0 <= k < 200000 -> exists j m, 0 <= j /\ cents k = DFin false m (- j) /\ 0 <= m <= 2 ^ 12 * 2 ^ j.
Proof using.
  intros Hk. destruct (decide (k = 0)) as [->|Hne].
  { exists 0, 0. split_and!; done. }
  unfold cents. destruct (double_of_pos k ltac:(lia)) as (a & Ha & ->).
  destruct (double_of_pos 100 ltac:(lia)) as (b & Hb & ->). unfold ddiv.
  rewrite !dnum_neg, !dden_neg by lia. pose proof (pow2_pos a Ha). pose proof (pow2_pos b Hb).
  rewrite Z.sgn_pos, Z.abs_eq by lia.
  destruct (round_eighth (2 ^ a * 2 ^ b) k 100) as (j & m & Hj & E & Hm & Herr); [nia|lia|lia|lia|lia|].
  exists j, m. pose proof (pow2_pos j Hj). split_and!; try done; [|nia].
  rewrite round_signed_pos by nia. rewrite <- E. f_equal; lia.
Qed.

Lemma base_price_positive r : 0 < base_price contract r.
Proof using.
  unfold base_price. pose proof (Z.mod_pos_bound r 90000 ltac:(lia)).
  destruct (cents_value (r mod 90000) ltac:(lia)) as (j & m & Hj & -> & Hm).
  destruct (double_of_pos 100 ltac:(lia)) as (a & Ha & ->).
  pose proof (pow2_pos a Ha). pose proof (pow2_pos j Hj). unfold dadd. rewrite !dnum_neg, !dden_neg by lia.
  replace (100 * 2 ^ a * 2 ^ j + m * 2 ^ a) with (2 ^ a * (100 * 2 ^ j + m)) by lia.
  rewrite round_signed_pos by nia.
  destruct (round_eighth (2 ^ a) (100 * 2 ^ j + m) (2 ^ j)) as (k & m2 & Hk & -> & Hm2 & Herr);
    [lia|lia|lia|lia|lia|].
  pose proof (pow2_pos k Hk). apply from_double_positive; [done|].
  split; apply (Z.mul_le_mono_pos_l _ _ (2 ^ j)); nia.
Qed.

Lemma base_prices_ok n rng :
  length (fst (base_prices contract n rng)) = n /\ Forall (fun p => 0 < p) (fst (base_prices contract n rng)).
Proof using.
  revert rng. induction n as [|n IH]; intros rng; simpl; [done|].
  specialize (IH (xorshift64 rng)). destruct (base_prices contract n (xorshift64 rng)). simpl in *.
  destruct IH. split; [lia|]. constructor; [apply base_price_positive|done].
Qed.

(** The price branch. *)
Lemma gen_price_ok r base rng ty price base' rng' :
  0 < base -> 0 <= r < 100 -> gen_price contract r base rng = (ty, price, base', rng') ->
  0 < base' /\ 0 <= ty <= BT_TYPE_FOK /\ (ty = BT_TYPE_LIMIT -> 0 < price) /\ (ty = BT_TYPE_MARKET -> price = 0).
Proof using.
  intros Hb Hr. unfold gen_price, BT_PRICE_ZERO, BT_TYPE_LIMIT, BT_TYPE_MARKET, BT_TYPE_IOC, BT_TYPE_FOK.
  destruct (r <? 60); [|destruct (r <? 80)].
  - destruct (Z.leb_spec (base + price_delta contract (xorshift64 rng mod 201) 100) 0);
      intros; simplify_eq; split_and!; try done; intros; lia.
  - intros. simplify_eq. split_and!; try done; lia.
  - intros. simplify_eq. destruct (r <? 90); split_and!; try done; lia.
Qed.

Definition prices_ok (n : Z) (ps : list Z) : Prop := zlen ps = n /\ 0 < n /\ Forall (fun p => 0 < p) ps.

Lemma gen_order_ok n now ps rng req ps' rng' :
  prices_ok n ps -> gen_order contract now ps rng = (req, ps', rng') -> valid_order n req /\ prices_ok n ps'.
Proof using.
  intros (Hlen & Hn & Hpos). unfold gen_order. cbv zeta.
  set (r1 := xorshift64 rng). set (r2 := xorshift64 r1). set (r3 := xorshift64 r2). set (r4 := xorshift64 r3).
  set (i := r1 mod zlen ps).
  assert (0 <= i < n) as Hi by (unfold i; rewrite Hlen; by apply Z.mod_pos_bound).
  pose proof (Z.mod_pos_bound r2 1000 ltac:(lia)). pose proof (Z.mod_pos_bound r3 1000 ltac:(lia)).
  assert (0 < ps.[i]) as Hbase.
  { pose proof (arr_lookup ps i ltac:(lia)) as Hl. rewrite Forall_lookup in Hpos. by eapply Hpos. }
  destruct (gen_price contract (r4 mod 100) ps.[i] r4) as [[[ty price] base'] r5] eqn:Eg.
  destruct (gen_price_ok _ _ _ _ _ _ _ Hbase (Z.mod_pos_bound r4 100 ltac:(lia)) Eg) as (Hb' & Hty & Hl & Hm).
  intros E. simplify_eq. split.
  - unfold valid_order; cbn [rq_user_id rq_quantity rq_symbol rq_side rq_type rq_price].
    split_and!; try done; try lia; [by exists i|]. case_match; auto.
  - split_and!; [by rewrite zlen_arr_set|done|]. by apply Forall_insert.
Qed.

Lemma take_msgs_ok (P : bt_gw_oms_msg_t -> Prop) n q :
  queue_wf q -> Forall P (contents q) -> queue_wf (take_msgs n q) /\ Forall P (contents (take_msgs n q)).
Proof using.
  revert q. induction n as [|n IH]; intros q Hwf Hf; simpl; [done|].
  destruct (MPSC_POP q) as [r q'] eqn:E.
  destruct (@bq_pop_spec _ _ (mpsc_queue []) q r q' Hwf E) as (Hwf' & _ & _ & Hc). simpl in *.
  apply IH; [done|]. rewrite Hc. destruct (contents q); [done|]. by inversion Hf.
Qed.

(** The state of the harness after [k] rounds. *)
Record bench_inv (n k : Z) (b : bench) : Prop := {
  bi_count : b_sent b + b_dropped b = k;
  bi_sent : zlen (b_intervals b) = b_sent b;
  bi_dropped : 0 <= b_dropped b;
  bi_u64 : Forall is_u64 (b_intervals b);
  bi_stats : b_stats b = foldl bt_latency_stats_record bt_latency_stats_init (b_intervals b);
  bi_prices : prices_ok n (b_prices b);
  bi_queue : queue_wf (b_queue b);
  bi_valid : Forall (fun msg => valid_order n (gm_request msg)) (contents (b_queue b));
}.

Lemma bench_round_inv n k e b : bench_inv n k b -> bench_inv n (k + 1) (bench_round contract e b).
Proof using.
  intros [Hc Hs Hd Hu Hst Hp Hq Hv]. unfold bench_round.
  destruct (take_msgs_ok _ (r_taken e) _ Hq Hv) as [Hq1 Hv1]. set (q := take_msgs (r_taken e) (b_queue b)) in *.
  destruct (gen_order contract (r_send_ts e) (b_prices b) (b_rng b)) as [[req ps] rng] eqn:Eg.
  destruct (gen_order_ok _ _ _ _ _ _ _ Hp Eg) as [Hval Hps].
  destruct (MPSC_PUSH (GwOmsMsg (r_msg_type e) req (r_cancel e) 0) q) as [ok q'] eqn:Ep.
  destruct (@bq_push_spec _ _ (mpsc_queue []) q _ ok q' Hq1 Ep) as (Hq' & _ & _ & Hc'). simpl in Hq', Hc'.
  destruct ok; split; simpl; try done; try lia.
  - rewrite zlen_app, Hs. done.
  - apply Forall_app. split; [done|]. constructor; [apply u64_range|done].
  - by rewrite foldl_app, <- Hst.
  - rewrite Hc'. apply Forall_app. split; [done|]. by constructor.
  - by rewrite Hc', app_nil_r.
Qed.

Lemma bench_run_inv n k rounds b :
  bench_inv n k b -> bench_inv n (k + zlen rounds) (foldl (fun b e => bench_round contract e b) b rounds).
Proof using.
  revert k b. induction rounds as [|e rounds IH]; intros k b Hb.
  - by rewrite Z.add_0_r.
  - rewrite zlen_cons. simpl. replace (k + (1 + zlen rounds)) with (k + 1 + zlen rounds) by lia.
    by apply IH, bench_round_inv.
Qed.

Lemma symbol_count_pos n : 0 < symbol_count n.
Proof using. unfold symbol_count. destruct (Z.ltb_spec n 1), (Z.ltb_spec 256 n); lia. Qed.

Lemma bench_start_inv num_symbols start rng q :
  queue_wf q -> contents q = [] -> bench_inv (symbol_count num_symbols) 0 (bench_start contract num_symbols start rng q).
Proof using.
  intros Hq Hc. unfold bench_start. pose proof (symbol_count_pos num_symbols).
  destruct (base_prices_ok (Z.to_nat (symbol_count num_symbols)) rng) as [Hl Hf].
  destruct (base_prices contract _ rng) as [ps rng']. simpl in *.
  split; simpl; try done.
  - split_and!; try done. unfold zlen. lia.
  - by rewrite Hc.
Qed.

End bench_laws.

(** ** Properties *)

(** The benchmark accounts for every order it generates, whatever the
    consumer does: sent and dropped orders add up to the orders asked for, one
    interval is recorded per order sent, so that the interval array is not
    overrun, the statistics are those of these intervals, the percentiles of
    the report stay inside the array, and every order still in the queue is a
    valid one. *)
Theorem benchmark_accounts (contract : bool) (num_symbols start rng : Z) (rounds : list round)
    (buf : list bt_gw_oms_msg_t) (b : bench) (report : option (list double_val)) :
  zlen buf = 65536 -> zlen rounds < 2 ^ 31 ->
  bt_benchmark_run contract (true, true) num_symbols start rng rounds (QUEUE_INIT buf) = Some (b, report) ->
  b_sent b + b_dropped b = zlen rounds /\ zlen (b_intervals b) = b_sent b /\ b_sent b <= zlen rounds /\
  b_stats b = foldl bt_latency_stats_record bt_latency_stats_init (b_intervals b) /\
  is_Some report /\
  Forall (fun msg => valid_order (symbol_count num_symbols) (gm_request msg)) (contents (b_queue b)).
Proof.
  intros Hbuf Hlen E. unfold bt_benchmark_run in E. destruct (zlen rounds <=? 0); [done|]. simpl in E.
  simplify_eq.
  assert (queue_wf (QUEUE_INIT buf)) as Hq by (apply (queue_init_wf _ 16); [lia|done]).
  destruct (bench_run_inv contract (symbol_count num_symbols) 0 rounds _
    (bench_start_inv contract num_symbols start rng _ Hq eq_refl)) as [Hc Hs Hd Hu Hst Hp Hwf Hv].
  rewrite Z.add_0_l in Hc. split_and!; try done; [lia|].
  set (b := foldl _ _ rounds) in *. unfold bench_report.
  destruct (Z.ltb_spec 1 (zlen (b_intervals b))) as [H1|]; [|done].
  assert (zlen (merge_sort Z.le (b_intervals b)) = zlen (b_intervals b)) as Hm.
  { unfold zlen. by rewrite merge_sort_Permutation. }
  destruct (percentiles_read (merge_sort Z.le (b_intervals b))) as (ds & -> & _); [lia|done].
Qed.

(** The loop never sets the type of the message it pushes: the consumer sees
    whatever the stack held. *)
Theorem benchmark_leaves_type_unset (contract : bool) (e : round) (b : bench) :
  queue_wf (b_queue b) -> contents (b_queue b) = [] -> r_taken e = 0%nat -> 1 < q_mask (b_queue b) ->
  gm_msg_type <$> contents (b_queue (bench_round contract e b)) = [r_msg_type e].
Proof.
  intros Hq Hc Ht Hm. unfold bench_round. rewrite Ht. simpl.
  destruct (gen_order _ _ _ _) as [[req ps] rng].
  destruct (MPSC_PUSH _ (b_queue b)) as [ok q'] eqn:Ep.
  destruct (@bq_push_spec _ _ (mpsc_queue []) _ _ ok q' Hq Ep) as (_ & _ & Hok & Hc'). simpl in *.
  rewrite Hc in *. rewrite bool_decide_true in Hok by (unfold zlen; simpl; lia). subst ok. simpl. by rewrite Hc'.
Qed.

(** ** Witnesses *)

Definition round0 (ts : Z) : round := RoundEnv 0 ts 79 zero_cancel.

Definition empty_buf : list bt_gw_oms_msg_t := replicate (Z.to_nat 65536) inhabitant.

Lemma zlen_empty_buf : zlen empty_buf = 65536.
Proof. unfold zlen, empty_buf. rewrite length_replicate. lia. Qed.

Lemma benchmark_runs contract num_symbols start rng rounds q :
  0 < zlen rounds ->
  exists b report, bt_benchmark_run contract (true, true) num_symbols start rng rounds q = Some (b, report).
Proof.
  intros Hn. unfold bt_benchmark_run. rewrite (proj2 (Z.leb_gt _ _)) by done. simpl. by eexists _, _.
Qed.

Lemma benchmark_accounts_witness :
  exists b report,
    bt_benchmark_run false (true, true) 10 0 xorshift64_seed [round0 5; round0 9] (QUEUE_INIT empty_buf)
      = Some (b, report) /\ b_sent b + b_dropped b = 2.
Proof.
  destruct (benchmark_runs false 10 0 xorshift64_seed [round0 5; round0 9] (QUEUE_INIT empty_buf))
    as (b & report & E); [by vm_compute|].
  exists b, report. split; [exact E|].
  apply (benchmark_accounts false 10 0 xorshift64_seed [round0 5; round0 9] empty_buf b report);
    [exact zlen_empty_buf|by vm_compute|exact E].
Defined.
