(* ===== verification/Layout.v ===== *)
(** * Struct layout

    The program overlays structs on byte buffers (the gateway's binary
    protocol, the journal file, the shared-memory headers), counts on their
    sizes ([_Static_assert]s, hard-coded padding) and puts the indices of its
    queues on different cache lines with [_Alignas]. This file is the layout
    the System V x86-64 ABI gives to a C type: scalars at their natural
    alignment, members in order at the next offset their alignment allows,
    the total rounded up to the alignment of the whole. The theorems hold for
    every type; the structs of the program are in [Structs]. *)

From S2P Require Import Prelude.
From stdpp Require Import strings sorting.

#[local] Open Scope Z_scope.

(** ** C types

    An integer, enum, floating-point or pointer type is a [Scalar] of its
    size. A member carries the alignment an [_Alignas] asks for, 1 when there
    is none. *)

Record member (T : Type) := Member { m_name : string; m_alignas : Z; m_type : T }.
Arguments Member {T}.
Arguments m_name {T}.
Arguments m_alignas {T}.
Arguments m_type {T}.

#[warnings="-register-all"] Inductive ctype :=
  | Scalar (n : Z)
  | Array (t : ctype) (n : Z)
  | Struct (ms : list (member ctype))
  | Union (ms : list (member ctype)).

(** The next multiple of [a]. *)
Definition round_up (a n : Z) : Z := (n + a - 1) / a * a.

Fixpoint alignof (t : ctype) : Z :=
  match t with
  | Scalar n => n
  | Array t _ => alignof t
  | Struct ms | Union ms =>
      foldr (fun m a => Z.max (Z.max (m_alignas m) (alignof (m_type m))) a) 1 ms
  end.

Definition align_member (m : member ctype) : Z := Z.max (m_alignas m) (alignof (m_type m)).

Fixpoint sizeof (t : ctype) : Z :=
  match t with
  | Scalar n => n
  | Array t n => n * sizeof t
  | Struct ms =>
      round_up (alignof (Struct ms))
        (foldl (fun off m => round_up (align_member m) off + sizeof (m_type m)) 0 ms)
  | Union ms =>
      round_up (alignof (Union ms)) (foldr (fun m s => Z.max (sizeof (m_type m)) s) 0 ms)
  end.

(** The members from offset [off] on, each with its offset. *)
Fixpoint place (off : Z) (ms : list (member ctype)) : list (Z * member ctype) :=
  match ms with
  | [] => []
  | m :: ms =>
      let o := round_up (align_member m) off in
      (o, m) :: place (o + sizeof (m_type m)) ms
  end.

Definition members (t : ctype) : list (Z * member ctype) :=
  match t with
  | Struct ms => place 0 ms
  | Union ms => (fun m => (0, m)) <$> ms
  | _ => []
  end.

(** [offsetof(t, name)] and the type of the member, when there is one. *)
Definition find_member (t : ctype) (name : string) : option (Z * ctype) :=
  match filter (fun om => m_name om.2 = name) (members t) with
  | (o, m) :: _ => Some (o, m_type m)
  | [] => None
  end.

Definition offsetof (t : ctype) (name : string) : option Z := fst <$> find_member t name.

(** Every scalar inside an object of type [t] at address [base], with its
    address and size. *)
Fixpoint leaves (base : Z) (t : ctype) : list (Z * Z) :=
  match t with
  | Scalar n => [(base, n)]
  | Array t n => mjoin ((fun i => leaves (base + i * sizeof t) t) <$> seqZ 0 n)
  | Struct ms =>
      (fix go off ms :=
         match ms with
         | [] => []
         | m :: ms =>
             let o := round_up (align_member m) off in
             leaves (base + o) (m_type m) ++ go (o + sizeof (m_type m)) ms
         end) 0 ms
  | Union ms => mjoin ((fun m => leaves base (m_type m)) <$> ms)
  end.

(** The types a compiler accepts: scalars of 1, 2, 4 or 8 bytes, lengths that
    are not negative, alignments that are powers of two. *)
Definition is_pow2 (a : Z) : bool := a =? 2 ^ Z.log2 a.

Fixpoint wf_type (t : ctype) : bool :=
  match t with
  | Scalar n => (n =? 1) || (n =? 2) || (n =? 4) || (n =? 8)
  | Array t n => (0 <=? n) && wf_type t
  | Struct ms | Union ms =>
      forallb (fun m => is_pow2 (m_alignas m) && wf_type (m_type m)) ms
  end.

Fixpoint union_free (t : ctype) : bool :=
  match t with
  | Scalar _ => true
  | Array t _ => union_free t
  | Struct ms => forallb (fun m => union_free (m_type m)) ms
  | Union _ => false
  end.

(** ** Induction on types *)

Section ctype_ind.
Variable P : ctype -> Prop.
Hypothesis H_scalar : forall n, P (Scalar n).
Hypothesis H_array : forall t n, P t -> P (Array t n).
Hypothesis H_struct : forall ms, Forall (fun m => P (m_type m)) ms -> P (Struct ms).
Hypothesis H_union : forall ms, Forall (fun m => P (m_type m)) ms -> P (Union ms).

Fixpoint ctype_nested_ind (t : ctype) : P t :=
  let go := fix go ms : Forall (fun m => P (m_type m)) ms :=
    match ms with
    | [] => Forall_nil_2 _
    | m :: ms => Forall_cons_2 _ m ms (ctype_nested_ind (m_type m)) (go ms)
    end in
  match t with
  | Scalar n => H_scalar n
  | Array t n => H_array t n (ctype_nested_ind t)
  | Struct ms => H_struct ms (go ms)
  | Union ms => H_union ms (go ms)
  end.
End ctype_ind.

(** ** Rounding *)

Definition pow2 (a : Z) : Prop := exists k, 0 <= k /\ a = 2 ^ k.

Lemma is_pow2_pow2 a : is_pow2 a = true -> pow2 a.
Proof.
  unfold is_pow2. intros H%Z.eqb_eq. exists (Z.log2 a). split; [apply Z.log2_nonneg|done].
Qed.

Lemma pow2_gt_0 a : pow2 a -> 0 < a.
Proof. intros (k & Hk & ->). by apply pow2_pos. Qed.

Lemma pow2_divide a b : pow2 a -> pow2 b -> a <= b -> (a | b).
Proof.
  intros (j & Hj & ->) (k & Hk & ->) Hle.
  assert (j <= k) by (apply (Z.pow_le_mono_r_iff 2); lia).
  exists (2 ^ (k - j)). rewrite <- Z.pow_add_r by lia. f_equal. lia.
Qed.

Lemma pow2_max a b : pow2 a -> pow2 b -> pow2 (Z.max a b).
Proof. intros Ha Hb. by destruct (Z.max_spec a b) as [[_ ->]|[_ ->]]. Qed.

Lemma round_up_divide a n : (a | round_up a n).
Proof. by eexists. Qed.

Lemma round_up_bounds a n : 0 < a -> n <= round_up a n < n + a.
Proof.
  intros Ha. unfold round_up.
  pose proof (Z.div_mod (n + a - 1) a). pose proof (Z.mod_pos_bound (n + a - 1) a). lia.
Qed.

(** No smaller multiple of [a] will do. *)
Lemma round_up_least a n m : 0 < a -> (a | m) -> n <= m -> round_up a n <= m.
Proof.
  intros Ha [q ->] Hle. unfold round_up.
  apply Z.mul_le_mono_nonneg_r; [lia|].
  enough ((n + a - 1) / a < q + 1) by lia. apply Z.div_lt_upper_bound; lia.
Qed.

(** ** Alignment and size of a type *)

Definition align_all (ms : list (member ctype)) : Z :=
  foldr (fun m a => Z.max (align_member m) a) 1 ms.

Lemma align_all_ge m ms : m ∈ ms -> align_member m <= align_all ms.
Proof. induction 1; simpl; lia. Qed.

Lemma align_all_pos ms : 0 < align_all ms.
Proof. induction ms; simpl; lia. Qed.

Lemma wf_members (ms : list (member ctype)) :
  forallb (fun m => is_pow2 (m_alignas m) && wf_type (m_type m)) ms = true <->
  Forall (fun m => is_pow2 (m_alignas m) = true /\ wf_type (m_type m) = true) ms.
Proof.
  induction ms as [|m ms IH]; simpl; [by split; intros|].
  by rewrite !andb_true_iff, IH, Forall_cons.
Qed.

Lemma align_all_pow2 ms :
  Forall (fun m => is_pow2 (m_alignas m) = true /\ pow2 (alignof (m_type m))) ms ->
  pow2 (align_all ms).
Proof.
  induction 1 as [|m ms [Ha Ht] _ IH]; simpl; [by exists 0|].
  apply pow2_max; [apply pow2_max|]; auto using is_pow2_pow2.
Qed.

Lemma alignof_pow2 t : wf_type t = true -> pow2 (alignof t).
Proof.
  induction t as [n|t n IH|ms IH|ms IH] using ctype_nested_ind; simpl.
  - rewrite !orb_true_iff, !Z.eqb_eq.
    intros [[[->| ->]| ->]| ->]; [by exists 0|by exists 1|by exists 2|by exists 3].
  - rewrite andb_true_iff. naive_solver.
  - intros Hwf%wf_members. apply align_all_pow2.
    eapply Forall_impl; [by apply Forall_and; split; [exact IH|exact Hwf]|]. naive_solver.
  - intros Hwf%wf_members. apply align_all_pow2.
    eapply Forall_impl; [by apply Forall_and; split; [exact IH|exact Hwf]|]. naive_solver.
Qed.

Lemma align_member_pow2 m :
  is_pow2 (m_alignas m) = true -> wf_type (m_type m) = true -> pow2 (align_member m).
Proof. intros. apply pow2_max; auto using is_pow2_pow2, alignof_pow2. Qed.

#[local] Hint Resolve pow2_gt_0 alignof_pow2 align_member_pow2 : core.

(** The offset after the last member. *)
Definition place_end (off : Z) (ms : list (member ctype)) : Z :=
  foldl (fun off m => round_up (align_member m) off + sizeof (m_type m)) off ms.

Definition wf_member (m : member ctype) : Prop :=
  is_pow2 (m_alignas m) = true /\ wf_type (m_type m) = true.

Definition sized (t : ctype) : Prop := 0 <= sizeof t /\ (alignof t | sizeof t).

(** Members are placed in order, each at a multiple of its alignment, without
    overlap. *)
Lemma place_sound ms off :
  Forall wf_member ms -> Forall (fun m => 0 <= sizeof (m_type m)) ms ->
  off <= place_end off ms /\
  Forall (fun om => off <= om.1 /\ (align_member om.2 | om.1) /\
                    om.1 + sizeof (m_type om.2) <= place_end off ms) (place off ms) /\
  StronglySorted (fun a b => a.1 + sizeof (m_type a.2) <= b.1) (place off ms).
Proof.
  intros Hwf Hsz. revert off.
  induction Hwf as [|m ms [Ha Ht] Hwf IH]; intros off; [by repeat constructor|].
  inversion_clear Hsz as [|?? Hm Hms].
  change (place_end off (m :: ms))
    with (place_end (round_up (align_member m) off + sizeof (m_type m)) ms).
  pose proof (round_up_bounds (align_member m) off ltac:(auto)) as Hr.
  set (o := round_up (align_member m) off) in *.
  destruct (IH Hms (o + sizeof (m_type m))) as (He & Hin & Hord). cbn [place].
  fold o. split; [lia|]. split.
  - constructor; cbn; [split_and!; [lia|apply round_up_divide|lia]|].
    eapply Forall_impl; [exact Hin|]. intros [o' m'] (? & ? & ?); cbn in *. split_and!; [lia|done|lia].
  - constructor; [done|]. eapply Forall_impl; [exact Hin|].
    intros [o' m'] (? & ? & ?); cbn in *. lia.
Qed.

Lemma sizeof_union_ge m ms :
  m ∈ ms -> sizeof (m_type m) <= foldr (fun m s => Z.max (sizeof (m_type m)) s) 0 ms.
Proof. induction 1; simpl; lia. Qed.

Lemma sizeof_sized t : wf_type t = true -> sized t.
Proof.
  unfold sized. induction t as [n|t n IH|ms IH|ms IH] using ctype_nested_ind; intros Hwf.
  - apply alignof_pow2, pow2_gt_0 in Hwf. simpl in *. split; [lia|done].
  - simpl in *. apply andb_true_iff in Hwf as [Hn Ht].
    destruct (IH Ht) as [H0 Hd]. split; [lia|by apply Z.divide_mul_r].
  - pose proof (alignof_pow2 _ Hwf) as Hp%pow2_gt_0. split; [|apply round_up_divide].
    apply wf_members in Hwf.
    assert (Forall (fun m => 0 <= sizeof (m_type m)) ms) as Hsz.
    { eapply Forall_impl; [by apply Forall_and; split; [exact IH|exact Hwf]|]. naive_solver. }
    destruct (place_sound ms 0 Hwf Hsz) as (He & _).
    pose proof (round_up_bounds _ (place_end 0 ms) Hp). unfold place_end in *. cbn [sizeof]. lia.
  - pose proof (alignof_pow2 _ Hwf) as Hp%pow2_gt_0. split; [|apply round_up_divide].
    pose proof (round_up_bounds _ (foldr (fun m s => Z.max (sizeof (m_type m)) s) 0 ms) Hp).
    cbn [sizeof]. enough (0 <= foldr (fun m s => Z.max (sizeof (m_type m)) s) 0 ms) by lia.
    clear. induction ms; simpl; lia.
Qed.

Lemma sizes_nonneg ms : Forall wf_member ms -> Forall (fun m => 0 <= sizeof (m_type m)) ms.
Proof. intros H. eapply Forall_impl; [exact H|]. intros m [_ Hm]. by apply sizeof_sized. Qed.

(** ** The parts of an object

    The immediate parts of a type (members, elements) with their offsets. *)

Definition parts (t : ctype) : list (Z * ctype) :=
  match t with
  | Scalar _ => []
  | Array t n => (fun i => (i * sizeof t, t)) <$> seqZ 0 n
  | Struct _ | Union _ => (fun om => (om.1, m_type om.2)) <$> members t
  end.

(** A part [t'] at offset [o] of an object of type [t]: inside it, and aligned
    whenever the object is. *)
Definition part_ok (t : ctype) (p : Z * ctype) : Prop :=
  0 <= p.1 /\ p.1 + sizeof p.2 <= sizeof t /\
  (alignof p.2 | p.1) /\ (alignof p.2 | alignof t).

Definition before (a b : Z * ctype) : Prop := a.1 + sizeof a.2 <= b.1.

Lemma align_member_divide m : wf_member m -> (alignof (m_type m) | align_member m).
Proof. intros [Ha Ht]. apply pow2_divide; auto. unfold align_member. lia. Qed.

Lemma align_member_all m ms :
  Forall wf_member ms -> m ∈ ms -> (align_member m | align_all ms).
Proof.
  intros Hwf Hm. apply pow2_divide; [| |by apply align_all_ge].
  - rewrite Forall_forall in Hwf. destruct (Hwf m Hm); auto.
  - apply align_all_pow2. eapply Forall_impl; [exact Hwf|]. intros ? [??]; auto.
Qed.

Lemma place_elem ms off om : om ∈ place off ms -> om.2 ∈ ms.
Proof.
  revert off. induction ms as [|m ms IH]; intros off; simpl; [by intros ?%not_elem_of_nil|].
  rewrite !elem_of_cons. intros [->|H]; [by left|right; eauto].
Qed.

Lemma struct_parts_ok ms :
  Forall wf_member ms ->
  Forall (part_ok (Struct ms)) (parts (Struct ms)) /\
  StronglySorted before (parts (Struct ms)).
Proof.
  intros Hwf.
  destruct (place_sound ms 0 Hwf (sizes_nonneg _ Hwf)) as (He & Hin & Hord).
  pose proof (round_up_bounds _ (place_end 0 ms) (align_all_pos ms)) as Hp.
  split.
  - apply Forall_fmap, Forall_forall. intros [o m] Hm.
    rewrite Forall_forall in Hin. destruct (Hin _ Hm) as (H0 & Hd & Hle). cbn in *.
    apply place_elem in Hm. cbn in Hm.
    assert (wf_member m) as Hwm by (rewrite Forall_forall in Hwf; auto).
    unfold part_ok; cbn [fst snd compose]. split_and!; [done| | |].
    + change (sizeof (Struct ms)) with (round_up (align_all ms) (place_end 0 ms)). lia.
    + etrans; [by apply align_member_divide|done].
    + etrans; [by apply align_member_divide|]. by apply (align_member_all m ms).
  - by apply (StronglySorted_fmap _ (fun a b : Z * member ctype => a.1 + sizeof (m_type a.2) <= b.1)).
Qed.

Lemma union_parts_ok ms :
  Forall wf_member ms -> Forall (part_ok (Union ms)) (parts (Union ms)).
Proof.
  intros Hwf. cbn [parts members]. rewrite <- list_fmap_compose.
  apply Forall_fmap, Forall_forall. intros m Hm.
  assert (wf_member m) as Hwm by (rewrite Forall_forall in Hwf; auto).
  unfold part_ok; cbn [fst snd compose]. split_and!; [done| |apply Z.divide_0_r|].
  - pose proof (sizeof_union_ge m ms Hm).
    pose proof (round_up_bounds _ (foldr (fun m s => Z.max (sizeof (m_type m)) s) 0 ms)
                  (align_all_pos ms)).
    change (sizeof (Union ms)) with
      (round_up (align_all ms) (foldr (fun m s => Z.max (sizeof (m_type m)) s) 0 ms)). lia.
  - etrans; [by apply align_member_divide|]. by apply (align_member_all m ms).
Qed.

Lemma seqZ_sorted m n : StronglySorted Z.lt (seqZ m n).
Proof.
  destruct (decide (n <= 0)) as [|Hn]; [rewrite seqZ_nil by lia; constructor|].
  revert m. assert (0 <= n) as Hn' by lia. clear Hn.
  pattern n. apply natlike_ind; [intros m; constructor| |done].
  intros k Hk IH m. rewrite seqZ_cons, Z.pred_succ by lia. constructor; [apply IH|].
  apply Forall_forall. intros x Hx%elem_of_seqZ. lia.
Qed.

Lemma array_parts_ok t n :
  sized t -> Forall (part_ok (Array t n)) (parts (Array t n)) /\
             StronglySorted before (parts (Array t n)).
Proof.
  intros [H0 Hd]. split.
  - apply Forall_fmap, Forall_forall. intros i Hi%elem_of_seqZ.
    unfold part_ok; cbn. split_and!; [nia|nia|by apply Z.divide_mul_r|done].
  - apply (StronglySorted_fmap _ Z.lt); [|apply seqZ_sorted].
    intros i j Hij. unfold before; cbn. nia.
Qed.

Lemma parts_ok t : wf_type t = true -> Forall (part_ok t) (parts t).
Proof.
  destruct t as [n|t n|ms|ms]; cbn [wf_type]; intros Hwf.
  - constructor.
  - apply andb_true_iff in Hwf as [_ Ht]. by apply array_parts_ok, sizeof_sized.
  - by apply struct_parts_ok, wf_members.
  - by apply union_parts_ok, wf_members.
Qed.

(** The parts of anything but a union follow one another. *)
Lemma parts_ordered t :
  wf_type t = true -> union_free t = true -> StronglySorted before (parts t).
Proof.
  destruct t as [n|t n|ms|ms]; cbn [wf_type]; intros Hwf Hu; [constructor| | |done].
  - apply andb_true_iff in Hwf as [_ Ht]. by apply array_parts_ok, sizeof_sized.
  - by apply struct_parts_ok, wf_members.
Qed.

(** ** Leaves *)

Lemma leaves_parts base t :
  leaves base t =
  match t with
  | Scalar n => [(base, n)]
  | _ => mjoin ((fun p => leaves (base + p.1) p.2) <$> parts t)
  end.
Proof.
  destruct t as [n|t n|ms|ms]; [done|..].
  - cbn [leaves parts]. by rewrite <- list_fmap_compose.
  - cbn [leaves parts members]. generalize 0.
    induction ms as [|m ms IH]; intros off; [done|].
    cbn [place]. rewrite !fmap_cons. cbn [mjoin list_join fst snd]. f_equal. apply IH.
  - cbn [leaves parts members]. rewrite <- !list_fmap_compose. f_equal.
    apply list_fmap_ext. intros i m _. cbn. f_equal. lia.
Qed.

Definition leaf_ok (base : Z) (t : ctype) (l : Z * Z) : Prop :=
  base <= l.1 /\ l.1 + l.2 <= base + sizeof t /\ (l.2 | l.1).

(** Induction on the parts of a type. *)
Lemma parts_ind (P : ctype -> Prop) :
  (forall t, (forall p, p ∈ parts t -> P p.2) -> P t) -> forall t, P t.
Proof.
  intros H. induction t as [n|t n IH|ms IH|ms IH] using ctype_nested_ind; apply H.
  - by intros p ?%not_elem_of_nil.
  - by intros p (i & -> & _)%list_elem_of_fmap.
  - intros p ([o m] & -> & Hm%place_elem)%list_elem_of_fmap. rewrite Forall_forall in IH. by apply IH.
  - cbn [parts members]. rewrite <- list_fmap_compose.
    intros p (m & -> & Hm)%list_elem_of_fmap. rewrite Forall_forall in IH. by apply IH.
Qed.

(** What holds of a type and is closed under taking members holds of its parts. *)
Lemma parts_forall (f : ctype -> bool) (t : ctype) :
  (forall t n, f (Array t n) = true -> f t = true) ->
  (forall ms, f (Struct ms) = true -> Forall (fun m => f (m_type m) = true) ms) ->
  (forall ms, f (Union ms) = true -> Forall (fun m => f (m_type m) = true) ms) ->
  f t = true -> forall p, p ∈ parts t -> f p.2 = true.
Proof.
  intros Ha Hs Hu Ht. destruct t as [n|t n|ms|ms].
  - by intros p ?%not_elem_of_nil.
  - intros p (i & -> & _)%list_elem_of_fmap. by eapply Ha.
  - intros p ([o m] & -> & Hm%place_elem)%list_elem_of_fmap.
    apply Hs in Ht. rewrite Forall_forall in Ht. by apply Ht.
  - cbn [parts members]. rewrite <- list_fmap_compose.
    intros p (m & -> & Hm)%list_elem_of_fmap. apply Hu in Ht. rewrite Forall_forall in Ht. by apply Ht.
Qed.

Lemma parts_wf t : wf_type t = true -> forall p, p ∈ parts t -> wf_type p.2 = true.
Proof.
  apply parts_forall; cbn [wf_type].
  - intros t' n [_ ?]%andb_true_iff. done.
  - intros ms H%wf_members. eapply Forall_impl; [exact H|]. by intros m [_ ?].
  - intros ms H%wf_members. eapply Forall_impl; [exact H|]. by intros m [_ ?].
Qed.

Lemma parts_union_free t : union_free t = true -> forall p, p ∈ parts t -> union_free p.2 = true.
Proof.
  apply parts_forall; cbn [union_free]; [done| |done].
  intros ms H. apply Forall_forall. rewrite forallb_forall in H.
  intros m Hm. apply H. by apply list_elem_of_In.
Qed.

(** Every scalar of an aligned object is aligned to its size and lies inside
    the object. *)
Lemma leaves_ok t base :
  wf_type t = true -> (alignof t | base) -> Forall (leaf_ok base t) (leaves base t).
Proof.
  revert base. induction t as [t IH] using parts_ind. intros base Hwf Hb.
  pose proof (parts_ok _ Hwf) as Hparts. rewrite Forall_forall in Hparts.
  assert (Forall (leaf_ok base t) (mjoin ((fun p => leaves (base + p.1) p.2) <$> parts t))) as Hj.
  { apply Forall_join, Forall_fmap, Forall_forall. intros p Hp.
    destruct (Hparts p Hp) as (H0 & Hin & Ha & Hd). cbn.
    assert ((alignof p.2 | base + p.1)) as Hbp
      by (apply Z.divide_add_r; [by etrans|done]).
    eapply Forall_impl; [by apply IH; [done|apply (parts_wf t)|]|].
    intros l (? & ? & ?). split_and!; [lia|lia|done]. }
  rewrite leaves_parts. destruct t; try exact Hj.
  repeat constructor; cbn in *; [lia|lia|done].
Qed.

Lemma sorted_join {A} (R : relation A) (ls : list (list A)) :
  Forall (StronglySorted R) ls ->
  StronglySorted (fun l l' => forall x y, x ∈ l -> y ∈ l' -> R x y) ls ->
  StronglySorted R (mjoin ls).
Proof.
  induction 1 as [|l ls Hl _ IH]; intros Hs; [constructor|].
  apply StronglySorted_cons in Hs as [Hx Hs]. cbn. apply StronglySorted_app_2; [|done|by apply IH].
  intros x y Hxl (l' & Hy & Hl')%list_elem_of_join. rewrite Forall_forall in Hx. by eapply Hx.
Qed.

(** Without unions no two scalars share a byte: they come in order of address. *)
Lemma leaves_disjoint t base :
  wf_type t = true -> union_free t = true -> (alignof t | base) ->
  StronglySorted (fun a b => a.1 + a.2 <= b.1) (leaves base t).
Proof.
  revert base. induction t as [t IH] using parts_ind. intros base Hwf Hu Hb.
  assert (StronglySorted (fun a b => a.1 + a.2 <= b.1)
            (mjoin ((fun p => leaves (base + p.1) p.2) <$> parts t))) as Hj.
  { pose proof (parts_ok _ Hwf) as Hparts. rewrite Forall_forall in Hparts.
    assert (forall p, p ∈ parts t -> (alignof p.2 | base + p.1)) as Hal.
    { intros p Hp. destruct (Hparts p Hp) as (_ & _ & ? & ?).
      apply Z.divide_add_r; [by etrans|done]. }
    apply sorted_join.
    - apply Forall_fmap, Forall_forall. intros p Hp.
      apply IH; [done|by apply (parts_wf t)|by apply (parts_union_free t)|by apply Hal].
    - pose proof (parts_ordered t Hwf Hu) as Hord.
      assert (Forall (fun p => wf_type p.2 = true /\ (alignof p.2 | base + p.1)) (parts t)) as Hall.
      { apply Forall_forall. intros p Hp. split; [by apply (parts_wf t)|by apply Hal]. }
      clear -Hord Hall. induction Hord as [|p ps Hps IHp Hp]; [constructor|].
      inversion_clear Hall as [|?? [Hw Ha] Hall']. constructor; [by apply IHp|].
      apply Forall_fmap, Forall_forall. intros q Hq x1 x2 Hx Hy.
      rewrite Forall_forall in Hp, Hall'. specialize (Hp q Hq). destruct (Hall' q Hq) as [Hwq Haq].
      pose proof (leaves_ok _ _ Hw Ha) as Hlp. pose proof (leaves_ok _ _ Hwq Haq) as Hlq.
      rewrite Forall_forall in Hlp, Hlq.
      destruct (Hlp x1 Hx) as (? & ? & _), (Hlq x2 Hy) as (? & ? & _).
      unfold before in Hp. lia. }
  rewrite leaves_parts. destruct t; try exact Hj. repeat constructor.
Qed.
