(* ===== verification/Structs.v ===== *)
(** * The structs of the program

    The layouts of the structs declared in [src/src/include/*.h],
    [src/src/ipc/shmem.c], [src/src/net/gateway.c],
    [src/src/persistence/journal.c], [src/src/md/market_data.c] and
    [src/src/utils/logger.c], and of the queue and ring types the macros of
    [bt_lockfree_queue.h] and [bt_disruptor.h] declare. The other files of the
    development use sizes and offsets of these structs (byte images, pool and
    segment sizes); the theorems at the end show that those are the ones the
    declarations give. *)

From stdpp Require Import strings sorting.
From S2P Require Import Prelude CTypes Gateway MemoryPool Disruptor Shmem Layout.

#[local] Open Scope Z_scope.

(** ** Scalar types of x86-64 Linux *)

Definition uint8_t : ctype := Scalar 1.
Definition char : ctype := Scalar 1.
Definition uint32_t : ctype := Scalar 4.
Definition int : ctype := Scalar 4.
Definition enum : ctype := Scalar 4.
Definition uint64_t : ctype := Scalar 8.
Definition int64_t : ctype := Scalar 8.
Definition size_t : ctype := Scalar 8.
Definition double : ctype := Scalar 8.
Definition ptr : ctype := Scalar 8.
Definition pthread_t : ctype := Scalar 8.

Notation "name @@ t" := (Member name 1 t) (at level 55).
Notation "'alignas' a name @@ t" := (Member name a t)
  (at level 55, a at level 0, name at level 0).

(** ** [bt_types.h] *)

Definition bt_order_layout : ctype := Struct [
  "order_id" @@ uint64_t;
  "user_id" @@ uint64_t;
  "symbol" @@ Array char 16;
  "price" @@ int64_t;
  "quantity" @@ uint32_t;
  "filled_qty" @@ uint32_t;
  "timestamp" @@ uint64_t;
  "side" @@ uint8_t;
  "type" @@ uint8_t;
  "status" @@ uint8_t;
  "_pad" @@ Array uint8_t 5 ].

Definition bt_trade_layout : ctype := Struct [
  "trade_id" @@ uint64_t;
  "buy_order_id" @@ uint64_t;
  "sell_order_id" @@ uint64_t;
  "buy_user_id" @@ uint64_t;
  "sell_user_id" @@ uint64_t;
  "price" @@ int64_t;
  "quantity" @@ uint32_t;
  "timestamp" @@ uint64_t ].

Definition bt_order_node_layout : ctype := Struct [
  "order" @@ bt_order_layout;
  "next" @@ ptr;
  "prev" @@ ptr ].

Definition bt_price_level_layout : ctype := Struct [
  "price" @@ int64_t;
  "head" @@ ptr;
  "tail" @@ ptr;
  "order_count" @@ uint32_t;
  "total_quantity" @@ uint64_t ].

Definition bt_sl_node_layout : ctype := Struct [
  "price" @@ int64_t;
  "level" @@ ptr;
  "forward" @@ Array ptr 1 ].

Definition bt_order_book_snapshot_layout : ctype := Struct [
  "symbol" @@ Array char 16;
  "best_bid" @@ int64_t;
  "best_ask" @@ int64_t;
  "bid_qty" @@ uint32_t;
  "ask_qty" @@ uint32_t;
  "bid_levels" @@ Array int64_t 10;
  "bid_qtys" @@ Array uint32_t 10;
  "ask_levels" @@ Array int64_t 10;
  "ask_qtys" @@ Array uint32_t 10;
  "num_bid_levels" @@ int;
  "num_ask_levels" @@ int;
  "timestamp" @@ uint64_t;
  "seq_num" @@ uint64_t ].

Definition bt_md_tick_layout : ctype := Struct [
  "type" @@ enum;
  "symbol" @@ Array char 16;
  "price" @@ int64_t;
  "quantity" @@ uint32_t;
  "timestamp" @@ uint64_t;
  "trade_id" @@ uint64_t;
  "side" @@ uint8_t;
  "_pad" @@ Array uint8_t 7 ].

Definition bt_order_request_layout : ctype := Struct [
  "request_id" @@ uint64_t;
  "user_id" @@ uint64_t;
  "symbol" @@ Array char 16;
  "price" @@ int64_t;
  "quantity" @@ uint32_t;
  "side" @@ enum;
  "type" @@ enum;
  "timestamp" @@ uint64_t ].

Definition bt_cancel_request_layout : ctype := Struct [
  "order_id" @@ uint64_t;
  "user_id" @@ uint64_t;
  "symbol" @@ Array char 16;
  "timestamp" @@ uint64_t ].

Definition bt_order_response_layout : ctype := Struct [
  "request_id" @@ uint64_t;
  "order_id" @@ uint64_t;
  "status" @@ enum;
  "filled_qty" @@ uint32_t;
  "reject_reason" @@ Array char 64 ].

Definition bt_risk_result_layout : ctype := Struct [
  "order_id" @@ uint64_t;
  "passed" @@ int;
  "reason" @@ Array char 64 ].

Definition bt_stats_layout : ctype := Struct [
  "orders_received" @@ uint64_t;
  "orders_matched" @@ uint64_t;
  "orders_rejected" @@ uint64_t;
  "orders_canceled" @@ uint64_t;
  "trades_generated" @@ uint64_t;
  "total_quantity_traded" @@ uint64_t;
  "total_notional_traded" @@ double;
  "risk_blocks" @@ uint64_t;
  "seq_num" @@ uint64_t ].

(** ** [bt_event.h] *)

Definition bt_event_layout : ctype := Struct [
  "type" @@ enum;
  "seq" @@ uint64_t;
  "timestamp" @@ uint64_t;
  "data" @@ Union [
    "order" @@ bt_order_layout;
    "order_matched" @@ Struct [
      "order_id" @@ uint64_t;
      "matched_qty" @@ uint32_t;
      "remaining_qty" @@ uint32_t;
      "match_price" @@ double ];
    "trade" @@ bt_trade_layout;
    "order_canceled" @@ Struct [
      "order_id" @@ uint64_t;
      "reason" @@ Array char 32 ];
    "control" @@ Struct [
      "details" @@ Array char 48 ] ];
  "_pad" @@ Array uint8_t 8 ].

(** ** [bt_queues.h] *)

Definition bt_gw_oms_msg_layout : ctype := Struct [
  "msg_type" @@ uint8_t;
  "request" @@ bt_order_request_layout;
  "cancel" @@ bt_cancel_request_layout;
  "seq_num" @@ uint64_t ].

Definition bt_oms_risk_msg_layout : ctype := Struct [
  "msg_type" @@ uint8_t;
  "request" @@ bt_order_request_layout;
  "cancel" @@ bt_cancel_request_layout;
  "seq_num" @@ uint64_t ].

Definition bt_risk_seq_msg_layout : ctype := Struct [
  "msg_type" @@ uint8_t;
  "request" @@ bt_order_request_layout;
  "cancel" @@ bt_cancel_request_layout;
  "risk" @@ bt_risk_result_layout;
  "seq_num" @@ uint64_t ].

Definition bt_seq_match_msg_layout : ctype := Struct [
  "msg_type" @@ uint8_t;
  "request" @@ bt_order_request_layout;
  "cancel" @@ bt_cancel_request_layout;
  "risk" @@ bt_risk_result_layout;
  "local_seq" @@ uint64_t;
  "global_seq" @@ uint64_t ].

(** ** [bt_journal.h] and [bt_timer.h] *)

Definition bt_journal_entry_layout : ctype := Struct [
  "version" @@ uint32_t;
  "_reserved" @@ uint32_t;
  "seq_num" @@ uint64_t;
  "type" @@ enum;
  "timestamp" @@ uint64_t;
  "checksum" @@ uint64_t;
  "data" @@ Union [
    "order" @@ bt_order_layout;
    "trade" @@ bt_trade_layout ] ].

Definition bt_latency_stats_layout : ctype := Struct [
  "min_ns" @@ uint64_t;
  "max_ns" @@ uint64_t;
  "sum_ns" @@ uint64_t;
  "count" @@ uint64_t;
  "histogram" @@ Array uint64_t 16 ].

(** ** Clearing, risk, OMS, matching and scheduler contexts *)

Definition bt_account_layout : ctype := Struct [
  "account_id" @@ uint64_t;
  "symbol" @@ Array char 16;
  "balance" @@ double;
  "frozen" @@ double;
  "total_traded" @@ double;
  "trade_count" @@ uint64_t;
  "last_update_ns" @@ uint64_t ].

Definition bt_ledger_entry_layout : ctype := Struct [
  "entry_id" @@ uint64_t;
  "trade_id" @@ uint64_t;
  "debit_account" @@ uint64_t;
  "credit_account" @@ uint64_t;
  "amount" @@ double;
  "fee" @@ double;
  "timestamp" @@ uint64_t;
  "asset" @@ Array char 16 ].

Definition bt_risk_position_layout : ctype := Struct [
  "symbol" @@ Array char 16;
  "user_id" @@ uint64_t;
  "position" @@ int64_t;
  "user_notional" @@ double ].

Definition bt_risk_user_exposure_layout : ctype := Struct [
  "user_id" @@ uint64_t;
  "notional" @@ double ].

Definition bt_risk_state_layout : ctype := Struct [
  "kill_switch" @@ int;
  "breaker_active" @@ int;
  "safe_mode" @@ int;
  "total_checked" @@ uint64_t;
  "total_passed" @@ uint64_t;
  "total_rejected" @@ uint64_t;
  "total_notional" @@ double;
  "rate_bucket_count" @@ uint64_t;
  "rate_window_start_ns" @@ uint64_t;
  "user_exposures" @@ ptr;
  "num_user_exposures" @@ int;
  "max_user_exposures" @@ int;
  "positions" @@ ptr;
  "num_positions" @@ int;
  "max_positions" @@ int ].

Definition bt_risk_worker_layout : ctype := Struct [
  "wid" @@ int;
  "cpu_core" @@ int;
  "running" @@ int;
  "in_queue" @@ ptr;
  "out_queue" @@ ptr;
  "state" @@ ptr;
  "nout" @@ int;
  "thread" @@ pthread_t;
  "orders_processed" @@ uint64_t;
  "sched_id" @@ int ].

Definition bt_oms_ctx_layout : ctype := Struct [
  "thread_id" @@ int;
  "cpu_core" @@ int;
  "running" @@ int;
  "in_queue" @@ ptr;
  "out_queue" @@ ptr;
  "thread" @@ pthread_t;
  "orders_processed" @@ uint64_t;
  "sched_id" @@ int ].

Definition bt_matching_ctx_layout : ctype := Struct [
  "thread_id" @@ int;
  "cpu_core" @@ int;
  "running" @@ int;
  "in_queue" @@ ptr;
  "md_queue" @@ ptr;
  "arena" @@ ptr;
  "journal" @@ ptr;
  "event_bus" @@ ptr;
  "response_queue" @@ ptr;
  "thread" @@ pthread_t;
  "orders_received" @@ uint64_t;
  "orders_matched" @@ uint64_t;
  "trades_generated" @@ uint64_t;
  "lat_sum" @@ uint64_t;
  "lat_max" @@ uint64_t;
  "lat_count" @@ uint64_t;
  "book_checksum" @@ uint64_t;
  "sched_id" @@ int ].

Definition bt_sched_entry_layout : ctype := Struct [
  "name" @@ Array char 32;
  "class" @@ enum;
  "cpu" @@ int;
  "numa_node" @@ int;
  "priority" @@ int;
  "budget_ns" @@ uint64_t;
  "stats" @@ bt_latency_stats_layout;
  "registered" @@ int ].

Definition bt_scheduler_layout : ctype := Struct [
  "entries" @@ Array bt_sched_entry_layout 32;
  "count" @@ int;
  "cpu_map" @@ Array int 256;
  "total_cpus" @@ int;
  "validated" @@ int ].

(** ** Shared memory *)

Definition bt_shard_shmem_layout : ctype := Struct [
  "magic" @@ uint32_t;
  "version" @@ uint32_t;
  "shard_id" @@ int;
  "shard_name" @@ Array char 32;
  "running" @@ int;
  "ready" @@ int;
  "orders_received" @@ uint64_t;
  "orders_matched" @@ uint64_t;
  "trades_generated" @@ uint64_t;
  "total_qty" @@ uint64_t;
  "total_notional" @@ double;
  "heartbeat_ns" @@ uint64_t;
  "input_queue_offset" @@ uint64_t;
  "input_queue_size" @@ uint64_t;
  "md_queue_offset" @@ uint64_t;
  "md_queue_size" @@ uint64_t;
  "create_time" @@ uint64_t;
  "_pad" @@ Array uint64_t 4 ].

Definition bt_shmem_header_layout : ctype := Struct [
  "magic" @@ uint32_t;
  "version" @@ uint32_t;
  "segment_size" @@ uint64_t;
  "name" @@ Array char 64;
  "order_head" @@ uint64_t;
  "order_tail" @@ uint64_t;
  "order_mask" @@ uint64_t;
  "trade_head" @@ uint64_t;
  "trade_tail" @@ uint64_t;
  "trade_mask" @@ uint64_t;
  "create_time" @@ uint64_t;
  "update_time" @@ uint64_t;
  "data" @@ Array uint8_t 0 ].

Definition bt_shmem_layout : ctype := Struct [
  "header" @@ ptr;
  "base" @@ ptr;
  "size" @@ size_t;
  "fd" @@ int;
  "owner" @@ int ].

(** ** Hash map and allocators *)

Definition bt_hashmap_entry_layout : ctype := Struct [
  "key" @@ uint64_t;
  "value" @@ ptr ].

Definition bt_hashmap_layout : ctype := Struct [
  "entries" @@ ptr;
  "capacity" @@ size_t;
  "count" @@ size_t;
  "tombstones" @@ size_t;
  "owned" @@ int ].

Definition bt_slab_layout : ctype := Struct [
  "base" @@ ptr;
  "block_size" @@ size_t;
  "num_blocks" @@ size_t;
  "aligned_size" @@ size_t;
  "free_list" @@ ptr;
  "alloc_count" @@ uint32_t;
  "free_count" @@ uint32_t;
  "_pad" @@ Array char (64 - 40) ].

Definition bt_lfpool_node_layout : ctype := Struct [
  "next" @@ ptr ].

Definition bt_lfpool_layout : ctype := Struct [
  "head" @@ ptr;
  "alloc_count" @@ size_t;
  "free_count" @@ size_t;
  "_pad" @@ Array char (64 - 24) ].

Definition bt_mempool_layout : ctype := Struct [
  "base" @@ ptr;
  "total_size" @@ size_t;
  "offset" @@ size_t;
  "arena_counter" @@ size_t;
  "num_arenas" @@ int;
  "arenas" @@ ptr;
  "hugepage" @@ int ].

Definition bt_mempool_arena_layout : ctype := Struct [
  "base" @@ ptr;
  "size" @@ size_t;
  "offset" @@ size_t;
  "free_orders" @@ ptr;
  "alloc_count" @@ uint32_t;
  "free_count" @@ uint32_t;
  "_pad" @@ Array char 24 ].

Definition bt_hugepage_layout : ctype := Struct [
  "base" @@ ptr;
  "total_size" @@ size_t;
  "offset" @@ size_t;
  "use_1gb" @@ int ].

Definition bt_tier_stats_layout : ctype := Struct [
  "hot_allocs" @@ uint64_t;
  "hot_bytes" @@ uint64_t;
  "warm_allocs" @@ uint64_t;
  "warm_bytes" @@ uint64_t;
  "cold_allocs" @@ uint64_t;
  "cold_bytes" @@ uint64_t ].

Definition bt_numa_stats_layout : ctype := Struct [
  "total_bytes" @@ uint64_t;
  "free_bytes" @@ uint64_t;
  "alloc_bytes" @@ uint64_t ].

(** ** Configuration, logger, and the handles of the threads *)

Definition bt_runtime_config_layout : ctype := Struct [
  "matching_threads" @@ int;
  "risk_threads" @@ int;
  "io_threads" @@ int;
  "md_threads" @@ int;
  "journal_threads" @@ int;
  "gateway_port" @@ int;
  "max_connections" @@ int;
  "rate_limit_rps" @@ int;
  "mempool_size_mb" @@ size_t;
  "journal_sync_ms" @@ int;
  "journal_path" @@ Array char 256;
  "cpu_start_core" @@ int;
  "cpu_io_cores" @@ Array int 4;
  "cpu_risk_cores" @@ Array int 8;
  "cpu_match_cores" @@ Array int 8;
  "log_level" @@ int;
  "run_benchmark" @@ int;
  "benchmark_orders" @@ int;
  "benchmark_symbols" @@ int;
  "use_isolated" @@ int;
  "safe_mode" @@ int ].

Definition log_entry_layout : ctype := Struct [
  "msg" @@ Array char 256;
  "level" @@ int ].

Definition bt_md_ctx_layout : ctype := Struct [
  "thread_id" @@ int;
  "cpu_core" @@ int;
  "running" @@ int;
  "in_queue" @@ ptr;
  "thread" @@ pthread_t;
  "sched_id" @@ int;
  "tick_count" @@ uint64_t ].

Definition bt_journal_layout : ctype := Struct [
  "path" @@ Array char 256;
  "sync_interval_ms" @@ int;
  "fd" @@ int;
  "ring" @@ ptr;
  "thread" @@ pthread_t;
  "running" @@ int;
  "written" @@ uint64_t;
  "dropped" @@ uint64_t;
  "flushed" @@ uint64_t ].

Definition gw_conn_layout : ctype := Struct [
  "fd" @@ int;
  "state" @@ enum;
  "recv_buf" @@ Array uint8_t 65536;
  "recv_head" @@ size_t;
  "recv_tail" @@ size_t;
  "send_buf" @@ Array uint8_t 65536;
  "send_head" @@ size_t;
  "send_tail" @@ size_t;
  "send_pending" @@ int;
  "authenticated" @@ int;
  "auth_user_id" @@ uint64_t;
  "last_active" @@ uint64_t;
  "rate_window_start" @@ uint64_t;
  "rate_count" @@ int ].

Definition gw_ctx_layout : ctype := Struct [
  "thread_id" @@ int;
  "cpu_core" @@ int;
  "port" @@ int;
  "max_conns" @@ int;
  "running" @@ int;
  "out_queue" @@ ptr;
  "response_queue" @@ ptr;
  "listen_fd" @@ int;
  "epoll_fd" @@ int;
  "conns" @@ ptr;
  "active_conns" @@ int;
  "thread" @@ pthread_t;
  "orders_received" @@ uint64_t;
  "idem_ring" @@ Array uint64_t 8192;
  "idem_idx" @@ int;
  "sched_id" @@ int ].

(** ** Queues and rings *)

(** [BT_SPSC_QUEUE_DEF] and [BT_MPSC_QUEUE_DEF]: the two macros declare the
    same members. *)
Definition queue_layout (type : ctype) (capacity : Z) : ctype := Struct [
  alignas 64 "head" @@ size_t;
  alignas 64 "tail" @@ size_t;
  alignas 64 "buffer" @@ Array type capacity;
  "mask" @@ size_t ].

Definition disruptor_layout (type : ctype) (capacity : Z) : ctype := Struct [
  alignas 64 "cursor" @@ size_t;
  alignas 64 "committed" @@ Array size_t capacity;
  alignas 64 "buffer" @@ Array type capacity;
  "mask" @@ size_t;
  "_pad" @@ Array char 64 ].

(** [struct generic_disruptor], the view the C functions take of it. *)
Definition generic_disruptor_layout : ctype := Struct [
  "cursor" @@ size_t;
  "_pad1" @@ Array char 64;
  "committed" @@ Array size_t 1 ].

(** The queue types of [bt_queues.h] and the journal's ring. *)
Definition bt_md_tick_queue_layout : ctype := queue_layout bt_md_tick_layout 65536.
Definition bt_gw_oms_queue_layout : ctype := queue_layout bt_gw_oms_msg_layout 65536.
Definition bt_oms_risk_queue_layout : ctype := queue_layout bt_oms_risk_msg_layout 65536.
Definition bt_risk_in_queue_layout : ctype := queue_layout bt_oms_risk_msg_layout 65536.
Definition bt_seq_in_queue_layout : ctype := queue_layout bt_risk_seq_msg_layout 65536.
Definition bt_match_in_queue_layout : ctype := queue_layout bt_seq_match_msg_layout 65536.
Definition bt_gw_response_queue_layout : ctype := queue_layout bt_order_response_layout 65536.
Definition bt_journal_ring_layout : ctype := queue_layout bt_journal_entry_layout 262144.

Definition queue_types : list ctype := [
  bt_md_tick_queue_layout; bt_gw_oms_queue_layout; bt_oms_risk_queue_layout;
  bt_risk_in_queue_layout; bt_seq_in_queue_layout; bt_match_in_queue_layout;
  bt_gw_response_queue_layout; bt_journal_ring_layout ].

Definition program_types : list ctype := [
  bt_order_layout; bt_trade_layout; bt_order_node_layout; bt_price_level_layout;
  bt_sl_node_layout; bt_order_book_snapshot_layout; bt_md_tick_layout; bt_order_request_layout;
  bt_cancel_request_layout; bt_order_response_layout; bt_risk_result_layout; bt_stats_layout;
  bt_event_layout; bt_gw_oms_msg_layout; bt_oms_risk_msg_layout; bt_risk_seq_msg_layout;
  bt_seq_match_msg_layout; bt_journal_entry_layout; bt_latency_stats_layout; bt_account_layout;
  bt_ledger_entry_layout; bt_risk_position_layout; bt_risk_user_exposure_layout;
  bt_risk_state_layout; bt_risk_worker_layout; bt_oms_ctx_layout; bt_matching_ctx_layout;
  bt_sched_entry_layout; bt_scheduler_layout; bt_shard_shmem_layout; bt_shmem_header_layout;
  bt_shmem_layout; bt_hashmap_entry_layout; bt_hashmap_layout; bt_slab_layout;
  bt_lfpool_node_layout; bt_lfpool_layout; bt_mempool_layout; bt_mempool_arena_layout;
  bt_hugepage_layout; bt_tier_stats_layout; bt_numa_stats_layout; bt_runtime_config_layout;
  log_entry_layout; bt_md_ctx_layout; bt_journal_layout; gw_conn_layout; gw_ctx_layout ] ++ queue_types.

(** ** Soundness of the layouts *)

Lemma program_types_wf : Forall (fun t => wf_type t = true) program_types.
Proof. repeat constructor. Qed.

Lemma program_types_structs : Forall (fun t => exists ms, t = Struct ms) program_types.
Proof. repeat constructor; by eexists. Qed.

(** The layout of every struct and queue type of the program is sound: each
    scalar is aligned to its size and lies inside the object whenever the
    object is aligned; members lie inside, are aligned, and follow one another
    without overlap; without unions no two scalars share a byte; and the size
    is a multiple of the alignment, so arrays of the type stay aligned. *)
Theorem program_layouts_sound t base :
  t ∈ program_types -> (alignof t | base) ->
  Forall (leaf_ok base t) (leaves base t) /\
  Forall (part_ok t) (parts t) /\ StronglySorted before (parts t) /\
  (union_free t = true -> StronglySorted (fun a b => a.1 + a.2 <= b.1) (leaves base t)) /\
  (alignof t | sizeof t).
Proof.
  intros Ht Hb. pose proof program_types_wf as Hwf. pose proof program_types_structs as Hs.
  rewrite Forall_forall in Hwf, Hs. specialize (Hwf t Ht). destruct (Hs t Ht) as [ms ->].
  split_and!; [by apply leaves_ok|by apply parts_ok| | |by apply sizeof_sized].
  - by apply struct_parts_ok, wf_members.
  - intros Hu. by apply leaves_disjoint.
Qed.

Lemma program_layouts_sound_witness :
  bt_seq_match_msg_layout ∈ program_types /\
  StronglySorted (fun a b => a.1 + a.2 <= b.1) (leaves 4096 bt_seq_match_msg_layout).
Proof.
  assert (bt_seq_match_msg_layout ∈ program_types) as Hin by (apply list_elem_of_In; cbn; tauto).
  split; [exact Hin|].
  apply (program_layouts_sound bt_seq_match_msg_layout 4096 Hin); [by exists 512|reflexivity].
Defined.

(** ** The byte images *)

(** The bytes of a member in an image of the struct. *)
Definition member_bytes (t : ctype) (name : string) (l : list Z) : list Z :=
  match find_member t name with
  | Some (o, mt) => field (Z.to_nat o) (Z.to_nat (sizeof mt)) l
  | None => []
  end.

(** What an overlay of the struct declarations reads from an image. *)
Definition order_request_overlay (l : list Z) : bt_order_request_t :=
  let get name := member_bytes bt_order_request_layout name l in {|
  rq_request_id := le_val (get "request_id"); rq_user_id := le_val (get "user_id");
  rq_symbol := get "symbol"; rq_price := i64 (le_val (get "price"));
  rq_quantity := le_val (get "quantity"); rq_side := le_val (get "side");
  rq_type := le_val (get "type"); rq_timestamp := le_val (get "timestamp") |}.

Definition journal_entry_overlay (l : list Z) : option bt_journal_entry_t :=
  let get name := member_bytes bt_journal_entry_layout name l in
  match entry_type_of_code (le_val (get "type")) with
  | Some t => Some {|
      je_version := le_val (get "version"); je_reserved := le_val (get "_reserved");
      je_seq_num := le_val (get "seq_num"); je_type := t; je_pad := field 20 4 l;
      je_timestamp := le_val (get "timestamp"); je_checksum := le_val (get "checksum");
      je_data := get "data" |}
  | None => None
  end.

Definition cancel_overlay (now : Z) (l : list Z) : bt_cancel_request_t :=
  let get name := member_bytes bt_cancel_request_layout name l in
  CancelRequest (le_val (get "order_id")) (le_val (get "user_id")) (get "symbol") now.

Lemma response_members r :
  order_response_wf r ->
  let get name := member_bytes bt_order_response_layout name (order_response_image r) in
  get "request_id" = le_bytes 8 (rs_request_id r) /\
  get "order_id" = le_bytes 8 (rs_order_id r) /\
  get "status" = le_bytes 4 (status_code (rs_status r)) /\
  get "filled_qty" = le_bytes 4 (rs_filled_qty r) /\
  get "reject_reason" = rs_reject_reason r.
Proof.
  intros [Hr _]. cbv zeta.
  assert (forall name o mt, find_member bt_order_response_layout name = Some (o, mt) ->
    member_bytes bt_order_response_layout name (order_response_image r) =
    field (Z.to_nat o) (Z.to_nat (sizeof mt)) (order_response_image r)) as Hget.
  { intros name o mt Hf. unfold member_bytes. by rewrite Hf. }
  unfold order_response_image in *.
  split_and!; (erewrite Hget; [|vm_compute; reflexivity]);
    vm_compute Z.to_nat; field_simpl; done.
Qed.

(** The images of the wire and journal structs are those of the declared
    layouts, and the sizes used elsewhere are the declared sizes. *)
Theorem wire_images_follow_layouts now l r :
  order_response_wf r ->
  order_request_of_bytes l = order_request_overlay l /\
  cancel_of now l = cancel_overlay now l /\
  journal_entry_of_bytes l = journal_entry_overlay l /\
  (let get name := member_bytes bt_order_response_layout name (order_response_image r) in
   get "request_id" = le_bytes 8 (rs_request_id r) /\
   get "order_id" = le_bytes 8 (rs_order_id r) /\
   get "status" = le_bytes 4 (status_code (rs_status r)) /\
   get "filled_qty" = le_bytes 4 (rs_filled_qty r) /\
   get "reject_reason" = rs_reject_reason r) /\
  zlen (order_response_image r) = sizeof bt_order_response_layout /\
  sizeof_order_request = sizeof bt_order_request_layout /\
  sizeof_journal_entry = sizeof bt_journal_entry_layout.
Proof.
  intros Hr. split_and!; try reflexivity.
  - apply (response_members r Hr).
  - by apply length_order_response_image.
Qed.

Lemma wire_images_follow_layouts_witness :
  let r := OrderResponse 1 2 BT_STATUS_FILLED 3 (replicate 64 0) in
  order_response_wf r /\
  member_bytes bt_order_response_layout "status" (order_response_image r) = [3; 0; 0; 0].
Proof.
  intros r. assert (order_response_wf r) as Hr by (vm_compute; split; [done|by repeat constructor]).
  split; [exact Hr|].
  destruct (wire_images_follow_layouts 0 [] r Hr) as (_ & _ & _ & (_ & _ & Hs & _) & _).
  exact Hs.
Defined.

(** ** Sizes the code asserts or counts on *)

(** The [_Static_assert]s of [bt_types.h], [bt_event.h] and
    [bt_memory_pool.h], and the sizes of the allocators, of the segment header
    and of the C disruptor's word offsets. *)
Lemma static_assertions :
  sizeof bt_order_layout = 64 /\ sizeof bt_event_layout <= 128 /\
  sizeof bt_mempool_arena_layout mod 64 = 0 /\ sizeof bt_lfpool_layout = 64 /\
  sizeof bt_order_node_layout = sizeof_order_node /\
  sizeof bt_mempool_arena_layout = sizeof_arena /\
  sizeof bt_shmem_header_layout = sizeof_shmem_header /\
  offsetof (disruptor_layout size_t 65536) "committed" = Some (8 * def_committed) /\
  offsetof generic_disruptor_layout "committed" = Some (8 * gen_committed).
Proof. vm_compute. by split_and!. Qed.

(** The slab handle is padded as if its members took 40 bytes; they take 48,
    so the struct is not the cache line its comment promises. *)
Lemma slab_handle_not_a_line : sizeof bt_slab_layout = 72.
Proof. reflexivity. Qed.

(** Orders and events are aligned to 8 bytes: an event takes 96 bytes, so
    that events in an array straddle cache lines. *)
Lemma order_event_alignment :
  alignof bt_order_layout = 8 /\ alignof bt_event_layout = 8 /\ sizeof bt_event_layout = 96.
Proof. done. Qed.

(** ** Cache lines of the queues *)

Definition line (addr : Z) : Z := addr / 64.

Lemma queue_offsets type capacity :
  wf_type type = true -> alignof type <= 64 ->
  offsetof (queue_layout type capacity) "head" = Some 0 /\
  offsetof (queue_layout type capacity) "tail" = Some 64 /\
  offsetof (queue_layout type capacity) "buffer" = Some 128 /\
  find_member (queue_layout type capacity) "mask" =
    Some (round_up 8 (128 + capacity * sizeof type), size_t).
Proof.
  intros Hwf Ha.
  assert (round_up (align_member (alignas 64 "buffer" @@ Array type capacity)) 72 = 128) as Hb.
  { unfold align_member; cbn [m_alignas m_type alignof]. by rewrite Z.max_l. }
  assert (members (queue_layout type capacity) =
    [(0, alignas 64 "head" @@ size_t); (64, alignas 64 "tail" @@ size_t);
     (128, alignas 64 "buffer" @@ Array type capacity);
     (round_up 8 (128 + capacity * sizeof type), "mask" @@ size_t)]) as Hm.
  { cbn [members queue_layout place].
    change (round_up (align_member (alignas 64 "head" @@ size_t)) 0) with 0.
    cbn [m_type sizeof size_t].
    change (round_up (align_member (alignas 64 "tail" @@ size_t)) (0 + 8)) with 64.
    change (64 + 8) with 72. by rewrite Hb. }
  unfold offsetof, find_member. rewrite Hm. done.
Qed.

(** The producer's index, the consumer's index and the elements never share a
    cache line, wherever the allocator puts the queue: eight-byte alignment is
    enough. *)
Theorem queue_no_false_sharing type capacity base i j k :
  wf_type type = true -> alignof type <= 64 -> (8 | base) ->
  0 <= i < 8 -> 0 <= j < 8 -> 0 <= k < capacity * sizeof type ->
  exists oh ot ob,
    offsetof (queue_layout type capacity) "head" = Some oh /\
    offsetof (queue_layout type capacity) "tail" = Some ot /\
    offsetof (queue_layout type capacity) "buffer" = Some ob /\
    line (base + oh + i) <> line (base + ot + j) /\
    line (base + oh + i) <> line (base + ob + k) /\
    line (base + ot + j) <> line (base + ob + k).
Proof.
  intros Hwf Ha [q ->] Hi Hj Hk.
  destruct (queue_offsets type capacity Hwf Ha) as (H1 & H2 & H3 & _).
  exists 0, 64, 128. split_and!; [done..| | |]; unfold line; Z.to_euclidean_division_equations; lia.
Qed.

Lemma queue_no_false_sharing_witness :
  line (16 + 0 + 7) <> line (16 + 64 + 0).
Proof.
  destruct (queue_no_false_sharing bt_journal_entry_layout 262144 16 7 0 0)
    as (oh & ot & ob & H1 & H2 & _ & Hl & _);
    [reflexivity|by vm_compute|by exists 2|lia|lia|vm_compute; done|].
  vm_compute in H1, H2. injection H1 as <-. injection H2 as <-. exact Hl.
Defined.
