(* ===== verification/Templates.v ===== *)
(** * The C++ templates of the headers

    Models the classes the headers declare for C++ translation units:
    [SPSCQueue] and [MPSCQueue] of [bt_lockfree_queue.h], [Disruptor] of
    [bt_disruptor.h], [SlabAllocator] of [bt_slab_allocator.h] and
    [LockFreePool] of [bt_lockfree_pool.h]. The queues are shown to be the
    bounded queues of [Queue]; the two allocators are related to the contract
    of [FreeList]; [HugePageAllocator] of [bt_hugepage.h] wraps the arena of
    [Hugepage]. A method runs to its end before the next one starts, unless
    a parameter says that another thread intervened. *)

From S2P Require Import Prelude Queue FreeList Hugepage.

Module SPSCQueue.

(** The members are those of the struct the C macro declares; the
    constructor zeroes the indices and [mask_] is [N - 1]. *)
Definition construct {T} (N : Z) (buffer : list T) : queue T := Queue 0 0 buffer (u64 (N - 1)).

Definition push {T} (item : T) (q : queue T) : bool * queue T :=
  let h := q_head q in
  let t := q_tail q in
  let next := Z.land (u64 (t + 1)) (q_mask q) in
  if next =? h then (false, q)
  else (true, Queue h next (q_buffer q).[t <- item] (q_mask q)).

(** [None] when [pop] returns [false], which leaves [item] alone. *)
Definition pop {T} `{!Inhabited T} (q : queue T) : option T * queue T :=
  let h := q_head q in
  let t := q_tail q in
  if h =? t then (None, q)
  else (Some (q_buffer q).[h], Queue (Z.land (u64 (h + 1)) (q_mask q)) t (q_buffer q) (q_mask q)).

Definition empty {T} (q : queue T) : bool := q_head q =? q_tail q.

End SPSCQueue.

Module MPSCQueue.

(** One round of the loop; [fails] when the weak compare-and-swap fails. *)
Definition push_round {T} (item : T) (q : queue T) (fails : bool) : option (bool * queue T) :=
  let t := q_tail q in
  let next := Z.land (u64 (t + 1)) (q_mask q) in
  let h := q_head q in
  if next =? h then Some (false, q)
  else if fails then None
  else Some (true, Queue h next (q_buffer q).[t <- item] (q_mask q)).

Fixpoint push {T} (fails : list bool) (item : T) (q : queue T) : bool * queue T :=
  match fails with
  | [] => default (false, q) (push_round item q false)
  | f :: rest =>
      match push_round item q f with Some r => r | None => push rest item q end
  end.

Definition pop {T} `{!Inhabited T} (q : queue T) : option T * queue T :=
  let h := q_head q in
  let t := q_tail q in
  if h =? t then (None, q)
  else (Some (q_buffer q).[h], Queue (Z.land (u64 (h + 1)) (q_mask q)) t (q_buffer q) (q_mask q)).

Definition empty {T} (q : queue T) : bool := q_head q =? q_tail q.

End MPSCQueue.

Section queue_templates.
Context {T : Type} `{!Inhabited T}.
Implicit Types (q : queue T) (x : T).

Lemma template_push_eq x q : SPSCQueue.push x q = SPSC_PUSH x q.
Proof.
  unfold SPSCQueue.push, SPSC_PUSH, q_next. by destruct (_ =? _).
Qed.

Lemma template_pop_eq q : SPSCQueue.pop q = SPSC_POP q.
Proof. unfold SPSCQueue.pop, SPSC_POP, q_next. by destruct (_ =? _). Qed.

Lemma template_mpsc_push_eq fails x q : MPSCQueue.push fails x q = MPSC_PUSH_retry fails x q.
Proof. induction fails as [|f rest IH]; [done|]. cbn. by rewrite IH. Qed.

Lemma template_empty q : queue_wf q -> SPSCQueue.empty q = bool_decide (contents q = []).
Proof.
  intros Hwf. pose proof (queue_empty_test q Hwf) as H. pose proof (length_contents q) as Hl.
  unfold SPSCQueue.empty. case_bool_decide as Hc; rewrite ?Z.eqb_eq, ?Z.eqb_neq.
  - rewrite Hc in Hl. by apply H.
  - intros E. apply H in E. destruct (contents q); [done|]. simpl in *. lia.
Qed.

(** Both templates fulfil the contract of a bounded queue. *)
Lemma template_push_spec q x b q' :
  queue_wf q -> SPSCQueue.push x q = (b, q') ->
  queue_wf q' /\ q_mask q' = q_mask q /\
  b = bool_decide (zlen (contents q) < q_mask q) /\
  contents q' = contents q ++ (if b then [x] else []).
Proof. rewrite template_push_eq. apply spsc_push_spec. Qed.

Lemma template_pop_spec q r q' :
  queue_wf q -> SPSCQueue.pop q = (r, q') ->
  queue_wf q' /\ q_mask q' = q_mask q /\
  r = head (contents q) /\ contents q' = tail (contents q).
Proof. rewrite template_pop_eq. apply spsc_pop_spec. Qed.

Lemma template_mpsc_push_spec fails q x b q' :
  queue_wf q -> MPSCQueue.push fails x q = (b, q') ->
  queue_wf q' /\ q_mask q' = q_mask q /\
  b = bool_decide (zlen (contents q) < q_mask q) /\
  contents q' = contents q ++ (if b then [x] else []).
Proof. rewrite template_mpsc_push_eq. apply mpsc_push_spec. Qed.

Definition spsc_template : BoundedQueue T (queue T) := {|
  bq_wf := queue_wf; bq_contents := contents; bq_room := q_mask;
  bq_push := SPSCQueue.push; bq_pop := SPSCQueue.pop;
  bq_bound := spsc_bound; bq_push_spec := template_push_spec; bq_pop_spec := template_pop_spec;
|}.

Definition mpsc_template (fails : list bool) : BoundedQueue T (queue T) := {|
  bq_wf := queue_wf; bq_contents := contents; bq_room := q_mask;
  bq_push := MPSCQueue.push fails; bq_pop := MPSCQueue.pop;
  bq_bound := spsc_bound; bq_push_spec := template_mpsc_push_spec fails;
  bq_pop_spec := template_pop_spec;
|}.

End queue_templates.

Lemma run_ops_wf {A Q} (BQ : BoundedQueue A Q) ops q : bq_wf q -> bq_wf (snd (run_ops BQ ops q)).
Proof.
  revert q. induction ops as [|[x|] ops IH]; intros q Hwf; cbn; [done|..].
  - destruct (bq_push x q) as [b q'] eqn:E. destruct (bq_push_spec q x b q' Hwf E) as [Hwf' _].
    specialize (IH q' Hwf'). by destruct (run_ops BQ ops q').
  - destruct (bq_pop q) as [r q'] eqn:E. destruct (bq_pop_spec q r q' Hwf E) as [Hwf' _].
    specialize (IH q' Hwf'). by destruct (run_ops BQ ops q').
Qed.

(** The template queues, constructed over [2 ^ k] elements, answer every
    sequence of calls as the bounded FIFO list, whatever spurious failures the
    compare-and-swap of a push meets, and [empty] tells whether the list is
    empty. *)
Theorem queue_templates_refine_fifo {T} `{!Inhabited T} (buf : list T) (k : Z)
    (fails : list bool) (ops : list (qop T)) :
  1 <= k < 64 -> zlen buf = 2 ^ k ->
  let q0 := SPSCQueue.construct (2 ^ k) buf in
  let '(rs, l) := fifo_ops (2 ^ k - 1) ops [] in
  fst (run_ops spsc_template ops q0) = rs /\
  fst (run_ops (mpsc_template fails) ops q0) = rs /\
  contents (snd (run_ops spsc_template ops q0)) = l /\
  contents (snd (run_ops (mpsc_template fails) ops q0)) = l /\
  SPSCQueue.empty (snd (run_ops spsc_template ops q0)) = bool_decide (l = []).
Proof.
  intros Hk Hlen q0. pose proof (queue_init_wf buf k Hk Hlen) as Hwf.
  assert (q0 = QUEUE_INIT buf) as Hq by (unfold QUEUE_INIT; by rewrite Hlen).
  rewrite <- Hq in Hwf.
  pose proof (run_ops_fifo spsc_template ops q0 Hwf) as H1.
  pose proof (run_ops_fifo (mpsc_template fails) ops q0 Hwf) as H2.
  cbn [bq_room bq_contents spsc_template mpsc_template] in H1, H2.
  replace (q_mask q0) with (2 ^ k - 1) in H1, H2
    by (cbn; rewrite u64_small; [done|pose proof (pow2_le_64 k ltac:(lia)); unfold is_u64; lia]).
  replace (contents q0) with (@nil T) in H1, H2
    by (unfold contents, queue_len; cbn; by rewrite Zmod_0_l).
  pose proof (template_empty _ (run_ops_wf spsc_template ops q0 Hwf)) as He.
  destruct (fifo_ops (2 ^ k - 1) ops []) as [rs l]. destruct H1 as [? Hl].
  cbn [bq_contents] in Hl. rewrite Hl in He. naive_solver.
Qed.

Lemma queue_templates_refine_fifo_witness :
  fst (run_ops (mpsc_template [true]) [OpPush 7; OpPush 8; OpPop] (SPSCQueue.construct 2 [0; 0]))
  = [ResPush true; ResPush false; ResPop (Some 7)].
Proof.
  destruct (queue_templates_refine_fifo [0; 0] 1 [true] [OpPush 7; OpPush 8; OpPop]
    ltac:(lia) eq_refl) as (_ & H & _). exact H.
Defined.

(** ** The disruptor *)

Module Disruptor.

Record t (T : Type) := Ring {
  cursor : Z;
  committed : list Z;
  buffer : list T;
}.
Arguments Ring {T}.
Arguments cursor {T}.
Arguments committed {T}.
Arguments buffer {T}.

Definition INITIAL_SEQ : Z := 2 ^ 64 - 1.
Definition SIZE_MAX : Z := 2 ^ 64 - 1.

Section methods.
Context {T : Type} `{!Inhabited T} (N : Z).

Definition mask : Z := u64 (N - 1).
Definition slot (seq : Z) : nat := Z.to_nat (Z.land seq mask).

Definition construct (buf : list T) : t T := Ring 0 (replicate (Z.to_nat N) INITIAL_SEQ) buf.

(** [claim]: the test for a full ring has an empty branch. [contended]: another
    producer moved the cursor between the load and the compare-and-swap. *)
Definition claim (contended : bool) (d : t T) : Z * t T :=
  let seq := cursor d in
  let next := u64 (seq + 1) in
  if contended then (SIZE_MAX, d)
  else (seq, Ring next (committed d) (buffer d)).

Definition write (seq : Z) (item : T) (d : t T) : t T :=
  Ring (cursor d) (committed d) (<[slot seq := item]> (buffer d)).

Definition commit (seq : Z) (d : t T) : t T :=
  Ring (cursor d) (<[slot seq := seq]> (committed d)) (buffer d).

Definition publish (contended : bool) (item : T) (d : t T) : bool * t T :=
  let '(seq, d) := claim contended d in
  if seq =? SIZE_MAX then (false, d)
  else (true, commit seq (write seq item d)).

Definition get_highest_committed (d : t T) : Z := u64 (cursor d - 1).
Definition get (seq : Z) (d : t T) : T := buffer d !!! slot seq.
Definition is_committed (seq : Z) (d : t T) : bool :=
  default 0 (committed d !! slot seq) =? seq.
Definition capacity : Z := N.

(** A sequence of uncontended publications and what they return. *)
Fixpoint publish_all (items : list T) (d : t T) : list bool * t T :=
  match items with
  | [] => ([], d)
  | x :: items =>
      let '(b, d) := publish false x d in
      let '(bs, d) := publish_all items d in (b :: bs, d)
  end.

End methods.

Section laws.
Context {T : Type} `{!Inhabited T} (k : Z) (Hk : 0 <= k < 64).
Local Abbreviation N := (2 ^ k).
Implicit Types (d : t T) (xs : list T).

(** The ring after the publication of [xs]: it holds the last [N] items. *)
Record holds (xs : list T) (d : t T) : Prop := {
  h_cursor : cursor d = zlen xs;
  h_committed : length (committed d) = Z.to_nat N;
  h_buffer : length (buffer d) = Z.to_nat N;
  h_fresh : forall seq s, committed d !! slot N seq = Some s ->
    s = INITIAL_SEQ \/ 0 <= s < zlen xs;
  h_window : forall seq, 0 <= seq -> zlen xs - N <= seq < zlen xs ->
    committed d !! slot N seq = Some seq /\ buffer d !! slot N seq = xs !! Z.to_nat seq;
}.

Lemma slot_mod seq : slot N seq = Z.to_nat (seq mod N).
Proof using Hk.
  pose proof (pow2_le_64 k ltac:(lia)) as Hp. unfold slot, mask.
  rewrite u64_small by (unfold is_u64; lia). by rewrite land_mask by lia.
Qed.

Lemma slot_lt seq : (slot N seq < Z.to_nat N)%nat.
Proof using Hk.
  rewrite slot_mod. pose proof (pow2_pos k ltac:(lia)).
  pose proof (Z.mod_pos_bound seq N ltac:(lia)). lia.
Qed.

Lemma slot_inj a b : 0 <= a - b < N -> slot N a = slot N b -> a = b.
Proof using Hk.
  intros Hab. rewrite !slot_mod. pose proof (pow2_pos k ltac:(lia)).
  pose proof (Z.mod_pos_bound a N ltac:(lia)). pose proof (Z.mod_pos_bound b N ltac:(lia)).
  intros Heq. apply (mod_window N); lia.
Qed.

Lemma construct_holds buf : length buf = Z.to_nat N -> holds [] (construct N buf).
Proof using Hk.
  intros Hb. split; cbn; [done|by rewrite length_replicate|done| |].
  - intros seq s H. apply lookup_replicate in H as [-> _]. by left.
  - intros seq H0 H1. unfold zlen in H1. cbn in H1. lia.
Qed.

Lemma publish_holds xs x d :
  holds xs d -> zlen xs < SIZE_MAX ->
  exists d', publish N false x d = (true, d') /\ holds (xs ++ [x]) d'.
Proof using Hk.
  intros [Hc Hl Hb Hf Hw] Hlt. unfold publish, claim. rewrite Hc.
  pose proof (zlen_nonneg xs). rewrite (proj2 (Z.eqb_neq _ _)) by lia.
  eexists. split; [done|]. unfold commit, write. cbn [cursor committed buffer].
  pose proof (slot_lt (zlen xs)) as Hs. assert (zlen (xs ++ [x]) = zlen xs + 1) as Hx1 by (by rewrite zlen_app).
  split; cbn [cursor committed buffer].
  - rewrite Hx1. apply u64_small. unfold is_u64, SIZE_MAX in *. lia.
  - by rewrite length_insert.
  - by rewrite length_insert.
  - intros seq s. rewrite list_lookup_insert. case_decide as E.
    + intros [= <-]. right. lia.
    + intros [->|?]%Hf; [by left|right; lia].
  - intros seq H0 Hwin.
    destruct (decide (seq = zlen xs)) as [->|Hne].
    + rewrite !list_lookup_insert_eq by lia. split; [done|].
      unfold zlen. rewrite Nat2Z.id. symmetry. by apply list_lookup_middle.
    + assert (slot N (zlen xs) <> slot N seq) as Hd by (intros E; apply slot_inj in E; lia).
      rewrite !list_lookup_insert_ne by done.
      destruct (Hw seq H0 ltac:(lia)) as [-> ->]. split; [done|].
      symmetry. apply lookup_app_l. unfold zlen in *. lia.
Qed.

Lemma publish_all_holds items xs d :
  holds xs d -> zlen xs + zlen items < SIZE_MAX ->
  exists d', publish_all N items d = (replicate (length items) true, d') /\
    holds (xs ++ items) d'.
Proof using Hk.
  revert xs d. induction items as [|x items IH]; intros xs d Hh Hlt.
  { exists d. by rewrite app_nil_r. }
  rewrite zlen_cons in Hlt. pose proof (zlen_nonneg items).
  destruct (publish_holds xs x d Hh ltac:(lia)) as (d1 & E1 & H1).
  destruct (IH (xs ++ [x]) d1 H1) as (d2 & E2 & H2).
  { rewrite zlen_app. change (zlen [x]) with 1. lia. }
  exists d2. cbn [publish_all]. rewrite E1, E2. by rewrite <- app_assoc in H2.
Qed.

(** The sequence number of the window that shares the slot of an older one. *)
Lemma window_twin seq n : 0 <= seq < n - N ->
  exists seq', n - N <= seq' < n /\ seq < seq' /\ slot N seq' = slot N seq.
Proof using Hk.
  intros Hs. pose proof (pow2_pos k ltac:(lia)) as Hp.
  exists (n - 1 - (n - 1 - seq) mod N).
  pose proof (Z.mod_pos_bound (n - 1 - seq) N ltac:(lia)) as Hm.
  pose proof (Z.div_mod (n - 1 - seq) N ltac:(lia)) as Hd.
  split; [lia|]. split; [lia|]. rewrite !slot_mod. f_equal.
  replace (n - 1 - (n - 1 - seq) mod N) with (seq + ((n - 1 - seq) / N) * N) by lia.
  by apply Z.mod_add; lia.
Qed.

Lemma holds_committed xs d seq :
  holds xs d -> 0 <= seq < SIZE_MAX ->
  is_committed N seq d = bool_decide (zlen xs - N <= seq < zlen xs).
Proof using Hk.
  intros [Hc Hl Hb Hf Hw] Hs. unfold is_committed.
  destruct (lookup_lt_is_Some_2 (committed d) (slot N seq)) as [s Es].
  { rewrite Hl. apply slot_lt. }
  rewrite Es. cbn [from_option id]. case_bool_decide as Hwin; [rewrite Z.eqb_eq|rewrite Z.eqb_neq].
  - destruct (Hw seq ltac:(lia) Hwin) as [E _]. congruence.
  - destruct (Z.lt_ge_cases seq (zlen xs)) as [Hlt|Hge].
    + destruct (window_twin seq (zlen xs)) as (seq' & Hin & Hne & Heq); [lia|].
      destruct (Hw seq' ltac:(lia) Hin) as [E _]. rewrite Heq, Es in E. simplify_eq. lia.
    + destruct (Hf seq s Es) as [->|?]; [|lia]. unfold INITIAL_SEQ, SIZE_MAX in *. lia.
Qed.

End laws.
End Disruptor.

Import Disruptor.

(** The template disruptor never refuses an item: after any number of
    publications by one producer it holds exactly the last [N], under their
    sequence numbers, and a consumer that asks for an older one is told it is
    not committed. *)
Theorem disruptor_keeps_last {T} `{!Inhabited T} (k : Z) (buf items : list T) :
  0 <= k < 64 -> length buf = Z.to_nat (2 ^ k) -> zlen items < SIZE_MAX ->
  let '(bs, d) := publish_all (2 ^ k) items (construct (2 ^ k) buf) in
  bs = replicate (length items) true /\
  (forall seq, 0 <= seq < SIZE_MAX ->
     is_committed (2 ^ k) seq d = bool_decide (zlen items - 2 ^ k <= seq < zlen items)) /\
  (forall seq, 0 <= seq -> zlen items - 2 ^ k <= seq < zlen items ->
     items !! Z.to_nat seq = Some (get (2 ^ k) seq d)) /\
  get_highest_committed d = u64 (zlen items - 1).
Proof.
  intros Hk Hb Hlt.
  destruct (publish_all_holds k Hk items [] _ (construct_holds k Hk buf Hb)) as (d & E & Hh).
  { change (zlen (@nil T)) with 0. lia. }
  rewrite E. cbn [app] in Hh. split_and!; [done| | |].
  - intros seq Hs. by apply holds_committed.
  - intros seq H0 Hwin. destruct Hh as [_ _ _ _ Hw]. destruct (Hw seq H0 Hwin) as [_ Hg].
    unfold get. rewrite <- Hg. apply list_lookup_lookup_total.
    rewrite Hg. apply lookup_lt_is_Some_2. unfold zlen in *. lia.
  - unfold get_highest_committed. by rewrite (h_cursor _ _ _ Hh).
Qed.

Lemma disruptor_keeps_last_witness :
  let d := snd (publish_all 4 [10; 11; 12; 13; 14; 15] (construct 4 [0; 0; 0; 0])) in
  is_committed 4 1 d = false /\ is_committed 4 2 d = true /\ Some (get 4 2 d) = Some 12.
Proof.
  pose proof (disruptor_keeps_last 2 [0; 0; 0; 0] [10; 11; 12; 13; 14; 15]
    ltac:(lia) eq_refl ltac:(by vm_compute)) as H.
  change (2 ^ 2) with 4 in H. intros d.
  destruct (publish_all 4 [10; 11; 12; 13; 14; 15] (construct 4 [0; 0; 0; 0])) as [bs d'] eqn:E.
  subst d. cbn [snd]. destruct H as (_ & Hc & Hg & _).
  split_and!; [apply (Hc 1); by vm_compute|apply (Hc 2); by vm_compute|].
  symmetry. apply (Hg 2); [lia|by vm_compute].
Defined.

(** A sequence number counts as the highest committed one as soon as it is
    claimed. *)
Lemma highest_committed_uncommitted :
  let d := snd (claim false (construct 4 [0; 0; 0; 0])) in
  get_highest_committed d = 0 /\ is_committed 4 0 d = false.
Proof. done. Qed.

(** ** The slab allocator template *)

Module SlabAllocator.

Section methods.
(** The template arguments and the address of the member [pool_]. *)
Context (BlockSize N pool : Z).

Definition AlignedBlockSize : Z := align_up 64 BlockSize.

Record slab := Slab { free_count : Z; free_list : Z }.

(** The object, with the pointers the free blocks hold. *)
Definition state : Type := slab * heap.

Definition allocate (st : state) : Z * state :=
  let '(s, h) := st in
  if negb (free_list s =? 0) then
    let ptr := free_list s in
    (ptr, (Slab (u64 (free_count s - 1)) (load h ptr), h))
  else
    let idx := free_count s in
    let s' := Slab (u64 (free_count s - 1)) (free_list s) in
    if (idx =? 0) || (N <? idx) then (0, (s', h))
    else (pool + (idx - 1) * AlignedBlockSize, (s', h)).

Definition deallocate (ptr : Z) (st : state) : state :=
  let '(s, h) := st in
  if ptr =? 0 then st
  else (Slab (u64 (free_count s + 1)) ptr, store ptr (free_list s) h).

Fixpoint link (n : nat) (i : Z) (st : state) : state :=
  match n with
  | O => st
  | S n => link n (i + 1) (deallocate (pool + i * AlignedBlockSize) st)
  end.

Definition reset (st : state) : state := link (Z.to_nat N) 0 (Slab N 0, st.2).

(** The constructor, on whatever the storage held. *)
Definition construct (h : heap) : state := reset (Slab N 0, h).

Definition available (st : state) : Z := free_count st.1.
Definition capacity : Z := N.

End methods.

Section laws.
Context (BlockSize N pool : Z).
Context (H_pool : 0 < pool) (H_N : 0 < N) (H_block : 0 < BlockSize) (H_round : BlockSize + 63 < 2 ^ 64).
Context (H_fit : pool + N * AlignedBlockSize BlockSize < 2 ^ 64).

Local Abbreviation a := (AlignedBlockSize BlockSize).
Definition block (i : Z) : Z := pool + i * a.
Definition blocks : list Z := block <$> seqZ 0 N.

(** The free list is [l]; the counter is off by [N]. *)
Record wf (st : state) (l : list Z) : Prop := {
  w_chain : chain st.2 (free_list st.1) l;
  w_nodup : NoDup l;
  w_sub : l ⊆ blocks;
  w_count : free_count st.1 = N + zlen l;
}.

Lemma aligned_ge : 64 <= a /\ BlockSize <= a.
Proof using H_block H_round.
  unfold AlignedBlockSize. destruct (align_up_spec 6 BlockSize) as (q & Hq & Hr); [lia..|].
  change (2 ^ 6) with 64 in *. lia.
Qed.

Lemma block_inj i j : block i = block j -> i = j.
Proof using H_block H_round. pose proof aligned_ge. unfold block. nia. Qed.

Lemma blocks_nodup : NoDup blocks.
Proof using H_block H_round. apply NoDup_fmap_2; [intros i j; apply block_inj|apply NoDup_seqZ]. Qed.

Lemma block_in i : 0 <= i < N -> block i ∈ blocks.
Proof using. intros Hi. apply list_elem_of_fmap_2. apply elem_of_seqZ. lia. Qed.

Lemma blocks_nonnull p : p ∈ blocks -> p <> 0.
Proof using H_pool H_block H_round.
  pose proof aligned_ge. intros (i & -> & Hi%elem_of_seqZ)%list_elem_of_fmap. unfold block. nia.
Qed.

Lemma zlen_blocks : zlen blocks = N.
Proof using H_N. unfold zlen, blocks. rewrite length_fmap, length_seqZ. lia. Qed.

Lemma N_bound : 2 * N < 2 ^ 64.
Proof using H_pool H_N H_block H_round H_fit. pose proof aligned_ge. nia. Qed.

Lemma sub_blocks l : NoDup l -> l ⊆ blocks -> zlen l <= N.
Proof using H_N.
  intros Hnd Hsub. rewrite <- zlen_blocks. unfold zlen. apply inj_le.
  by apply submseteq_length, NoDup_submseteq.
Qed.

Lemma deallocate_wf st l p :
  wf st l -> p ∉ l -> p ∈ blocks -> wf (deallocate p st) (p :: l).
Proof using H_pool H_N H_block H_round H_fit.
  destruct st as [s h]. intros [Hc Hnd Hsub Hf] Hp Hin. cbn in *.
  assert (NoDup (p :: l)) as Hnd' by (by constructor).
  assert (p :: l ⊆ blocks) as Hsub' by (intros q [->|?]%elem_of_cons; auto).
  pose proof (sub_blocks _ Hnd' Hsub'). pose proof N_bound.
  pose proof (blocks_nonnull p Hin) as Hp0. rewrite (proj2 (Z.eqb_neq p 0)) by done.
  split; cbn; [|done..|].
  - split_and!; try done. rewrite load_store_eq. by apply chain_store.
  - rewrite zlen_cons in *. pose proof (zlen_nonneg l). rewrite u64_small; unfold is_u64; lia.
Qed.

Lemma link_wf n i st l :
  0 <= i -> i + Z.of_nat n <= N -> wf st l ->
  (forall j, i <= j < i + Z.of_nat n -> block j ∉ l) ->
  exists l', wf (link BlockSize pool n i st) l' /\ l' ≡ₚ l ++ (block <$> seqZ i (Z.of_nat n)).
Proof using H_pool H_N H_block H_round H_fit.
  revert i st l. induction n as [|n IH]; intros i st l Hi Hn Hwf Hnot.
  { exists l. cbn. by rewrite app_nil_r. }
  cbn [link]. change (pool + i * a) with (block i).
  assert (wf (deallocate (block i) st) (block i :: l)) as Hwf'.
  { apply deallocate_wf; [done|apply Hnot; lia|apply block_in; lia]. }
  destruct (IH (i + 1) _ _ ltac:(lia) ltac:(lia) Hwf') as (l' & Hl' & Hperm).
  { intros j Hj [E%block_inj|Hin]%elem_of_cons; [lia|]. by apply (Hnot j); [lia|]. }
  exists l'. split; [done|]. rewrite Hperm, (seqZ_cons i) by lia. rewrite fmap_cons.
  rewrite Nat2Z.inj_succ, Z.pred_succ. rewrite <- Z.add_1_r. cbn. by rewrite Permutation_middle.
Qed.

Lemma construct_wf h : exists l, wf (construct BlockSize N pool h) l /\ l ≡ₚ blocks.
Proof using H_pool H_N H_block H_round H_fit.
  destruct (link_wf (Z.to_nat N) 0 (Slab N 0, h) []) as (l & Hl & Hperm); [lia|lia| | |].
  - split; cbn; [done|by constructor|by intros ? ?%elem_of_nil|]. unfold zlen. cbn. lia.
  - by intros j _ ?%elem_of_nil.
  - exists l. split; [done|]. rewrite Z2Nat.id in Hperm by lia. done.
Qed.

Lemma allocate_cons st x l :
  wf st (x :: l) -> exists st', allocate BlockSize N pool st = (x, st') /\ wf st' l /\ x <> 0.
Proof using H_pool H_N H_block H_round H_fit.
  destruct st as [s h]. intros [Hc Hnd Hsub Hf]. cbn in *. destruct Hc as (Hx & Hx0 & Hc).
  pose proof (sub_blocks _ Hnd Hsub). pose proof N_bound. rewrite zlen_cons in *.
  pose proof (zlen_nonneg l).
  rewrite Hx, (proj2 (Z.eqb_neq x 0)) by done. cbn [negb]. eexists. split_and!; [done| |done].
  split; cbn; [done|by inversion Hnd|intros p Hp; apply Hsub; by right|].
  rewrite u64_small; unfold is_u64; lia.
Qed.

End laws.

(** A client of the template that never asks for more than [N] blocks. *)
Inductive reach (BlockSize N pool : Z) (h : heap) : list Z -> state -> Prop :=
  | r_start : reach BlockSize N pool h [] (construct BlockSize N pool h)
  | r_got held st p st' :
      reach BlockSize N pool h held st -> zlen held < N ->
      allocate BlockSize N pool st = (p, st') -> reach BlockSize N pool h (p :: held) st'
  | r_gave held1 p held2 st :
      reach BlockSize N pool h (held1 ++ p :: held2) st ->
      reach BlockSize N pool h (held1 ++ held2) (deallocate p st).

End SlabAllocator.

Import SlabAllocator.

Section slab_template.
Context (BlockSize N pool : Z) (h : heap).
Context (H_pool : 0 < pool) (H_N : 0 < N) (H_block : 0 < BlockSize) (H_round : BlockSize + 63 < 2 ^ 64).
Context (H_fit : pool + N * AlignedBlockSize BlockSize < 2 ^ 64).

Local Abbreviation blocks := (blocks BlockSize N pool).
Local Abbreviation wf := (wf BlockSize N pool).

Lemma slab_template_inv held st :
  reach BlockSize N pool h held st -> exists l, wf st l /\ l ++ held ≡ₚ blocks.
Proof using H_pool H_N H_block H_round H_fit.
  induction 1 as [|held st p st' Hr (l & Hl & Hperm) Hlt Ha|held1 p held2 st Hr (l & Hl & Hperm)].
  - destruct (construct_wf BlockSize N pool H_pool H_N H_block H_round H_fit h) as (l & Hl & Hperm).
    exists l. by rewrite app_nil_r.
  - destruct l as [|x l].
    { pose proof (zlen_blocks BlockSize N pool H_N) as Hn. apply Permutation_length in Hperm.
      unfold zlen in *. cbn in *. lia. }
    destruct (allocate_cons BlockSize N pool H_pool H_N H_block H_round H_fit st x l Hl)
      as (st2 & E & Hwf & _). rewrite E in Ha. simplify_eq.
    exists l. split; [done|]. rewrite <- Hperm. cbn. by rewrite Permutation_middle.
  - pose proof (blocks_nodup BlockSize N pool H_block H_round) as Hnd. rewrite <- Hperm in Hnd.
    apply NoDup_app in Hnd as (_ & Hdis & _).
    exists (p :: l). split.
    + apply deallocate_wf; [done..| |].
      * intros Hp. apply (Hdis p Hp). set_solver.
      * rewrite <- Hperm. set_solver.
    + rewrite <- Hperm. cbn. rewrite !app_assoc. by rewrite Permutation_middle.
Qed.

End slab_template.

(** The template hands out its [N] blocks once each; the allocation after
    that, which its comment calls exhausted, succeeds with a block the client
    already holds, because the constructor leaves the counter at [2 * N]. *)
Theorem slab_template_exact (BlockSize N pool : Z) (h : heap) (held : list Z) (st : state) :
  0 < pool -> 0 < N -> 0 < BlockSize -> BlockSize + 63 < 2 ^ 64 ->
  pool + N * AlignedBlockSize BlockSize < 2 ^ 64 ->
  reach BlockSize N pool h held st ->
  NoDup held /\ (forall p, p ∈ held -> exists i, 0 <= i < N /\ p = pool + i * AlignedBlockSize BlockSize) /\
  available st = 2 * N - zlen held /\
  (zlen held < N -> fst (allocate BlockSize N pool st) <> 0 /\ fst (allocate BlockSize N pool st) ∉ held) /\
  (zlen held = N -> fst (allocate BlockSize N pool st) ∈ held).
Proof.
  intros H_pool H_N H_block H_round H_fit Hr.
  destruct (slab_template_inv BlockSize N pool h H_pool H_N H_block H_round H_fit held st Hr)
    as (l & Hl & Hperm).
  pose proof (blocks_nodup BlockSize N pool H_block H_round) as Hnd. rewrite <- Hperm in Hnd.
  apply NoDup_app in Hnd as (_ & Hdis & Hnd).
  assert (zlen l + zlen held = N) as Hlen.
  { rewrite <- (zlen_blocks BlockSize N pool H_N), <- zlen_app. unfold zlen. by rewrite Hperm. }
  split_and!.
  - done.
  - intros p Hp. assert (p ∈ blocks BlockSize N pool) as Hin by (rewrite <- Hperm; set_solver).
    apply list_elem_of_fmap in Hin as (i & -> & Hi%elem_of_seqZ). exists i. split; [lia|done].
  - unfold available. rewrite (w_count _ _ _ _ _ Hl). lia.
  - intros Hlt. destruct l as [|x l]; [unfold zlen in *; cbn in *; lia|].
    destruct (allocate_cons BlockSize N pool H_pool H_N H_block H_round H_fit st x l Hl) as (st' & -> & _ & Hx).
    split; [done|]. apply (Hdis x). by left.
  - intros HN. destruct l as [|x l]; [|rewrite zlen_cons in Hlen; pose proof (zlen_nonneg l); lia].
    destruct Hl as [Hc _ _ Hf]. destruct st as [s hp]. cbn in *. change (zlen []) with 0 in *.
    rewrite Hc, Hf, Z.add_0_r. cbn [negb Z.eqb].
    rewrite (proj2 (Z.eqb_neq N 0)), (proj2 (Z.ltb_ge N N)) by lia. cbn [orb fst].
    cbn [app] in Hperm. rewrite Hperm. apply (block_in BlockSize N pool). lia.
Qed.

Lemma slab_template_exact_witness :
  let st := snd (allocate 100 2 4096 (snd (allocate 100 2 4096 (construct 100 2 4096 ∅)))) in
  fst (allocate 100 2 4096 st) ∈ [4096; 4224].
Proof.
  intros st.
  assert (reach 100 2 4096 ∅ [4096; 4224] st) as Hr.
  { eapply r_got; [eapply r_got; [apply r_start|by vm_compute|reflexivity]|by vm_compute|reflexivity]. }
  apply (slab_template_exact 100 2 4096 ∅ [4096; 4224] st); by vm_compute.
Defined.

(** ** The object pool template *)

Module LockFreePool.

Section methods.
(** [offsetof(Node, next)]: the size of [T] rounded up to the alignment of a
    pointer. *)
Context (next_off : Z).

Record pool := Pool { head_ : Z; alloc_count : Z; free_count : Z }.
Definition state : Type := pool * heap.

Definition construct (h : heap) : state := (Pool 0 0 0, h).

(** [allocate], with the failures of the weak compare-and-swap; a round that
    fails leaves [node] at the head, which no other thread moved. *)
Fixpoint allocate (fails : list bool) (st : state) : Z * state :=
  let '(p, h) := st in
  let node := head_ p in
  if node =? 0 then (0, st)
  else
    match fails with
    | true :: rest => allocate rest st
    | _ => (node, (Pool (load h (node + next_off)) (u64 (alloc_count p + 1)) (free_count p), h))
    end.

(** [release]: every round of the loop stores the same link. *)
Fixpoint release (fails : list bool) (ptr : Z) (st : state) : state :=
  let '(p, h) := st in
  if ptr =? 0 then st
  else
    let old := head_ p in
    let h := store (ptr + next_off) old h in
    match fails with
    | true :: rest => release rest ptr (p, h)
    | _ => (Pool ptr (alloc_count p) (u64 (free_count p + 1)), h)
    end.

Definition allocs (st : state) : Z := alloc_count st.1.
Definition frees (st : state) : Z := free_count st.1.

(** The free list is [l], linked through the words behind the objects. *)
Definition wf (st : state) (l : list Z) : Prop :=
  NoDup l /\ exists links, (forall p, load links p = load st.2 (p + next_off)) /\
                         chain links (head_ st.1) l.

Lemma allocate_retry fails st : allocate fails st = allocate [] st.
Proof.
  induction fails as [|[|] rest IH]; [done| |]; destruct st as [p h]; cbn; [|done].
  destruct (head_ p =? 0) eqn:E; [done|]. rewrite IH. cbn. by rewrite E.
Qed.

Lemma release_retry fails ptr st : release fails ptr st = release [] ptr st.
Proof.
  revert st. induction fails as [|[|] rest IH]; intros [p h]; cbn; [done| |done].
  destruct (ptr =? 0) eqn:E; [done|]. rewrite IH. cbn. rewrite E. f_equal.
  unfold store. by rewrite insert_insert_eq.
Qed.

(** The template fulfils the contract of a stack of free blocks. *)
Definition template_stack (afails rfails : list bool) : FreeStack state.
Proof.
  refine {| fs_wf := wf; fs_alloc := allocate afails; fs_free := release rfails;
            fs_accepts := fun _ p => p <> 0 |}.
  - intros [p h] (_ & links & _ & Hc). rewrite allocate_retry. cbn in *. by rewrite Hc.
  - intros [p h] x l (Hnd & links & Hl & Hx & Hx0 & Hc). rewrite allocate_retry. cbn in *.
    rewrite Hx, (proj2 (Z.eqb_neq _ _)) by done. eexists. split; [done|]. split; [|done].
    split; [by inversion Hnd|]. exists links. split; [done|]. cbn. by rewrite <- Hl.
  - intros [p h] l q (Hnd & links & Hl & Hc) Hq Hq0. rewrite release_retry. cbn in *.
    rewrite (proj2 (Z.eqb_neq q 0)) by done. split; [|done]. split; [by constructor|].
    exists (store q (head_ p) links). split; cbn.
    + intros x. destruct (decide (q = x)) as [->|Hne]; [by rewrite !load_store_eq|].
      rewrite !load_store_ne by lia. apply Hl.
    + split_and!; try done. rewrite load_store_eq. by apply chain_store.
  - intros [p h] l x (_ & links & _ & Hc) Hx. by eapply chain_nonnull.
Defined.

End methods.
End LockFreePool.

Import LockFreePool.

(** The objects a client of the pool template holds are different objects out
    of those it released before, whatever spurious failures the
    compare-and-swaps meet, and an allocation fails exactly when all are held. *)
Theorem pool_template_safe (next_off : Z) (afails rfails : list bool) (objs held : list Z)
    (st0 st : LockFreePool.state) :
  LockFreePool.wf next_off st0 objs ->
  fs_reach (template_stack next_off afails rfails) st0 held st ->
  NoDup held /\ held ⊆ objs /\
  (fst (LockFreePool.allocate next_off afails st) = 0 <-> length held = length objs).
Proof.
  intros Hwf Hr.
  apply (fs_reach_safe (template_stack next_off afails rfails) st0 objs held st); try done.
  - by destruct Hwf.
  - intros p Hp. by apply (fs_nonnull (FreeStack := template_stack next_off afails rfails) st0 objs).
Qed.

(** The link is stored behind the object: releasing an element of an array of
    pointer-sized objects overwrites the next element. *)
Lemma pool_template_clobbers (sz ptr v : Z) (h : heap) :
  0 < ptr -> load h (ptr + sz) = v ->
  load (LockFreePool.release sz [] ptr (LockFreePool.construct h)).2 (ptr + sz) = 0.
Proof. intros Hp Hv. cbn. rewrite (proj2 (Z.eqb_neq ptr 0)) by lia. cbn. apply load_store_eq. Qed.

(** ** The huge-page wrapper *)

Module HugePageAllocator.

(** The constructor drops the result of the initialisation. *)
Definition construct (hp : bt_hugepage) (mm : mmap_env) (size : Z) (use_1gb : bool) : bt_hugepage :=
  default hp (snd (bt_hugepage_init (Some hp) mm size (if use_1gb then 1 else 0))).
Definition destruct (hp : bt_hugepage) : option (Z * Z) * option bt_hugepage :=
  bt_hugepage_destroy (Some hp).

Definition alloc (hp : bt_hugepage) (bytes : Z) : Z * bt_hugepage :=
  let '(p, hp') := bt_hugepage_alloc (Some hp) bytes in (p, default hp hp').
Definition reset (hp : bt_hugepage) : bt_hugepage := default hp (bt_hugepage_reset (Some hp)).
Definition used (hp : bt_hugepage) : Z := bt_hugepage_used hp.
Definition total (hp : bt_hugepage) : Z := bt_hugepage_total hp.
Definition avail (hp : bt_hugepage) : Z := bt_hugepage_avail hp.
Definition base (hp : bt_hugepage) : Z := hp_base hp.

End HugePageAllocator.

(** When no mapping is granted the object still hands out memory, at the
    address [MAP_FAILED], and its destructor unmaps from there. *)
Lemma wrapper_ignores_failure (hp : bt_hugepage) (size : Z) (use_1gb : bool) :
  0 < size < 2 ^ 63 ->
  let h := HugePageAllocator.construct hp (MmapEnv MAP_FAILED MAP_FAILED MAP_FAILED) size use_1gb in
  fst (HugePageAllocator.alloc h size) = MAP_FAILED /\
  fst (HugePageAllocator.destruct h) = Some (MAP_FAILED, HugePageAllocator.total h).
Proof.
  intros Hs. unfold HugePageAllocator.construct, bt_hugepage_init. cbn [mm_1gb mm_2mb mm_plain].
  rewrite Z.eqb_refl, andb_false_r. cbn [negb snd default from_option id].
  split; [|done]. unfold HugePageAllocator.alloc, bt_hugepage_alloc. cbn [hp_base hp_offset hp_total_size].
  destruct (align_up_spec 21 size) as (q & Hq & Hr); [lia|lia|lia|].
  change (2 ^ 21) with TWO_MB in *. rewrite Hq, Z.add_0_l, u64_small by (unfold is_u64, TWO_MB in *; lia).
  by rewrite Z.ltb_irrefl.
Qed.
