(* ===== verification/DisruptorConc.v ===== *)
(** * The disruptor with its producers interleaved

    [publish] of the class [Disruptor] of [src/src/include/bt_disruptor.h],
    split at its accesses to the shared members, for any number of producer
    threads, with sequentially consistent memory. The methods themselves are
    in [Templates].

    A claim does not wait for a producer that is still writing to the slot one
    lap earlier. [disruptor_lapped_read] is an execution in which this makes a
    committed item unreadable; [disruptor_conc_safe] shows that without such a
    lap the committed items are exactly the published ones. *)

From S2P Require Import Prelude Templates.
Import Templates.Disruptor.

(** ** Threads *)

(** A publication in progress: the cursor has been loaded, a sequence number
    has been claimed, or the item has been written to its slot. *)
Inductive dpc (T : Type) :=
| DLoaded (item : T) (seq : Z)
| DClaimed (item : T) (seq : Z)
| DWritten (item : T) (seq : Z).
Arguments DLoaded {T} _ _.
Arguments DClaimed {T} _ _.
Arguments DWritten {T} _ _.

Record dstate (T : Type) := DState {
  ds_ring : t T;
  ds_prods : gmap nat (dpc T);   (* the publications in progress, by thread *)
  ds_claims : list T;            (* items in the order their claim succeeded *)
}.
Arguments DState {T} _ _ _.
Arguments ds_ring {T} _.
Arguments ds_prods {T} _.
Arguments ds_claims {T} _.

(** The access thread [p] performs next in [publish]. The loads of the
    [committed_] array in [claim] decide nothing and are left out; the last
    sequence number is the one [publish] takes for a refusal. *)
Inductive dstep {T} (N : Z) (p : nat) : dstate T -> dstate T -> Prop :=
| dstep_load d ps cl item :
    ps !! p = None ->
    dstep N p (DState d ps cl) (DState d (<[p := DLoaded item (cursor d)]> ps) cl)
| dstep_claim d ps cl item seq :
    ps !! p = Some (DLoaded item seq) -> cursor d = seq -> seq <> SIZE_MAX ->
    dstep N p (DState d ps cl)
              (DState (Ring (u64 (seq + 1)) (committed d) (buffer d))
                      (<[p := DClaimed item seq]> ps) (cl ++ [item]))
| dstep_claim_last d ps cl item seq :
    ps !! p = Some (DLoaded item seq) -> cursor d = seq -> seq = SIZE_MAX ->
    dstep N p (DState d ps cl)
              (DState (Ring (u64 (seq + 1)) (committed d) (buffer d))
                      (delete p ps) (cl ++ [item]))
| dstep_contended d ps cl item seq :
    ps !! p = Some (DLoaded item seq) -> cursor d <> seq ->
    dstep N p (DState d ps cl) (DState d (delete p ps) cl)
| dstep_write d ps cl item seq :
    ps !! p = Some (DClaimed item seq) ->
    dstep N p (DState d ps cl) (DState (write N seq item d) (<[p := DWritten item seq]> ps) cl)
| dstep_commit d ps cl item seq :
    ps !! p = Some (DWritten item seq) ->
    dstep N p (DState d ps cl) (DState (commit N seq d) (delete p ps) cl).

Definition disruptor_step {T} (N : Z) (s s' : dstate T) : Prop := exists p, dstep N p s s'.

(** After the constructor. *)
Definition dstart {T} (N : Z) (buf : list T) : dstate T := DState (construct N buf) ∅ [].

(** ** Claimed sequence numbers *)

(** The item and the sequence number between claim and commit. *)
Definition in_flight {T} (ph : dpc T) : option (T * Z) :=
  match ph with
  | DLoaded _ _ => None
  | DClaimed item seq | DWritten item seq => Some (item, seq)
  end.

Definition holder {T} (s : dstate T) (p : nat) (x : T) (seq : Z) : Prop :=
  ds_prods s !! p ≫= in_flight = Some (x, seq).

Definition held {T} (s : dstate T) (seq : Z) : Prop := exists p x, holder s p x seq.

(** No publication in progress has been overtaken by a whole lap of claims. *)
Definition unlapped {T} (N : Z) (s : dstate T) : Prop :=
  forall p x seq, holder s p x seq -> zlen (ds_claims s) - N <= seq.

Definition unlapped_step {T} (N : Z) (s s' : dstate T) : Prop :=
  disruptor_step N s s' /\ unlapped N s'.

(** What holds in every execution: a sequence number belongs to the item of
    its claim, and to one thread. *)
Record claims_inv {T} (s : dstate T) : Prop := {
  ci_cursor : cursor (ds_ring s) = zlen (ds_claims s);
  ci_item : forall p x seq, holder s p x seq ->
    0 <= seq /\ ds_claims s !! Z.to_nat seq = Some x;
  ci_unique : forall p p' x x' seq, holder s p x seq -> holder s p' x' seq -> p = p';
}.

Section claims.
Context {T : Type}.
Implicit Types (s : dstate T) (x : T) (ps : gmap nat (dpc T)).

Lemma holder_of d ps cl p ph x seq :
  ps !! p = Some ph -> in_flight ph = Some (x, seq) -> holder (DState d ps cl) p x seq.
Proof. intros E Hf. unfold holder. cbn. by rewrite E. Qed.

Lemma holder_insert d ps cl p ph q x seq :
  holder (DState d (<[p := ph]> ps) cl) q x seq <->
  (q = p /\ in_flight ph = Some (x, seq)) \/ (q <> p /\ ps !! q ≫= in_flight = Some (x, seq)).
Proof.
  unfold holder. cbn [ds_prods]. destruct (decide (q = p)) as [->|Hne].
  - rewrite lookup_insert_eq. naive_solver.
  - rewrite lookup_insert_ne by done. naive_solver.
Qed.

Lemma holder_delete d ps cl p q x seq :
  holder (DState d (delete p ps) cl) q x seq <->
  q <> p /\ ps !! q ≫= in_flight = Some (x, seq).
Proof.
  unfold holder. cbn [ds_prods]. destruct (decide (q = p)) as [->|Hne].
  - rewrite lookup_delete_eq. naive_solver.
  - rewrite lookup_delete_ne by done. naive_solver.
Qed.

Lemma holder_lt s p x seq :
  claims_inv s -> holder s p x seq -> 0 <= seq < zlen (ds_claims s).
Proof.
  intros Hi Hh. destruct (ci_item _ Hi _ _ _ Hh) as [H0 Hl].
  apply lookup_lt_Some in Hl. unfold zlen. lia.
Qed.

(** A step changes the holders in one of three ways. *)
Lemma dstep_holders N p s s' :
  dstep N p s s' ->
  (ds_claims s' = ds_claims s /\ cursor (ds_ring s') = cursor (ds_ring s) /\
   (forall q x seq, holder s' q x seq -> holder s q x seq)) \/
  (exists x, ds_claims s' = ds_claims s ++ [x] /\
   cursor (ds_ring s') = u64 (cursor (ds_ring s) + 1) /\
   (forall q y seq, holder s' q y seq ->
      holder s q y seq \/ (q = p /\ y = x /\ seq = cursor (ds_ring s)))).
Proof.
  intros Hs.
  destruct Hs as [d ps cl item Hp|d ps cl item seq Hp Hc Hm|d ps cl item seq Hp Hc Hm
                 |d ps cl item seq Hp Hc|d ps cl item seq Hp|d ps cl item seq Hp].
  - left. split_and!; [done..|]. intros q x n [[-> H]|[? ?]]%holder_insert; [done|done].
  - right. exists item. subst seq. split_and!; [done..|].
    intros q y n [[-> H]|[? ?]]%holder_insert; [right|left; done].
    cbn in H. by simplify_eq.
  - right. exists item. split_and!; [done|cbn; congruence|].
    intros q y n [? ?]%holder_delete. by left.
  - left. split_and!; [done..|]. by intros q x n [? ?]%holder_delete.
  - left. split_and!; [done..|].
    intros q x n [[-> H]|[? ?]]%holder_insert; [|done]. unfold holder. cbn. by rewrite Hp.
  - left. split_and!; [done..|]. by intros q x n [? ?]%holder_delete.
Qed.

Lemma claims_grow N s s' : disruptor_step N s s' -> ds_claims s `prefix_of` ds_claims s'.
Proof. intros [p [[-> _]|(x & -> & _)]%dstep_holders]; [done|by apply prefix_app_r]. Qed.

Lemma claims_grow_rtc N s s' : rtc (disruptor_step N) s s' -> ds_claims s `prefix_of` ds_claims s'.
Proof. induction 1 as [|???? _ IH]; [done|]. etrans; [by eapply claims_grow|done]. Qed.

Lemma prefix_zlen {A} (l l' : list A) : l `prefix_of` l' -> zlen l <= zlen l'.
Proof. intros ?%prefix_length. unfold zlen. lia. Qed.

Lemma claims_step N s s' :
  claims_inv s -> disruptor_step N s s' -> zlen (ds_claims s') < SIZE_MAX -> claims_inv s'.
Proof.
  intros Hi [p Hs] Hlt. pose proof Hi as [Hc Hit Hu].
  destruct (dstep_holders _ _ _ _ Hs) as [(Ec & Er & Hh)|(x & Ec & Er & Hh)].
  - split; [congruence| |]; rewrite ?Ec; eauto.
  - assert (zlen (ds_claims s') = zlen (ds_claims s) + 1) as Hz by (by rewrite Ec, zlen_app).
    pose proof (zlen_nonneg (ds_claims s)). split.
    + rewrite Er, Hc, Hz. apply u64_small. unfold is_u64, SIZE_MAX in *. lia.
    + rewrite Ec. intros q y seq [Hq|(-> & -> & ->)]%Hh.
      * destruct (Hit _ _ _ Hq). split; [done|]. by apply lookup_app_l_Some.
      * rewrite Hc. split; [done|]. unfold zlen. rewrite Nat2Z.id. by apply list_lookup_middle.
    + intros q q' y y' seq [Hq|(-> & -> & Hs1)]%Hh [Hq'|(-> & -> & Hs2)]%Hh;
        [by eapply Hu| | |done].
      * apply holder_lt in Hq; [lia|done].
      * apply holder_lt in Hq'; [lia|done].
Qed.

Lemma claims_start N (buf : list T) : claims_inv (dstart N buf).
Proof.
  split; [done| |]; unfold holder; cbn; intros *; by rewrite lookup_empty.
Qed.

(** A sequence number that was claimed and is free stays free. *)
Lemma unheld_stays N s s' seq :
  claims_inv s -> disruptor_step N s s' -> seq < zlen (ds_claims s) -> ~ held s seq -> ~ held s' seq.
Proof.
  intros Hi [p Hs] Hlt Hn (q & x & Hq). apply Hn.
  destruct (dstep_holders _ _ _ _ Hs) as [(_ & _ & Hh)|(y & _ & _ & Hh)].
  - exists q, x. by apply Hh.
  - destruct (Hh _ _ _ Hq) as [?|(-> & -> & E)]; [by exists q, x|].
    rewrite (ci_cursor _ Hi) in E. lia.
Qed.

End claims.

(** ** The slots *)

(** What holds as long as nobody is lapped: in the last [N] sequence numbers,
    the ones that are not in flight are committed and readable. *)
Record slots_inv {T} (N : Z) (s : dstate T) : Prop := {
  si_committed : length (committed (ds_ring s)) = Z.to_nat N;
  si_buffer : length (buffer (ds_ring s)) = Z.to_nat N;
  si_fresh : forall i c, committed (ds_ring s) !! i = Some c ->
    c = INITIAL_SEQ \/ 0 <= c < zlen (ds_claims s);
  si_written : forall p x seq, ds_prods s !! p = Some (DWritten x seq) ->
    buffer (ds_ring s) !! slot N seq = Some x;
  si_pending : forall seq, held s seq -> committed (ds_ring s) !! slot N seq <> Some seq;
  si_done : forall seq, 0 <= seq -> zlen (ds_claims s) - N <= seq < zlen (ds_claims s) ->
    ~ held s seq ->
    committed (ds_ring s) !! slot N seq = Some seq /\
    buffer (ds_ring s) !! slot N seq = ds_claims s !! Z.to_nat seq;
}.

Section slots.
Context {T : Type} (k : Z) (Hk : 0 <= k < 64).
Local Abbreviation N := (2 ^ k).
Implicit Types (s : dstate T) (x : T) (ps : gmap nat (dpc T)) (d : t T) (cl : list T).

(** Two sequence numbers of the window have different slots. *)
Lemma window_slots n a b :
  n - N <= a < n -> n - N <= b < n -> slot N a = slot N b -> a = b.
Proof using Hk.
  intros Ha Hb E. destruct (Z.le_gt_cases b a).
  - apply (slot_inj k Hk); [lia|done].
  - symmetry. apply (slot_inj k Hk); [lia|done].
Qed.

Lemma slots_start (buf : list T) : zlen buf = N -> slots_inv N (dstart N buf).
Proof using Hk.
  intros Hb. pose proof (pow2_pos k ltac:(lia)).
  split; cbn; [by rewrite length_replicate|unfold zlen in Hb; lia| | | |].
  - intros i c [-> _]%lookup_replicate. by left.
  - intros p x seq. by rewrite lookup_empty.
  - intros seq (p & x & H1). unfold holder in H1. cbn in H1. by rewrite lookup_empty in H1.
  - intros seq H0 H1. unfold zlen in H1. cbn in H1. lia.
Qed.

(** The steps that change neither the arrays nor the claims. *)
Lemma slots_keep_quiet d ps ps' cl :
  (forall q x seq, ps' !! q ≫= in_flight = Some (x, seq) <-> ps !! q ≫= in_flight = Some (x, seq)) ->
  (forall q x seq, ps' !! q = Some (DWritten x seq) -> ps !! q = Some (DWritten x seq)) ->
  slots_inv N (DState d ps cl) -> slots_inv N (DState d ps' cl).
Proof.
  intros Hf Hw [Hc Hb Hfr Hwr Hp Hd].
  assert (forall seq, held (DState d ps' cl) seq <-> held (DState d ps cl) seq) as Hh.
  { intros seq. unfold held, holder. cbn. by setoid_rewrite Hf. }
  split; try done.
  - intros p x seq ?%Hw. by apply (Hwr p).
  - intros seq ?%Hh. by apply Hp.
  - intros seq H0 H1 H2. apply Hd; [done..|]. by rewrite <- Hh.
Qed.

Lemma slots_keep_claim d ps cl p item :
  claims_inv (DState d ps cl) -> slots_inv N (DState d ps cl) -> zlen cl < SIZE_MAX ->
  ps !! p = Some (DLoaded item (zlen cl)) ->
  slots_inv N (DState (Ring (u64 (zlen cl + 1)) (committed d) (buffer d))
                      (<[p := DClaimed item (zlen cl)]> ps) (cl ++ [item])).
Proof.
  intros Hi [Hc Hb Hfr Hwr Hp Hd] Hlt Ep. cbn in *.
  assert (zlen (cl ++ [item]) = zlen cl + 1) as Hz by (by rewrite zlen_app).
  split; cbn; rewrite ?Hz; [done|done| | | |].
  - intros i c [->|?]%Hfr; [by left|right; lia].
  - intros q x seq. destruct (decide (q = p)) as [->|];
      [by rewrite lookup_insert_eq|rewrite lookup_insert_ne by done; apply Hwr].
  - intros seq (q & x & [[-> E]|[Hne Hq]]%holder_insert).
    + cbn in E. simplify_eq. intros [E|?]%Hfr; [|lia]. unfold INITIAL_SEQ, SIZE_MAX in *. lia.
    + apply Hp. by exists q, x.
  - intros seq H0 H1 Hn. assert (seq <> zlen cl) as Hne.
    { intros ->. apply Hn. exists p, item. apply holder_insert. by left. }
    destruct (Hd seq H0 ltac:(lia)) as [-> ->].
    + intros (q & x & Hq). apply Hn. exists q, x. apply holder_insert. right. split; [|done].
      intros ->. unfold holder in Hq. cbn in Hq. by rewrite Ep in Hq.
    + split; [done|]. symmetry. apply lookup_app_l. unfold zlen in *. lia.
Qed.

(** The sequence number a thread holds lies in the window. *)
Lemma holder_window s p x seq :
  claims_inv s -> unlapped N s -> holder s p x seq ->
  zlen (ds_claims s) - N <= seq < zlen (ds_claims s).
Proof. intros Hi Hu Hh. pose proof (Hu _ _ _ Hh). pose proof (holder_lt _ _ _ _ Hi Hh). lia. Qed.

Lemma slots_keep_write d ps cl p item n :
  claims_inv (DState d ps cl) -> unlapped N (DState d ps cl) -> slots_inv N (DState d ps cl) ->
  ps !! p = Some (DClaimed item n) ->
  slots_inv N (DState (write N n item d) (<[p := DWritten item n]> ps) cl).
Proof using Hk.
  intros Hi Hu [Hc Hb Hfr Hwr Hp Hd] Ep. cbn in *.
  assert (holder (DState d ps cl) p item n) as Hpn by (by eapply holder_of).
  pose proof (holder_window _ _ _ _ Hi Hu Hpn) as Hwin. cbn in Hwin.
  assert (forall seq, held (DState (write N n item d) (<[p := DWritten item n]> ps) cl) seq <->
                      held (DState d ps cl) seq) as Hh.
  { intros seq. unfold held. split; intros (q & x & Hq); exists q, x.
    - apply holder_insert in Hq as [[-> E]|[_ E]]; [|done]. cbn in E. by simplify_eq.
    - apply holder_insert. destruct (decide (q = p)) as [->|]; [left|by right].
      unfold holder in Hq, Hpn. cbn in *. split; [done|]. congruence. }
  split; cbn; [done|by rewrite length_insert|done| | |].
  - intros q x seq. destruct (decide (q = p)) as [->|Hne].
    + rewrite lookup_insert_eq. intros [= <- <-]. apply list_lookup_insert_eq.
      rewrite Hb. by apply slot_lt.
    + rewrite lookup_insert_ne by done. intros Eq.
      assert (holder (DState d ps cl) q x seq) as Hq by (by eapply holder_of).
      pose proof (holder_window _ _ _ _ Hi Hu Hq) as Hwq. cbn in Hwq.
      rewrite list_lookup_insert_ne; [by apply (Hwr q)|].
      intros E%(window_slots (zlen cl)); [|done..]. subst seq.
      by destruct (ci_unique _ Hi _ _ _ _ _ Hpn Hq).
  - intros seq ?%Hh. by apply Hp.
  - intros seq H0 H1 Hn. rewrite Hh in Hn. destruct (Hd seq H0 H1 Hn) as [-> <-].
    split; [done|]. apply list_lookup_insert_ne.
    intros E%(window_slots (zlen cl)); [|done..]. subst seq. apply Hn. by exists p, item.
Qed.

Lemma slots_keep_commit d ps cl p item n :
  claims_inv (DState d ps cl) -> unlapped N (DState d ps cl) -> slots_inv N (DState d ps cl) ->
  ps !! p = Some (DWritten item n) ->
  slots_inv N (DState (commit N n d) (delete p ps) cl).
Proof using Hk.
  intros Hi Hu [Hc Hb Hfr Hwr Hp Hd] Ep. cbn in *.
  assert (holder (DState d ps cl) p item n) as Hpn by (by eapply holder_of).
  pose proof (holder_window _ _ _ _ Hi Hu Hpn) as Hwin. cbn in Hwin.
  destruct (ci_item _ Hi _ _ _ Hpn) as [Hn0 Hcl]. cbn in Hcl.
  split; cbn; [by rewrite length_insert|done| | | |].
  - intros i c. rewrite list_lookup_insert. case_decide; [intros [= <-]; right; lia|apply Hfr].
  - intros q x seq. rewrite lookup_delete_Some. intros [_ ?]. by apply (Hwr q).
  - intros seq (q & x & [Hne Hq]%holder_delete). change (holder (DState d ps cl) q x seq) in Hq.
    pose proof (holder_window _ _ _ _ Hi Hu Hq) as Hwq. cbn in Hwq.
    rewrite list_lookup_insert_ne; [apply Hp; by exists q, x|].
    intros E%(window_slots (zlen cl)); [|done..]. subst seq.
    by destruct (ci_unique _ Hi _ _ _ _ _ Hpn Hq).
  - intros seq H0 H1 Hn. destruct (decide (seq = n)) as [->|Hne].
    + rewrite list_lookup_insert_eq by (rewrite Hc; by apply slot_lt).
      split; [done|]. rewrite Hcl. by apply (Hwr p).
    + rewrite list_lookup_insert_ne by (intros E%(window_slots (zlen cl)); [by subst|done..]).
      apply Hd; [done..|]. intros (q & x & Hq). apply Hn. exists q, x. apply holder_delete.
      split; [|done]. intros ->. unfold holder in *. cbn in *. rewrite Ep in Hq. cbn in Hq. by simplify_eq.
Qed.

Lemma slots_step s s' :
  claims_inv s -> unlapped N s -> slots_inv N s -> disruptor_step N s s' ->
  zlen (ds_claims s') < SIZE_MAX -> slots_inv N s'.
Proof using Hk.
  intros Hi Hu Hsl [p Hs] Hlt. pose proof (ci_cursor _ Hi) as Hcur.
  destruct Hs as [d ps cl item Hp|d ps cl item seq Hp Hc Hm|d ps cl item seq Hp Hc Hm
                 |d ps cl item seq Hp Hc|d ps cl item seq Hp|d ps cl item seq Hp]; cbn in Hcur, Hlt.
  - apply (slots_keep_quiet d ps); [| |done]; intros q x n; destruct (decide (q = p)) as [->|];
      rewrite ?lookup_insert_eq, ?lookup_insert_ne, ?Hp by done; done.
  - rewrite zlen_app in Hlt. change (zlen [item]) with 1 in Hlt.
    subst seq. rewrite Hcur in *. apply slots_keep_claim; [done|done|lia|done].
  - rewrite zlen_app in Hlt. change (zlen [item]) with 1 in Hlt. lia.
  - apply (slots_keep_quiet d ps); [| |done]; intros q x n; destruct (decide (q = p)) as [->|];
      rewrite ?lookup_delete_eq, ?lookup_delete_ne, ?Hp by done; done.
  - by apply slots_keep_write.
  - by eapply slots_keep_commit.
Qed.

End slots.

(** ** Executions *)

Section runs.
Context {T : Type} `{!Inhabited T}.
Implicit Types (s : dstate T).

Lemma unlapped_steps N s s' : rtc (unlapped_step N) s s' -> rtc (disruptor_step N) s s'.
Proof. apply rtc_subrel. by intros ?? [? _]. Qed.

Lemma disruptor_reach_inv k (Hk : 0 <= k < 64) (buf : list T) s :
  zlen buf = 2 ^ k -> rtc (unlapped_step (2 ^ k)) (dstart (2 ^ k) buf) s ->
  zlen (ds_claims s) < SIZE_MAX ->
  claims_inv s /\ unlapped (2 ^ k) s /\ slots_inv (2 ^ k) s.
Proof.
  intros Hb Hr. pattern s. revert Hr. apply rtc_ind_r.
  - intros _. split_and!; [apply claims_start| |by apply slots_start].
    intros p x seq H. unfold holder in H. cbn in H. by rewrite lookup_empty in H.
  - intros s1 s2 _ [Hs Hu] IH Hlt. pose proof (prefix_zlen _ _ (claims_grow _ _ _ Hs)).
    destruct IH as (Hc & Hu1 & Hsl); [lia|]. split_and!; [by eapply claims_step|done|].
    by eapply slots_step.
Qed.

Lemma unheld_stays_run N s s' seq :
  claims_inv s -> rtc (disruptor_step N) s s' -> zlen (ds_claims s') < SIZE_MAX ->
  seq < zlen (ds_claims s) -> ~ held s seq -> ~ held s' seq.
Proof.
  intros Hi Hr. revert Hi. induction Hr as [|s1 s2 s3 Hs Hr IH]; intros Hi Hlt Hsq Hn; [done|].
  pose proof (prefix_zlen _ _ (claims_grow _ _ _ Hs)).
  pose proof (prefix_zlen _ _ (claims_grow_rtc _ _ _ Hr)).
  apply IH; [eapply claims_step; [done..|lia]|done|lia|by eapply unheld_stays].
Qed.

Lemma is_committed_held k (Hk : 0 <= k < 64) s seq :
  slots_inv (2 ^ k) s -> 0 <= seq ->
  zlen (ds_claims s) - 2 ^ k <= seq < zlen (ds_claims s) ->
  is_committed (2 ^ k) seq (ds_ring s) = true <-> ~ held s seq.
Proof.
  intros Hsl H0 Hwin. unfold is_committed.
  destruct (lookup_lt_is_Some_2 (committed (ds_ring s)) (slot (2 ^ k) seq)) as [c Ec].
  { rewrite (si_committed _ _ Hsl). by apply slot_lt. }
  rewrite Ec. cbn [from_option id]. rewrite Z.eqb_eq. split.
  - intros -> Hh. by apply (si_pending _ _ Hsl seq).
  - intros Hn. destruct (si_done _ _ Hsl seq H0 Hwin Hn) as [E _]. congruence.
Qed.

(** Run alone, the steps of a publication are [publish]. *)
Lemma publish_steps N d (ps : gmap nat (dpc T)) cl p item :
  ps !! p = None -> cursor d <> SIZE_MAX ->
  rtc (disruptor_step N) (DState d ps cl)
      (DState (snd (publish N false item d)) ps (cl ++ [item])).
Proof.
  intros Hp Hc. unfold publish, claim. rewrite (proj2 (Z.eqb_neq _ _) Hc). cbn [snd].
  eapply rtc_l; [exists p; by apply (dstep_load _ _ _ _ _ item)|].
  eapply rtc_l; [exists p; eapply dstep_claim; [by rewrite lookup_insert_eq|done|done]|].
  eapply rtc_l; [exists p; eapply dstep_write; by rewrite lookup_insert_eq|].
  eapply rtc_l; [exists p; eapply dstep_commit; by rewrite lookup_insert_eq|].
  rewrite !insert_insert_eq, delete_insert_id by done. apply rtc_refl.
Qed.

End runs.

(** ** Schedules

    The next access of thread [p], which starts to publish [item] when it has
    no publication in progress, and the state after a list of such accesses. *)

Section schedules.
Context {T : Type} (N : Z).

Definition dnext (s : dstate T) (t : nat * T) : dstate T :=
  let '(p, item) := t in
  let '(DState d ps cl) := s in
  match ps !! p with
  | None => DState d (<[p := DLoaded item (cursor d)]> ps) cl
  | Some (DLoaded x seq) =>
      if cursor d =? seq then
        DState (Ring (u64 (seq + 1)) (committed d) (buffer d))
               (if seq =? SIZE_MAX then delete p ps else <[p := DClaimed x seq]> ps) (cl ++ [x])
      else DState d (delete p ps) cl
  | Some (DClaimed x seq) => DState (write N seq x d) (<[p := DWritten x seq]> ps) cl
  | Some (DWritten x seq) => DState (commit N seq d) (delete p ps) cl
  end.

Definition drun (sched : list (nat * T)) (s : dstate T) : dstate T := foldl dnext s sched.

Definition unlappedb (s : dstate T) : bool :=
  forallb (fun e => match in_flight e.2 with
                    | Some (_, seq) => zlen (ds_claims s) - N <=? seq
                    | None => true
                    end) (map_to_list (ds_prods s)).

Fixpoint never_lapped (sched : list (nat * T)) (s : dstate T) : bool :=
  match sched with
  | [] => true
  | t :: sched => unlappedb (dnext s t) && never_lapped sched (dnext s t)
  end.

Lemma dnext_step s t : disruptor_step N s (dnext s t).
Proof.
  destruct t as [p item], s as [d ps cl]. exists p. unfold dnext.
  destruct (ps !! p) as [[x seq|x seq|x seq]|] eqn:Ep.
  - destruct (Z.eqb_spec (cursor d) seq) as [Hc|Hc]; [|by eapply dstep_contended].
    destruct (Z.eqb_spec seq SIZE_MAX); [by apply dstep_claim_last|by apply dstep_claim].
  - by apply dstep_write.
  - by eapply dstep_commit.
  - by apply dstep_load.
Qed.

Lemma unlappedb_spec s : unlappedb s = true -> unlapped N s.
Proof.
  intros Hf p x seq Hh. unfold holder in Hh.
  destruct (ds_prods s !! p) as [ph|] eqn:E; [|done]. cbn in Hh.
  unfold unlappedb in Hf. rewrite forallb_forall in Hf.
  specialize (Hf (p, ph)). rewrite <- list_elem_of_In, elem_of_map_to_list in Hf.
  specialize (Hf E). cbn in Hf. rewrite Hh in Hf. lia.
Qed.

Lemma drun_steps sched s : rtc (disruptor_step N) s (drun sched s).
Proof.
  revert s. induction sched as [|t sched IH]; intros s; [done|].
  eapply rtc_l; [apply dnext_step|apply IH].
Qed.

Lemma drun_unlapped sched s : never_lapped sched s = true -> rtc (unlapped_step N) s (drun sched s).
Proof.
  revert s. induction sched as [|t sched IH]; intros s; [done|].
  cbn. intros [H1 H2]%andb_true_iff. eapply rtc_l; [split; [apply dnext_step|by apply unlappedb_spec]|].
  by apply IH.
Qed.

End schedules.

(** ** Properties *)

(** C38: The disruptor hands out each sequence number once and shows consumers
    only finished items: with any number of producers interleaved in any way
    in which none is overtaken by a whole lap, no two producers hold the same
    sequence number; of the last [N] sequence numbers exactly those without a
    producer at work are committed; and an item that is seen committed is read
    as published, also when it is read later, as long as its sequence number
    is still among the last [N]. *)
Theorem disruptor_conc_safe {T} `{!Inhabited T} (k : Z) (buf : list T) (s s' : dstate T) :
  0 <= k < 64 -> zlen buf = 2 ^ k ->
  rtc (unlapped_step (2 ^ k)) (dstart (2 ^ k) buf) s -> rtc (unlapped_step (2 ^ k)) s s' ->
  zlen (ds_claims s') < SIZE_MAX ->
  (forall p p' x x' seq, holder s p x seq -> holder s p' x' seq -> p = p') /\
  (forall seq, 0 <= seq -> zlen (ds_claims s) - 2 ^ k <= seq < zlen (ds_claims s) ->
     is_committed (2 ^ k) seq (ds_ring s) = true <-> ~ held s seq) /\
  (forall seq, 0 <= seq < zlen (ds_claims s) -> is_committed (2 ^ k) seq (ds_ring s) = true ->
     zlen (ds_claims s') <= seq + 2 ^ k ->
     ds_claims s' !! Z.to_nat seq = Some (get (2 ^ k) seq (ds_ring s'))).
Proof.
  intros Hk Hb Hr Hr' Hlt.
  pose proof (prefix_zlen _ _ (claims_grow_rtc _ _ _ (unlapped_steps _ _ _ Hr'))).
  destruct (disruptor_reach_inv k Hk buf s Hb Hr ltac:(lia)) as (Hi & Hu & Hsl).
  destruct (disruptor_reach_inv k Hk buf s' Hb ltac:(by etrans) Hlt) as (Hi' & Hu' & Hsl').
  split_and!; [intros *; by eapply (ci_unique _ Hi)|intros seq ??; by apply (is_committed_held k Hk)|].
  intros seq Hseq Hcom Hwin. apply (is_committed_held k Hk s seq Hsl ltac:(lia) ltac:(lia)) in Hcom.
  assert (~ held s' seq) as Hn.
  { apply (unheld_stays_run (2 ^ k) s); [done|by apply unlapped_steps|done|lia|done]. }
  destruct (si_done _ _ Hsl' seq ltac:(lia) ltac:(lia) Hn) as [_ Hg].
  unfold get. rewrite <- Hg. apply list_lookup_lookup_total.
  rewrite Hg. apply lookup_lt_is_Some_2. unfold zlen in *. lia.
Qed.

(** Two producers of a ring of two slots: while the first is between write and
    commit the second publishes; then the first commits. *)
Lemma disruptor_conc_safe_witness :
  let s := drun 2 [(0, 10); (0, 10); (0, 10); (1, 20); (1, 20); (1, 20); (1, 20)]%nat
                  (dstart 2 [0; 0]%nat) in
  let s' := drun 2 [(0, 10)]%nat s in
  (is_committed 2 0 (ds_ring s) = true <-> ~ held s 0) /\
  Some 20%nat = Some (get 2 1 (ds_ring s')).
Proof.
  intros s s'.
  destruct (disruptor_conc_safe 1 [0; 0]%nat s s') as (_ & Hc & Hg);
    [lia|done|by apply drun_unlapped|by apply drun_unlapped|by vm_compute|].
  split.
  - apply (Hc 0); [lia|by vm_compute].
  - apply (Hg 1); [by vm_compute..].
Defined.

(** A producer that is overtaken by a lap spoils an item that is committed: its
    late write replaces the item of the sequence number that took over its
    slot, which is still reported as committed. *)
Lemma disruptor_lapped_read :
  exists s : dstate nat, rtc (disruptor_step 2) (dstart 2 [0; 0]%nat) s /\
    is_committed 2 2 (ds_ring s) = true /\ ds_claims s !! 2%nat = Some 30%nat /\
    get 2 2 (ds_ring s) = 10%nat.
Proof.
  exists (drun 2 [(0, 10); (0, 10); (1, 20); (1, 20); (1, 20); (1, 20);
                  (1, 30); (1, 30); (1, 30); (1, 30); (0, 10)]%nat (dstart 2 [0; 0]%nat)).
  split; [apply drun_steps|by vm_compute].
Qed.
