(* ===== verification/Calibration.v ===== *)
(** * Calibration of the time stamp counter

    Models [bt_timer_ticks_per_ns] and [bt_timer_ticks_to_ns] of
    [src/src/utils/timer.c]: the busy wait on the monotonic clock, the rate
    in ticks per nanosecond it computes once and caches, and the conversion of
    tick counts. The readings of the clock and of the counter are arguments:
    the clock's are the list of its successive answers. *)

From S2P Require Import Prelude CTypes GwParse Price Timer.

Definition calib_ns : Z := 100000000.

(** A [struct timespec]. *)
Record timespec := Timespec { tv_sec : Z; tv_nsec : Z }.

(** The difference as the code computes it, at type [uint64_t]. *)
Definition elapsed_ns (ts_start ts_end : timespec) : Z :=
  u64 (u64 (u64 (u64 (tv_sec ts_end - tv_sec ts_start) * 1000000000) + u64 (tv_nsec ts_end))
       - u64 (tv_nsec ts_start)).

(** The do-while loop: the first reading that is late enough; [None] when the
    readings run out first. *)
Fixpoint busy_wait (ts_start : timespec) (reads : list timespec) : option timespec :=
  match reads with
  | [] => None
  | ts_end :: reads =>
      if elapsed_ns ts_start ts_end <? calib_ns then busy_wait ts_start reads else Some ts_end
  end.

(** [d > 0.0]. *)
Definition dpos (d : double_val) : bool :=
  match d with
  | DFin neg m _ => negb neg && (0 <? m)
  | DInf => true
  | DNaN => false
  end.

(** What the machine answers during a calibration. *)
Record machine := Machine {
  clock_start : timespec;
  tsc_start : Z;
  clock_reads : list timespec;
  tsc_end : Z;
}.

(** The rate returned, which is also the new value of [g_ticks_per_ns]. *)
Definition bt_timer_ticks_per_ns (mc : machine) (g_ticks_per_ns : double_val) : option double_val :=
  if dpos g_ticks_per_ns then Some g_ticks_per_ns
  else
    match busy_wait (clock_start mc) (clock_reads mc) with
    | Some ts_end =>
        Some (ddiv (double_of_Z (u64 (tsc_end mc - tsc_start mc)))
                   (double_of_Z (elapsed_ns (clock_start mc) ts_end)))
    | None => None
    end.

(** [d <= 0.0]. *)
Definition dle0 (d : double_val) : bool :=
  match d with
  | DFin neg m _ => neg || (m =? 0)
  | DInf | DNaN => false
  end.

(** [(uint64_t)d]; [None] where the conversion is undefined. *)
Definition cast_u64 (d : double_val) : option Z :=
  match d with
  | DFin neg m e =>
      let t := (m * 2 ^ (Z.max e 0)) / 2 ^ (Z.max (- e) 0) in
      if (neg && (0 <? t)) || (2 ^ 64 <=? t) then None else Some t
  | DInf | DNaN => None
  end.

(** The nanoseconds and the new value of [g_ticks_per_ns]. *)
Definition bt_timer_ticks_to_ns (mc : machine) (g_ticks_per_ns : double_val) (ticks : Z)
  : option (option Z * double_val) :=
  match (if dle0 g_ticks_per_ns then bt_timer_ticks_per_ns mc g_ticks_per_ns
         else Some g_ticks_per_ns) with
  | Some g => Some (cast_u64 (ddiv (double_of_Z ticks) g), g)
  | None => None
  end.

(** ** The wait *)

Definition ns_of (ts : timespec) : Z := tv_sec ts * 1000000000 + tv_nsec ts.

(** A reading the kernel gives: normalised, not before the start, within 146
    years of it. *)
Definition reading_ok (ts_start ts : timespec) : Prop :=
  0 <= tv_nsec ts < 1000000000 /\ ns_of ts_start <= ns_of ts < ns_of ts_start + 2 ^ 62.

Lemma elapsed_exact ts_start ts :
  0 <= tv_nsec ts_start < 1000000000 -> reading_ok ts_start ts ->
  elapsed_ns ts_start ts = ns_of ts - ns_of ts_start.
Proof.
  intros Hs [Hn Hr]. unfold elapsed_ns, ns_of in *.
  assert (0 <= tv_sec ts - tv_sec ts_start < 2 ^ 63) as Hd by lia.
  rewrite (u64_small (tv_nsec ts)), (u64_small (tv_nsec ts_start)) by (unfold is_u64; lia).
  rewrite (u64_small (tv_sec ts - _)) by (unfold is_u64; lia).
  unfold u64. rewrite Zplus_mod_idemp_l, Zminus_mod_idemp_l.
  rewrite Z.mod_small; lia.
Qed.

Lemma busy_wait_first ts_start pre ts post :
  0 <= tv_nsec ts_start < 1000000000 ->
  Forall (reading_ok ts_start) (pre ++ [ts]) ->
  Forall (fun t => ns_of t - ns_of ts_start < calib_ns) pre ->
  calib_ns <= ns_of ts - ns_of ts_start ->
  busy_wait ts_start (pre ++ ts :: post) = Some ts.
Proof.
  intros Hs Hok Hpre Hts. induction Hpre as [|t pre Ht Hpre IH]; cbn in *.
  - inversion_clear Hok. rewrite elapsed_exact by done. by rewrite (proj2 (Z.ltb_ge _ _)).
  - inversion_clear Hok. rewrite elapsed_exact, (proj2 (Z.ltb_lt _ _)) by done. by apply IH.
Qed.

(** The readings before the first late one. *)
Lemma first_late ts_start reads :
  (exists t, t ∈ reads /\ calib_ns <= ns_of t - ns_of ts_start) ->
  exists pre ts post, reads = pre ++ ts :: post /\
    Forall (fun t => ns_of t - ns_of ts_start < calib_ns) pre /\
    calib_ns <= ns_of ts - ns_of ts_start.
Proof.
  intros (t & Ht & Hlate). induction reads as [|r reads IH]; [by apply elem_of_nil in Ht|].
  destruct (Z.lt_ge_cases (ns_of r - ns_of ts_start) calib_ns) as [Hr|Hr].
  - apply elem_of_cons in Ht as [->|Ht]; [lia|].
    destruct (IH Ht) as (pre & ts & post & -> & Hpre & Hts). exists (r :: pre), ts, post.
    split_and!; [done|by constructor|done].
  - exists [], r, reads. split_and!; [done|constructor|lia].
Qed.

(** ** The conversion *)

(** The rate of [T] ticks in [E] nanoseconds: within half a unit in the last
    place. *)
Lemma rate_ratio T E :
  0 < T < 2 ^ 53 -> 2 <= E < 2 ^ 53 ->
  exists j m, 0 <= j /\ ddiv (double_of_Z T) (double_of_Z E) = DFin false m (- j) /\ 0 < m /\
    - E <= 2 * (m * E - T * 2 ^ j) <= E /\ 2 ^ 52 * E <= T * 2 ^ j.
Proof.
  intros HT HE.
  destruct (double_of_pos T HT) as (a & Ha & ->), (double_of_pos E ltac:(lia)) as (b & Hb & ->).
  unfold ddiv. rewrite !dnum_neg, !dden_neg by lia.
  pose proof (pow2_pos a Ha). pose proof (pow2_pos b Hb). rewrite Z.sgn_pos, Z.abs_eq by nia.
  assert (E <= T * 2 ^ 1000) by lia.
  destruct (round_ratio (2 ^ a * 2 ^ b) T E) as (j & m & Hj & Er & Hm & Herr & Hulp); [nia|lia..|].
  exists j, m. split; [done|]. split.
  { rewrite round_signed_pos by nia. rewrite <- Er. f_equal; lia. }
  split_and!; [nia|lia|lia|done].
Qed.

(** Dividing a tick count by the rate. *)
Lemma ticks_quotient ticks j m :
  0 < ticks < 2 ^ 53 -> 0 <= j -> 0 < m -> ticks * 2 ^ j <= 2 ^ 52 * m -> m <= ticks * 2 ^ j * 2 ^ 1000 ->
  exists k v, 0 <= k /\ ddiv (double_of_Z ticks) (DFin false m (- j)) = DFin false v (- k) /\ 0 <= v /\
    - m <= 2 * (v * m - ticks * 2 ^ j * 2 ^ k) <= m /\ 2 ^ 52 * m <= ticks * 2 ^ j * 2 ^ k.
Proof.
  intros Ht Hj Hm Hle Hge. destruct (double_of_pos ticks Ht) as (a & Ha & ->).
  unfold ddiv. rewrite !dnum_neg, !dden_neg by lia.
  pose proof (pow2_pos a Ha). pose proof (pow2_pos j Hj). rewrite Z.sgn_pos, Z.abs_eq by lia.
  destruct (round_ratio (2 ^ a) (ticks * 2 ^ j) m) as (k & v & Hk & Er & Hv & Herr & Hulp); [lia|nia|lia|lia|lia|].
  exists k, v. split; [done|]. split; [|split_and!; lia].
  rewrite round_signed_pos by nia. rewrite <- Er. f_equal; lia.
Qed.

(** The two roundings together, on integers: [t] ticks at a rate of [T] ticks
    in [e] nanoseconds, with the rate [m / J] and the quotient [v / V]. *)
Lemma two_roundings T e t J m V v :
  0 < T -> 2 <= e -> 0 < t -> 0 < J -> 0 < V -> 0 < m -> 0 <= v -> t * e <= 2 ^ 49 * T ->
  - e <= 2 * (m * e - T * J) <= e -> 2 ^ 52 * e <= T * J ->
  - m <= 2 * (v * m - t * J * V) <= m -> 2 ^ 52 * m <= t * J * V ->
  4 * v * T <= V * (4 * t * e + T) /\ V * (4 * t * e - T) <= 4 * v * T.
Proof.
  intros HT He Ht HJ HV Hm Hv Hq Hg HgJ Hd HdV.
  assert (8 * (m * e) <= T * J * V) as H1.
  { apply (Z.mul_le_mono_pos_l _ _ (2 ^ 49)); [lia|]. nia. }
  assert (2 ^ 52 - 1 <= m) as H2 by nia.
  assert (4 * (v * e) <= T * J * V) as H3.
  { assert (v * e * (2 ^ 52 - 1) <= v * e * m) by nia.
    assert (v * m * e <= t * e * (J * V) + m * e) by nia.
    assert (t * e * (J * V) <= 2 ^ 49 * T * (J * V)) by nia. nia. }
  assert (v * (2 * (T * J)) <= v * (2 * (m * e) + e)) as U1 by (apply Z.mul_le_mono_nonneg_l; lia).
  assert (v * (2 * (m * e) - e) <= v * (2 * (T * J))) as L1 by (apply Z.mul_le_mono_nonneg_l; lia).
  assert (e * (2 * (v * m)) <= e * (2 * (t * J * V) + m)) as U2 by (apply Z.mul_le_mono_nonneg_l; lia).
  assert (e * (2 * (t * J * V) - m) <= e * (2 * (v * m))) as L2 by (apply Z.mul_le_mono_nonneg_l; lia).
  split; apply (Z.mul_le_mono_pos_l _ _ J HJ); lia.
Qed.

(** The truncated quotient. *)
Lemma cast_u64_floor v k : 0 <= v -> 0 <= k -> v / 2 ^ k < 2 ^ 64 -> cast_u64 (DFin false v (- k)) = Some (v / 2 ^ k).
Proof.
  intros Hv Hk Hlt. unfold cast_u64.
  rewrite (Z.max_r (- k)), Z.opp_involutive, (Z.max_l k), Z.pow_0_r, Z.mul_1_r by lia.
  cbn [andb orb]. by rewrite (proj2 (Z.leb_gt _ _)).
Qed.

Lemma ticks_conversion T e ticks :
  0 < T < 2 ^ 53 -> 2 <= e < 2 ^ 53 -> 0 < ticks < 2 ^ 53 -> ticks * e <= 2 ^ 49 * T ->
  exists g ns, ddiv (double_of_Z T) (double_of_Z e) = g /\ dpos g = true /\ dle0 g = false /\
    cast_u64 (ddiv (double_of_Z ticks) g) = Some ns /\
    4 * ns * T <= 4 * ticks * e + T /\ 4 * ticks * e < 4 * ns * T + 5 * T.
Proof.
  intros HT He Ht Hq. destruct (rate_ratio T e HT He) as (j & m & Hj & -> & Hm & Hg & HgJ).
  pose proof (pow2_pos j Hj) as HJ.
  assert (2 ^ 52 - 1 <= m) as Hm52 by nia.
  assert (m * 1 <= T * 2 ^ j) as HmT by nia.
  destruct (ticks_quotient ticks j m Ht Hj Hm) as (k & v & Hk & E & Hv & Hd & HdV).
  { assert (ticks * e * 2 ^ j <= 2 ^ 49 * (T * 2 ^ j)) by nia. nia. }
  { assert (T * 2 ^ j <= ticks * 2 ^ j * 2 ^ 1000) by nia. lia. }
  pose proof (pow2_pos k Hk) as HV.
  destruct (two_roundings T e ticks (2 ^ j) m (2 ^ k) v) as [Hup Hlo]; try lia.
  pose proof (Z.div_mod v (2 ^ k)) as Hdm. pose proof (Z.mod_pos_bound v (2 ^ k) HV) as Hmod.
  set (ns := v / 2 ^ k) in *. set (r := v mod 2 ^ k) in *.
  assert (2 ^ k * (4 * ns * T) = 4 * (v - r) * T) as HVns by (rewrite Hdm at 1 by lia; ring).
  assert (0 <= r * T /\ r * T < 2 ^ k * T) as Hrt by (split; [nia|apply Z.mul_lt_mono_pos_r; lia]).
  assert (4 * ns * T <= 4 * ticks * e + T) as Hns.
  { apply (Z.mul_le_mono_pos_l _ _ (2 ^ k) HV). lia. }
  exists (DFin false m (- j)), ns. split_and!; [done| | | |done|].
  - cbn. by apply Z.ltb_lt.
  - cbn. apply Z.eqb_neq. lia.
  - rewrite E. apply cast_u64_floor; [done..|]. fold ns. nia.
  - apply (Z.mul_lt_mono_pos_l (2 ^ k)); [done|]. lia.
Qed.

(** ** Properties *)

(** C40: The calibration ends and the conversion is accurate: once the clock has
    given a reading 100 ms after the start, the wait is over at the first such
    reading; the rate is cached; and a tick count is converted to the
    nanoseconds the calibration interval gives it in proportion, less than
    five quarters too low and at most a quarter too high, for results up to
    [2^49] ns (six days). *)
Theorem calibration_accurate (mc : machine) (g0 : double_val) (ticks : Z) :
  let start := clock_start mc in
  let T := u64 (tsc_end mc - tsc_start mc) in
  dpos g0 = false -> dle0 g0 = true ->
  0 <= tv_nsec start < 1000000000 -> Forall (reading_ok start) (clock_reads mc) ->
  Forall (fun t => ns_of t - ns_of start < 2 ^ 53) (clock_reads mc) ->
  (exists t, t ∈ clock_reads mc /\ calib_ns <= ns_of t - ns_of start) ->
  0 < T < 2 ^ 53 -> 0 < ticks < 2 ^ 53 ->
  (forall t, t ∈ clock_reads mc -> ticks * (ns_of t - ns_of start) <= 2 ^ 49 * T) ->
  exists pre ts post e g ns,
    clock_reads mc = pre ++ ts :: post /\
    Forall (fun t => ns_of t - ns_of start < calib_ns) pre /\
    e = ns_of ts - ns_of start /\ calib_ns <= e /\
    bt_timer_ticks_to_ns mc g0 ticks = Some (Some ns, g) /\
    bt_timer_ticks_per_ns mc g = Some g /\
    4 * ns * T <= 4 * ticks * e + T /\ 4 * ticks * e < 4 * ns * T + 5 * T.
Proof.
  intros start T Hg0 Hg0' Hs Hok Hfar Hlate HT Ht Hq.
  destruct (first_late start (clock_reads mc) Hlate) as (pre & ts & post & Hr & Hpre & Hts).
  assert (ts ∈ clock_reads mc) as Hin by (rewrite Hr; set_solver).
  rewrite Forall_forall in Hfar.
  assert (busy_wait start (clock_reads mc) = Some ts) as Hw.
  { rewrite Hr in *. apply busy_wait_first; try done.
    rewrite cons_middle, app_assoc in Hok. by apply Forall_app in Hok as [? _]. }
  rewrite Forall_forall in Hok. pose proof (elapsed_exact start ts Hs (Hok ts Hin)) as He.
  set (e := ns_of ts - ns_of start) in *.
  destruct (ticks_conversion T e ticks) as (g & ns & Hg & Hpos & Hle & Hc & Hup & Hlo);
    [done|unfold calib_ns in Hts; specialize (Hfar ts Hin); lia|done|by apply Hq|].
  exists pre, ts, post, e, g, ns. split_and!; try done.
  - unfold bt_timer_ticks_to_ns. rewrite Hg0'. unfold bt_timer_ticks_per_ns. rewrite Hg0.
    fold start. rewrite Hw, He. fold T. by rewrite Hg, Hc.
  - unfold bt_timer_ticks_per_ns. by rewrite Hpos.
Qed.

(** A counter at 3 GHz: 300 000 123 ticks in 100 000 041 ns. *)
Definition machine_3ghz : machine :=
  Machine (Timespec 5 999999999) 1000 [Timespec 6 0; Timespec 6 99999998; Timespec 6 100000040]
    (1000 + 300000123).

Lemma calibration_accurate_witness :
  exists ns g, bt_timer_ticks_to_ns machine_3ghz (DFin false 0 0) 3000 = Some (Some ns, g) /\
    4 * ns * 300000123 <= 4 * 3000 * 100000041 + 300000123.
Proof.
  destruct (calibration_accurate machine_3ghz (DFin false 0 0) 3000)
    as (pre & ts & post & e & g & ns & Hr & Hpre & He & Hce & Hc & _ & Hup & _).
  - reflexivity.
  - reflexivity.
  - cbn. lia.
  - repeat (apply Forall_cons_2; [unfold reading_ok, ns_of; cbn; lia|]). by apply Forall_nil_2.
  - repeat (apply Forall_cons_2; [unfold reading_ok, ns_of; cbn; lia|]). by apply Forall_nil_2.
  - exists (Timespec 6 100000040). split; [cbn; set_solver|unfold calib_ns, ns_of; cbn; lia].
  - by vm_compute.
  - lia.
  - change (u64 (tsc_end machine_3ghz - tsc_start machine_3ghz)) with 300000123.
    intros t Ht. repeat (apply elem_of_cons in Ht as [->|Ht]; [unfold ns_of; cbn; lia|]).
    by apply elem_of_nil in Ht.
  - exists ns, g. split; [exact Hc|].
    assert (e <= 100000041) as Hle.
    { subst e. assert (ts ∈ clock_reads machine_3ghz) as Hin
        by (rewrite Hr; apply elem_of_app; right; left).
      clear -Hin. repeat (apply elem_of_cons in Hin as [->|Hin]; [unfold ns_of; cbn; lia|]).
      by apply elem_of_nil in Hin. }
    change (u64 (tsc_end machine_3ghz - tsc_start machine_3ghz)) with 300000123 in Hup. lia.
Defined.
