(* ===== verification/Numa.v ===== *)
(** * NUMA placement and CPU affinity

    Models [src/src/utils/numa.c] and [src/src/utils/cpu_affinity.c] on Linux:
    page-granular allocation on a NUMA node or on huge pages with its
    fallbacks, the prefault loops, and the thin wrappers over libnuma, the
    scheduler and [sysconf]. What libnuma and the kernel answer is a parameter;
    the address space is the set of its mapped pages. The two allocators fulfil
    one contract ([RegionAllocator]), from which the bookkeeping theorem
    follows for both. *)

From S2P Require Import Prelude.
From stdpp Require Import sorting.

#[local] Open Scope Z_scope.

(** ** The address space *)

Definition PAGE : Z := 4096.

(** The pages of [ptr, ptr + len), for page-aligned ends. *)
Definition pages_of (ptr len : Z) : gset Z := list_to_set (seqZ (ptr / PAGE) (len / PAGE)).

(** The mapped pages, and the addresses the prefault loops wrote, in order. *)
Record vm := Vm { vm_pages : gset Z; vm_writes : list Z }.

Definition map_region (ptr len : Z) (v : vm) : vm :=
  Vm (vm_pages v ∪ pages_of ptr len) (vm_writes v).
Definition unmap_region (ptr len : Z) (v : vm) : vm :=
  Vm (vm_pages v ∖ pages_of ptr len) (vm_writes v).
Definition write_all (ws : list Z) (v : vm) : vm := Vm (vm_pages v) (vm_writes v ++ ws).

(** [for (i = 0; i < size; i += step) p[i] = 0]: the addresses written. *)
Fixpoint prefault_loop (fuel : nat) (p i size step : Z) : list Z :=
  match fuel with
  | O => []
  | S fuel =>
      if i <? size then (p + i) :: prefault_loop fuel p (u64 (i + step)) size step else []
  end.

Definition prefault (p size step : Z) : list Z :=
  prefault_loop (S (Z.to_nat (size / step + 1))) p 0 size step.

(** ** [numa.c] *)

(** The answers of libnuma and of [mmap]; an address or nothing. *)
Record numa_env := NumaEnv {
  numa_available : Z;
  numa_num_configured_nodes : Z;
  sched_getcpu : Z;
  numa_node_of_cpu : Z -> Z;
  numa_alloc_onnode : Z -> Z -> option Z;
  mmap_plain : Z -> option Z;
}.

Definition bt_numa_num_nodes (e : numa_env) : Z :=
  if numa_available e <? 0 then 1 else numa_num_configured_nodes e.

Definition bt_numa_node_of_cpu (e : numa_env) (cpu : Z) : Z :=
  if numa_available e <? 0 then 0 else numa_node_of_cpu e cpu.

Definition bt_numa_current_node (e : numa_env) : Z := bt_numa_node_of_cpu e (sched_getcpu e).

Definition bt_numa_alloc (e : numa_env) (size node : Z) (v : vm) : Z * vm :=
  let aligned := align_up 4096 size in
  let mapped ptr := (ptr, write_all (prefault ptr aligned 4096) (map_region ptr aligned v)) in
  match (if 0 <=? numa_available e then numa_alloc_onnode e aligned node else None) with
  | Some ptr => mapped ptr
  | None =>
      match mmap_plain e aligned with
      | Some ptr => mapped ptr
      | None => (0, v)
      end
  end.

Definition bt_numa_alloc_local (e : numa_env) (size : Z) (v : vm) : Z * vm :=
  bt_numa_alloc e size (bt_numa_current_node e) v.

(** [numa_free] unmaps the range, as [munmap] does. *)
Definition bt_numa_free (ptr size : Z) (v : vm) : vm :=
  if ptr =? 0 then v else unmap_region ptr (align_up 4096 size) v.

(** [move_pages]: the status of the page, if the call succeeds;
    [get_mempolicy]: the node, if the call succeeds. *)
Definition bt_numa_node_of_ptr (available : Z) (move_pages get_mempolicy : option Z) : Z :=
  if available <? 0 then -1
  else
    let node := default (-1) move_pages in
    if node <? 0 then default node get_mempolicy else node.

(** What [bt_numa_bind_thread] returns and the nodes it binds to, if it gets
    as far as [numa_bind]. *)
Definition bt_numa_bind_thread (available : Z) (nodemask_allocated : bool) (node : Z)
  : Z * option (list Z) :=
  if available <? 0 then (-1, None)
  else if negb nodemask_allocated then (-1, None)
  else (0, Some [node]).

Record bt_numa_stats := NumaStats { ns_total_bytes : Z; ns_free_bytes : Z; ns_alloc_bytes : Z }.

(** [node_size]: the result of [numa_node_size] and the free bytes it stores,
    if it stores them. *)
Definition bt_numa_node_stats (available : Z) (node_size : Z * option Z) (stats : option bt_numa_stats)
  : Z * option bt_numa_stats :=
  match stats with
  | None => (-1, None)
  | Some _ =>
      if available <? 0 then (-1, Some (NumaStats 0 0 0))
      else (0, Some (NumaStats (u64 node_size.1) (u64 (default 0 node_size.2)) 0))
  end.

(** ** [cpu_affinity.c] *)

(** [cpu_set_t] has 1024 bits; [CPU_SET] ignores an index beyond them, and a
    negative one is beyond them as a [size_t]. *)
Definition CPU_SETSIZE : Z := 1024.
Definition CPU_SET (cpu set : Z) : Z :=
  if (0 <=? cpu) && (cpu <? CPU_SETSIZE) then Z.setbit set cpu else set.

(** [setaffinity]: [pthread_setaffinity_np] on the thread, from the set. *)
Definition bt_cpu_pin_pthread (setaffinity : Z -> Z) (cpu : Z) : Z :=
  setaffinity (CPU_SET cpu 0).
Definition bt_cpu_pin_thread (setaffinity : Z -> Z) (cpu : Z) : Z :=
  setaffinity (CPU_SET cpu 0).

(** [setschedparam]: [pthread_setschedparam] with [SCHED_FIFO]. *)
Definition bt_cpu_set_realtime (setschedparam : Z -> Z) (priority : Z) : Z := setschedparam priority.

(** [mlockall] with the flags [MCL_CURRENT | MCL_FUTURE]. *)
Definition bt_cpu_mlockall (mlockall : Z -> Z) : Z := mlockall (Z.lor 1 2).

Record map_env := MapEnv { mmap_hugetlb : Z -> option Z; mmap_small : Z -> option Z }.

(** The address, the address space, and whether [madvise] was called on it. *)
Definition bt_cpu_alloc_hugepages (e : map_env) (size : Z) (v : vm) : Z * vm * bool :=
  let aligned_size := align_up (2 * 1024 * 1024) size in
  match mmap_hugetlb e aligned_size with
  | Some ptr => (ptr, map_region ptr aligned_size v, false)
  | None =>
      match mmap_small e aligned_size with
      | Some ptr => (ptr, map_region ptr aligned_size v, true)
      | None => (0, v, false)
      end
  end.

Definition bt_cpu_free_hugepages (ptr size : Z) (v : vm) : vm :=
  if ptr =? 0 then v else unmap_region ptr (align_up (2 * 1024 * 1024) size) v.

Definition bt_cpu_count (nprocessors : Z) : Z := i32 nprocessors.
Definition bt_cpu_numa_node (cpu : Z) : Z := 0.

(** The range passed to [madvise], if it is called. *)
Definition bt_cpu_madvise_hugepage (ptr size : Z) : option (Z * Z) :=
  if negb (ptr =? 0) && (0 <? size) then Some (ptr, size) else None.

(** The addresses written. *)
Definition bt_cpu_prefault (page_size ptr size : Z) : list Z :=
  if (ptr =? 0) || (size =? 0) then [] else prefault ptr size page_size.

(** ** The prefault loops *)

(** The number of steps: the quotient rounded up. *)
Definition steps (size step : Z) : Z := (size + step - 1) / step.

Lemma steps_nonneg size step : 0 < step -> 0 <= size + step - 1 -> 0 <= steps size step.
Proof. intros Hs H. apply Z.div_pos; lia. Qed.

Lemma prefault_loop_eq fuel p i size step :
  0 < step -> size + step <= 2 ^ 64 -> 0 <= i -> i <= size + step - 1 ->
  steps (size - i) step < Z.of_nat fuel ->
  prefault_loop fuel p i size step = (fun k => p + i + k * step) <$> seqZ 0 (steps (size - i) step).
Proof.
  intros Hs Hov. revert i. induction fuel as [|fuel IH]; intros i Hi Hb Hf.
  { pose proof (steps_nonneg (size - i) step Hs ltac:(lia)). lia. }
  cbn [prefault_loop]. destruct (Z.ltb_spec i size) as [Hlt|Hge].
  - rewrite u64_small by (unfold is_u64; lia).
    assert (steps (size - i) step = steps (size - (i + step)) step + 1) as Hst.
    { unfold steps. rewrite <- Z.div_add by lia. f_equal. lia. }
    rewrite IH by lia. rewrite Hst, (seqZ_cons 0 (_ + 1))
      by (pose proof (steps_nonneg (size - (i + step)) step Hs ltac:(lia)); lia).
    rewrite fmap_cons. f_equal; [lia|].
    rewrite Z.add_1_r, Z.pred_succ. rewrite <- (fmap_add_seqZ 1 0), <- list_fmap_compose.
    apply list_fmap_ext. intros j x _. cbn. lia.
  - rewrite seqZ_nil; [done|]. unfold steps.
    enough ((size - i + step - 1) / step < 1) by lia. apply Z.div_lt_upper_bound; lia.
Qed.

(** The loop ends and writes one address per step. *)
Lemma prefault_eq p size step :
  0 < step -> 0 <= size -> size + step <= 2 ^ 64 ->
  prefault p size step = (fun k => p + k * step) <$> seqZ 0 (steps size step).
Proof.
  intros Hs H0 Hov. unfold prefault.
  rewrite prefault_loop_eq; [|lia..|].
  - rewrite Z.sub_0_r. apply list_fmap_ext. intros j x _. lia.
  - rewrite Z.sub_0_r. unfold steps. rewrite Nat2Z.inj_succ, Z2Nat.id.
    + assert ((size + step - 1) / step <= size / step + 1) as Hle; [|lia].
      rewrite <- Z.div_add by lia. apply Z.div_le_mono; lia.
    + assert (0 <= size / step) by (apply Z.div_pos; lia). lia.
Qed.

(** Every write is inside the buffer, and every page of a page-aligned buffer
    is written exactly once, in order. *)
Lemma prefault_pages p size :
  0 <= p -> (PAGE | p) -> 0 <= size -> size + PAGE <= 2 ^ 64 ->
  Forall (fun a => p <= a < p + size) (prefault p size PAGE) /\
  (fun a => a / PAGE) <$> prefault p size PAGE = seqZ (p / PAGE) (steps size PAGE).
Proof.
  intros Hp [q ->] H0 Hov. rewrite prefault_eq by (unfold PAGE in *; lia). split.
  - apply Forall_fmap, Forall_forall. intros k Hk%elem_of_seqZ. cbn.
    unfold steps in Hk. pose proof (Z.mul_div_le (size + PAGE - 1) PAGE ltac:(done)).
    unfold PAGE in *. nia.
  - rewrite <- list_fmap_compose, Z.div_mul by done.
    rewrite <- (Z.add_0_r q) at 1. rewrite <- (fmap_add_seqZ q 0).
    apply list_fmap_ext. intros j x _. cbn. rewrite <- Z.mul_add_distr_r. by rewrite Z.div_mul.
Qed.

(** ** The contract of a region allocator *)

(** What the kernel promises about a region it maps: page-aligned, not at
    address zero, inside the address space, on pages that were free. *)
Definition fresh_region (ptr len : Z) (v : vm) : Prop :=
  0 < ptr /\ (PAGE | ptr) /\ ptr + len <= 2 ^ 64 /\ pages_of ptr len ## vm_pages v.

(** An answer of [mmap] for [len] bytes: none for zero bytes. *)
Definition honest (answer : option Z) (len : Z) (v : vm) : Prop :=
  forall ptr, answer = Some ptr -> 0 < len /\ fresh_region ptr len v.

Class RegionAllocator (E : Type) := {
  ra_len : Z -> Z;
  ra_honest : E -> Z -> vm -> Prop;
  ra_alloc : E -> Z -> vm -> Z * vm;
  ra_free : Z -> Z -> vm -> vm;
  ra_len_pages : forall size, (PAGE | ra_len size);
  ra_alloc_spec : forall e size v p v',
    is_u64 size -> ra_honest e size v -> ra_alloc e size v = (p, v') ->
    (p = 0 /\ v' = v) \/
    (fresh_region p (ra_len size) v /\ size <= ra_len size /\
     vm_pages v' = vm_pages v ∪ pages_of p (ra_len size));
  ra_free_spec : forall p size v, p <> 0 ->
    vm_pages (ra_free p size v) = vm_pages v ∖ pages_of p (ra_len size);
}.

(** The rounded length covers the size unless it wrapped around to zero. *)
Lemma aligned_covers k size :
  0 <= k <= 63 -> is_u64 size -> 0 < align_up (2 ^ k) size -> size <= align_up (2 ^ k) size.
Proof.
  intros Hk Hs Hpos. pose proof (pow2_pos k ltac:(lia)) as Hp.
  destruct (Z.lt_ge_cases (size + 2 ^ k - 1) (2 ^ 64)) as [Hlt|Hge].
  - unfold is_u64 in Hs. destruct (align_up_spec k size ltac:(lia) ltac:(lia) Hlt) as (q & -> & Hq). lia.
  - exfalso. unfold align_up in Hpos.
    rewrite land_not64_pow2 in Hpos by (try apply u64_range; lia).
    assert (2 ^ k <= 2 ^ 63) by (apply Z.pow_le_mono_r; lia).
    assert (u64 (size + 2 ^ k - 1) = size + 2 ^ k - 1 - 2 ^ 64) as E.
    { unfold u64. symmetry. apply (Z.mod_unique_pos _ _ 1); unfold is_u64 in *; lia. }
    rewrite E in Hpos. unfold is_u64 in Hs. rewrite Z.mod_small in Hpos; lia.
Qed.

Lemma align_up_pages k size : 12 <= k <= 63 -> (PAGE | align_up (2 ^ k) size).
Proof.
  intros Hk. unfold align_up. rewrite land_not64_pow2 by (try apply u64_range; lia).
  pose proof (pow2_pos k ltac:(lia)).
  exists (u64 (size + 2 ^ k - 1) / 2 ^ k * 2 ^ (k - 12)).
  unfold PAGE. change 4096 with (2 ^ 12). rewrite <- Z.mul_assoc, <- Z.pow_add_r by lia.
  replace (k - 12 + 12) with k by lia.
  pose proof (Z.div_mod (u64 (size + 2 ^ k - 1)) (2 ^ k)). lia.
Qed.

(** [bt_numa_alloc] and [bt_numa_free]. The environment has the node asked
    for. *)
Definition numa_honest (en : numa_env * Z) (size : Z) (v : vm) : Prop :=
  honest (numa_alloc_onnode en.1 (align_up 4096 size) en.2) (align_up 4096 size) v /\
  honest (mmap_plain en.1 (align_up 4096 size)) (align_up 4096 size) v.

Lemma numa_alloc_spec (en : numa_env * Z) size v p v' :
  is_u64 size -> numa_honest en size v -> bt_numa_alloc en.1 size en.2 v = (p, v') ->
  (p = 0 /\ v' = v) \/
  (fresh_region p (align_up 4096 size) v /\ size <= align_up 4096 size /\
   vm_pages v' = vm_pages v ∪ pages_of p (align_up 4096 size)).
Proof.
  intros Hs [H1 H2]. unfold bt_numa_alloc.
  assert (forall ptr, 0 < align_up 4096 size /\ fresh_region ptr (align_up 4096 size) v ->
    (ptr, write_all (prefault ptr (align_up 4096 size) 4096) (map_region ptr (align_up 4096 size) v)) = (p, v') ->
    fresh_region p (align_up 4096 size) v /\ size <= align_up 4096 size /\
    vm_pages v' = vm_pages v ∪ pages_of p (align_up 4096 size)) as Hmapped.
  { intros ptr [Hpos Hf] [= <- <-]. split_and!; [done| |done].
    apply (aligned_covers 12); [lia|done|exact Hpos]. }
  destruct (if 0 <=? numa_available en.1 then _ else None) as [ptr|] eqn:E1.
  { right. apply (Hmapped ptr); [|done]. apply H1. by destruct (0 <=? numa_available en.1). }
  destruct (mmap_plain en.1 (align_up 4096 size)) as [ptr|] eqn:E2.
  - right. apply (Hmapped ptr); [|done]. by apply H2.
  - left. by simplify_eq.
Qed.

Definition numa_allocator : RegionAllocator (numa_env * Z).
Proof.
  refine {| ra_len := align_up 4096; ra_honest := numa_honest;
            ra_alloc := fun en size v => bt_numa_alloc en.1 size en.2 v;
            ra_free := bt_numa_free; ra_alloc_spec := numa_alloc_spec;
            ra_len_pages := fun size => align_up_pages 12 size ltac:(lia) |}.
  intros p size v Hp. unfold bt_numa_free. by rewrite (proj2 (Z.eqb_neq p 0)).
Defined.

(** [bt_cpu_alloc_hugepages] and [bt_cpu_free_hugepages]. *)
Definition huge_honest (e : map_env) (size : Z) (v : vm) : Prop :=
  honest (mmap_hugetlb e (align_up (2 ^ 21) size)) (align_up (2 ^ 21) size) v /\
  honest (mmap_small e (align_up (2 ^ 21) size)) (align_up (2 ^ 21) size) v.

Definition huge_allocator : RegionAllocator map_env.
Proof.
  refine {| ra_len := align_up (2 ^ 21); ra_honest := huge_honest;
            ra_alloc := fun e size v => (bt_cpu_alloc_hugepages e size v).1;
            ra_free := bt_cpu_free_hugepages;
            ra_len_pages := fun size => align_up_pages 21 size ltac:(lia) |}.
  - intros e size v p v' Hs [H1 H2]. unfold bt_cpu_alloc_hugepages.
    change (2 * 1024 * 1024) with (2 ^ 21).
    assert (forall ptr, 0 < align_up (2 ^ 21) size /\ fresh_region ptr (align_up (2 ^ 21) size) v ->
      (ptr, map_region ptr (align_up (2 ^ 21) size) v) = (p, v') ->
      fresh_region p (align_up (2 ^ 21) size) v /\ size <= align_up (2 ^ 21) size /\
      vm_pages v' = vm_pages v ∪ pages_of p (align_up (2 ^ 21) size)) as Hmapped.
    { intros ptr [Hpos Hf] [= <- <-]. split_and!; [done| |done].
      apply (aligned_covers 21); [lia|done|exact Hpos]. }
    destruct (mmap_hugetlb e _) as [ptr|] eqn:E1;
      [right; apply (Hmapped ptr); [by apply H1|done]|].
    destruct (mmap_small e _) as [ptr|] eqn:E2;
      [right; apply (Hmapped ptr); [by apply H2|done]|].
    left. by simplify_eq/=.
  - intros p size v Hp. unfold bt_cpu_free_hugepages. by rewrite (proj2 (Z.eqb_neq p 0)).
Defined.

(** ** Clients of a region allocator *)

Section regions.
Context {E : Type} (RA : RegionAllocator E).

(** The blocks a client holds, with the sizes it asked for; it frees with the
    size it asked for. *)
Inductive ra_reach (v0 : vm) : list (Z * Z) -> vm -> Prop :=
  | ra_start : ra_reach v0 [] v0
  | ra_got held v e size p v' :
      ra_reach v0 held v -> is_u64 size -> ra_honest e size v ->
      ra_alloc e size v = (p, v') -> p <> 0 -> ra_reach v0 ((p, size) :: held) v'
  | ra_refused held v e size v' :
      ra_reach v0 held v -> is_u64 size -> ra_honest e size v ->
      ra_alloc e size v = (0, v') -> ra_reach v0 held v'
  | ra_gave held1 p size held2 v :
      ra_reach v0 (held1 ++ (p, size) :: held2) v ->
      ra_reach v0 (held1 ++ held2) (ra_free p size v).

Definition block_pages (b : Z * Z) : list Z := seqZ (b.1 / PAGE) (ra_len b.2 / PAGE).
Definition held_pages (held : list (Z * Z)) : list Z := mjoin (block_pages <$> held).

Record accounted (v0 : vm) (held : list (Z * Z)) (v : vm) : Prop := {
  a_pages : vm_pages v = vm_pages v0 ∪ list_to_set (held_pages held);
  a_nodup : NoDup (held_pages held);
  a_fresh : forall x, x ∈ held_pages held -> x ∉ vm_pages v0;
  a_blocks : Forall (fun b => 0 < b.1 /\ (PAGE | b.1) /\ b.2 <= ra_len b.2) held;
}.

Lemma held_pages_middle held1 b held2 :
  held_pages (held1 ++ b :: held2) ≡ₚ block_pages b ++ held_pages (held1 ++ held2).
Proof using.
  unfold held_pages. rewrite !fmap_app, fmap_cons, !join_app. cbn.
  rewrite !app_assoc. by rewrite (Permutation_app_comm (mjoin _) (block_pages b)).
Qed.

Lemma accounted_got v0 held v e size p v' :
  accounted v0 held v -> is_u64 size -> ra_honest e size v ->
  ra_alloc e size v = (p, v') -> p <> 0 -> accounted v0 ((p, size) :: held) v'.
Proof using.
  intros [Hp Hnd Hf Hb] Hs Hh Ha Hp0.
  destruct (ra_alloc_spec e size v p v' Hs Hh Ha) as [[? _]|((Hpos & Hal & Hend & Hdis) & Hcov & Hv')]; [done|].
  change (held_pages ((p, size) :: held)) with (block_pages (p, size) ++ held_pages held).
  unfold pages_of in *. fold (block_pages (p, size)) in *.
  rewrite Hp in Hdis, Hv'.
  split.
  - rewrite Hv'. change (held_pages ((p, size) :: held)) with (block_pages (p, size) ++ held_pages held).
    unfold block_pages. cbn [fst snd]. rewrite list_to_set_app_L. set_solver.
  - change (held_pages ((p, size) :: held)) with (block_pages (p, size) ++ held_pages held).
    apply NoDup_app. split_and!; [apply NoDup_seqZ| |done].
    intros x Hx Hx'. unfold block_pages in Hx. cbn [fst snd] in Hx. set_solver.
  - change (held_pages ((p, size) :: held)) with (block_pages (p, size) ++ held_pages held).
    intros x [Hx|Hx]%elem_of_app; [|by apply Hf]. unfold block_pages in Hx. cbn [fst snd] in Hx. set_solver.
  - by constructor.
Qed.

Lemma accounted_gave v0 held1 p size held2 v :
  accounted v0 (held1 ++ (p, size) :: held2) v ->
  accounted v0 (held1 ++ held2) (ra_free p size v).
Proof using.
  intros [Hp Hnd Hf Hb]. pose proof (held_pages_middle held1 (p, size) held2) as Hperm.
  rewrite Hperm in Hnd. apply NoDup_app in Hnd as (_ & Hdis & Hnd).
  apply Forall_app in Hb as [Hb1 Hb2]. inversion_clear Hb2 as [|?? (Hpos & _) Hb2'].
  split.
  - rewrite ra_free_spec by (cbn in Hpos; lia). rewrite Hp, Hperm, list_to_set_app_L.
    unfold pages_of. fold (block_pages (p, size)).
    assert (forall x, x ∈ block_pages (p, size) -> x ∉ vm_pages v0) as Hf'.
    { intros x Hx. apply Hf. rewrite Hperm. set_solver. }
    unfold block_pages in *. cbn [fst snd] in *. set_solver.
  - done.
  - intros x Hx. apply Hf. rewrite Hperm. set_solver.
  - by apply Forall_app.
Qed.

Lemma ra_reach_accounted v0 held v : ra_reach v0 held v -> accounted v0 held v.
Proof using.
  induction 1 as [|held v e size p v' _ IH Hs Hh Ha Hp|held v e size v' _ IH Hs Hh Ha|held1 p size held2 v _ IH].
  - split; cbn; [set_solver|constructor|by intros x ?%elem_of_nil|constructor].
  - by eapply accounted_got.
  - destruct (ra_alloc_spec e size v 0 v' Hs Hh Ha) as [[_ ->]|((Hpos & _) & _)]; [done|lia].
  - by eapply accounted_gave.
Qed.

(** A byte of a block is on one of its pages. *)
Lemma block_page b x :
  0 < b.1 -> (PAGE | b.1) -> b.2 <= ra_len b.2 -> b.1 <= x < b.1 + b.2 -> x / PAGE ∈ block_pages b.
Proof using.
  intros Hpos [q Hq] Hcov Hx. destruct (ra_len_pages b.2) as [n Hn].
  unfold block_pages. apply elem_of_seqZ. rewrite Hn, Hq in *. rewrite !Z.div_mul by done.
  unfold PAGE in *. split; [apply Z.div_le_lower_bound|apply Z.div_lt_upper_bound]; lia.
Qed.

Lemma blocks_apart held i j b b' x :
  NoDup (held_pages held) -> Forall (fun b => 0 < b.1 /\ (PAGE | b.1) /\ b.2 <= ra_len b.2) held ->
  held !! i = Some b -> held !! j = Some b' -> i <> j ->
  b.1 <= x < b.1 + b.2 -> ~ (b'.1 <= x < b'.1 + b'.2).
Proof using.
  intros Hnd Hb Hi Hj Hij Hx Hx'.
  assert (exists h1 h2, held = h1 ++ b :: h2 /\ b' ∈ h1 ++ h2) as (h1 & h2 & -> & Hin).
  { exists (take i held), (drop (S i) held). split; [by rewrite take_drop_middle|].
    rewrite elem_of_app. destruct (decide (j < i)%nat).
    - left. apply list_elem_of_lookup_2 with j. by rewrite lookup_take_lt.
    - right. apply list_elem_of_lookup_2 with (j - S i)%nat. rewrite lookup_drop.
      by replace (S i + (j - S i))%nat with j by lia. }
  rewrite held_pages_middle in Hnd. apply NoDup_app in Hnd as (_ & Hdis & _).
  rewrite Forall_forall in Hb.
  destruct (Hb b) as (? & ? & ?); [set_solver|]. destruct (Hb b') as (? & ? & ?); [set_solver|].
  apply (Hdis (x / PAGE)); [by apply block_page|].
  unfold held_pages. apply list_elem_of_join. exists (block_pages b'). split; [by apply block_page|].
  by apply list_elem_of_fmap_2.
Qed.

End regions.

(** ** Properties *)

(** C39: The page-granular allocators keep the books: with whatever honest answers
    libnuma and the kernel give, for a client that frees what it holds with
    the size it asked for, the mapped pages are the initial ones and those of
    the held blocks, no byte belongs to two blocks, and when nothing is held
    the address space is as it was. It holds of [bt_numa_alloc] and of
    [bt_cpu_alloc_hugepages]. *)
Theorem region_allocators_balanced (v0 v : vm) (held : list (Z * Z)) :
  ra_reach numa_allocator v0 held v \/ ra_reach huge_allocator v0 held v ->
  (forall b, b ∈ held -> 0 < b.1 /\ (PAGE | b.1)) /\
  (forall i j b b' x, held !! i = Some b -> held !! j = Some b' -> i <> j ->
     b.1 <= x < b.1 + b.2 -> ~ (b'.1 <= x < b'.1 + b'.2)) /\
  (forall b x, b ∈ held -> b.1 <= x < b.1 + b.2 -> x / PAGE ∈ vm_pages v /\ x / PAGE ∉ vm_pages v0) /\
  vm_pages v0 ⊆ vm_pages v /\
  (held = [] -> vm_pages v = vm_pages v0).
Proof.
  assert (forall E (RA : RegionAllocator E), ra_reach RA v0 held v ->
    (forall b, b ∈ held -> 0 < b.1 /\ (PAGE | b.1)) /\
    (forall i j b b' x, held !! i = Some b -> held !! j = Some b' -> i <> j ->
       b.1 <= x < b.1 + b.2 -> ~ (b'.1 <= x < b'.1 + b'.2)) /\
    (forall b x, b ∈ held -> b.1 <= x < b.1 + b.2 -> x / PAGE ∈ vm_pages v /\ x / PAGE ∉ vm_pages v0) /\
    vm_pages v0 ⊆ vm_pages v /\ (held = [] -> vm_pages v = vm_pages v0)) as Hall;
    [|intros [H|H]; by eapply Hall].
  intros E RA Hr. destruct (ra_reach_accounted RA v0 held v Hr) as [Hp Hnd Hf Hb].
  pose proof Hb as Hb'. rewrite Forall_forall in Hb'.
  split_and!.
  - intros b Hin. destruct (Hb' b Hin) as (? & ? & _). done.
  - intros i j b b' x. by apply (blocks_apart RA).
  - intros b x Hin Hx. destruct (Hb' b Hin) as (? & ? & ?).
    assert (x / PAGE ∈ held_pages RA held) as Hpg.
    { apply list_elem_of_join. exists (block_pages RA b). split; [by apply block_page|].
      by apply list_elem_of_fmap_2. }
    split; [|by apply Hf]. rewrite Hp. apply elem_of_union. right. by apply elem_of_list_to_set.
  - rewrite Hp. apply union_subseteq_l.
  - intros ->. rewrite Hp. cbn. apply union_empty_r_L.
Qed.

(** A block that was allocated on a node has been written once on each of its
    pages and nowhere else. *)
Lemma numa_alloc_prefaults (e : numa_env) (size node : Z) (v v' : vm) (p : Z) :
  is_u64 size -> numa_honest (e, node) size v -> bt_numa_alloc e size node v = (p, v') -> p <> 0 ->
  exists ws, vm_writes v' = vm_writes v ++ ws /\
    (fun a => a / PAGE) <$> ws = seqZ (p / PAGE) (align_up 4096 size / PAGE) /\
    Forall (fun a => p <= a < p + align_up 4096 size) ws.
Proof.
  intros Hs Hh Ha Hp.
  destruct (numa_alloc_spec (e, node) size v p v' Hs Hh Ha) as [[? _]|((Hpos & Hal & Hend & _) & _ & _)]; [done|].
  destruct (align_up_pages 12 size ltac:(lia)) as [n Hn]. change (2 ^ 12) with 4096 in Hn.
  assert (0 <= align_up 4096 size) as H0.
  { unfold align_up. apply Z.land_nonneg. left. apply u64_range. }
  assert (align_up 4096 size + PAGE <= 2 ^ 64) as Hov.
  { destruct Hal as [q Hq]. unfold PAGE in *. lia. }
  exists (prefault p (align_up 4096 size) 4096). split.
  - unfold bt_numa_alloc in Ha.
    destruct (if 0 <=? numa_available e then _ else None); [by simplify_eq|].
    destruct (mmap_plain e (align_up 4096 size)); by simplify_eq.
  - destruct (prefault_pages p (align_up 4096 size) ltac:(lia) Hal H0 Hov) as [Hin Hpg].
    split; [|done]. unfold PAGE in *. rewrite Hpg. f_equal. unfold steps. rewrite Hn.
    rewrite Z.div_mul by done. rewrite <- Z.add_sub_assoc, Z.div_add_l by done. rewrite Z.div_small; lia.
Qed.

(** A buffer that does not start on a page boundary can keep its last page
    untouched: the loop steps by whole pages from its first byte. *)
Lemma prefault_misses_last_page :
  bt_cpu_prefault 4096 (4096 + 4095) 2 = [8191] /\ (4096 + 4095 + 2 - 1) / 4096 = 2 /\ 8191 / 4096 = 1.
Proof. done. Qed.

(** Pinning to a core beyond the set asks for the empty set, and an error is
    the positive error number [pthread_setaffinity_np] documents, not [-1]. *)
Lemma pin_error_is_positive (setaffinity : Z -> Z) (cpu : Z) :
  (forall set, 0 <= setaffinity set) -> setaffinity 0 = 22 ->
  0 <= bt_cpu_pin_thread setaffinity cpu /\
  (cpu < 0 \/ CPU_SETSIZE <= cpu -> bt_cpu_pin_thread setaffinity cpu = 22).
Proof.
  intros Hpos Hempty. split; [apply Hpos|]. intros Hout. unfold bt_cpu_pin_thread, CPU_SET.
  destruct (Z.leb_spec 0 cpu), (Z.ltb_spec cpu CPU_SETSIZE); cbn; try done. lia.
Qed.

(** Pinning to a core of the set names that core only. *)
Lemma pin_exact cpu i :
  0 <= cpu < CPU_SETSIZE -> 0 <= i -> Z.testbit (CPU_SET cpu 0) i = bool_decide (i = cpu).
Proof.
  intros Hc Hi. unfold CPU_SET. rewrite (proj2 (Z.leb_le _ _)), (proj2 (Z.ltb_lt _ _)) by lia. cbn [andb].
  rewrite Z.setbit_eqb, Z.bits_0, orb_false_r by lia.
  case_bool_decide; [subst; apply Z.eqb_refl|apply Z.eqb_neq; lia].
Qed.

(** The statistics of a node that does not exist are reported as a success
    with [2^64 - 1] bytes in total. *)
Lemma node_stats_of_missing_node stats :
  bt_numa_node_stats 0 (-1, None) (Some stats) = (0, Some (NumaStats (2 ^ 64 - 1) 0 0)).
Proof. done. Qed.

(** ** Witness *)

Definition env_two_nodes : numa_env :=
  NumaEnv 0 2 3 (fun cpu => cpu mod 2) (fun len _ => if len =? 0 then None else Some 8192) (fun _ => None).

Lemma two_nodes_honest (v : vm) (size node : Z) :
  vm_pages v = ∅ -> 0 <= size < 2 ^ 32 -> numa_honest (env_two_nodes, node) size v.
Proof.
  intros Hv Hs. split; intros ptr; cbn; [|done].
  destruct (Z.eqb_spec (align_up 4096 size) 0) as [|Hne]; [done|]. intros [= <-].
  destruct (align_up_spec 12 size) as (q & Hq & Hr); [lia|lia|lia|]. change (2 ^ 12) with 4096 in *.
  rewrite Hq in *. split; [lia|]. split_and!; [lia|by exists 2|lia|]. rewrite Hv. set_solver.
Qed.

Lemma region_allocators_balanced_witness :
  let v1 := (bt_numa_alloc_local env_two_nodes 5000 (Vm ∅ [])).2 in
  2 ∈ vm_pages v1 /\ 3 ∈ vm_pages v1 /\ vm_pages (bt_numa_free 8192 5000 v1) = ∅.
Proof.
  intros v1.
  assert (ra_reach numa_allocator (Vm ∅ []) ([] ++ (8192, 5000) :: []) v1) as Hr.
  { eapply (ra_got numa_allocator _ _ _ (env_two_nodes, 1) 5000 8192);
      [apply ra_start|unfold is_u64; lia|by apply two_nodes_honest|reflexivity|done]. }
  destruct (region_allocators_balanced (Vm ∅ []) v1 [(8192, 5000)] (or_introl Hr))
    as (_ & _ & Hin & _).
  destruct (region_allocators_balanced (Vm ∅ []) (bt_numa_free 8192 5000 v1) ([] ++ [])
    (or_introl (ra_gave numa_allocator _ _ _ _ _ _ Hr))) as (_ & _ & _ & _ & Hnil).
  split_and!.
  - apply (Hin (8192, 5000) 8192); [by left|cbn; lia].
  - apply (Hin (8192, 5000) 13000); [by left|cbn; lia].
  - by apply Hnil.
Defined.
